(** * MegaBlocks: a shallow embedding of the ORAM simulator

  The development follows the layout of the Python sources:
  [config/utils.py], [RemoteRam/remote_ram.py],
  [RemoteRam/counter_remote_ram.py],
  [MegaBlocksORAM/Real_ORAM/bin_packing.py],
  [MegaBlocksORAM/Simulation_ORAM/counter_bin_packing.py],
  [MegaBlocksORAM/Real_ORAM/hash_table.py],
  [MegaBlocksORAM/Real_ORAM/compaction.py] and
  [MegaBlocksORAM/Real_ORAM/oram.py].

  Python integers are [Z]; Python tuples and lists are Rocq lists of
  dynamically typed values; the class-level I/O counters and the random
  number generator are threaded through an error-state monad. *)

From Stdlib Require Import ZArith Lia Bool.
From stdpp Require Import base tactics option list numbers strings pretty.

Local Open Scope Z_scope.
Set Warnings "-register-all".

(** ** Python values *)

(** The sources build elements by appending fields to tuples, so an element
  is a tuple of dynamically typed values. *)
Inductive val : Type :=
| VInt (z : Z)
| VStr (s : string)
| VTuple (l : list val).

(** Python [==] on the values above. *)
Fixpoint val_eqb (a b : val) {struct a} : bool :=
match a, b with
| VInt x, VInt y => Z.eqb x y
| VStr s, VStr t => String.eqb s t
| VTuple l, VTuple l' =>
    (fix go (l l' : list val) {struct l} : bool :=
       match l, l' with
       | [], [] => true
       | x :: l, y :: l' => val_eqb x y && go l l'
       | _, _ => false
       end) l l'
| _, _ => false
end.

(** A tuple such as [(key, value, bin, block, position)]. *)
Abbreviation elem := (list val) (only parsing).

Fixpoint elem_eqb (l l' : elem) : bool :=
match l, l' with
| [], [] => true
| x :: l, y :: l' => val_eqb x y && elem_eqb l l'
| _, _ => false
end.

(** A memory cell: a Python list of elements. *)
Abbreviation block := (list (list val)) (only parsing).

Module constants.

(** Modelled from the spec: [config/constants.py] is not among the
    sources.  The spec calls [DUMMY_ADDR] a distinguished sentinel that
    cannot collide with a valid key and [DUMMY] the element
    [(DUMMY_ADDR, DUMMY_VALUE)]; [oram.py] passes the string ["_"] as the
    key of its dummy lookups, which fixes the sentinel used here. *)
Definition DUMMY_ADDR : val := VStr "_".

(** Modelled from the spec: the payload of the dummy element. *)
Definition DUMMY_VALUE : val := VStr "_".

Definition DUMMY : elem := [DUMMY_ADDR; DUMMY_VALUE].

(** Modelled from the spec: a tag distinct from all other metadata
    values (the metadata appended by the sources are integers). *)
Definition ACCESSED_MARK : val := VStr "accessed".

(** Modelled from the spec: two distinct opcodes. *)
Inductive operation : Type := READ_OPERATION | WRITE_OPERATION.

End constants.
Export constants.

(** ** Exceptions, the world, and the monad of the simulator *)

(** The exceptions the modelled code can raise.  [InvalidIndex] is the
    [Exception] of [read_memory_cell] and [write_memory_cell];
    [Overflow] is [Exception("Overflow on bin packing.")]; the others are
    Python's own. *)
Inductive exn : Type :=
  | InvalidIndex
  | Overflow
  | IndexError
  | TypeError
  | ValueError
  | AttributeError
  | ZeroDivisionError.

(** Results of code that may raise but touches no shared state. *)
Inductive res (A : Type) : Type :=
  | Val (a : A)
  | Exc (e : exn).
Arguments Val {A} a.
Arguments Exc {A} e.

Definition res_bind {A B : Type} (r : res A) (k : A → res B) : res B :=
  match r with
  | Val a => k a
  | Exc e => Exc e
  end.

Notation "'let?' x ':=' c 'in' k" := (res_bind c (λ x, k))
  (at level 10, x pattern, c at level 100, k at level 200).

(** One call of [HashTable.ht_lookup] that has returned, as the ghost log
    keeps it: the table's [secret_key] and [C], the key [k] looked up, the
    index [item_key] of the cell read and written back, and the item
    returned. *)
Record lookup_event : Type := mkEvent {
  ev_secret_key : Z;
  ev_C : Z;
  ev_key : val;
  ev_bucket : Z;
  ev_item : list val
}.

(** The process-wide state: the class attributes
    [RemoteRam.read_operations], [RemoteRam.write_operations],
    [CounterRemoteRam.read_operations], [CounterRemoteRam.write_operations],
    the number of values drawn so far from the random generators, and a
    ghost log of the calls of [HashTable.ht_lookup], appended to by
    [ht_lookup] itself. *)
Record world : Type := mkWorld {
  read_operations : Z;
  write_operations : Z;
  counter_read_operations : Z;
  counter_write_operations : Z;
  rng : nat;
  probes : list lookup_event
}.

Definition M (A : Type) : Type := world → res (A * world).

Definition ret {A : Type} (a : A) : M A := λ w, Val (a, w).

Definition bind {A B : Type} (c : M A) (k : A → M B) : M B :=
  λ w, match c w with
       | Val (a, w') => k a w'
       | Exc e => Exc e
       end.

Definition raise {A : Type} (e : exn) : M A := λ _, Exc e.

Definition lift {A : Type} (r : res A) : M A :=
  λ w, match r with
       | Val a => Val (a, w)
       | Exc e => Exc e
       end.

Notation "'let!' x ':=' c 'in' k" := (bind c (λ x, k))
  (at level 10, x pattern, c at level 100, k at level 200).

(** [for x in xs: s = body(x, s)] *)
Fixpoint for_each {A S : Type} (xs : list A) (body : A → S → M S) (s : S) : M S :=
  match xs with
  | [] => ret s
  | x :: xs' => let! s' := body x s in for_each xs' body s'
  end.

(** The same loop for code that touches no shared state. *)
Fixpoint for_each_res {A S : Type} (xs : list A) (body : A → S → res S) (s : S) : res S :=
  match xs with
  | [] => Val s
  | x :: xs' => let? s' := body x s in for_each_res xs' body s'
  end.

(** [range(n)] and [range(lo, hi)] *)
Definition range (n : Z) : list Z := seqZ 0 n.
Definition range2 (lo hi : Z) : list Z := seqZ lo (hi - lo).

(** [l[i]] on a Python list or tuple: negative indices count from the
    end, anything outside raises [IndexError]. *)
Definition py_index {A : Type} (l : list A) (i : Z) : res A :=
  let i' := if i <? 0 then Z.of_nat (length l) + i else i in
  if i' <? 0 then Exc IndexError
  else match l !! Z.to_nat i' with
       | Some x => Val x
       | None => Exc IndexError
       end.

(** [l[i] = x] on a Python list. *)
Definition py_set {A : Type} (l : list A) (i : Z) (x : A) : res (list A) :=
  let i' := if i <? 0 then Z.of_nat (length l) + i else i in
  if (i' <? 0) || (Z.of_nat (length l) <=? i') then Exc IndexError
  else Val (<[Z.to_nat i' := x]> l).

(** An operand that must be an [int]. *)
Definition as_int (v : val) : res Z :=
  match v with
  | VInt z => Val z
  | _ => Exc TypeError
  end.

(** [l[:k]] and [l[k:]] for [k >= 0]. *)
Definition py_take {A : Type} (k : Z) (l : list A) : list A := take (Z.to_nat k) l.
Definition py_drop {A : Type} (k : Z) (l : list A) : list A := drop (Z.to_nat k) l.

(** [[x] * k] *)
Definition py_repeat {A : Type} (x : A) (k : Z) : list A := replicate (Z.to_nat k) x.

Section randomness.

(** The values produced by the random generators, in the order drawn. *)
Variable entropy : nat → Z.

(** [random.randint(lo, hi)]: raises [ValueError] on an empty range. *)
Definition randint (lo hi : Z) : M Z :=
  λ w, if hi <? lo then Exc ValueError
       else Val (lo + entropy (rng w) `mod` (hi - lo + 1),
                 mkWorld (read_operations w) (write_operations w)
                         (counter_read_operations w) (counter_write_operations w)
                         (S (rng w)) (probes w)).

(** [secrets.token_bytes(32)], the key read as an integer. *)
Definition token_bytes : M Z :=
  λ w, Val (entropy (rng w),
            mkWorld (read_operations w) (write_operations w)
                    (counter_read_operations w) (counter_write_operations w)
                    (S (rng w)) (probes w)).

End randomness.

(** ** config/utils.py *)

Module utils.

(** [bit_pos_from_right = bit_length - i;
    return (x >> bit_pos_from_right) & 1]; Python refuses a negative
    shift count with [ValueError]. *)
Definition get_msb_at_index (x i bit_length : Z) : res Z :=
  let bit_pos_from_right := bit_length - i in
  if bit_pos_from_right <? 0 then Exc ValueError
  else Val (Z.land (Z.shiftr x bit_pos_from_right) 1).

(** [return x[0] == DUMMY_ADDR] *)
Definition is_dummy (x : elem) : res bool :=
  let? k := py_index x 0 in
  Val (val_eqb k DUMMY_ADDR).

(** The loop [while p < x: p <<= 1], with the number of iterations
    bounded by [fuel]. *)
Fixpoint npow2_loop (fuel : nat) (p x : Z) : Z :=
  match fuel with
  | O => p
  | S fuel' => if p <? x then npow2_loop fuel' (Z.shiftl p 1) x else p
  end.

(** [p = 1; while p < x: p <<= 1; return p].  [Z.to_nat x] iterations
    always reach the exit test (lemma [npow2_exit]). *)
Definition next_power_of_two_greater_or_equal (x : Z) : Z :=
  npow2_loop (Z.to_nat x) 1 x.

(** [math.ceil(a / b)] for integers [a] and [b <> 0], computed exactly
    (Python divides in floating point, which is exact for the sizes the
    simulator handles; [b = 0] raises [ZeroDivisionError]). *)
Definition ceil_div (a b : Z) : Z := - ((- a) / b).

(** [val = math.ceil((2 * n) / B); return next_power_of_two...(val)] *)
Definition choose_C (n B : Z) : Z :=
  let val := ceil_div (2 * n) B in
  next_power_of_two_greater_or_equal val.

(** [(x).bit_length()] for [x >= 0]. *)
Definition bit_length (x : Z) : Z :=
  if x =? 0 then 0 else Z.log2 x + 1.

End utils.
Export utils.

(** ** RemoteRam/remote_ram.py *)

Module RemoteRam.

Record t : Type := mk {
  block_capacity : Z;
  memory_size : Z;
  memory : list block;
  local : bool
}.

(** [RemoteRam(block_capacity, memory_size, memory=None, local=False)] *)
Definition new (block_capacity memory_size : Z) (memory : option (list block))
    (local : bool) : t :=
  let memory :=
    match memory with
    | None => py_repeat (py_repeat DUMMY block_capacity) memory_size
    | Some memory => memory
    end in
  mk block_capacity memory_size memory local.

Definition count_read : M unit :=
  λ w, Val (tt, mkWorld (read_operations w + 1) (write_operations w)
                        (counter_read_operations w) (counter_write_operations w)
                        (rng w) (probes w)).

Definition count_write : M unit :=
  λ w, Val (tt, mkWorld (read_operations w) (write_operations w + 1)
                        (counter_read_operations w) (counter_write_operations w)
                        (rng w) (probes w)).

(** [read_memory_cell(self, location)] *)
Definition read_memory_cell (self : t) (location : Z) : M block :=
  if (location >? Z.of_nat (length (memory self)) - 1) || (location <? 0)
  then raise InvalidIndex
  else
    let! _ := (if local self then ret tt else count_read) in
    lift (py_index (memory self) location).

(** [write_memory_cell(self, location, element)]; the updated object is
    returned. *)
Definition write_memory_cell (self : t) (location : Z) (element : block) : M t :=
  if (location >? Z.of_nat (length (memory self)) - 1) || (location <? 0)
  then raise InvalidIndex
  else
    let! _ := (if local self then ret tt else count_write) in
    let! memory' := lift (py_set (memory self) location element) in
    ret (mk (block_capacity self) (memory_size self) memory' (local self)).

(** [init_memory(self)]: cell [i] receives the elements
    [(i*B + j, "d" + str(i*B + j))]. *)
Definition init_memory (self : t) : res t :=
  let? memory' :=
    for_each_res (range (memory_size self))
      (λ i mem,
         let block_i :=
           (λ j, let a := i * block_capacity self + j in
                 [VInt a; VStr ("d" +:+ pretty a)])
             <$> range (block_capacity self) in
         py_set mem i block_i)
      (memory self) in
  Val (mk (block_capacity self) (memory_size self) memory' (local self)).

(** [__add__(self, other)] *)
Definition add (self other : t) : t :=
  new (block_capacity self) (memory_size self + memory_size other)
      (Some (memory self ++ memory other)) false.

(** One iteration of the loop of [merge_blocks]. *)
Definition merge_blocks_step (block1 block2 : block) (i : Z) (new_block : block)
    : res block :=
  let? x1 := py_index block1 i in
  let? k1 := py_index x1 0 in
  let new_block := if negb (val_eqb k1 DUMMY_ADDR) then new_block ++ [x1] else new_block in
  let? x2 := py_index block2 i in
  let? k2 := py_index x2 0 in
  let new_block := if negb (val_eqb k2 DUMMY_ADDR) then new_block ++ [x2] else new_block in
  Val new_block.

(** [merge_blocks(block1, block2, block_capacity, capacity1, capacity2)] *)
Definition merge_blocks (block1 block2 : block) (block_capacity capacity1 capacity2 : Z)
    : res block :=
  let? new_block :=
    for_each_res (range block_capacity) (merge_blocks_step block1 block2) [] in
  Val (new_block ++ py_repeat DUMMY (block_capacity - Z.of_nat (length new_block))).

(** [concat_memory_accesses(mem1, mem2, capacity1, capacity2, block_size)] *)
Definition concat_memory_accesses (mem1 mem2 : t) (capacity1 capacity2 block_size : Z)
    : res t :=
  if capacity1 + capacity2 <=? block_size then
    let? b1 := py_index (memory mem1) 0 in
    let? b2 := py_index (memory mem2) 0 in
    let? merged := merge_blocks b1 b2 block_size capacity1 capacity2 in
    Val (new block_size 1 (Some [merged]) true)
  else
    Val (new block_size (memory_size mem1 + memory_size mem2)
             (Some (memory mem1 ++ memory mem2))
             (local mem1 && local mem2)).

End RemoteRam.

(** ** RemoteRam/counter_remote_ram.py *)

Module CounterRemoteRam.

Record t : Type := mk {
  block_capacity : Z;
  memory_size : Z;
  local : bool
}.

(** [CounterRemoteRam(block_capacity, memory_size, local=False)] *)
Definition new (block_capacity memory_size : Z) (local : bool) : t :=
  mk block_capacity memory_size local.

Definition add_read_operations (self : t) (num_operations : Z) : M unit :=
  λ w, if local self then Val (tt, w)
       else Val (tt, mkWorld (read_operations w) (write_operations w)
                             (counter_read_operations w + num_operations)
                             (counter_write_operations w)
                             (rng w) (probes w)).

Definition add_write_operations (self : t) (num_operations : Z) : M unit :=
  λ w, if local self then Val (tt, w)
       else Val (tt, mkWorld (read_operations w) (write_operations w)
                             (counter_read_operations w)
                             (counter_write_operations w + num_operations)
                             (rng w) (probes w)).

(** [read_memory_cell(self, location)] *)
Definition read_memory_cell (self : t) (location : Z) : M unit :=
  if (location >? memory_size self * block_capacity self - 1) || (location <? 0)
  then raise InvalidIndex
  else add_read_operations self 1.

(** [write_memory_cell(self, location)] *)
Definition write_memory_cell (self : t) (location : Z) : M unit :=
  if (location >? memory_size self * block_capacity self - 1) || (location <? 0)
  then raise InvalidIndex
  else add_write_operations self 1.

(** [__add__(self, other)] *)
Definition add (self other : t) : t :=
  new (block_capacity self) (memory_size self + memory_size other) false.

End CounterRemoteRam.

(** ** MegaBlocksORAM/Real_ORAM/bin_packing.py *)

Module bin_packing.

(** What [merge_split] returns: the pair [("Overflow", "Overflow")] or
    two padded bins. *)
Inductive split : Type :=
  | SplitOverflow
  | Split (b_0 b_1 : block).

(** [if not is_dummy(x): if get_msb_at_index(x[key_index], i + 1,
    bit_length) == 0: b_0.append(x) else: b_1.append(x)] *)
Definition route (i bit_length key_index : Z) (x : elem) (bs : block * block)
    : res (block * block) :=
  let? d := is_dummy x in
  if negb d then
    let? field := py_index x key_index in
    let? key := as_int field in
    let? bit := get_msb_at_index key (i + 1) bit_length in
    if bit =? 0 then Val (bs.1 ++ [x], bs.2) else Val (bs.1, bs.2 ++ [x])
  else Val bs.

(** The body of the loop [for j in range(B)] of [merge_split]. *)
Definition merge_split_step (a_0 a_1 : block) (i bit_length key_index : Z)
    (j : Z) (bs : block * block) : res (block * block) :=
  let? x_0 := py_index a_0 j in
  let? bs := route i bit_length key_index x_0 bs in
  let? x_1 := py_index a_1 j in
  route i bit_length key_index x_1 bs.

(** The loop of [merge_split]: the lists [b_0] and [b_1] it fills. *)
Definition fill_bins (a_0 a_1 : block) (i B bit_length key_index : Z)
    : res (block * block) :=
  for_each_res (range B) (merge_split_step a_0 a_1 i bit_length key_index) ([], []).

(** [merge_split(a_0, a_1, i, B, bit_length, key_index)] *)
Definition merge_split (a_0 a_1 : block) (i B bit_length key_index : Z) : res split :=
  let? bs := fill_bins a_0 a_1 i B bit_length key_index in
  let b_0 := bs.1 in
  let b_1 := bs.2 in
  if (Z.of_nat (length b_0) >? B) || (Z.of_nat (length b_1) >? B)
  then Val SplitOverflow
  else Val (Split (b_0 ++ py_repeat DUMMY (B - Z.of_nat (length b_0)))
                  (b_1 ++ py_repeat DUMMY (B - Z.of_nat (length b_1)))).

(** The body of the inner loop [for j in range(C // 2)] of [bin_packing],
    at level [i]. *)
Definition bin_packing_step (C B key_index : Z) (i j : Z)
    (a_arrays : list RemoteRam.t) : M (list RemoteRam.t) :=
  let j_prime := (j / 2 ^ i) * 2 ^ i in
  let! a_i := lift (py_index a_arrays i) in
  let! a_0 := RemoteRam.read_memory_cell a_i (j + j_prime) in
  let! a_1 := RemoteRam.read_memory_cell a_i (j + j_prime + 2 ^ i) in
  let! s := lift (merge_split a_0 a_1 i B (bit_length (C - 1)) key_index) in
  match s with
  | Split b_0 b_1 =>
      let! a_next := lift (py_index a_arrays (i + 1)) in
      let! a_next := RemoteRam.write_memory_cell a_next (2 * j) b_0 in
      let! a_next := RemoteRam.write_memory_cell a_next (2 * j + 1) b_1 in
      lift (py_set a_arrays (i + 1) a_next)
  | SplitOverflow => raise Overflow
  end.

(** [bin_packing(X, n, B, key_index, local=False)] *)
Definition bin_packing (X : RemoteRam.t) (n B key_index : Z) (local : bool)
    : M RemoteRam.t :=
  let C := choose_C n B in
  let m := Z.log2 C + 1 in
  let a_arrays := (λ _, RemoteRam.new B C None local) <$> range m in
  let! a_arrays := lift (py_set a_arrays 0 X) in
  let! a_arrays :=
    for_each (range (m - 1))
      (λ i, for_each (range (C / 2)) (bin_packing_step C B key_index i))
      a_arrays in
  lift (py_index a_arrays (m - 1)).

End bin_packing.

(** ** MegaBlocksORAM/Simulation_ORAM/counter_bin_packing.py *)

Module counter_bin_packing.

(** [bin_packing(X, n, B, key_index, local=False)] of the counter model:
    the counters of [CounterRemoteRam] are bumped directly. *)
Definition bin_packing (X : CounterRemoteRam.t) (n B key_index : Z) (local : bool)
    : M (CounterRemoteRam.t * Z) :=
  let C := choose_C n B in
  let m := Z.log2 C + 1 in
  let a_arrays := (λ _, CounterRemoteRam.new B C local) <$> range m in
  let! a_arrays := lift (py_set a_arrays 0 X) in
  let! _ :=
    (if negb local then
       λ w, Val (tt, mkWorld (read_operations w) (write_operations w)
                             (counter_read_operations w + 2 * (m - 1) * (C / 2))
                             (counter_write_operations w + 2 * (m - 1) * (C / 2))
                             (rng w) (probes w))
     else ret tt) in
  let! last := lift (py_index a_arrays (m - 1)) in
  ret (last, 4 * (m - 1) * (C / 2)).

End counter_bin_packing.

(** ** MegaBlocksORAM/Real_ORAM/hash_table.py *)

Module HashTable.

(** [self.table] is [None] once [reset_tables] has replaced it by the
    empty Python list, which has none of the methods of [RemoteRam]. *)
Record t : Type := mk {
  is_built : bool;
  X : RemoteRam.t;
  n : Z;
  B : Z;
  C : Z;
  secret_key : Z;
  local : bool;
  table : option RemoteRam.t
}.

Definition set_local (r : RemoteRam.t) (l : bool) : RemoteRam.t :=
  RemoteRam.mk (RemoteRam.block_capacity r) (RemoteRam.memory_size r)
               (RemoteRam.memory r) l.

Definition set_memory (r : RemoteRam.t) (mem : list block) : RemoteRam.t :=
  RemoteRam.mk (RemoteRam.block_capacity r) (RemoteRam.memory_size r)
               mem (RemoteRam.local r).

(** [self.table.<method>] *)
Definition the_table (self : t) : res RemoteRam.t :=
  match table self with
  | Some r => Val r
  | None => Exc AttributeError
  end.

(** [list.sort(key=lambda x: (0, x[4]) if len(x) > 4 else (1, 0))]: the
    sort key of an element. *)
Definition sort_key (x : elem) : res (Z * Z) :=
  if Z.of_nat (length x) >? 4 then
    let? f := py_index x 4 in
    let? p := as_int f in
    Val (0, p)
  else Val (1, 0).

Definition key_le (a b : Z * Z) : bool :=
  (a.1 <? b.1) || ((a.1 =? b.1) && (a.2 <=? b.2)).

(** Insertion in front of the first element whose key is not smaller. *)
Fixpoint sort_insert (kx : Z * Z) (x : elem) (l : list ((Z * Z) * elem))
    : list ((Z * Z) * elem) :=
  match l with
  | [] => [(kx, x)]
  | (ky, y) :: l' =>
      if key_le kx ky then (kx, x) :: (ky, y) :: l' else (ky, y) :: sort_insert kx x l'
  end.

(** Python's [sort] is stable; the stable order is the one insertion from
    the right produces. *)
Fixpoint sort_keyed (l : list ((Z * Z) * elem)) : list ((Z * Z) * elem) :=
  match l with
  | [] => []
  | (kx, x) :: l' => sort_insert kx x (sort_keyed l')
  end.

Fixpoint with_keys (l : block) : res (list ((Z * Z) * elem)) :=
  match l with
  | [] => Val []
  | x :: l' =>
      let? kx := sort_key x in
      let? r := with_keys l' in
      Val ((kx, x) :: r)
  end.

Definition sort_block (l : block) : res block :=
  let? kl := with_keys l in
  Val (snd <$> sort_keyed kl).

(** [DUMMY if len(x) > 5 and x[5] == ACCESSED_MARK else (x[0], x[1])] *)
Definition unmask (x : elem) : res elem :=
  let? accessed :=
    (if Z.of_nat (length x) >? 5 then
       let? f := py_index x 5 in Val (val_eqb f ACCESSED_MARK)
     else Val false) in
  if accessed then Val DUMMY
  else
    let? k := py_index x 0 in
    let? v := py_index x 1 in
    Val [k; v].

Fixpoint unmask_all (l : block) : res block :=
  match l with
  | [] => Val []
  | x :: l' =>
      let? y := unmask x in
      let? r := unmask_all l' in
      Val (y :: r)
  end.

(** [DUMMY if len(x) == 3 and x[2] == ACCESSED_MARK else x] *)
Definition unmask_single (x : elem) : elem :=
  match x with
  | [_; _; f] => if val_eqb f ACCESSED_MARK then DUMMY else x
  | _ => x
  end.

(** The search loop of [ht_lookup]: [todo] iterations over the cells still
    to visit; the element found is marked in place and the loop is left. *)
Fixpoint lookup_scan (k : val) (todo : nat) (cell : block)
    : res (option elem * block) :=
  match todo with
  | O => Val (None, cell)
  | S todo' =>
      match cell with
      | [] => Exc IndexError
      | x :: cell' =>
          let? k0 := py_index x 0 in
          if val_eqb k0 k then
            let? v := py_index x 1 in
            Val (Some [k0; v], (x ++ [ACCESSED_MARK]) :: cell')
          else
            let? r := lookup_scan k todo' cell' in
            Val (r.1, x :: r.2)
      end
  end.

Section with_primitives.

(** The random source, and [hmac_sha256 key k]: the integer
    [int.from_bytes(hmac.new(key, str(k).encode('utf-8'),
    hashlib.sha256).digest(), "big")]. *)
Variable entropy : nat → Z.
Variable hmac_sha256 : Z → val → Z.

(** [HashTable(X, B, n, local=False)] *)
Definition new (X : RemoteRam.t) (B n : Z) (local : bool) : M t :=
  if B =? 0 then raise ZeroDivisionError
  else
    let C := choose_C n B in
    let! secret_key := token_bytes entropy in
    ret (mk false (set_local X local) n B C secret_key local
            (Some (RemoteRam.new B C None local))).

(** The bin of a key: random for the dummy key, the PRF otherwise. *)
Definition bin_of (self : t) (k : val) : M Z :=
  if val_eqb k DUMMY_ADDR then randint entropy 0 (C self - 1)
  else ret (hmac_sha256 (secret_key self) k `mod` C self).

(** [curr_cell[j] = curr_cell[j] + (item_key,)] with its bin. *)
Definition tag_step (self : t) (j : Z) (curr_cell : block) : M block :=
  let! x := lift (py_index curr_cell j) in
  let! k := lift (py_index x 0) in
  let! item_key := bin_of self k in
  lift (py_set curr_cell j (x ++ [VInt item_key])).

(** The body of the loop [for i in range(size_of_X)] of [ht_build]; the
    state is [self.X], whose blocks are tagged in place, and [X_prime]. *)
Definition build_step (self : t) (i : Z) (st : RemoteRam.t * RemoteRam.t)
    : M (RemoteRam.t * RemoteRam.t) :=
  let dummies := py_repeat DUMMY (B self / 2) in
  let! curr_cell := RemoteRam.read_memory_cell st.1 i in
  let! curr_cell := for_each (range (B self)) (tag_step self) curr_cell in
  let! mem := lift (py_set (RemoteRam.memory st.1) i curr_cell) in
  let first_half :=
    imap (λ index item, item ++ [VInt (2 * i); VInt (Z.of_nat index)])
         (py_take (B self / 2) curr_cell) in
  let second_half :=
    imap (λ index item, item ++ [VInt (2 * i + 1); VInt (Z.of_nat index)])
         (py_drop (B self / 2) curr_cell) in
  let! X_prime := RemoteRam.write_memory_cell st.2 (2 * i) (first_half ++ dummies) in
  let! X_prime := RemoteRam.write_memory_cell X_prime (2 * i + 1) (second_half ++ dummies) in
  ret (set_memory st.1 mem, X_prime).

(** [ht_build(self)] *)
Definition ht_build (self : t) : M t :=
  if C self >? 1 then
    let size_of_X := ceil_div (n self) (B self) in
    let X_prime := RemoteRam.new (B self) (C self) None (local self) in
    let! st := for_each (range size_of_X) (build_step self) (X self, X_prime) in
    let! X_prime :=
      for_each (range2 (2 * size_of_X) (C self))
        (λ j X_prime, RemoteRam.write_memory_cell X_prime j (py_repeat DUMMY (B self)))
        st.2 in
    let! packed := bin_packing.bin_packing X_prime (n self) (B self) 2 (local self) in
    ret (mk true st.1 (n self) (B self) (C self) (secret_key self) (local self)
            (Some packed))
  else
    ret (mk true (X self) (n self) (B self) (C self) (secret_key self) (local self)
            (Some (X self))).

(** When the table was built with [C = 1], [self.table] and [self.X] are
    the same object: an update of the one is an update of the other. *)
Definition store_table (self : t) (r : RemoteRam.t) : t :=
  mk (is_built self)
     (if is_built self && negb (C self >? 1) then r else X self)
     (n self) (B self) (C self) (secret_key self) (local self) (Some r).

(** The ghost record of a call of [ht_lookup]: no statement of the
    source, it only appends to the log. *)
Definition log_lookup (self : t) (k : val) (item_key : Z) (item : elem) : M unit :=
  λ w, Val (tt, mkWorld (read_operations w) (write_operations w)
                        (counter_read_operations w) (counter_write_operations w)
                        (rng w)
                        (probes w ++ [mkEvent (secret_key self) (C self) k item_key item])).

(** [ht_lookup(self, k)]: the item and the updated table. *)
Definition ht_lookup (self : t) (k : val) : M (elem * t) :=
  let! item_key := bin_of self k in
  let! tbl := lift (the_table self) in
  let! current_cell := RemoteRam.read_memory_cell tbl item_key in
  let! found :=
    (if negb (val_eqb k DUMMY_ADDR)
     then lift (lookup_scan k (Z.to_nat (B self)) current_cell)
     else ret (None, current_cell)) in
  let item := default DUMMY found.1 in
  let! tbl := RemoteRam.write_memory_cell tbl item_key found.2 in
  let! _ := log_lookup self k item_key item in
  ret (item, store_table self tbl).

(** The body of the loop [for i in range(self.C // 2)] of [ht_extract]. *)
Definition extract_step (self : t) (Y_buckets : RemoteRam.t) (i : Z)
    (X_prime : RemoteRam.t) : M RemoteRam.t :=
  let! Y_2i := RemoteRam.read_memory_cell Y_buckets (2 * i) in
  let! Y_2i_plus_one := RemoteRam.read_memory_cell Y_buckets (2 * i + 1) in
  let! Y_2i_plus_one := lift (sort_block Y_2i_plus_one) in
  let! Y_2i := lift (sort_block Y_2i) in
  let! first := lift (unmask_all (py_take (B self / 2) Y_2i)) in
  let! second := lift (unmask_all (py_take (B self / 2) Y_2i_plus_one)) in
  RemoteRam.write_memory_cell X_prime i (first ++ second).

(** [ht_extract(self)]: the extracted memory and the updated table. *)
Definition ht_extract (self : t) : M (RemoteRam.t * t) :=
  if negb (is_built self) then ret (X self, self)
  else if C self =? 1 then
    let! tbl := lift (the_table self) in
    let! cell := lift (py_index (RemoteRam.memory tbl) 0) in
    let tbl := set_memory tbl [unmask_single <$> cell] in
    ret (tbl, store_table self tbl)
  else
    let! tbl := lift (the_table self) in
    let! Y_buckets := bin_packing.bin_packing tbl (n self) (B self) 3 (local self) in
    let X_prime := RemoteRam.new (B self) (C self / 2) None (local self) in
    let! X_prime := for_each (range (C self / 2)) (extract_step self Y_buckets) X_prime in
    let size := ceil_div (n self) (B self) in
    ret (RemoteRam.mk (RemoteRam.block_capacity X_prime) size
                      (py_take size (RemoteRam.memory X_prime))
                      (RemoteRam.local X_prime),
         self).

End with_primitives.

End HashTable.

(** ** MegaBlocksORAM/Real_ORAM/compaction.py *)

Module compaction.

(** The state of the collecting loop: [new_array], [curr_index],
    [curr_bin] and [current_block]. *)
Record collect : Type := mkCollect {
  new_array : RemoteRam.t;
  curr_index : Z;
  curr_bin : Z;
  current_block : block
}.

(** The truth value of a Python list. *)
Definition nonempty {A : Type} (l : list A) : bool :=
  match l with
  | [] => false
  | _ :: _ => true
  end.

Section with_primitives.

Variable entropy : nat → Z.
Variable hmac_sha256 : Z → val → Z.

(** [curr_cell[j] = curr_cell[j] + (item_key,)] *)
Definition tag_step (secret_key C : Z) (j : Z) (curr_cell : block) : M block :=
  let! x := lift (py_index curr_cell j) in
  let! k := lift (py_index x 0) in
  let! item_key :=
    (if val_eqb k DUMMY_ADDR then randint entropy 0 (C - 1)
     else ret (hmac_sha256 secret_key k `mod` C)) in
  lift (py_set curr_cell j (x ++ [VInt item_key])).

(** The body of the loop [for i in range(size_of_X)]. *)
Definition split_step (secret_key C B : Z) (i : Z) (st : RemoteRam.t * RemoteRam.t)
    : M (RemoteRam.t * RemoteRam.t) :=
  let dummies := py_repeat DUMMY (B / 2) in
  let! curr_cell := RemoteRam.read_memory_cell st.1 i in
  let! curr_cell := for_each (range B) (tag_step secret_key C) curr_cell in
  let! mem := lift (py_set (RemoteRam.memory st.1) i curr_cell) in
  let first_half :=
    imap (λ index item, item ++ [VInt (2 * i); VInt (Z.of_nat index)])
         (py_take (B / 2) curr_cell) in
  let second_half :=
    imap (λ index item, item ++ [VInt (2 * i + 1); VInt (Z.of_nat index)])
         (py_drop (B / 2) curr_cell) in
  let! X_prime := RemoteRam.write_memory_cell st.2 (2 * i) (first_half ++ dummies) in
  let! X_prime := RemoteRam.write_memory_cell X_prime (2 * i + 1) (second_half ++ dummies) in
  ret (HashTable.set_memory st.1 mem, X_prime).

(** The body of the loop [for j in range(B)] over one bin. *)
Definition collect_elem (B : Z) (block_i : block) (j : Z) (st : collect) : M collect :=
  let! x := lift (py_index block_i j) in
  let! k := lift (py_index x 0) in
  if negb (val_eqb k DUMMY_ADDR) then
    let! v := lift (py_index x 1) in
    let current_block := current_block st ++ [[k; v]] in
    let curr_index := curr_index st + 1 in
    if curr_index =? B then
      let! arr := RemoteRam.write_memory_cell (new_array st) (curr_bin st) current_block in
      ret (mkCollect arr 0 (curr_bin st + 1) [])
    else ret (mkCollect (new_array st) curr_index (curr_bin st) current_block)
  else ret st.

(** The body of the loop [for i in range(C)]. *)
Definition collect_bin (B : Z) (Y_buckets : RemoteRam.t) (i : Z) (st : collect) : M collect :=
  let! block_i := RemoteRam.read_memory_cell Y_buckets i in
  for_each (range B) (collect_elem B block_i) st.

(** [compaction(X, n, B, n_0)] *)
Definition compaction (X : RemoteRam.t) (n B n_0 : Z) : M RemoteRam.t :=
  if B =? 0 then raise ZeroDivisionError
  else
    let! secret_key := token_bytes entropy in
    let size_of_compact_array := ceil_div n_0 B in
    let size_of_X := ceil_div n B in
    let C := choose_C n B in
    let X_prime := RemoteRam.new B C None false in
    let! st := for_each (range size_of_X) (split_step secret_key C B) (X, X_prime) in
    let! X_prime :=
      for_each (range2 (2 * size_of_X) C)
        (λ j X_prime, RemoteRam.write_memory_cell X_prime j (py_repeat DUMMY B))
        st.2 in
    let! Y_buckets := bin_packing.bin_packing X_prime n B 2 false in
    let output := RemoteRam.new B size_of_compact_array None false in
    let! st := for_each (range C) (collect_bin B Y_buckets) (mkCollect output 0 0 []) in
    let! st :=
      (if negb (nonempty (current_block st)) then ret st
       else if curr_index st <? B then
         let! arr := RemoteRam.write_memory_cell (new_array st) (curr_bin st)
                       (current_block st
                          ++ py_repeat DUMMY (B - Z.of_nat (length (current_block st)))) in
         ret (mkCollect arr (curr_index st) (curr_bin st + 1) (current_block st))
       else ret st) in
    for_each (range2 (curr_bin st) size_of_compact_array)
      (λ i arr, RemoteRam.write_memory_cell arr i (py_repeat DUMMY B))
      (new_array st).

End with_primitives.

End compaction.

(** ** MegaBlocksORAM/Real_ORAM/oram.py *)

Module MegaBlocksORAM.

Record t : Type := mk {
  N : Z;
  B : Z;
  q : Z;
  local_memory_in_server_blocks : Z;
  amount_of_levels : Z;
  tables : list HashTable.t;
  inner_tables : list Z;
  load_factors : list Z
}.

Definition set_tables (self : t) (ts : list HashTable.t) : t :=
  mk (N self) (B self) (q self) (local_memory_in_server_blocks self)
     (amount_of_levels self) ts (inner_tables self) (load_factors self).

Definition set_load_factors (self : t) (lf : list Z) : t :=
  mk (N self) (B self) (q self) (local_memory_in_server_blocks self)
     (amount_of_levels self) (tables self) (inner_tables self) lf.

(** [i in self.inner_tables] *)
Definition is_inner (self : t) (i : Z) : bool :=
  existsb (Z.eqb i) (inner_tables self).

(** [find_ht_index(self)] *)
Fixpoint find_first_below (bound : Z) (index : Z) (lfs : list Z) : option Z :=
  match lfs with
  | [] => None
  | load_factor :: lfs' =>
      if load_factor <? bound then Some index
      else find_first_below bound (index + 1) lfs'
  end.

Definition find_ht_index (self : t) : Z :=
  default (amount_of_levels self)
          (find_first_below (q self - 1) 0 (load_factors self)).

(** [calc_ht_size(self, level_index)]; [int(math.pow(q, i) * lf)] is the
    product for [i >= 0] and the quotient truncated towards zero for
    [i < 0]. *)
Definition calc_ht_size (self : t) (level_index : Z) : res Z :=
  if level_index =? 0 then py_index (load_factors self) 0
  else if level_index =? amount_of_levels self then Val (N self)
  else
    let? lf := py_index (load_factors self) level_index in
    if 0 <=? level_index then Val (q self ^ level_index * lf)
    else Val (Z.quot lf (q self ^ (- level_index))).

(** The body of the loop of [reset_tables(self, start, end)]. *)
Definition reset_step (i : Z) (self : t) : res t :=
  let? tbl := py_index (tables self) i in
  let tbl := HashTable.mk false (HashTable.X tbl) (HashTable.n tbl) (HashTable.B tbl)
               (HashTable.C tbl) (HashTable.secret_key tbl) (HashTable.local tbl) None in
  let? ts := py_set (tables self) i tbl in
  let? lf := py_set (load_factors self) i 0 in
  Val (set_load_factors (set_tables self ts) lf).

Definition reset_tables (self : t) (start stop : Z) : res t :=
  for_each_res (range2 start stop) reset_step self.

(** The state of the probe loop: the object, [found] and [data_star]. *)
Record probe_state : Type := mkProbe {
  p_self : t;
  p_found : bool;
  p_data_star : val
}.

Section with_primitives.

Variable entropy : nat → Z.
Variable hmac_sha256 : Z → val → Z.

(** [math_floor_log N q]: the integer Python computes for
    [math.floor(math.log(N, q))], with [N >= 1] and [q >= 2].  It goes
    through floating point and is the exact floor of the logarithm for
    some arguments only ([math.log(243, 3)] is [4.999999999999999]), so it
    is left a primitive. *)
Variable math_floor_log : Z → Z → Z.

(** The body of the loop [for i in range(self.amount_of_levels + 1)] of
    [access]. *)
Definition probe_step (addr : val) (i : Z) (st : probe_state) : M probe_state :=
  let self := p_self st in
  let! lf := lift (py_index (load_factors self) i) in
  if negb (p_found st) && (lf >? 0) then
    let! tbl := lift (py_index (tables self) i) in
    let! r := HashTable.ht_lookup entropy hmac_sha256 tbl addr in
    let! ts := lift (py_set (tables self) i r.2) in
    let self := set_tables self ts in
    if negb (elem_eqb r.1 DUMMY) then ret (mkProbe self true (VTuple r.1))
    else ret (mkProbe self (p_found st) (p_data_star st))
  else if lf >? 0 then
    let! tbl := lift (py_index (tables self) i) in
    let! r := HashTable.ht_lookup entropy hmac_sha256 tbl (VStr "_") in
    let! ts := lift (py_set (tables self) i r.2) in
    ret (mkProbe (set_tables self ts) (p_found st) (p_data_star st))
  else ret st.

(** The body of the loops [for i in range(j + 1)] of [access]: the state
    is the object and [u]. *)
Definition gather_step (i : Z) (st : t * RemoteRam.t) : M (t * RemoteRam.t) :=
  let self := st.1 in
  let! tbl := lift (py_index (tables self) i) in
  if HashTable.is_built tbl then
    let! r := HashTable.ht_extract tbl in
    let! ts := lift (py_set (tables self) i r.2) in
    let self := set_tables self ts in
    let! capacity1 := lift (calc_ht_size self (i - 1)) in
    let! capacity2 := lift (calc_ht_size self i) in
    let! u := lift (RemoteRam.concat_memory_accesses st.2 r.1 capacity1 capacity2 (B self)) in
    ret (self, u)
  else ret st.

(** [access(self, op, addr, data)]: the value returned and the updated
    object. *)
Definition access (self : t) (op : operation) (addr data : val) : M (val * t) :=
  let! st := for_each (range (amount_of_levels self + 1)) (probe_step addr)
               (mkProbe self false (VTuple DUMMY)) in
  let self := p_self st in
  let data_star := if negb (p_found st) then VInt 0 else p_data_star st in
  let curr : elem :=
    match op with
    | READ_OPERATION => [addr; data_star]
    | WRITE_OPERATION => [addr; data]
    end in
  let j := find_ht_index self in
  let u := RemoteRam.new (B self) 1 (Some [curr :: py_repeat DUMMY (B self - 1)]) true in
  if j <? amount_of_levels self then
    let! st := for_each (range (j + 1)) gather_step (self, u) in
    let self := st.1 in
    let u := st.2 in
    let! lf_j := lift (py_index (load_factors self) j) in
    let! lf := lift (py_set (load_factors self) j (lf_j + 1)) in
    let self := set_load_factors self lf in
    let! size := lift (calc_ht_size self j) in
    let! tbl := HashTable.new entropy u (B self) size (is_inner self j) in
    let! ts := lift (py_set (tables self) j tbl) in
    let self := set_tables self ts in
    let! tbl := HashTable.ht_build entropy hmac_sha256 tbl in
    let! ts := lift (py_set (tables self) j tbl) in
    let self := set_tables self ts in
    let! self := lift (reset_tables self 0 j) in
    ret (data_star, self)
  else
    let! st := for_each (range (j + 1)) gather_step (self, u) in
    let self := st.1 in
    let u := st.2 in
    let! lf_j := lift (py_index (load_factors self) j) in
    let! u_prime :=
      (if lf_j =? q self - 1 then
         compaction.compaction entropy hmac_sha256 u
           (RemoteRam.memory_size u * B self) (B self) (N self)
       else ret u) in
    let! tbl := HashTable.new entropy u_prime (B self)
                  (RemoteRam.memory_size u_prime * B self) false in
    let! ts := lift (py_set (tables self) j tbl) in
    let self := set_tables self ts in
    let! tbl := HashTable.ht_build entropy hmac_sha256 tbl in
    let! ts := lift (py_set (tables self) j tbl) in
    let self := set_tables self ts in
    let! self := lift (reset_tables self 0 j) in
    let! lf := lift (py_set (load_factors self) j (q self - 1)) in
    ret (data_star, set_load_factors self lf).

(** The loop of [__init__] that chooses the levels kept in local memory:
    the state is the remaining budget and [inner_tables]. *)
Definition inner_step (q B : Z) (i : Z) (st : Z * list Z) : Z * list Z :=
  let need := ceil_div (q ^ i * (q - 1)) B in
  if need <? st.1 then (st.1 - need, st.2 ++ [i]) else st.

(** [init_oram(self)] *)
Definition init_oram (self : t) : M t :=
  let X := RemoteRam.new (B self) (ceil_div (N self) (B self)) None false in
  let! X := lift (RemoteRam.init_memory X) in
  let! tbl := HashTable.new entropy X (B self) (N self) false in
  let! ts := lift (py_set (tables self) (amount_of_levels self) tbl) in
  let self := set_tables self ts in
  let! tbl := HashTable.ht_build entropy hmac_sha256 tbl in
  let! ts := lift (py_set (tables self) (amount_of_levels self) tbl) in
  let self := set_tables self ts in
  let! lf := lift (py_set (load_factors self) (amount_of_levels self) (q self - 1)) in
  let self := set_load_factors self lf in
  λ w, Val (self, mkWorld 0 0 (counter_read_operations w) (counter_write_operations w)
                          (rng w) (probes w)).

(** [MegaBlocksORAM(N, B, q, local_memory_in_server_blocks=2)] *)
Definition new (N B q local_memory_in_server_blocks : Z) : M t :=
  if (N <=? 0) || (q <=? 0) then raise ValueError
  else if (q =? 1) || (B =? 0) then raise ZeroDivisionError
  else
    let amount_of_levels := math_floor_log N q in
    let budget :=
      foldl (λ st i, inner_step q B i st) (local_memory_in_server_blocks, [])
            (range (amount_of_levels + 1)) in
    let! tables :=
      for_each (range (amount_of_levels + 1))
        (λ i ts,
           let inner := existsb (Z.eqb i) budget.2 in
           let! tbl := HashTable.new entropy (RemoteRam.new B 0 None inner) B 0 false in
           ret (ts ++ [tbl]))
        [] in
    let load_factors := py_repeat 0 (amount_of_levels + 1) in
    init_oram (mk N B q budget.1 amount_of_levels tables budget.2 load_factors).

End with_primitives.

End MegaBlocksORAM.

(** ** MegaBlocksORAM/Simulation_ORAM/counter_hash_table.py *)

Module counter_hash_table.

Record t : Type := mk {
  is_built : bool;
  local : bool;
  X : CounterRemoteRam.t;
  n : Z;
  B : Z;
  C : Z;
  secret_key : Z;
  table : CounterRemoteRam.t
}.

Definition set_local (r : CounterRemoteRam.t) (l : bool) : CounterRemoteRam.t :=
  CounterRemoteRam.mk (CounterRemoteRam.block_capacity r)
                      (CounterRemoteRam.memory_size r) l.

(** [CounterRemoteRam.read_operations += r;
    CounterRemoteRam.write_operations += wr] *)
Definition count (r wr : Z) : M unit :=
  λ w, Val (tt, mkWorld (read_operations w) (write_operations w)
                        (counter_read_operations w + r)
                        (counter_write_operations w + wr)
                        (rng w) (probes w)).

Section with_primitives.

Variable entropy : nat → Z.

(** [HashTable(X, B, n, local=False)] *)
Definition new (X : CounterRemoteRam.t) (B n : Z) (local : bool) : M t :=
  if B =? 0 then raise ZeroDivisionError
  else
    let C := choose_C n B in
    let! secret_key := token_bytes entropy in
    ret (mk false local (set_local X local) n B C secret_key
            (CounterRemoteRam.new B C local)).

End with_primitives.

(** [ht_build(self)] *)
Definition ht_build (self : t) : M t :=
  if negb (local self) then
    if B self =? 0 then raise ZeroDivisionError
    else
      let size_of_X := ceil_div (n self) (B self) in
      let X_prime := CounterRemoteRam.new (B self) (C self) (local self) in
      let! _ := count size_of_X 0 in
      let! _ := count 0 (C self) in
      let! r := counter_bin_packing.bin_packing X_prime (n self) (B self) 2 (local self) in
      ret (mk true (local self) (X self) (n self) (B self) (C self) (secret_key self) r.1)
  else
    ret (mk true (local self) (X self) (n self) (B self) (C self) (secret_key self)
            (table self)).

(** [ht_lookup(self, k)]: the number of operations counted. *)
Definition ht_lookup (self : t) (k : Z) : M Z :=
  if negb (local self) then
    let! _ := CounterRemoteRam.read_memory_cell (table self) k in
    let! _ := CounterRemoteRam.write_memory_cell (table self) k in
    ret 2
  else ret 0.

(** [ht_extract(self)]: [None] is the integer 0 that the code returns
    for a table that is not built. *)
Definition ht_extract (self : t) : M (option CounterRemoteRam.t) :=
  if negb (is_built self) then ret None
  else
    let! _ := counter_bin_packing.bin_packing (table self) (n self) (B self) 3 (local self) in
    let X_prime := CounterRemoteRam.new (B self) (C self / 2) (local self) in
    let! _ := (if negb (local self) then count (C self) (C self / 2) else ret tt) in
    if B self =? 0 then raise ZeroDivisionError
    else
      ret (Some (CounterRemoteRam.mk (CounterRemoteRam.block_capacity X_prime)
                                     (ceil_div (n self) (B self))
                                     (CounterRemoteRam.local X_prime))).

End counter_hash_table.
(** ** MegaBlocksORAM/Simulation_ORAM/counter_compaction.py *)

Module counter_compaction.

(** [compaction(X, n, B, n_0)] *)
Definition compaction (X : CounterRemoteRam.t) (n B n_0 : Z) : M CounterRemoteRam.t :=
  if B =? 0 then raise ZeroDivisionError
  else
    let size_of_X := ceil_div n B in
    let C := choose_C n B in
    let size_of_compact_array := ceil_div n_0 B in
    let X_prime := CounterRemoteRam.new B C false in
    let! _ := counter_hash_table.count 0 (2 * size_of_X) in
    let! _ := counter_hash_table.count size_of_X 0 in
    let! _ := counter_hash_table.count 0 (C - 2 * size_of_X) in
    let! Y_buckets := counter_bin_packing.bin_packing X_prime n B 2 false in
    let new_array := CounterRemoteRam.new B size_of_compact_array false in
    let! _ := counter_hash_table.count C 0 in
    let! _ := counter_hash_table.count 0 size_of_compact_array in
    ret new_array.

End counter_compaction.

(** ** Concrete instances used by the examples *)

Module examples.

(** A world with all counters at zero and no value drawn yet. *)
Definition world0 : world := mkWorld 0 0 0 0 0 [].

(** A random source: the [k]-th value drawn is [7 k + 3]. *)
Definition entropy0 (k : nat) : Z := Z.of_nat k * 7 + 3.

(** A keyed function on integer keys: the two low bits of the key,
    reversed. *)
Definition hmac0 (secret : Z) (k : val) : Z :=
  match k with
  | VInt a => Z.land (Z.shiftr a 1) 1 + 2 * Z.land a 1
  | _ => 0
  end.

(** A hash table built from the four elements [(a, "d" + str(a))],
    [n = 4], [B = 2]. *)
Definition build0 : res (HashTable.t * world) :=
  (let! X := lift (RemoteRam.init_memory (RemoteRam.new 2 2 None false)) in
   let! ht := HashTable.new entropy0 X 2 4 false in
   HashTable.ht_build entropy0 hmac0 ht) world0.

Definition table0 : HashTable.t :=
  Eval vm_compute in
    match build0 with
    | Val (ht, _) => ht
    | Exc _ => HashTable.mk false (RemoteRam.new 0 0 None false) 0 0 0 0 false None
    end.

(** The same table before it is built. *)
Definition unbuilt0 : HashTable.t * world :=
  Eval vm_compute in
    match (let! X := lift (RemoteRam.init_memory (RemoteRam.new 2 2 None false)) in
           HashTable.new entropy0 X 2 4 false) world0 with
    | Val s => s
    | Exc _ => (HashTable.mk false (RemoteRam.new 0 0 None false) 0 0 0 0 false None, world0)
    end.

(** The table built from [unbuilt0], with the world the build leaves. *)
Definition built0 : HashTable.t * world :=
  Eval vm_compute in
    match HashTable.ht_build entropy0 hmac0 unbuilt0.1 unbuilt0.2 with
    | Val s => s
    | Exc _ => unbuilt0
    end.

(** What extraction from [built0] returns and leaves. *)
Definition extracted0 : RemoteRam.t * HashTable.t * world :=
  Eval vm_compute in
    match HashTable.ht_extract built0.1 built0.2 with
    | Val s => s
    | Exc _ => (RemoteRam.new 0 0 None false, built0.1, built0.2)
    end.


Definition counter_built0 : counter_hash_table.t :=
  counter_hash_table.mk true false (CounterRemoteRam.new 2 2 false) 4 2 4 3
                        (CounterRemoteRam.new 2 4 false).

(** A compaction of the four elements of [unbuilt0] into two blocks. *)
Definition compacted0 : RemoteRam.t * world :=
  Eval vm_compute in
    match compaction.compaction entropy0 hmac0 (HashTable.X unbuilt0.1) 4 2 4 world0 with
    | Val s => s
    | Exc _ => (RemoteRam.new 0 0 None false, world0)
    end.

(** [math.floor(math.log(N, q))] at the one pair of arguments the examples
    use: [math.log(4, 2)] is [2.0]. *)
Definition floor_log0 (N q : Z) : Z :=
  if (N =? 4) && (q =? 2) then 2 else 0.

(** An ORAM over [N = 4] addresses with [B = 2] and [q = 2], as left by
    the constructor. *)
Definition oram_init : res (MegaBlocksORAM.t * world) :=
  MegaBlocksORAM.new entropy0 hmac0 floor_log0 4 2 2 2 world0.

Definition oram_failed : MegaBlocksORAM.t * world :=
  (MegaBlocksORAM.mk 0 0 0 0 0 [] [] [], world0).

Definition oram0 : MegaBlocksORAM.t * world :=
  Eval vm_compute in
    match oram_init with Val s => s | Exc _ => oram_failed end.

(** The value returned by one access and the state it leaves. *)
Definition after (s : MegaBlocksORAM.t * world) (op : operation) (addr data : val)
    : val * (MegaBlocksORAM.t * world) :=
  match MegaBlocksORAM.access entropy0 hmac0 s.1 op addr data s.2 with
  | Val ((v, self), w) => (v, (self, w))
  | Exc _ => (VStr "raised", oram_failed)
  end.

(** [write(3, "x")] on the fresh ORAM. *)
Definition oram1 : val * (MegaBlocksORAM.t * world) :=
  Eval vm_compute in after oram0 WRITE_OPERATION (VInt 3) (VStr "x").

(** [read(1)] after [write(3, "x")]. *)
Definition oram2 : val * (MegaBlocksORAM.t * world) :=
  Eval vm_compute in after oram1.2 READ_OPERATION (VInt 1) (VStr "").

(** [read(3)] after [write(3, "x")]. *)
Definition oram3 : val * (MegaBlocksORAM.t * world) :=
  Eval vm_compute in after oram1.2 READ_OPERATION (VInt 3) (VStr "").

(** [read(9)], an address never written, on the fresh ORAM, and a second
    [read(9)]. *)
Definition oram4 : val * (MegaBlocksORAM.t * world) :=
  Eval vm_compute in after oram0 READ_OPERATION (VInt 9) (VStr "").

Definition oram5 : val * (MegaBlocksORAM.t * world) :=
  Eval vm_compute in after oram4.2 READ_OPERATION (VInt 9) (VStr "").

End examples.

Module overflow_example.

(** The input of the overflow scenario: [n = 4], [B = 2], four cells whose
    eight real elements all carry destination bin 0 in field 2. *)
Definition X : RemoteRam.t :=
  RemoteRam.new 2 4
    (Some ((λ c, [[VInt (2 * c); VStr "v"; VInt 0]; [VInt (2 * c + 1); VStr "v"; VInt 0]])
             <$> range 4))
    false.

End overflow_example.

Module routing_example.

(** An input of bin packing with [n = 4] and [B = 2]: four cells, five
    real elements whose destination bin is their field 2. *)
Definition X : RemoteRam.t :=
  RemoteRam.new 2 4
    (Some [[[VInt 10; VStr "a"; VInt 3]; [VInt 11; VStr "b"; VInt 1]];
           [[VInt 12; VStr "c"; VInt 2]; DUMMY];
           [DUMMY; [VInt 13; VStr "d"; VInt 2]];
           [[VInt 14; VStr "e"; VInt 0]; DUMMY]])
    false.

(** What [bin_packing] returns on it. *)
Definition packed : RemoteRam.t * world :=
  Eval vm_compute in
    match bin_packing.bin_packing X 4 2 2 false (mkWorld 0 0 0 0 0 []) with
    | Val s => s
    | Exc _ => (X, mkWorld 0 0 0 0 0 [])
    end.

End routing_example.


(** ** Outcomes of a computation *)

(** The computation raises an exception in world [w]. *)
Definition raises {A : Type} (c : M A) (w : world) : Prop :=
  ∃ e, c w = Exc e.

(** The computation returns in world [w]. *)
Definition returns {A : Type} (c : M A) (w : world) : Prop :=
  ∃ a w', c w = Val (a, w').

(** ** Pure counterparts of the loops of [bin_packing] *)

(** The world after [r] more counted reads and [wr] more counted writes
    on [RemoteRam]. *)
Definition bump (w : world) (r wr : Z) : world :=
  mkWorld (read_operations w + r) (write_operations w + wr)
          (counter_read_operations w) (counter_write_operations w)
          (rng w) (probes w).

(** The world after one more call of [ht_lookup] has been recorded. *)
Definition logged (w : world) (e : lookup_event) : world :=
  mkWorld (read_operations w) (write_operations w)
          (counter_read_operations w) (counter_write_operations w)
          (rng w) (probes w ++ [e]).

(** The cost of one access to a memory with the given [local] flag. *)
Definition cost (local : bool) : Z := if local then 0 else 1.

Module packing.

(** The cell a read returns, without the counter. *)
Definition cell_at (A : list block) (p : Z) : res block :=
  if (p >? Z.of_nat (length A) - 1) || (p <? 0) then Exc InvalidIndex
  else py_index A p.

(** The memory after a write, without the counter. *)
Definition store_at (A : list block) (p : Z) (b : block) : res (list block) :=
  if (p >? Z.of_nat (length A) - 1) || (p <? 0) then Exc InvalidIndex
  else py_set A p b.

(** One merge-split step on the memories themselves: [A] is the level
    read, [D] the level written. *)
Definition step (C B key_index : Z) (i : Z) (A : list block) (j : Z) (D : list block)
    : res (list block) :=
  let j_prime := (j / 2 ^ i) * 2 ^ i in
  let? a_0 := cell_at A (j + j_prime) in
  let? a_1 := cell_at A (j + j_prime + 2 ^ i) in
  let? s := bin_packing.merge_split a_0 a_1 i B (bit_length (C - 1)) key_index in
  match s with
  | bin_packing.Split b_0 b_1 =>
      let? D := store_at D (2 * j) b_0 in
      store_at D (2 * j + 1) b_1
  | bin_packing.SplitOverflow => Exc Overflow
  end.

(** One level: every pair is merged and split into a fresh memory. *)
Definition round (C B key_index : Z) (i : Z) (A : list block) : res (list block) :=
  for_each_res (range (C / 2)) (step C B key_index i A)
               (py_repeat (py_repeat DUMMY B) C).

(** The levels listed, in order. *)
Definition levels (C B key_index : Z) (lvls : list Z) (A : list block) : res (list block) :=
  for_each_res lvls (round C B key_index) A.

End packing.

(** ** The routing performed by one merge-split step, as list functions *)

Module routing.

(** The element is not a dummy. *)
Definition is_real (x : elem) : bool :=
  match x with
  | k :: _ => negb (val_eqb k DUMMY_ADDR)
  | [] => false
  end.

(** The element has a key and, unless it is a dummy, an integer in the
    field that holds its destination. *)
Definition routable (key_index : Z) (x : elem) : bool :=
  match x with
  | k :: _ =>
      val_eqb k DUMMY_ADDR
      || match x !! Z.to_nat key_index with
         | Some (VInt _) => true
         | _ => false
         end
  | [] => false
  end.

(** The destination recorded in the element. *)
Definition dest (key_index : Z) (x : elem) : Z :=
  match x !! Z.to_nat key_index with
  | Some (VInt z) => z
  | _ => 0
  end.

(** The bit of the destination examined at level [i]. *)
Definition bit (bl key_index i : Z) (x : elem) : Z :=
  Z.land (Z.shiftr (dest key_index x) (bl - (i + 1))) 1.

(** The element is real and is sent to the right ([true]) or to the left
    ([false]) bin. *)
Definition goes (bl key_index i : Z) (right : bool) (x : elem) : bool :=
  is_real x && (if right then negb (bit bl key_index i x =? 0)
                else bit bl key_index i x =? 0).

(** The order in which [merge_split] visits the elements of two cells. *)
Fixpoint interleave (a_0 a_1 : block) : block :=
  match a_0, a_1 with
  | x :: a_0', y :: a_1' => x :: y :: interleave a_0' a_1'
  | _, _ => []
  end.

(** The elements one bin receives from two cells. *)
Definition half (bl key_index i : Z) (right : bool) (a_0 a_1 : block) : block :=
  filter (λ x, goes bl key_index i right x) (interleave a_0 a_1).

(** A bin padded with dummies up to [B] elements. *)
Definition pad (B : Z) (b : block) : block :=
  b ++ py_repeat DUMMY (B - Z.of_nat (length b)).

(** The cells paired by step [j] of level [i]. *)
Definition left_cell (i j : Z) : Z := j + (j / 2 ^ i) * 2 ^ i.
Definition right_cell (i j : Z) : Z := left_cell i j + 2 ^ i.

(** A cell of [B] routable elements. *)
Definition wf_cell (B key_index : Z) (cell : block) : Prop :=
  length cell = Z.to_nat B ∧ Forall (λ x, routable key_index x) cell.

(** A memory of [C] such cells. *)
Definition wf_memory (C B key_index : Z) (A : list block) : Prop :=
  length A = Z.to_nat C ∧ Forall (wf_cell B key_index) A.

End routing.

(** ** One level of bin packing, cell by cell *)

Module level.

Import routing.

(** The cell at position [p], or the empty cell outside the memory. *)
Definition cell_of (A : list block) (p : Z) : block :=
  default [] (A !! Z.to_nat p).

(** One of the two bins of step [j] of level [i] receives more than [B]
    elements. *)
Definition overflows_at (B bl key_index : Z) (A : list block) (i j : Z) : bool :=
  let a_0 := cell_of A (left_cell i j) in
  let a_1 := cell_of A (right_cell i j) in
  (Z.of_nat (length (half bl key_index i false a_0 a_1)) >? B)
  || (Z.of_nat (length (half bl key_index i true a_0 a_1)) >? B).

(** What level [i + 1] holds in cell [c] when level [i] is [A]. *)
Definition out_cell (B bl key_index : Z) (A : list block) (i c : Z) : block :=
  pad B (half bl key_index i (Z.odd c)
              (cell_of A (left_cell i (c / 2)))
              (cell_of A (right_cell i (c / 2)))).

(** No step of level [i] overflows. *)
Definition fits (C B bl key_index : Z) (A : list block) (i : Z) : bool :=
  forallb (λ j, negb (overflows_at B bl key_index A i j)) (range (C / 2)).

(** The next level. *)
Definition next (C B bl key_index : Z) (A : list block) (i : Z) : list block :=
  (λ c, out_cell B bl key_index A i c) <$> range C.

End level.

(** ** All levels of bin packing *)

Module levels.

(** The memory after [n] levels. *)
Fixpoint after (C B bl key_index : Z) (n : nat) (A : list block) : list block :=
  match n with
  | O => A
  | S n' => level.next C B bl key_index (after C B bl key_index n' A) (Z.of_nat n')
  end.

(** No step of the first [n] levels overflows. *)
Fixpoint fits_upto (C B bl key_index : Z) (n : nat) (A : list block) : bool :=
  match n with
  | O => true
  | S n' =>
      fits_upto C B bl key_index n' A
      && level.fits C B bl key_index (after C B bl key_index n' A) (Z.of_nat n')
  end.

End levels.

(** ** Built hash tables *)

Module built.

(** The table of a built hash table: [C] cells of [B] elements, each with
    a key and a value. *)
Definition wf_table (self : HashTable.t) (tbl : RemoteRam.t) : Prop :=
  HashTable.table self = Some tbl
  ∧ 0 < HashTable.C self
  ∧ Z.of_nat (length (RemoteRam.memory tbl)) = HashTable.C self
  ∧ Forall (λ cell, length cell = Z.to_nat (HashTable.B self)
                    ∧ Forall (λ x : elem, (2 ≤ length x)%nat) cell)
           (RemoteRam.memory tbl).

Section with_primitives.

Variable entropy : nat → Z.
Variable hmac_sha256 : Z → val → Z.

(** A sequence of lookups into one table. *)
Fixpoint lookups (self : HashTable.t) (ks : list val) : M (list elem * HashTable.t) :=
  match ks with
  | [] => ret ([], self)
  | k :: ks' =>
      let! r := HashTable.ht_lookup entropy hmac_sha256 self k in
      let! rs := lookups r.2 ks' in
      ret (r.1 :: rs.1, rs.2)
  end.

End with_primitives.

End built.

(** ** The state of the MegaBlocks hierarchy *)

(** A computation that calls no [ht_lookup]: it leaves the ghost log as it
    found it. *)
Definition quiet {A : Type} (c : M A) : Prop :=
  ∀ w a w', c w = Val (a, w') → probes w' = probes w.

Module hierarchy.

(** The load factors are one per level and lie in [[0, q - 1]]. *)
Definition lf_inv (self : MegaBlocksORAM.t) : Prop :=
  0 ≤ MegaBlocksORAM.amount_of_levels self
  ∧ Z.of_nat (length (MegaBlocksORAM.load_factors self))
    = MegaBlocksORAM.amount_of_levels self + 1
  ∧ Forall (λ x, 0 ≤ x ≤ MegaBlocksORAM.q self - 1) (MegaBlocksORAM.load_factors self).

(** Two states that differ at most in their tables. *)
Definition same_frame (self self' : MegaBlocksORAM.t) : Prop :=
  MegaBlocksORAM.N self' = MegaBlocksORAM.N self
  ∧ MegaBlocksORAM.B self' = MegaBlocksORAM.B self
  ∧ MegaBlocksORAM.q self' = MegaBlocksORAM.q self
  ∧ MegaBlocksORAM.amount_of_levels self' = MegaBlocksORAM.amount_of_levels self
  ∧ MegaBlocksORAM.inner_tables self' = MegaBlocksORAM.inner_tables self
  ∧ MegaBlocksORAM.load_factors self' = MegaBlocksORAM.load_factors self
  ∧ length (MegaBlocksORAM.tables self') = length (MegaBlocksORAM.tables self).

(** The state left by an access whose target level is [j]: the levels
    below [j] are reset (load factor 0, not built) and level [j] is
    built. *)
Definition rebuilt_at (self' : MegaBlocksORAM.t) (j : Z) : Prop :=
  (∀ i, 0 ≤ i < j →
     MegaBlocksORAM.load_factors self' !! Z.to_nat i = Some 0
     ∧ ∃ t, MegaBlocksORAM.tables self' !! Z.to_nat i = Some t
            ∧ HashTable.is_built t = false)
  ∧ ∃ t, MegaBlocksORAM.tables self' !! Z.to_nat j = Some t
         ∧ HashTable.is_built t = true.






Section with_primitives.

Variable entropy : nat → Z.
Variable hmac_sha256 : Z → val → Z.

(** The cell a lookup of key [k] must read in a table with the given
    secret key and number of bins: for the dummy key the value of
    [random.randint(0, C - 1)], the generator having produced [drawn]
    values before; for any other key the keyed hash modulo [C]. *)
Definition expected_bucket (secret_key C : Z) (k : val) (drawn : nat) : Z :=
  if val_eqb k (VStr "_") then 0 + entropy drawn `mod` (C - 1 - 0 + 1)
  else hmac_sha256 secret_key k `mod` C.



(** A sequence of accesses. *)
Fixpoint accesses (self : MegaBlocksORAM.t) (ops : list (operation * val * val))
    : M (list val * MegaBlocksORAM.t) :=
  match ops with
  | [] => ret ([], self)
  | (op, addr, data) :: ops' =>
      let! r := MegaBlocksORAM.access entropy hmac_sha256 self op addr data in
      let! rs := accesses r.2 ops' in
      ret (r.1 :: rs.1, rs.2)
  end.

End with_primitives.

End hierarchy.

(** ** Elements and their keys *)

Module keys.

(** The first field of the element equals [k]. *)
Definition has_key (k : val) (x : elem) : bool :=
  match x with
  | k0 :: _ => val_eqb k0 k
  | [] => false
  end.

(** The pair [(x[0], x[1])] of an element. *)
Definition pair_of (x : elem) : elem := take 2 x.

(** The real elements of a block and of a memory, in order. *)
Definition reals (b : block) : block := filter (λ x, routing.is_real x) b.

Definition reals_of (A : list block) : block := reals (concat A).

End keys.

(** ** What the probe loop of an access has found *)

Module found.

(** The item returned by the first lookup of the log that did not return
    the dummy element. *)
Fixpoint first_hit (plog : list lookup_event) : option elem :=
  match plog with
  | [] => None
  | e :: rest => if elem_eqb (ev_item e) DUMMY then first_hit rest else Some (ev_item e)
  end.

(** The state of the probe loop agrees with the lookups made so far. *)
Definition data_inv (addr : val) (st : MegaBlocksORAM.probe_state)
    (plog : list lookup_event) : Prop :=
  MegaBlocksORAM.p_found st = bool_decide (is_Some (first_hit plog))
  ∧ MegaBlocksORAM.p_data_star st = VTuple (default DUMMY (first_hit plog))
  ∧ Forall (λ e, ev_item e = DUMMY ∨ ∃ v, ev_item e = [addr; v]) plog.

End found.

(** ** The butterfly network of [bin_packing] *)

Module butterfly.

Import routing.

(** The elements of the [2 ^ i] input cells of group [g]. *)
Definition group (i g : Z) (A : list block) : block :=
  concat (take (Z.to_nat (2 ^ i)) (drop (Z.to_nat (g * 2 ^ i)) A)).

(** The [i] most significant of the [k] low bits of the destination. *)
Definition prefix (k key_index i : Z) (x : elem) : Z :=
  Z.shiftr (dest key_index x) (k - i) `mod` 2 ^ i.

(** The real elements whose destination starts with the [i] bits [r]. *)
Definition wanted (k key_index i r : Z) (x : elem) : bool :=
  is_real x && (prefix k key_index i x =? r).

End butterfly.

(** ** The intermediate array of [ht_build] *)

Module tagging.

Import routing.

(** The key of an element. *)
Definition key_of (x : elem) : val := default DUMMY_ADDR (head x).

(** The element a real element of [X] becomes in the intermediate array:
    its bin, the cell of the array it is written to and its position
    there are appended. *)
Definition tag_real (hmac_sha256 : Z → val → Z) (self : HashTable.t) (c : Z)
    (idx : nat) (x : elem) : elem :=
  x ++ [VInt (hmac_sha256 (HashTable.secret_key self) (key_of x) `mod` HashTable.C self);
        VInt c; VInt (Z.of_nat idx)].

(** The half of cell [c / 2] of [X] that goes to cell [c] of the array. *)
Definition half_of (self : HashTable.t) (mem : list block) (c : Z) : block :=
  let cell := level.cell_of mem (c / 2) in
  if Z.odd c then py_drop (HashTable.B self / 2) cell
  else py_take (HashTable.B self / 2) cell.

(** What cell [c] of the array holds, dummies apart. *)
Definition expected_cell (hmac_sha256 : Z → val → Z) (self : HashTable.t)
    (mem : list block) (c : Z) : block :=
  imap (tag_real hmac_sha256 self c) (half_of self mem c).

(** The input of a build: at least [ceil(n / B)] cells, each of them [B]
    pairs [(key, value)], [B] being even. *)
Definition wf_input (self : HashTable.t) : Prop :=
  0 < HashTable.B self
  ∧ HashTable.B self = 2 * (HashTable.B self / 2)
  ∧ 0 ≤ HashTable.n self
  ∧ HashTable.C self = choose_C (HashTable.n self) (HashTable.B self)
  ∧ ceil_div (HashTable.n self) (HashTable.B self)
    ≤ Z.of_nat (length (RemoteRam.memory (HashTable.X self)))
  ∧ Forall (λ cell : block,
              length cell = Z.to_nat (HashTable.B self)
              ∧ Forall (λ x : elem, length x = 2%nat) cell)
           (take (Z.to_nat (ceil_div (HashTable.n self) (HashTable.B self)))
                 (RemoteRam.memory (HashTable.X self))).

(** The elements given to the build. *)
Definition input (self : HashTable.t) : block :=
  concat (take (Z.to_nat (ceil_div (HashTable.n self) (HashTable.B self)))
               (RemoteRam.memory (HashTable.X self))).

End tagging.

Module built_array.

Import routing tagging.

(** Cell [c] of the intermediate array once the build loop has written
    it: the tagged half of a cell of [X], then [B / 2] dummies. *)
Definition cell_ok (hmac_sha256 : Z → val → Z) (self : HashTable.t)
    (mem : list block) (c : Z) (cell' : block) : Prop :=
  length cell' = Z.to_nat (HashTable.B self)
  ∧ (∀ (idx : nat) (x : elem),
       half_of self mem c !! idx = Some x →
       ∃ key, cell' !! idx = Some (x ++ [VInt key; VInt c; VInt (Z.of_nat idx)])
              ∧ (is_real x →
                 key = hmac_sha256 (HashTable.secret_key self) (key_of x)
                         `mod` HashTable.C self))
  ∧ (∀ idx : nat,
       (Z.to_nat (HashTable.B self / 2) ≤ idx < Z.to_nat (HashTable.B self))%nat →
       cell' !! idx = Some DUMMY).

(** The state of the build loop before iteration [i]. *)
Definition build_inv (hmac_sha256 : Z → val → Z) (self : HashTable.t) (i : Z)
    (st : RemoteRam.t * RemoteRam.t) : Prop :=
  2 * i ≤ Z.max 0 (HashTable.C self)
  ∧ length (RemoteRam.memory st.1) = length (RemoteRam.memory (HashTable.X self))
  ∧ (∀ i' : nat, i ≤ Z.of_nat i' →
       RemoteRam.memory st.1 !! i' = RemoteRam.memory (HashTable.X self) !! i')
  ∧ Z.of_nat (length (RemoteRam.memory st.2)) = HashTable.C self
  ∧ (∀ c, 0 ≤ c < 2 * i →
       cell_ok hmac_sha256 self (RemoteRam.memory (HashTable.X self)) c
               (level.cell_of (RemoteRam.memory st.2) c))
  ∧ (∀ c, 2 * i ≤ c < HashTable.C self →
       level.cell_of (RemoteRam.memory st.2) c = py_repeat DUMMY (HashTable.B self)).

End built_array.

(** ** Counted operations *)

(** A computation that, when it returns, has added [r] to
    [RemoteRam.read_operations] and [wr] to [RemoteRam.write_operations]. *)
Definition costs {A : Type} (c : M A) (r wr : Z) : Prop :=
  ∀ w a w', c w = Val (a, w') →
    read_operations w' = read_operations w + r
    ∧ write_operations w' = write_operations w + wr.
(** ** The collecting loop of [compaction] *)

Module compacting.

(** The parameters of a compaction, seen as those of a table that is
    not local: the splitting loop of [compaction] is the build loop of
    such a table. *)
Definition as_table (X : RemoteRam.t) (n B secret_key : Z) : HashTable.t :=
  HashTable.mk false X n B (choose_C n B) secret_key false None.

(** The elements given to a compaction. *)
Definition input (X : RemoteRam.t) (n B : Z) : block :=
  concat (take (Z.to_nat (ceil_div n B)) (RemoteRam.memory X)).

(** The pairs [(x[0], x[1])] of the real elements of a block. *)
Definition pairs (b : block) : block := keys.pair_of <$> keys.reals b.

(** The state of the collecting loop once the elements [seen] have been
    visited: the blocks written so far, then [current_block], hold the
    pairs of the real elements seen; the other blocks of the output are
    still the dummy blocks it was created with. *)
Definition collect_inv (B size : Z) (seen : block) (st : compaction.collect) : Prop :=
  0 ≤ compaction.curr_bin st ≤ Z.max 0 size
  ∧ 0 ≤ compaction.curr_index st < B
  ∧ compaction.curr_index st = Z.of_nat (length (compaction.current_block st))
  ∧ RemoteRam.local (compaction.new_array st) = false
  ∧ length (RemoteRam.memory (compaction.new_array st)) = Z.to_nat size
  ∧ Forall (λ cell : block, length cell = Z.to_nat B)
           (RemoteRam.memory (compaction.new_array st))
  ∧ concat (take (Z.to_nat (compaction.curr_bin st))
                 (RemoteRam.memory (compaction.new_array st)))
    ++ compaction.current_block st = pairs seen
  ∧ drop (Z.to_nat (compaction.curr_bin st)) (RemoteRam.memory (compaction.new_array st))
    = replicate (Z.to_nat size - Z.to_nat (compaction.curr_bin st)) (py_repeat DUMMY B).

End compacting.

(** ** What [ht_extract] rebuilds *)

Module extracting.

(** The key by which [sort] orders an element; [(1, 0)] for an element
    that has none. *)
Definition key_of_elem (x : elem) : Z * Z :=
  match HashTable.sort_key x with
  | Val k => k
  | Exc _ => (1, 0)
  end.

(** A block with the sort key of each element. *)
Definition keyed (l : block) : list ((Z * Z) * elem) :=
  (λ x, (key_of_elem x, x)) <$> l.

(** The keys do not decrease along the list. *)
Fixpoint sorted (l : list ((Z * Z) * elem)) : Prop :=
  match l with
  | [] => True
  | a :: l' => Forall (λ b, HashTable.key_le a.1 b.1 = true) l' ∧ sorted l'
  end.

(** The real elements of cell [c] of the intermediate array of a build,
    with their tags. *)
Definition tagged (hmac_sha256 : Z → val → Z) (self : HashTable.t) (c : Z) : block :=
  keys.reals (tagging.expected_cell hmac_sha256 self
                (RemoteRam.memory (HashTable.X self)) c).

(** Half a block: the elements, then dummies up to [h] elements. *)
Definition pad_half (h : nat) (l : block) : block :=
  l ++ replicate (h - length l) DUMMY.

(** The block that an extraction writes to cell [i]: the real elements
    of each half of cell [i] of the input, each half padded with
    dummies. *)
Definition out_cell (self : HashTable.t) (i : Z) : block :=
  let mem := RemoteRam.memory (HashTable.X self) in
  let h := Z.to_nat (HashTable.B self / 2) in
  pad_half h (keys.reals (tagging.half_of self mem (2 * i)))
  ++ pad_half h (keys.reals (tagging.half_of self mem (2 * i + 1))).

End extracting.

(** ** Facts about the utilities *)

Section utils_facts.

Lemma ceil_div_spec a b : 0 < b → b * (ceil_div a b - 1) < a ≤ b * ceil_div a b.
Proof.
  intros Hb. unfold ceil_div.
  pose proof (Z.div_mod (- a) b ltac:(lia)) as Hdm.
  pose proof (Z.mod_pos_bound (- a) b Hb) as Hm.
  nia.
Qed.

Lemma ceil_div_le a b k : 0 < b → a ≤ b * k → ceil_div a b ≤ k.
Proof. intros Hb Hk. pose proof (ceil_div_spec a b Hb). nia. Qed.

Lemma ceil_div_nonneg a b : 0 < b → 0 ≤ a → 0 ≤ ceil_div a b.
Proof. intros Hb Ha. pose proof (ceil_div_spec a b Hb). nia. Qed.

Lemma ceil_div_pos a b : 0 < b → 0 < a → 0 < ceil_div a b.
Proof. intros Hb Ha. pose proof (ceil_div_spec a b Hb). nia. Qed.

Lemma npow2_loop_spec fuel k x :
  0 ≤ k →
  x ≤ 2 ^ (k + Z.of_nat fuel) →
  (k = 0 ∨ 2 ^ (k - 1) < x) →
  ∃ r, npow2_loop fuel (2 ^ k) x = 2 ^ r ∧ 0 ≤ r ∧ x ≤ 2 ^ r
       ∧ (r = 0 ∨ 2 ^ (r - 1) < x).
Proof.
  revert k. induction fuel as [|fuel IH]; intros k Hk Hx Hmin; simpl.
  - exists k. rewrite Z.add_0_r in Hx. auto.
  - destruct (Z.ltb_spec (2 ^ k) x) as [Hlt|Hge].
    + rewrite Z.shiftl_mul_pow2 by lia.
      replace (2 ^ k * 2 ^ 1) with (2 ^ (k + 1))
        by (rewrite Z.pow_add_r by lia; reflexivity).
      apply IH; [lia| |].
      * replace (k + 1 + Z.of_nat fuel) with (k + Z.of_nat (S fuel)) by lia.
        exact Hx.
      * right. replace (k + 1 - 1) with k by lia. exact Hlt.
    + exists k. auto.
Qed.

(** The value returned is a power of two, reaches [x], and is the least
    such power. *)
Lemma next_power_of_two_spec x :
  ∃ r, next_power_of_two_greater_or_equal x = 2 ^ r ∧ 0 ≤ r ∧ x ≤ 2 ^ r
       ∧ (r = 0 ∨ 2 ^ (r - 1) < x).
Proof.
  unfold next_power_of_two_greater_or_equal.
  apply (npow2_loop_spec (Z.to_nat x) 0 x); [lia | | auto].
  destruct (Z.le_gt_cases x 0) as [Hx|Hx].
  - assert (0 < 2 ^ (0 + Z.of_nat (Z.to_nat x)))
      by (apply Z.pow_pos_nonneg; lia).
    lia.
  - rewrite Z2Nat.id by lia. rewrite Z.add_0_l.
    assert (x < 2 ^ x) by (apply Z.pow_gt_lin_r; lia). lia.
Qed.

(** The fuel given to the loop is never exhausted before the exit test
    [p < x] fails. *)
Lemma npow2_exit x : ¬ (next_power_of_two_greater_or_equal x < x).
Proof. destruct (next_power_of_two_spec x) as (r & -> & _ & ? & _). lia. Qed.

Lemma next_power_of_two_le_1 x :
  x ≤ 1 → next_power_of_two_greater_or_equal x = 1.
Proof.
  intros Hx. destruct (next_power_of_two_spec x) as (r & -> & Hr & _ & [->|Hlt]).
  - reflexivity.
  - destruct (Z.eq_dec r 0) as [->|]; [reflexivity|].
    assert (0 < 2 ^ (r - 1)) by (apply Z.pow_pos_nonneg; lia). lia.
Qed.

End utils_facts.

Section choose_C_facts.

(** What [choose_C] computes: the least power of two that reaches
    [ceil(2n/B)]. *)
Lemma choose_C_spec n B :
  ∃ r, choose_C n B = 2 ^ r ∧ 0 ≤ r ∧ ceil_div (2 * n) B ≤ 2 ^ r
       ∧ (r = 0 ∨ 2 ^ (r - 1) < ceil_div (2 * n) B).
Proof. unfold choose_C. apply next_power_of_two_spec. Qed.

Lemma choose_C_pos n B : 1 ≤ choose_C n B.
Proof.
  destruct (choose_C_spec n B) as (r & -> & Hr & _).
  assert (0 < 2 ^ r) by (apply Z.pow_pos_nonneg; lia). lia.
Qed.

(** C9: the code lacks the [max(., 2)] its docstring announces: whenever
    [2n <= B] the value returned by [choose_C] is 1, below the bound of 2
    that the claim asserts. *)
Theorem choose_C_is_one n B :
  0 ≤ n → 1 ≤ B → 2 * n ≤ B → choose_C n B = 1.
Proof.
  intros Hn HB Hle. unfold choose_C. apply next_power_of_two_le_1.
  apply ceil_div_le; lia.
Qed.

Lemma choose_C_is_one_witness :
  (0 ≤ 1 ∧ 1 ≤ 2 ∧ 2 * 1 ≤ 2) ∧ choose_C 1 2 = 1.
Proof. split; [lia | apply (choose_C_is_one 1 2); lia]. Defined.

End choose_C_facts.

(** ** Facts about the two remote memories *)

Section remote_ram_facts.

Lemma py_index_in_range {A : Type} (l : list A) (i : Z) :
  0 ≤ i < Z.of_nat (length l) → ∃ x, py_index l i = Val x ∧ l !! Z.to_nat i = Some x.
Proof.
  intros Hi. unfold py_index.
  assert (Hlt : (i <? 0) = false) by lia. cbv zeta. rewrite !Hlt.
  destruct (l !! Z.to_nat i) as [x|] eqn:Hl; [exists x; split; reflexivity|].
  apply lookup_ge_None in Hl. lia.
Qed.

Lemma py_set_in_range {A : Type} (l : list A) (i : Z) (x : A) :
  0 ≤ i < Z.of_nat (length l) → py_set l i x = Val (<[Z.to_nat i := x]> l).
Proof.
  intros Hi. unfold py_set.
  assert (Hlt : (i <? 0) = false) by lia.
  assert (Hle : (Z.of_nat (length l) <=? i) = false) by lia.
  cbv zeta. rewrite !Hlt, Hle. reflexivity.
Qed.

Lemma index_guard_false (len i : Z) :
  (i >? len - 1) || (i <? 0) = false ↔ 0 ≤ i < len.
Proof. rewrite orb_false_iff, Z.gtb_ltb, !Z.ltb_ge. lia. Qed.

Lemma index_guard_true (len i : Z) :
  (i >? len - 1) || (i <? 0) = true ↔ ¬ (0 ≤ i < len).
Proof. rewrite <- index_guard_false. destruct (_ || _); split; congruence. Qed.

(** What a successful read does: the cell is returned and the read
    counter moves by one exactly on a non-local instance. *)
Lemma read_memory_cell_ok (r : RemoteRam.t) (i : Z) (w : world) :
  0 ≤ i < Z.of_nat (length (RemoteRam.memory r)) →
  ∃ cell, RemoteRam.memory r !! Z.to_nat i = Some cell ∧
    RemoteRam.read_memory_cell r i w =
      Val (cell, mkWorld (read_operations w + (if RemoteRam.local r then 0 else 1))
                         (write_operations w)
                         (counter_read_operations w) (counter_write_operations w)
                         (rng w) (probes w)).
Proof.
  intros Hi. destruct (py_index_in_range _ _ Hi) as (cell & Hidx & Hl).
  exists cell. split; [exact Hl|].
  unfold RemoteRam.read_memory_cell.
  rewrite (proj2 (index_guard_false _ _) Hi).
  unfold bind, lift, ret, RemoteRam.count_read. rewrite Hidx.
  destruct w, (RemoteRam.local r); simpl; rewrite ?Z.add_0_r; reflexivity.
Qed.

Lemma write_memory_cell_ok (r : RemoteRam.t) (i : Z) (b : block) (w : world) :
  0 ≤ i < Z.of_nat (length (RemoteRam.memory r)) →
  RemoteRam.write_memory_cell r i b w =
    Val (RemoteRam.mk (RemoteRam.block_capacity r) (RemoteRam.memory_size r)
                      (<[Z.to_nat i := b]> (RemoteRam.memory r)) (RemoteRam.local r),
         mkWorld (read_operations w)
                 (write_operations w + (if RemoteRam.local r then 0 else 1))
                 (counter_read_operations w) (counter_write_operations w)
                 (rng w) (probes w)).
Proof.
  intros Hi. unfold RemoteRam.write_memory_cell.
  rewrite (proj2 (index_guard_false _ _) Hi).
  unfold bind, lift, ret, RemoteRam.count_write. rewrite (py_set_in_range _ _ _ Hi).
  destruct w, (RemoteRam.local r); simpl; rewrite ?Z.add_0_r; reflexivity.
Qed.

Lemma read_memory_cell_raises (r : RemoteRam.t) (i : Z) (w : world) :
  raises (RemoteRam.read_memory_cell r i) w ↔
  ¬ (0 ≤ i < Z.of_nat (length (RemoteRam.memory r))).
Proof.
  split.
  - intros [e He] Hi. destruct (read_memory_cell_ok r i w Hi) as (? & _ & Hok).
    congruence.
  - intros Hi. exists InvalidIndex. unfold RemoteRam.read_memory_cell.
    rewrite (proj2 (index_guard_true _ _) Hi). reflexivity.
Qed.

Lemma write_memory_cell_raises (r : RemoteRam.t) (i : Z) (b : block) (w : world) :
  raises (RemoteRam.write_memory_cell r i b) w ↔
  ¬ (0 ≤ i < Z.of_nat (length (RemoteRam.memory r))).
Proof.
  split.
  - intros [e He] Hi. rewrite (write_memory_cell_ok r i b w Hi) in He. congruence.
  - intros Hi. exists InvalidIndex. unfold RemoteRam.write_memory_cell.
    rewrite (proj2 (index_guard_true _ _) Hi). reflexivity.
Qed.

Lemma counter_read_raises (r : CounterRemoteRam.t) (i : Z) (w : world) :
  raises (CounterRemoteRam.read_memory_cell r i) w ↔
  ¬ (0 ≤ i < CounterRemoteRam.memory_size r * CounterRemoteRam.block_capacity r).
Proof.
  unfold raises, CounterRemoteRam.read_memory_cell.
  rewrite <- index_guard_true.
  destruct (_ || _); unfold raise, CounterRemoteRam.add_read_operations.
  - split; eauto.
  - split; [|congruence]. intros [e He]. destruct (CounterRemoteRam.local r); congruence.
Qed.

Lemma counter_write_raises (r : CounterRemoteRam.t) (i : Z) (w : world) :
  raises (CounterRemoteRam.write_memory_cell r i) w ↔
  ¬ (0 ≤ i < CounterRemoteRam.memory_size r * CounterRemoteRam.block_capacity r).
Proof.
  unfold raises, CounterRemoteRam.write_memory_cell.
  rewrite <- index_guard_true.
  destruct (_ || _); unfold raise, CounterRemoteRam.add_write_operations.
  - split; eauto.
  - split; [|congruence]. intros [e He]. destruct (CounterRemoteRam.local r); congruence.
Qed.

(** C8, as the code has it: a [RemoteRam] whose memory list holds
    [memory_size] cells raises exactly outside [[0, memory_size)]; a
    [CounterRemoteRam] raises exactly outside
    [[0, memory_size * block_capacity)]. *)
Theorem memory_cell_index_check
    (r : RemoteRam.t) (c : CounterRemoteRam.t) (i : Z) (b : block) (w : world) :
  Z.of_nat (length (RemoteRam.memory r)) = RemoteRam.memory_size r →
  (raises (RemoteRam.read_memory_cell r i) w ↔ ¬ (0 ≤ i < RemoteRam.memory_size r))
  ∧ (raises (RemoteRam.write_memory_cell r i b) w ↔ ¬ (0 ≤ i < RemoteRam.memory_size r))
  ∧ (raises (CounterRemoteRam.read_memory_cell c i) w ↔
       ¬ (0 ≤ i < CounterRemoteRam.memory_size c * CounterRemoteRam.block_capacity c))
  ∧ (raises (CounterRemoteRam.write_memory_cell c i) w ↔
       ¬ (0 ≤ i < CounterRemoteRam.memory_size c * CounterRemoteRam.block_capacity c)).
Proof.
  intros Hlen. rewrite <- Hlen.
  split; [apply read_memory_cell_raises|].
  split; [apply write_memory_cell_raises|].
  split; [apply counter_read_raises | apply counter_write_raises].
Qed.

End remote_ram_facts.

Lemma memory_cell_index_check_witness :
  let r := RemoteRam.new 2 3 None false in
  let c := CounterRemoteRam.new 4 2 false in
  Z.of_nat (length (RemoteRam.memory r)) = RemoteRam.memory_size r
  ∧ (raises (RemoteRam.read_memory_cell r 3) examples.world0
     ↔ ¬ (0 ≤ 3 < RemoteRam.memory_size r)).
Proof.
  intros r c.
  split; [reflexivity|].
  apply (memory_cell_index_check r c 3 [] examples.world0). reflexivity.
Defined.

(** C8 fails as stated: on a [CounterRemoteRam] of 2 cells of capacity 4,
    cell index 5 lies outside [[0, memory_size)], yet the read and the
    write both return and are counted. *)
Lemma counter_ram_accepts_index_past_memory_size :
  let c := CounterRemoteRam.new 4 2 false in
  ¬ (0 ≤ 5 < CounterRemoteRam.memory_size c)
  ∧ CounterRemoteRam.read_memory_cell c 5 examples.world0
    = Val (tt, mkWorld 0 0 1 0 0 [])
  ∧ CounterRemoteRam.write_memory_cell c 5 examples.world0
    = Val (tt, mkWorld 0 0 0 1 0 []).
Proof. simpl. split; [lia|]. split; reflexivity. Qed.

(** ** Facts about the monad and the world *)

Section monad_facts.

Lemma bump_0 w : bump w 0 0 = w.
Proof. destruct w. unfold bump. simpl. rewrite !Z.add_0_r. reflexivity. Qed.

Lemma bump_bump w a b c d : bump (bump w a b) c d = bump w (a + c) (b + d).
Proof. unfold bump. simpl. rewrite !Z.add_assoc. reflexivity. Qed.

Lemma read_memory_cell_pure (r : RemoteRam.t) (p : Z) (w : world) :
  RemoteRam.read_memory_cell r p w =
    match packing.cell_at (RemoteRam.memory r) p with
    | Val cell => Val (cell, bump w (cost (RemoteRam.local r)) 0)
    | Exc e => Exc e
    end.
Proof.
  unfold RemoteRam.read_memory_cell, packing.cell_at.
  destruct (_ || _); [reflexivity|].
  unfold bind, lift, ret, RemoteRam.count_read, cost, bump.
  destruct (RemoteRam.local r); simpl;
    destruct (py_index _ _); rewrite ?Z.add_0_r; try reflexivity.
  destruct w; reflexivity.
Qed.

Lemma write_memory_cell_pure (r : RemoteRam.t) (p : Z) (b : block) (w : world) :
  RemoteRam.write_memory_cell r p b w =
    match packing.store_at (RemoteRam.memory r) p b with
    | Val mem => Val (HashTable.set_memory r mem, bump w 0 (cost (RemoteRam.local r)))
    | Exc e => Exc e
    end.
Proof.
  unfold RemoteRam.write_memory_cell, packing.store_at.
  destruct (_ || _); [reflexivity|].
  unfold bind, lift, ret, RemoteRam.count_write, cost, bump, HashTable.set_memory.
  destruct (RemoteRam.local r); simpl;
    destruct (py_set _ _ _); rewrite ?Z.add_0_r; try reflexivity.
  destruct w; reflexivity.
Qed.

Lemma set_memory_id (r : RemoteRam.t) : HashTable.set_memory r (RemoteRam.memory r) = r.
Proof. destruct r; reflexivity. Qed.

Lemma lift_val {A : Type} (a : A) (w : world) : lift (Val a) w = Val (a, w).
Proof. reflexivity. Qed.

Lemma py_index_nat {A : Type} (l : list A) (i : Z) (x : A) :
  0 ≤ i → l !! Z.to_nat i = Some x → py_index l i = Val x.
Proof.
  intros Hi Hl. unfold py_index.
  assert (Hlt : (i <? 0) = false) by lia. cbv zeta. rewrite !Hlt, Hl. reflexivity.
Qed.

Lemma py_set_nat {A : Type} (l : list A) (i : Z) (x : A) :
  0 ≤ i → is_Some (l !! Z.to_nat i) → py_set l i x = Val (<[Z.to_nat i := x]> l).
Proof.
  intros Hi Hl. apply py_set_in_range. apply lookup_lt_is_Some in Hl. lia.
Qed.

End monad_facts.

(** ** [bin_packing] runs the pure levels and counts its accesses *)

Section bin_packing_refine.

Variables C B key_index : Z.

Lemma step_refine (i j : Z) (arrs : list RemoteRam.t) (src dst : RemoteRam.t) (w : world) :
  0 ≤ i →
  arrs !! Z.to_nat i = Some src →
  arrs !! Z.to_nat (i + 1) = Some dst →
  bin_packing.bin_packing_step C B key_index i j arrs w =
    match packing.step C B key_index i (RemoteRam.memory src) j (RemoteRam.memory dst) with
    | Val D' =>
        Val (<[Z.to_nat (i + 1) := HashTable.set_memory dst D']> arrs,
             bump w (2 * cost (RemoteRam.local src)) (2 * cost (RemoteRam.local dst)))
    | Exc e => Exc e
    end.
Proof.
  intros Hi Hsrc Hdst.
  unfold bin_packing.bin_packing_step, packing.step.
  unfold bind at 1. rewrite (py_index_nat _ _ _ Hi Hsrc), lift_val.
  unfold bind at 1. rewrite read_memory_cell_pure.
  destruct (packing.cell_at (RemoteRam.memory src) _) as [a_0|e]; [|reflexivity].
  unfold bind at 1. rewrite read_memory_cell_pure.
  destruct (packing.cell_at (RemoteRam.memory src) _) as [a_1|e]; [|reflexivity].
  unfold bind at 1, res_bind at 1 2 3.
  destruct (bin_packing.merge_split _ _ _ _ _ _) as [[|b_0 b_1]|e].
  - reflexivity.
  - rewrite lift_val.
    unfold bind at 1. assert (Hi1 : 0 ≤ i + 1) by lia. rewrite (py_index_nat _ _ _ Hi1 Hdst), lift_val.
    unfold bind at 1. rewrite write_memory_cell_pure.
    unfold res_bind at 1.
    destruct (packing.store_at (RemoteRam.memory dst) _ _) as [D1|e]; [|reflexivity].
    unfold bind at 1. rewrite write_memory_cell_pure. simpl.
    destruct (packing.store_at D1 _ _) as [D2|e]; [|reflexivity].
    rewrite py_set_nat by (eauto; lia). rewrite lift_val, !bump_bump.
    replace (HashTable.set_memory (HashTable.set_memory dst D1) D2)
      with (HashTable.set_memory dst D2) by reflexivity.
    do 2 f_equal. f_equal; lia.
  - reflexivity.
Qed.

Lemma inner_refine (i : Z) (src : RemoteRam.t) (js : list Z) :
  0 ≤ i →
  ∀ (arrs : list RemoteRam.t) (dst : RemoteRam.t) (w : world),
  arrs !! Z.to_nat i = Some src →
  arrs !! Z.to_nat (i + 1) = Some dst →
  for_each js (bin_packing.bin_packing_step C B key_index i) arrs w =
    match for_each_res js (packing.step C B key_index i (RemoteRam.memory src))
                       (RemoteRam.memory dst) with
    | Val D' =>
        Val (<[Z.to_nat (i + 1) := HashTable.set_memory dst D']> arrs,
             bump w (Z.of_nat (length js) * (2 * cost (RemoteRam.local src)))
                    (Z.of_nat (length js) * (2 * cost (RemoteRam.local dst))))
    | Exc e => Exc e
    end.
Proof.
  intros Hi. induction js as [|j js IH]; intros arrs dst w Hsrc Hdst.
  - simpl. unfold ret. rewrite set_memory_id, list_insert_id by done.
    change (Z.of_nat 0) with 0. rewrite !Z.mul_0_l, bump_0. reflexivity.
  - cbn [for_each for_each_res]. unfold bind at 1, res_bind at 1.
    rewrite (step_refine i j arrs src dst w Hi Hsrc Hdst).
    destruct (packing.step _ _ _ _ _ _ _) as [D1|e]; [|reflexivity].
    assert (Hne : Z.to_nat i ≠ Z.to_nat (i + 1)) by lia.
    rewrite (IH _ (HashTable.set_memory dst D1)).
    + simpl. destruct (for_each_res js _ D1) as [D'|e]; [|reflexivity].
      rewrite list_insert_insert_eq, bump_bump. f_equal. f_equal. f_equal; lia.
    + rewrite list_lookup_insert_ne by done. exact Hsrc.
    + apply list_lookup_insert_eq. by eapply lookup_lt_Some.
Qed.



Variable local : bool.

Let fresh : RemoteRam.t := RemoteRam.new B C None local.
Let pairs : Z := Z.of_nat (length (range (C / 2))).

Lemma outer_refine (len : nat) :
  ∀ (i : Z) (arrs : list RemoteRam.t) (src : RemoteRam.t) (w : world),
  0 ≤ i →
  arrs !! Z.to_nat i = Some src →
  (∀ t, i < t ≤ i + Z.of_nat len → arrs !! Z.to_nat t = Some fresh) →
  match packing.levels C B key_index (seqZ i (Z.of_nat len)) (RemoteRam.memory src) with
  | Val A =>
      ∃ arrs',
        for_each (seqZ i (Z.of_nat len))
          (λ i, for_each (range (C / 2)) (bin_packing.bin_packing_step C B key_index i))
          arrs w
        = Val (arrs',
               match len with
               | O => w
               | S len' =>
                   bump w (pairs * (2 * cost (RemoteRam.local src))
                           + Z.of_nat len' * (pairs * (2 * cost local)))
                          (Z.of_nat len * (pairs * (2 * cost local)))
               end)
        ∧ arrs' !! Z.to_nat (i + Z.of_nat len)
          = Some (match len with O => src | S _ => HashTable.set_memory fresh A end)
  | Exc e =>
      for_each (seqZ i (Z.of_nat len))
        (λ i, for_each (range (C / 2)) (bin_packing.bin_packing_step C B key_index i))
        arrs w
      = Exc e
  end.
Proof.
  induction len as [|len IH]; intros i arrs src w Hi Hsrc Hfresh.
  - simpl. exists arrs. split; [reflexivity|]. rewrite Z.add_0_r. exact Hsrc.
  - rewrite seqZ_cons by lia.
    replace (Z.pred (Z.of_nat (S len))) with (Z.of_nat len) by lia.
    unfold packing.levels. cbn [for_each for_each_res].
    unfold bind at 1 2, res_bind at 1.
    assert (Hdst : arrs !! Z.to_nat (i + 1) = Some fresh) by (apply Hfresh; lia).
    rewrite (inner_refine i src (range (C / 2)) Hi arrs fresh w Hsrc Hdst).
    change (for_each_res (range (C / 2))
              (packing.step C B key_index i (RemoteRam.memory src))
              (RemoteRam.memory fresh))
      with (packing.round C B key_index i (RemoteRam.memory src)).
    destruct (packing.round C B key_index i (RemoteRam.memory src)) as [A1|e];
      cbv beta iota; [|reflexivity].
    set (arrs1 := <[Z.to_nat (i + 1) := HashTable.set_memory fresh A1]> arrs).
    set (w1 := bump w _ _).
    specialize (IH (Z.succ i) arrs1 (HashTable.set_memory fresh A1) w1).
    assert (H1 : arrs1 !! Z.to_nat (Z.succ i) = Some (HashTable.set_memory fresh A1)).
    { unfold arrs1. replace (Z.succ i) with (i + 1) by lia.
      apply list_lookup_insert_eq. by eapply lookup_lt_Some. }
    assert (H2 : ∀ t, Z.succ i < t ≤ Z.succ i + Z.of_nat len →
                 arrs1 !! Z.to_nat t = Some fresh).
    { intros t Ht. unfold arrs1. rewrite list_lookup_insert_ne by lia.
      apply Hfresh. lia. }
    specialize (IH ltac:(lia) H1 H2).
    unfold packing.levels in IH. simpl RemoteRam.memory in IH.
    destruct (for_each_res (seqZ (Z.succ i) (Z.of_nat len)) _ A1) as [A|e] eqn:Hlev;
      cbv beta iota in IH |- *; [|exact IH].
    destruct IH as (arrs' & Hrun & Hlast). exists arrs'. split.
    + rewrite Hrun. f_equal. f_equal. unfold w1, pairs, fresh.
      simpl RemoteRam.local.
      destruct len as [|len'].
      * f_equal; lia.
      * rewrite bump_bump. f_equal; lia.
    + replace (i + Z.of_nat (S len)) with (Z.succ i + Z.of_nat len) by lia.
      rewrite Hlast. destruct len; [|reflexivity].
      simpl in Hlev. injection Hlev as <-. reflexivity.
Qed.

End bin_packing_refine.
Lemma length_range (n : Z) : Z.of_nat (length (range n)) = Z.max 0 n.
Proof. unfold range. rewrite length_seqZ. lia. Qed.

Lemma log2_choose_C_nonneg n B : 0 ≤ Z.log2 (choose_C n B).
Proof. apply Z.log2_nonneg. Qed.

(** [bin_packing] computes the pure levels; on success the counters have
    moved by two reads and two writes per merge-split step, counted on
    the memories that are not local. *)
Theorem bin_packing_refine (X : RemoteRam.t) (n B key_index : Z) (local : bool) (w : world) :
  let C := choose_C n B in
  let k := Z.log2 C in
  bin_packing.bin_packing X n B key_index local w =
    match packing.levels C B key_index (range k) (RemoteRam.memory X) with
    | Val A =>
        Val (if k =? 0 then X else RemoteRam.mk B C A local,
             if k =? 0 then w
             else bump w ((C / 2) * (2 * cost (RemoteRam.local X))
                          + (k - 1) * ((C / 2) * (2 * cost local)))
                         (k * ((C / 2) * (2 * cost local))))
    | Exc e => Exc e
    end.
Proof.
  intros C k. unfold bin_packing.bin_packing. fold C. fold k.
  assert (Hk : 0 ≤ k) by apply Z.log2_nonneg.
  assert (HC : 1 ≤ C) by apply choose_C_pos.
  set (fresh := RemoteRam.new B C None local).
  set (arrs0 := (λ _ : Z, fresh) <$> range (k + 1)).
  assert (Hlen0 : length arrs0 = Z.to_nat (k + 1)).
  { unfold arrs0, range. rewrite length_fmap, length_seqZ. reflexivity. }
  unfold bind at 1. rewrite py_set_in_range by lia. rewrite lift_val.
  set (arrs := <[Z.to_nat 0 := X]> arrs0).
  assert (Hfresh : ∀ t, 0 < t ≤ 0 + Z.of_nat (Z.to_nat k) →
                   arrs !! Z.to_nat t = Some fresh).
  { intros t Ht. unfold arrs. rewrite list_lookup_insert_ne by lia.
    unfold arrs0. rewrite list_lookup_fmap.
    unfold range. rewrite (lookup_seqZ_lt 0 (k + 1) (Z.to_nat t)) by lia.
    reflexivity. }
  assert (Hsrc : arrs !! Z.to_nat 0 = Some X).
  { unfold arrs. apply list_lookup_insert_eq. lia. }
  pose proof (outer_refine C B key_index local (Z.to_nat k) 0 arrs X w
                ltac:(lia) Hsrc Hfresh) as Hrun.
  rewrite Z2Nat.id in Hrun by lia.
  replace (k + 1 - 1) with k by lia.
  change (range k) with (seqZ 0 k).
  unfold bind at 1.
  destruct (packing.levels C B key_index (seqZ 0 k) (RemoteRam.memory X)) as [A|e];
    [|rewrite Hrun; reflexivity].
  destruct Hrun as (arrs' & -> & Hlast).
  rewrite Z.add_0_l in Hlast. cbv beta iota.
  rewrite (py_index_nat _ _ _ Hk Hlast), lift_val.
  rewrite length_range, Z.max_r by (apply Z.div_pos; lia).
  destruct (Z.eqb_spec k 0) as [->|Hne].
  - reflexivity.
  - destruct (Z.to_nat k) as [|k'] eqn:Hk'; [lia|].
    f_equal. f_equal. f_equal; lia.
Qed.
(** ** The counter model of [bin_packing] against the real one *)


(** ** [merge_split] on well-formed cells *)

Section merge_split_facts.

Import routing.

Variables B bl key_index i : Z.
Hypothesis key_index_nonneg : 0 ≤ key_index.
Hypothesis bit_in_range : 0 ≤ bl - (i + 1).

Lemma filter_singleton (f : elem → bool) (x : elem) :
  filter (λ y, f y) [x] = if f x then [x] else [].
Proof.
  rewrite filter_cons, filter_nil. destruct (f x); case_decide; done.
Qed.

Lemma route_spec (x : elem) (bs : block * block) :
  routable key_index x →
  bin_packing.route i bl key_index x bs =
    Val (bs.1 ++ filter (λ y, goes bl key_index i false y) [x],
         bs.2 ++ filter (λ y, goes bl key_index i true y) [x]).
Proof.
  intros Hx. rewrite !filter_singleton.
  destruct x as [|k rest]; [done|].
  unfold bin_packing.route, is_dummy.
  rewrite (py_index_nat _ 0 k) by done. unfold res_bind at 1 2.
  unfold goes, is_real.
  destruct (val_eqb k DUMMY_ADDR) eqn:Hk; simpl negb; cbv iota.
  - simpl. rewrite !app_nil_r. by destruct bs.
  - unfold routable in Hx. rewrite Hk, orb_false_l in Hx.
    destruct ((k :: rest) !! Z.to_nat key_index) as [[z| |]|] eqn:Hf; try done.
    assert (Hd : dest key_index (k :: rest) = z) by (unfold dest; by rewrite Hf).
    rewrite (py_index_nat _ key_index (VInt z)) by done.
    unfold res_bind, as_int, get_msb_at_index, bit. rewrite Hd.
    assert (Hlt : (bl - (i + 1) <? 0) = false) by lia. rewrite Hlt.
    destruct (Z.land _ 1 =? 0) eqn:Hb; simpl; rewrite ?app_nil_r; reflexivity.
Qed.

Lemma steps_spec (a_0 a_1 : block) (len : nat) :
  ∀ (j : nat) (bs : block * block),
  (j + len ≤ length a_0)%nat → (j + len ≤ length a_1)%nat →
  Forall (λ x, routable key_index x) a_0 →
  Forall (λ x, routable key_index x) a_1 →
  for_each_res (seqZ (Z.of_nat j) (Z.of_nat len))
    (bin_packing.merge_split_step a_0 a_1 i bl key_index) bs =
  Val (bs.1 ++ half bl key_index i false (take len (drop j a_0)) (take len (drop j a_1)),
       bs.2 ++ half bl key_index i true (take len (drop j a_0)) (take len (drop j a_1))).
Proof.
  induction len as [|len IH]; intros j bs H0 H1 Hr0 Hr1.
  - simpl. unfold half. simpl. rewrite !app_nil_r. by destruct bs.
  - rewrite seqZ_cons by lia.
    replace (Z.pred (Z.of_nat (S len))) with (Z.of_nat len) by lia.
    replace (Z.succ (Z.of_nat j)) with (Z.of_nat (S j)) by lia.
    destruct (lookup_lt_is_Some_2 a_0 j ltac:(lia)) as [x Hx].
    destruct (lookup_lt_is_Some_2 a_1 j ltac:(lia)) as [y Hy].
    cbn [for_each_res]. unfold res_bind at 1.
    unfold bin_packing.merge_split_step.
    rewrite (py_index_nat a_0 (Z.of_nat j) x) by (rewrite ?Nat2Z.id; (done || lia)).
    unfold res_bind at 1.
    rewrite route_spec by exact (Forall_lookup_1 _ _ _ _ Hr0 Hx).
    unfold res_bind at 1.
    rewrite (py_index_nat a_1 (Z.of_nat j) y) by (rewrite ?Nat2Z.id; (done || lia)).
    unfold res_bind at 1.
    rewrite route_spec by exact (Forall_lookup_1 _ _ _ _ Hr1 Hy).
    rewrite IH by (done || lia). cbn [fst snd].
    rewrite (drop_S a_0 x j Hx), (drop_S a_1 y j Hy). cbn [take interleave].
    unfold half. rewrite !filter_singleton. cbn [interleave].
    rewrite !(filter_cons _ x), !(filter_cons _ y).
    f_equal. f_equal; rewrite <- !app_assoc; f_equal;
      repeat case_decide; repeat destruct (goes _ _ _ _ _); done.
Qed.

Lemma fill_bins_spec (a_0 a_1 : block) :
  0 ≤ B →
  wf_cell B key_index a_0 → wf_cell B key_index a_1 →
  bin_packing.fill_bins a_0 a_1 i B bl key_index =
    Val (half bl key_index i false a_0 a_1, half bl key_index i true a_0 a_1).
Proof.
  intros HB [Hl0 Hr0] [Hl1 Hr1]. unfold bin_packing.fill_bins, range.
  rewrite <- (Z2Nat.id B) at 1 by lia.
  rewrite (steps_spec a_0 a_1 (Z.to_nat B) 0) by (done || lia).
  simpl drop. rewrite <- Hl0 at 1 3. rewrite <- Hl1. rewrite !firstn_all. reflexivity.
Qed.

End merge_split_facts.
(** ** One level of [bin_packing] on a well-formed memory *)

Section level_facts.

Import routing level.

Variables k B key_index : Z.
Hypothesis B_nonneg : 0 ≤ B.
Hypothesis key_index_nonneg : 0 ≤ key_index.

Let C : Z := 2 ^ k.

Lemma bit_length_pow2 : 0 < k → bit_length (C - 1) = k.
Proof.
  intros Hk. unfold bit_length, C.
  assert (2 ≤ 2 ^ k).
  { replace k with (1 + (k - 1)) by lia. rewrite Z.pow_add_r by lia.
    assert (0 < 2 ^ (k - 1)) by (apply Z.pow_pos_nonneg; lia). lia. }
  destruct (Z.eqb_spec (2 ^ k - 1) 0); [lia|].
  change (2 ^ k - 1) with (Z.pred (2 ^ k)). rewrite Z.log2_pred_pow2 by lia. lia.
Qed.

Lemma half_C (i : Z) : 0 ≤ i < k → C / 2 = 2 ^ (k - 1 - i) * 2 ^ i ∧ C = 2 * (C / 2).
Proof.
  intros Hi.
  assert (H1 : 2 ^ k = 2 * 2 ^ (k - 1)).
  { rewrite <- Z.pow_succ_r by lia. f_equal. lia. }
  assert (H2 : 2 ^ (k - 1) = 2 ^ (k - 1 - i) * 2 ^ i).
  { rewrite <- Z.pow_add_r by lia. f_equal; lia. }
  unfold C. rewrite H1, (Z.mul_comm 2), Z.div_mul by lia. lia.
Qed.

Lemma pair_in_range (i j : Z) :
  0 ≤ i < k → 0 ≤ j < C / 2 →
  0 ≤ left_cell i j ∧ right_cell i j < C.
Proof.
  intros Hi Hj. destruct (half_C i Hi) as [Hh HC].
  unfold right_cell, left_cell.
  assert (Hp : 0 < 2 ^ i) by (apply Z.pow_pos_nonneg; lia).
  assert (Hq : 0 < 2 ^ (k - 1 - i)) by (apply Z.pow_pos_nonneg; lia).
  pose proof (Z.div_mod j (2 ^ i) ltac:(lia)) as Hdm.
  pose proof (Z.mod_pos_bound j (2 ^ i) Hp) as Hm.
  assert (0 ≤ j / 2 ^ i) by (apply Z.div_pos; lia).
  assert (j / 2 ^ i < 2 ^ (k - 1 - i)).
  { apply Z.div_lt_upper_bound; lia. }
  nia.
Qed.

Lemma cell_at_spec (A : list block) (p : Z) :
  0 ≤ p < Z.of_nat (length A) →
  packing.cell_at A p = Val (cell_of A p) ∧ A !! Z.to_nat p = Some (cell_of A p).
Proof.
  intros Hp. unfold packing.cell_at, cell_of.
  rewrite (proj2 (index_guard_false _ _) Hp).
  destruct (py_index_in_range A p Hp) as (x & -> & ->). done.
Qed.

Lemma store_at_middle (done todo : list block) (d b : block) (p : Z) :
  p = Z.of_nat (length done) →
  packing.store_at (done ++ d :: todo) p b = Val (done ++ b :: todo).
Proof.
  intros ->. unfold packing.store_at.
  rewrite (proj2 (index_guard_false _ _)) by (rewrite length_app; simpl; lia).
  rewrite py_set_in_range by (rewrite length_app; simpl; lia).
  rewrite Nat2Z.id. f_equal.
  rewrite insert_app_r_alt by done. rewrite Nat.sub_diag. reflexivity.
Qed.

Lemma merge_split_spec (a_0 a_1 : block) (i bl : Z) :
  0 ≤ bl - (i + 1) →
  wf_cell B key_index a_0 → wf_cell B key_index a_1 →
  bin_packing.merge_split a_0 a_1 i B bl key_index =
    Val (if (Z.of_nat (length (half bl key_index i false a_0 a_1)) >? B)
            || (Z.of_nat (length (half bl key_index i true a_0 a_1)) >? B)
         then bin_packing.SplitOverflow
         else bin_packing.Split (pad B (half bl key_index i false a_0 a_1))
                                (pad B (half bl key_index i true a_0 a_1))).
Proof.
  intros Hbit H0 H1. unfold bin_packing.merge_split.
  rewrite (fill_bins_spec B bl key_index i key_index_nonneg Hbit a_0 a_1 B_nonneg H0 H1).
  unfold res_bind. cbn [fst snd]. by destruct (_ || _).
Qed.


Lemma wf_cell_of (A : list block) (p : Z) :
  wf_memory C B key_index A → 0 ≤ p < C → wf_cell B key_index (cell_of A p).
Proof.
  intros [Hlen Hall] Hp.
  destruct (cell_at_spec A p ltac:(lia)) as [_ Hl].
  exact (Forall_lookup_1 _ _ _ _ Hall Hl).
Qed.

Lemma app_cons_assoc {T : Type} (l : list T) (x : T) (l' : list T) :
  l ++ x :: l' = (l ++ [x]) ++ l'.
Proof. by rewrite <- app_assoc. Qed.

Lemma step_spec (A : list block) (i j : Z) (done todo : list block) (d_0 d_1 : block) :
  wf_memory C B key_index A →
  0 ≤ i < k → 0 ≤ j < C / 2 →
  Z.of_nat (length done) = 2 * j →
  packing.step C B key_index i A j (done ++ d_0 :: d_1 :: todo) =
    if overflows_at B k key_index A i j then Exc Overflow
    else Val (done ++ out_cell B k key_index A i (2 * j)
                   :: out_cell B k key_index A i (2 * j + 1) :: todo).
Proof.
  intros HA Hi Hj Hdone. unfold packing.step.
  destruct (pair_in_range i j Hi Hj) as [Hl Hr].
  assert (Hp : 0 < 2 ^ i) by (apply Z.pow_pos_nonneg; lia).
  assert (HlenA : Z.of_nat (length A) = C).
  { destruct HA as [-> _]. unfold C. rewrite Z2Nat.id; [done|].
    apply Z.pow_nonneg. lia. }
  fold (left_cell i j).
  change (left_cell i j + 2 ^ i) with (right_cell i j).
  destruct (cell_at_spec A (left_cell i j)) as [-> _];
    [unfold right_cell in Hr; lia|].
  destruct (cell_at_spec A (right_cell i j)) as [-> _];
    [unfold right_cell in *; lia|].
  unfold res_bind at 1 2.
  fold C. rewrite bit_length_pow2 by lia.
  rewrite merge_split_spec;
    [|lia|apply wf_cell_of; [done|unfold right_cell in Hr; lia]
     |apply wf_cell_of; [done|unfold right_cell in *; lia]].
  unfold res_bind at 1. unfold overflows_at. cbv zeta.
  destruct (_ || _); [reflexivity|].
  rewrite store_at_middle by lia. unfold res_bind.
  rewrite (app_cons_assoc done).
  rewrite store_at_middle by (rewrite length_app; simpl; lia).
  rewrite <- app_assoc. simpl. unfold out_cell.
  assert (Hd0 : 2 * j / 2 = j) by (rewrite Z.mul_comm, Z.div_mul; lia).
  assert (Hd1 : (2 * j + 1) / 2 = j) by (symmetry; apply (Z.div_unique _ _ j 1); lia).
  assert (Ho0 : Z.odd (2 * j) = false).
  { replace (2 * j) with (0 + 2 * j) by lia. by rewrite Z.odd_add_mul_2. }
  assert (Ho1 : Z.odd (2 * j + 1) = true).
  { replace (2 * j + 1) with (1 + 2 * j) by lia. by rewrite Z.odd_add_mul_2. }
  rewrite Hd0, Hd1, Ho0, Ho1. reflexivity.
Qed.

Lemma round_from (A : list block) (i : Z) (len : nat) :
  wf_memory C B key_index A → 0 ≤ i < k →
  ∀ (j : Z) (done todo : list block),
  0 ≤ j → j + Z.of_nat len ≤ C / 2 →
  Z.of_nat (length done) = 2 * j →
  length todo = (2 * len)%nat →
  for_each_res (seqZ j (Z.of_nat len)) (packing.step C B key_index i A) (done ++ todo) =
    if forallb (λ j, negb (overflows_at B k key_index A i j)) (seqZ j (Z.of_nat len))
    then Val (done ++ ((λ c, out_cell B k key_index A i c)
                         <$> seqZ (2 * j) (2 * Z.of_nat len)))
    else Exc Overflow.
Proof.
  intros HA Hi. induction len as [|len IH]; intros j done todo Hj Hle Hdone Htodo.
  - destruct todo; [|done]. simpl. reflexivity.
  - destruct todo as [|d_0 [|d_1 todo]]; [done|simpl in Htodo; lia|].
    rewrite seqZ_cons by lia.
    replace (Z.pred (Z.of_nat (S len))) with (Z.of_nat len) by lia.
    cbn [for_each_res forallb]. unfold res_bind at 1.
    rewrite step_spec by (done || lia).
    destruct (overflows_at B k key_index A i j); [reflexivity|].
    cbn [negb andb].
    rewrite (app_cons_assoc done), (app_cons_assoc (done ++ _)).
    rewrite <- (app_assoc done [_] [_]). cbn [app].
    rewrite IH; [|lia|lia|rewrite length_app; simpl; lia|simpl in Htodo; lia].
    destruct (forallb _ _); [|reflexivity].
    f_equal. rewrite <- app_assoc. f_equal.
    rewrite (seqZ_cons (2 * j)) by lia. rewrite (seqZ_cons (Z.succ (2 * j))) by lia.
    simpl fmap. cbn [app].
    replace (Z.succ (2 * j)) with (2 * j + 1) by lia.
    do 2 f_equal. change (list_fmap Z (list (list val))) with (@fmap list _ Z (list (list val))).
    f_equal. f_equal; lia.
Qed.

Lemma round_spec (A : list block) (i : Z) :
  wf_memory C B key_index A → 0 ≤ i < k →
  packing.round C B key_index i A =
    if fits C B k key_index A i then Val (next C B k key_index A i) else Exc Overflow.
Proof.
  intros HA Hi. unfold packing.round, fits, next, range.
  destruct (half_C i Hi) as [Hh HC]. fold C in HC.
  assert (0 ≤ C / 2) by (apply Z.div_pos; unfold C; [apply Z.pow_nonneg|]; lia).
  pose proof (round_from A i (Z.to_nat (C / 2)) HA Hi 0 []
                (py_repeat (py_repeat DUMMY B) C)) as Hrun.
  rewrite Z2Nat.id in Hrun by lia. cbn [app] in Hrun.
  rewrite Hrun; [|lia|lia|simpl; lia|].
  - replace (2 * 0) with 0 by lia. replace (2 * (C / 2)) with C by lia. reflexivity.
  - unfold py_repeat. rewrite length_replicate. lia.
Qed.

End level_facts.
(** ** All levels of [bin_packing] on a well-formed memory *)

Section levels_facts.

Import routing level levels.

Variables k B key_index : Z.
Hypothesis B_nonneg : 0 ≤ B.
Hypothesis key_index_nonneg : 0 ≤ key_index.

Let C : Z := 2 ^ k.

Lemma for_each_res_app {T S : Type} (l1 l2 : list T) (f : T → S → res S) (s : S) :
  for_each_res (l1 ++ l2) f s = let? s' := for_each_res l1 f s in for_each_res l2 f s'.
Proof.
  revert s. induction l1 as [|x l1 IH]; intros s; [reflexivity|].
  simpl. destruct (f x s); simpl; [apply IH|reflexivity].
Qed.


Lemma forallb_true {T : Type} (f : T → bool) (l : list T) (x : T) :
  forallb f l = true → x ∈ l → f x = true.
Proof.
  induction l as [|y l IH]; [by rewrite elem_of_nil|].
  simpl. intros [Hy Hl]%andb_prop [->|Hin]%elem_of_cons; auto.
Qed.

Lemma elem_of_interleave (a b : block) (x : elem) :
  x ∈ interleave a b → x ∈ a ∨ x ∈ b.
Proof.
  revert b. induction a as [|y a IH]; intros [|z b]; simpl; try by rewrite elem_of_nil.
  rewrite !elem_of_cons. intros [->|[->|H]]; auto.
  destruct (IH _ H); auto.
Qed.

Lemma routable_DUMMY : routable key_index DUMMY.
Proof. done. Qed.

Lemma next_wf (A : list block) (i : Z) :
  wf_memory C B key_index A → 0 ≤ i < k →
  fits C B k key_index A i = true →
  wf_memory C B key_index (next C B k key_index A i).
Proof.
  intros HA Hi Hfits. split.
  - unfold next, range. by rewrite length_fmap, length_seqZ.
  - unfold next. apply Forall_fmap, Forall_forall. intros c Hc.
    unfold range in Hc. apply elem_of_seqZ in Hc.
    destruct (half_C k i Hi) as [_ HC]. fold C in HC.
    assert (Hj : 0 ≤ c / 2 < C / 2).
    { split; [apply Z.div_pos; lia|apply Z.div_lt_upper_bound; lia]. }
    destruct (pair_in_range k i (c / 2) Hi Hj) as [Hl Hr]. fold C in Hr.
    assert (Hp : 0 < 2 ^ i) by (apply Z.pow_pos_nonneg; lia).
    pose proof (wf_cell_of k B key_index A (left_cell i (c / 2)) HA
                  ltac:(unfold right_cell in Hr; fold C; lia)) as [_ H0].
    pose proof (wf_cell_of k B key_index A (right_cell i (c / 2)) HA
                  ltac:(unfold right_cell in *; fold C; lia)) as [_ H1].
    assert (Hok : overflows_at B k key_index A i (c / 2) = false).
    { apply negb_true_iff.
      apply (forallb_true _ _ (c / 2) Hfits). unfold range. apply elem_of_seqZ. lia. }
    unfold overflows_at in Hok. cbv zeta in Hok. apply orb_false_elim in Hok.
    destruct Hok as [Hok0 Hok1]. rewrite Z.gtb_ltb, Z.ltb_ge in Hok0, Hok1.
    unfold out_cell, wf_cell, pad, py_repeat. split.
    + rewrite length_app, length_replicate. destruct (Z.odd c); lia.
    + apply Forall_app. split.
      * apply Forall_forall. intros x Hx. unfold half in Hx.
        apply list_elem_of_filter in Hx as [_ Hx].
        apply elem_of_interleave in Hx as [Hx|Hx].
        -- exact (proj1 (Forall_forall _ _) H0 x Hx).
        -- exact (proj1 (Forall_forall _ _) H1 x Hx).
      * apply Forall_replicate. exact routable_DUMMY.
Qed.

Lemma levels_spec (A : list block) (n : nat) :
  wf_memory C B key_index A → Z.of_nat n ≤ k →
  packing.levels C B key_index (seqZ 0 (Z.of_nat n)) A =
    (if fits_upto C B k key_index n A then Val (after C B k key_index n A)
     else Exc Overflow)
  ∧ (fits_upto C B k key_index n A = true →
     wf_memory C B key_index (after C B k key_index n A)).
Proof.
  intros HA. induction n as [|n IH]; intros Hn.
  - split; [reflexivity|]. intros _. exact HA.
  - destruct (IH ltac:(lia)) as [Hrun Hwf].
    rewrite seqZ_S. unfold packing.levels in *. rewrite for_each_res_app, Hrun.
    cbn [fits_upto after].
    destruct (fits_upto C B k key_index n A); [|split; [reflexivity|done]].
    cbn [res_bind for_each_res andb]. rewrite Z.add_0_l.
    rewrite (round_spec k B key_index B_nonneg key_index_nonneg _ _ (Hwf eq_refl))
      by lia.
    fold C. destruct (fits C B k key_index _ _) eqn:Hfits.
    + split; [reflexivity|]. intros _. apply next_wf; [by apply Hwf|lia|done].
    + split; [reflexivity|done].
Qed.



End levels_facts.
(** ** Overflow of [bin_packing] *)

Section overflow_facts.

Import routing level levels.

Lemma choose_C_pow2 n B : choose_C n B = 2 ^ Z.log2 (choose_C n B).
Proof.
  destruct (choose_C_spec n B) as (r & Heq & Hr & _).
  rewrite Heq at 2. by rewrite Z.log2_pow2.
Qed.


End overflow_facts.


(** ** The cost of lookups *)

Section lookup_facts.

Import built.

Variable entropy : nat → Z.
Variable hmac_sha256 : Z → val → Z.

Lemma lookup_scan_ok (k : val) (todo : nat) :
  ∀ cell : block,
  (todo ≤ length cell)%nat →
  Forall (λ x : elem, (2 ≤ length x)%nat) cell →
  ∃ r cell', HashTable.lookup_scan k todo cell = Val (r, cell')
             ∧ length cell' = length cell
             ∧ Forall (λ x : elem, (2 ≤ length x)%nat) cell'.
Proof.
  induction todo as [|todo IH]; intros cell Hlen Hall.
  - exists None, cell. done.
  - destruct cell as [|x cell]; [simpl in Hlen; lia|].
    apply Forall_cons in Hall as [Hx Hall].
    destruct x as [|k0 [|v rest]]; [simpl in Hx; lia..|].
    cbn [HashTable.lookup_scan]. unfold py_index. simpl.
    destruct (val_eqb k0 k).
    + eexists _, _. split; [reflexivity|]. split; [done|].
      apply Forall_cons. split; [simpl; lia|done].
    + destruct (IH cell ltac:(simpl in Hlen; lia) Hall) as (r & cell' & -> & Hl & Hf).
      eexists _, _. split; [reflexivity|]. simpl. split; [by rewrite Hl|].
      apply Forall_cons. split; [simpl; lia|done].
Qed.

Lemma bin_of_ok (self : HashTable.t) (k : val) (w : world) :
  0 < HashTable.C self →
  ∃ item_key w',
    HashTable.bin_of entropy hmac_sha256 self k w = Val (item_key, w')
    ∧ 0 ≤ item_key < HashTable.C self
    ∧ read_operations w' = read_operations w
    ∧ write_operations w' = write_operations w.
Proof.
  intros HC. unfold HashTable.bin_of.
  destruct (val_eqb k DUMMY_ADDR).
  - unfold randint. destruct (Z.ltb_spec (HashTable.C self - 1) 0); [lia|].
    eexists _, _. split; [reflexivity|]. simpl.
    replace (HashTable.C self - 1 - 0 + 1) with (HashTable.C self) by lia.
    pose proof (Z.mod_pos_bound (entropy (rng w)) (HashTable.C self) HC). lia.
  - eexists _, _. split; [reflexivity|].
    pose proof (Z.mod_pos_bound (hmac_sha256 (HashTable.secret_key self) k)
                  (HashTable.C self) HC). lia.
Qed.

(** One lookup into a well-formed table returns; it costs one read and
    one write on the table's memory and leaves the table well formed. *)
Lemma ht_lookup_ok (self : HashTable.t) (tbl : RemoteRam.t) (k : val) (w : world) :
  wf_table self tbl →
  ∃ item self' tbl' w',
    HashTable.ht_lookup entropy hmac_sha256 self k w = Val ((item, self'), w')
    ∧ wf_table self' tbl'
    ∧ RemoteRam.local tbl' = RemoteRam.local tbl
    ∧ read_operations w' = read_operations w + cost (RemoteRam.local tbl)
    ∧ write_operations w' = write_operations w + cost (RemoteRam.local tbl).
Proof.
  intros (Htbl & HC & Hlen & Hcells).
  unfold HashTable.ht_lookup.
  destruct (bin_of_ok self k w HC) as (item_key & w1 & Hbin & Hrange & Hr1 & Hw1).
  unfold bind at 1. rewrite Hbin.
  unfold bind at 1, HashTable.the_table. rewrite Htbl, lift_val.
  unfold bind at 1. rewrite read_memory_cell_pure.
  destruct (cell_at_spec (RemoteRam.memory tbl) item_key ltac:(lia)) as [-> Hcell].
  set (cell := level.cell_of (RemoteRam.memory tbl) item_key) in *.
  destruct (Forall_lookup_1 _ _ _ _ Hcells Hcell) as [Hcl Hce].
  assert (Hscan : ∃ found cell',
            (if negb (val_eqb k DUMMY_ADDR)
             then lift (HashTable.lookup_scan k (Z.to_nat (HashTable.B self)) cell)
             else ret (None, cell)) (bump w1 (cost (RemoteRam.local tbl)) 0)
            = Val ((found, cell'), bump w1 (cost (RemoteRam.local tbl)) 0)
            ∧ length cell' = length cell
            ∧ Forall (λ x : elem, (2 ≤ length x)%nat) cell').
  { destruct (negb (val_eqb k DUMMY_ADDR)).
    - destruct (lookup_scan_ok k (Z.to_nat (HashTable.B self)) cell ltac:(lia) Hce)
        as (r & cell' & Hs & Hl & Hf).
      exists r, cell'. rewrite Hs. done.
    - exists None, cell. done. }
  destruct Hscan as (found & cell' & Hs & Hl' & Hf').
  unfold bind at 1. rewrite Hs. cbn [fst snd].
  unfold bind at 1. rewrite write_memory_cell_pure.
  unfold packing.store_at.
  rewrite (proj2 (index_guard_false _ _)) by lia.
  rewrite py_set_in_range by lia.
  eexists _, _,
    (HashTable.set_memory tbl (<[Z.to_nat item_key := cell']> (RemoteRam.memory tbl))), _.
  split; [reflexivity|].
  split; [|split; [reflexivity|simpl; lia]].
  split; [reflexivity|]. split; [done|]. simpl. split.
  - rewrite length_insert. done.
  - apply Forall_insert; [done|]. split; [congruence|done].
Qed.

(** C3: [N] lookups into a built table whose memory is not local all
    return, whatever the keys (present, absent or the dummy key), and add
    exactly [N] to the read counter and [N] to the write counter: [2 N]
    counted operations. *)
Theorem lookups_cost (self : HashTable.t) (tbl : RemoteRam.t) (ks : list val) (w : world) :
  wf_table self tbl →
  RemoteRam.local tbl = false →
  ∃ items self' w',
    lookups entropy hmac_sha256 self ks w = Val ((items, self'), w')
    ∧ read_operations w' = read_operations w + Z.of_nat (length ks)
    ∧ write_operations w' = write_operations w + Z.of_nat (length ks)
    ∧ (read_operations w' + write_operations w')
      - (read_operations w + write_operations w) = 2 * Z.of_nat (length ks).
Proof.
  revert self tbl w. induction ks as [|k ks IH]; intros self tbl w Hwf Hloc.
  - exists [], self, w. simpl. split; [reflexivity|lia].
  - destruct (ht_lookup_ok self tbl k w Hwf)
      as (item & self1 & tbl1 & w1 & Hrun & Hwf1 & Hloc1 & Hr & Hw).
    rewrite Hloc in Hr, Hw, Hloc1. simpl in Hr, Hw.
    destruct (IH self1 tbl1 w1 Hwf1 Hloc1) as (items & self' & w' & Hrest & Hr' & Hw' & _).
    exists (item :: items), self', w'.
    cbn [lookups]. unfold bind at 1. rewrite Hrun. cbn [fst snd].
    unfold bind at 1. rewrite Hrest. split; [reflexivity|].
    cbn [length]. lia.
Qed.

End lookup_facts.

Lemma table0_is_built :
  ∃ w, examples.build0 = Val (examples.table0, w)
       ∧ HashTable.is_built examples.table0 = true.
Proof. eexists. split; [vm_compute; reflexivity|reflexivity]. Qed.

Lemma lookups_cost_witness :
  ∃ tbl items self' w',
    built.wf_table examples.table0 tbl
    ∧ RemoteRam.local tbl = false
    ∧ built.lookups examples.entropy0 examples.hmac0 examples.table0
        [VInt 3; VInt 9; DUMMY_ADDR] examples.world0
      = Val ((items, self'), w')
    ∧ read_operations w' = 0 + 3
    ∧ write_operations w' = 0 + 3.
Proof.
  assert (Hwf : built.wf_table examples.table0
                  (default (RemoteRam.new 0 0 None false)
                           (HashTable.table examples.table0))).
  { split; [reflexivity|]. split; [reflexivity|]. split; [reflexivity|].
    repeat constructor. }
  destruct (lookups_cost examples.entropy0 examples.hmac0 examples.table0 _
              [VInt 3; VInt 9; DUMMY_ADDR] examples.world0 Hwf eq_refl)
    as (items & self' & w' & Hrun & Hr & Hw & _).
  eexists _, items, self', w'. split; [exact Hwf|]. split; [reflexivity|].
  split; [exact Hrun|]. split; [exact Hr|exact Hw].
Defined.
(** ** Inversion of computations that return *)

Section inversion.

Lemma bind_inv {A B : Type} (c : M A) (k : A → M B) (w : world) (r : B * world) :
  bind c k w = Val r → ∃ a w1, c w = Val (a, w1) ∧ k a w1 = Val r.
Proof. unfold bind. destruct (c w) as [[a w1]|e]; [eauto|discriminate]. Qed.

Lemma lift_inv {A : Type} (r : res A) (w : world) (a : A) (w' : world) :
  lift r w = Val (a, w') → r = Val a ∧ w' = w.
Proof. unfold lift. destruct r; [|discriminate]. intros [= -> ->]. done. Qed.

Lemma ret_inv {A : Type} (a b : A) (w w' : world) :
  ret a w = Val (b, w') → b = a ∧ w' = w.
Proof. unfold ret. intros [= -> ->]. done. Qed.

Lemma res_bind_inv {A B : Type} (r : res A) (k : A → res B) (b : B) :
  res_bind r k = Val b → ∃ a, r = Val a ∧ k a = Val b.
Proof. destruct r; [eauto|discriminate]. Qed.

Lemma py_index_inv {A : Type} (l : list A) (i : Z) (x : A) :
  0 ≤ i → py_index l i = Val x → l !! Z.to_nat i = Some x.
Proof.
  intros Hi. unfold py_index. assert (Hlt : (i <? 0) = false) by lia.
  cbv zeta. rewrite !Hlt. destruct (l !! Z.to_nat i); [|discriminate]. congruence.
Qed.

Lemma py_set_inv {A : Type} (l : list A) (i : Z) (x : A) (l' : list A) :
  0 ≤ i → py_set l i x = Val l' →
  l' = <[Z.to_nat i := x]> l ∧ (Z.to_nat i < length l)%nat.
Proof.
  intros Hi. unfold py_set. assert (Hlt : (i <? 0) = false) by lia.
  cbv zeta. rewrite !Hlt. simpl.
  destruct (Z.leb_spec (Z.of_nat (length l)) i); [discriminate|].
  intros [= <-]. split; [done|lia].
Qed.

(** A property of the loop state that every iteration preserves holds
    when the loop returns. *)
Lemma for_each_inv {A S : Type} (P : S → Prop) (body : A → S → M S) (xs : list A) :
  (∀ x s w s' w', x ∈ xs → P s → body x s w = Val (s', w') → P s') →
  ∀ s w s' w', P s → for_each xs body s w = Val (s', w') → P s'.
Proof.
  induction xs as [|x xs IH]; intros Hbody s w s' w' Hs Hrun.
  - apply ret_inv in Hrun as [-> _]. done.
  - cbn [for_each] in Hrun. apply bind_inv in Hrun as (s1 & w1 & H1 & Hrest).
    eapply IH; [|eapply Hbody; [by left|exact Hs|exact H1]|exact Hrest].
    intros y t v t' v' Hy. apply Hbody. by right.
Qed.

Lemma for_each_res_inv {A S : Type} (P : S → Prop) (body : A → S → res S) (xs : list A) :
  (∀ x s s', x ∈ xs → P s → body x s = Val s' → P s') →
  ∀ s s', P s → for_each_res xs body s = Val s' → P s'.
Proof.
  induction xs as [|x xs IH]; intros Hbody s s' Hs Hrun.
  - injection Hrun as <-. done.
  - cbn [for_each_res] in Hrun. apply res_bind_inv in Hrun as (s1 & H1 & Hrest).
    eapply IH; [|eapply Hbody; [by left|exact Hs|exact H1]|exact Hrest].
    intros y t t' Hy. apply Hbody. by right.
Qed.

End inversion.
(** ** The load factors across an access *)

Tactic Notation "mbind" hyp(H) "as" ident(a) ident(w) ident(E) :=
  apply bind_inv in H as (a & w & E & H).

Tactic Notation "mlift" hyp(H) "as" ident(a) ident(E) :=
  let w := fresh "w" in
  apply bind_inv in H as (a & w & E & H);
  apply lift_inv in E as [E ->].

Tactic Notation "mret" hyp(H) :=
  apply ret_inv in H as [? ?]; subst.

Section oram_frame.

Import hierarchy.

Variable entropy : nat → Z.
Variable hmac_sha256 : Z → val → Z.

Lemma same_frame_refl self : same_frame self self.
Proof. by repeat split. Qed.

Lemma same_frame_trans a b c : same_frame a b → same_frame b c → same_frame a c.
Proof.
  unfold same_frame. intros (?&?&?&?&?&?&?) (?&?&?&?&?&?&?).
  repeat split; congruence.
Qed.

Lemma same_frame_set_tables self ts :
  length ts = length (MegaBlocksORAM.tables self) →
  same_frame self (MegaBlocksORAM.set_tables self ts).
Proof. intros H. by repeat split. Qed.

Lemma probe_step_frame (addr : val) (i : Z) (st st' : MegaBlocksORAM.probe_state)
    (w w' : world) :
  0 ≤ i →
  MegaBlocksORAM.probe_step entropy hmac_sha256 addr i st w = Val (st', w') →
  same_frame (MegaBlocksORAM.p_self st) (MegaBlocksORAM.p_self st').
Proof.
  intros Hi H. unfold MegaBlocksORAM.probe_step in H.
  mlift H as lf Hlf.
  destruct (negb _ && _).
  - mlift H as tbl Htbl. mbind H as r w1 Hlook.
    mlift H as ts Hts. apply py_set_inv in Hts as [-> Hlt]; [|done].
    destruct (negb (elem_eqb _ _)); mret H; simpl;
      apply same_frame_set_tables; by rewrite length_insert.
  - destruct (lf >? 0).
    + mlift H as tbl Htbl. mbind H as r w1 Hlook.
      mlift H as ts Hts. apply py_set_inv in Hts as [-> Hlt]; [|done].
      mret H. simpl. apply same_frame_set_tables. by rewrite length_insert.
    + mret H. apply same_frame_refl.
Qed.

Lemma gather_step_frame (i : Z) (st st' : MegaBlocksORAM.t * RemoteRam.t) (w w' : world) :
  0 ≤ i →
  MegaBlocksORAM.gather_step i st w = Val (st', w') →
  same_frame st.1 st'.1.
Proof.
  intros Hi H. unfold MegaBlocksORAM.gather_step in H.
  mlift H as tbl Htbl.
  destruct (HashTable.is_built tbl).
  - mbind H as r w1 Hext. mlift H as ts Hts.
    apply py_set_inv in Hts as [-> Hlt]; [|done].
    mlift H as c1 Hc1. mlift H as c2 Hc2. mlift H as u Hu. mret H. simpl.
    apply same_frame_set_tables. by rewrite length_insert.
  - mret H. apply same_frame_refl.
Qed.

Lemma probe_loop_frame (addr : val) (n : Z) (st st' : MegaBlocksORAM.probe_state)
    (w w' : world) :
  for_each (range n) (MegaBlocksORAM.probe_step entropy hmac_sha256 addr) st w
  = Val (st', w') →
  same_frame (MegaBlocksORAM.p_self st) (MegaBlocksORAM.p_self st').
Proof.
  apply (for_each_inv (λ s, same_frame (MegaBlocksORAM.p_self st) (MegaBlocksORAM.p_self s))).
  - intros x s v s' v' Hx Hs Hstep. unfold range in Hx. apply elem_of_seqZ in Hx.
    eapply same_frame_trans; [exact Hs|]. eapply probe_step_frame; [|exact Hstep]. lia.
  - apply same_frame_refl.
Qed.

Lemma gather_loop_frame (n : Z) (st st' : MegaBlocksORAM.t * RemoteRam.t) (w w' : world) :
  for_each (range n) (MegaBlocksORAM.gather_step) st w
  = Val (st', w') →
  same_frame st.1 st'.1.
Proof.
  apply (for_each_inv (λ s, same_frame st.1 s.1)).
  - intros x s v s' v' Hx Hs Hstep. unfold range in Hx. apply elem_of_seqZ in Hx.
    eapply same_frame_trans; [exact Hs|]. eapply gather_step_frame; [|exact Hstep]. lia.
  - apply same_frame_refl.
Qed.


Lemma ht_build_is_built (self self' : HashTable.t) (w w' : world) :
  HashTable.ht_build entropy hmac_sha256 self w = Val (self', w') →
  HashTable.is_built self' = true.
Proof.
  unfold HashTable.ht_build. destruct (HashTable.C self >? 1); intros H.
  - mbind H as st w1 H1. mbind H as xp w2 H2. mbind H as packed w3 H3. by mret H.
  - by mret H.
Qed.

Lemma find_first_below_spec (bound : Z) (lfs : list Z) :
  ∀ index : Z,
  match MegaBlocksORAM.find_first_below bound index lfs with
  | Some j => index ≤ j < index + Z.of_nat (length lfs)
              ∧ ∃ x, lfs !! Z.to_nat (j - index) = Some x ∧ x < bound
  | None => True
  end.
Proof.
  induction lfs as [|x lfs IH]; intros index; [done|].
  cbn [MegaBlocksORAM.find_first_below].
  destruct (Z.ltb_spec x bound).
  - split; [simpl; lia|]. exists x. rewrite Z.sub_diag. done.
  - specialize (IH (index + 1)).
    destruct (MegaBlocksORAM.find_first_below bound (index + 1) lfs) as [j|]; [|done].
    destruct IH as [Hj (y & Hy & Hlt)]. split; [simpl; lia|]. exists y. split; [|done].
    replace (Z.to_nat (j - index)) with (S (Z.to_nat (j - (index + 1)))) by lia.
    exact Hy.
Qed.

Lemma find_ht_index_spec (self : MegaBlocksORAM.t) :
  lf_inv self →
  let j := MegaBlocksORAM.find_ht_index self in
  0 ≤ j ≤ MegaBlocksORAM.amount_of_levels self
  ∧ (j < MegaBlocksORAM.amount_of_levels self →
     ∃ x, MegaBlocksORAM.load_factors self !! Z.to_nat j = Some x
          ∧ x < MegaBlocksORAM.q self - 1).
Proof.
  intros (HL & Hlen & Hb) j. unfold j, MegaBlocksORAM.find_ht_index.
  pose proof (find_first_below_spec (MegaBlocksORAM.q self - 1)
                (MegaBlocksORAM.load_factors self) 0) as H.
  destruct (MegaBlocksORAM.find_first_below _ 0 _) as [j'|]; simpl.
  - destruct H as [Hj (x & Hx & Hlt)]. split; [lia|]. intros _. exists x.
    rewrite Z.sub_0_r in Hx. done.
  - split; [lia|]. lia.
Qed.

Lemma reset_step_spec (i : Z) (self self' : MegaBlocksORAM.t) :
  0 ≤ i →
  MegaBlocksORAM.reset_step i self = Val self' →
  ∃ tbl, MegaBlocksORAM.tables self !! Z.to_nat i = Some tbl
    ∧ (Z.to_nat i < length (MegaBlocksORAM.load_factors self))%nat
    ∧ self' = MegaBlocksORAM.set_load_factors
                (MegaBlocksORAM.set_tables self
                   (<[Z.to_nat i :=
                        HashTable.mk false (HashTable.X tbl) (HashTable.n tbl)
                          (HashTable.B tbl) (HashTable.C tbl) (HashTable.secret_key tbl)
                          (HashTable.local tbl) None]> (MegaBlocksORAM.tables self)))
                (<[Z.to_nat i := 0]> (MegaBlocksORAM.load_factors self)).
Proof.
  intros Hi H. unfold MegaBlocksORAM.reset_step in H.
  apply res_bind_inv in H as (tbl & Htbl & H).
  apply res_bind_inv in H as (ts & Hts & H).
  apply res_bind_inv in H as (lf & Hlf & H).
  apply py_index_inv in Htbl; [|done].
  apply py_set_inv in Hts as [-> _]; [|done].
  apply py_set_inv in Hlf as [-> Hlt]; [|done].
  injection H as <-. exists tbl. done.
Qed.

Lemma reset_loop_spec (len : nat) :
  ∀ (a : Z) (self self' : MegaBlocksORAM.t),
  0 ≤ a →
  for_each_res (seqZ a (Z.of_nat len)) MegaBlocksORAM.reset_step self = Val self' →
  MegaBlocksORAM.q self' = MegaBlocksORAM.q self
  ∧ MegaBlocksORAM.amount_of_levels self' = MegaBlocksORAM.amount_of_levels self
  ∧ length (MegaBlocksORAM.load_factors self') = length (MegaBlocksORAM.load_factors self)
  ∧ (∀ i : nat, a ≤ Z.of_nat i < a + Z.of_nat len →
       MegaBlocksORAM.load_factors self' !! i = Some 0
       ∧ ∃ t, MegaBlocksORAM.tables self' !! i = Some t ∧ HashTable.is_built t = false)
  ∧ (∀ i : nat, ¬ (a ≤ Z.of_nat i < a + Z.of_nat len) →
       MegaBlocksORAM.load_factors self' !! i = MegaBlocksORAM.load_factors self !! i
       ∧ MegaBlocksORAM.tables self' !! i = MegaBlocksORAM.tables self !! i).
Proof.
  induction len as [|len IH]; intros a self self' Ha H.
  - injection H as <-. repeat split; try done; lia.
  - rewrite seqZ_cons in H by lia.
    replace (Z.pred (Z.of_nat (S len))) with (Z.of_nat len) in H by lia.
    cbn [for_each_res] in H. apply res_bind_inv in H as (self1 & Hstep & H).
    apply reset_step_spec in Hstep as (tbl & Htbl & Hlt & ->); [|done].
    apply IH in H as (Hq & HL & Hlen & Hin & Hout); [|lia].
    simpl in Hq, HL, Hlen, Hout. rewrite length_insert in Hlen.
    split; [done|]. split; [done|]. split; [done|]. split.
    + intros i Hi. destruct (decide (Z.of_nat i = a)) as [Heq|Hne].
      * destruct (Hout i ltac:(lia)) as [Hlf Hts]. rewrite Hlf, Hts.
        assert (i = Z.to_nat a) as -> by lia.
        rewrite list_lookup_insert_eq by exact Hlt.
        rewrite list_lookup_insert_eq by (eapply lookup_lt_Some; exact Htbl).
        split; [done|]. eexists. split; [reflexivity|done].
      * apply Hin. lia.
    + intros i Hi. destruct (Hout i ltac:(lia)) as [Hlf Hts]. rewrite Hlf, Hts.
      rewrite !list_lookup_insert_ne by lia. done.
Qed.

End oram_frame.
Section oram_load_factors.

Import hierarchy.

Variable entropy : nat → Z.
Variable hmac_sha256 : Z → val → Z.
Variable math_floor_log : Z → Z → Z.

Lemma find_ht_index_frame (self self' : MegaBlocksORAM.t) :
  same_frame self self' →
  MegaBlocksORAM.find_ht_index self' = MegaBlocksORAM.find_ht_index self.
Proof.
  intros (_ & _ & Hq & HL & _ & Hlf & _). unfold MegaBlocksORAM.find_ht_index.
  by rewrite Hq, HL, Hlf.
Qed.

Lemma access_preserves_lf_inv (self self' : MegaBlocksORAM.t) (op : operation)
    (addr data v : val) (w w' : world) :
  lf_inv self →
  MegaBlocksORAM.access entropy hmac_sha256 self op addr data w = Val ((v, self'), w') →
  lf_inv self'
  ∧ MegaBlocksORAM.q self' = MegaBlocksORAM.q self
  ∧ MegaBlocksORAM.amount_of_levels self' = MegaBlocksORAM.amount_of_levels self
  ∧ rebuilt_at self' (MegaBlocksORAM.find_ht_index self).
Proof.
  intros Hinv H. unfold MegaBlocksORAM.access in H.
  mbind H as st w1 Hprobe. cbv zeta in H.
  apply probe_loop_frame in Hprobe as Hf1. simpl in Hf1.
  rewrite (find_ht_index_frame _ _ Hf1) in H.
  destruct (find_ht_index_spec self Hinv) as [Hj Hfound].
  set (j := MegaBlocksORAM.find_ht_index self) in *.
  destruct Hinv as (HL & Hlen & Hbound).
  destruct Hf1 as (_ & _ & Hq1 & HL1 & _ & Hlf1 & _).
  rewrite HL1 in H.
  destruct (Z.ltb_spec j (MegaBlocksORAM.amount_of_levels self)) as [Hlt|Hge].
  - (* the target lies below the top level *)
    destruct (Hfound Hlt) as (x & Hx & Hxq).
    mbind H as st1 w2 Hgather.
    apply gather_loop_frame in Hgather as Hf2. simpl in Hf2.
    destruct Hf2 as (_ & _ & Hq2 & HL2 & _ & Hlf2 & _).
    mlift H as lf_j Hlfj. mlift H as lf Hlf. mlift H as size Hsize.
    mbind H as tbl w3 Hnew. mlift H as ts Hts. mbind H as tbl' w4 Hbuild.
    mlift H as ts' Hts'. mlift H as self5 Hreset. apply ret_inv in H as [[= -> ->] ->].
    apply py_index_inv in Hlfj; [|lia]. rewrite Hlf2, Hlf1, Hx in Hlfj.
    injection Hlfj as <-.
    apply py_set_inv in Hlf as [-> Hltj]; [|lia].
    apply py_set_inv in Hts as [-> Hltt]; [|lia].
    apply py_set_inv in Hts' as [-> Hltt']; [|lia].
    apply ht_build_is_built in Hbuild.
    unfold MegaBlocksORAM.reset_tables, range2 in Hreset.
    replace (j - 0) with (Z.of_nat (Z.to_nat j)) in Hreset by lia.
    apply reset_loop_spec in Hreset as (Hq5 & HL5 & Hlen5 & Hin & Hout); [|lia].
    simpl in Hq5, HL5, Hlen5, Hout. rewrite length_insert in Hlen5.
    rewrite Hlf2, Hlf1 in Hlen5, Hout.
    split; [|split; [congruence|split; [congruence|]]].
    + split; [lia|]. split; [rewrite Hlen5, HL5, HL2, HL1; done|].
      apply Forall_lookup. intros i y Hy.
      rewrite Hq5, Hq2, Hq1.
      destruct (decide (Z.of_nat i < j)) as [Hi|Hi].
      * destruct (Hin i ltac:(lia)) as [Hz _]. rewrite Hz in Hy. injection Hy as <-.
        pose proof (Forall_lookup_1 _ _ _ _ Hbound Hx). simpl in *. lia.
      * destruct (Hout i ltac:(lia)) as [Hz _]. rewrite Hz in Hy.
        destruct (decide (i = Z.to_nat j)) as [->|Hne].
        -- rewrite list_lookup_insert_eq in Hy by (rewrite Hlf2, Hlf1 in Hltj; done).
           injection Hy as <-.
           pose proof (Forall_lookup_1 _ _ _ _ Hbound Hx). simpl in *. lia.
        -- rewrite list_lookup_insert_ne in Hy by done.
           exact (Forall_lookup_1 _ _ _ _ Hbound Hy).
    + split.
      * intros i Hi. apply (Hin (Z.to_nat i)). lia.
      * destruct (Hout (Z.to_nat j) ltac:(lia)) as [_ Ht]. rewrite Ht.
        exists tbl'. split; [|done].
        apply list_lookup_insert_eq. by rewrite length_insert in *.
  - (* the target is the top level *)
    assert (j = MegaBlocksORAM.amount_of_levels self) as Hjeq by lia.
    mbind H as st1 w2 Hgather.
    apply gather_loop_frame in Hgather as Hf2. simpl in Hf2.
    destruct Hf2 as (_ & _ & Hq2 & HL2 & _ & Hlf2 & _).
    mlift H as lf_j Hlfj. mbind H as u_prime w3 Hcompact.
    mbind H as tbl w4 Hnew. mlift H as ts Hts. mbind H as tbl' w5 Hbuild.
    mlift H as ts' Hts'. mlift H as self5 Hreset. mlift H as lf Hlf. apply ret_inv in H as [[= -> ->] ->].
    apply py_set_inv in Hts as [-> Hltt]; [|lia].
    apply py_set_inv in Hts' as [-> Hltt']; [|lia].
    apply py_set_inv in Hlf as [-> Hltj]; [|lia].
    apply ht_build_is_built in Hbuild.
    unfold MegaBlocksORAM.reset_tables, range2 in Hreset.
    replace (j - 0) with (Z.of_nat (Z.to_nat j)) in Hreset by lia.
    apply reset_loop_spec in Hreset as (Hq5 & HL5 & Hlen5 & Hin & Hout); [|lia].
    simpl in Hq5, HL5, Hlen5, Hout.
    rewrite Hlf2, Hlf1 in Hlen5, Hout.
    simpl. split; [|split; [exact (eq_trans Hq5 (eq_trans Hq2 Hq1))|split; [exact (eq_trans HL5 (eq_trans HL2 HL1))|]]].
    + unfold lf_inv. simpl. split; [lia|]. split; [rewrite length_insert, Hlen5, HL5, HL2, HL1; done|].
      apply Forall_lookup. intros i y Hy.
      rewrite Hq5, Hq2, Hq1.
      assert (Hq0 : 0 ≤ MegaBlocksORAM.q self - 1).
      { destruct (MegaBlocksORAM.load_factors self) as [|z lfs] eqn:Hl;
          [simpl in Hlen; lia|].
        apply Forall_cons in Hbound as [Hz _]. lia. }
      destruct (decide (i = Z.to_nat j)) as [->|Hne].
      * rewrite list_lookup_insert_eq in Hy by done. injection Hy as <-. lia.
      * rewrite list_lookup_insert_ne in Hy by done.
        destruct (decide (Z.of_nat i < j)) as [Hi|Hi].
        -- destruct (Hin i ltac:(lia)) as [Hz _]. rewrite Hz in Hy.
           injection Hy as <-. lia.
        -- destruct (Hout i ltac:(lia)) as [Hz _]. rewrite Hz in Hy.
           exact (Forall_lookup_1 _ _ _ _ Hbound Hy).
    + unfold rebuilt_at. simpl. split.
      * intros i Hi. rewrite list_lookup_insert_ne by lia.
        apply (Hin (Z.to_nat i)). lia.
      * destruct (Hout (Z.to_nat j) ltac:(lia)) as [_ Ht]. rewrite Ht.
        exists tbl'. split; [|done].
        apply list_lookup_insert_eq. by rewrite length_insert in *.
Qed.


Lemma accesses_preserve_lf_inv (ops : list (operation * val * val)) :
  ∀ (self self' : MegaBlocksORAM.t) (rs : list val) (w w' : world),
  lf_inv self →
  accesses entropy hmac_sha256 self ops w = Val ((rs, self'), w') →
  lf_inv self'.
Proof.
  induction ops as [|[[op addr] data] ops IH]; intros self self' rs w w' Hinv H.
  - apply ret_inv in H as [[= -> ->] ->]. done.
  - cbn [accesses] in H. mbind H as r w1 Hacc. mbind H as rs' w2 Hrest.
    apply ret_inv in H as [[= -> ->] ->].
    destruct r as [v self1]. destruct rs' as [vs self2].
    apply access_preserves_lf_inv in Hacc as [Hinv1 _]; [|done].
    exact (IH _ _ _ _ _ Hinv1 Hrest).
Qed.

(** A constructor that returns has a level count that is not negative:
    with a negative one no table is made and the assignment
    [self.tables[self.amount_of_levels]] of [init_oram] raises. *)
Lemma new_levels_nonneg (N B q lm : Z) (self : MegaBlocksORAM.t) (w w' : world) :
  MegaBlocksORAM.new entropy hmac_sha256 math_floor_log N B q lm w = Val (self, w') →
  0 ≤ math_floor_log N q.
Proof.
  unfold MegaBlocksORAM.new. intros H.
  destruct ((N <=? 0) || (q <=? 0)); [discriminate|].
  destruct ((q =? 1) || (B =? 0)); [discriminate|].
  destruct (Z.le_gt_cases 0 (math_floor_log N q)) as [|Hneg]; [done|exfalso].
  mbind H as ts w1 Hts.
  unfold range in Hts. rewrite seqZ_nil in Hts by lia.
  cbn [for_each] in Hts. injection Hts as <- <-.
  unfold MegaBlocksORAM.init_oram in H. cbv zeta in H.
  mlift H as X HX. mbind H as tbl w2 Hnew. mlift H as ts1 Hts1.
  clear - Hts1 Hneg. unfold py_set in Hts1. cbn [length MegaBlocksORAM.tables
    MegaBlocksORAM.set_tables MegaBlocksORAM.amount_of_levels] in Hts1.
  assert (E : (math_floor_log N q <? 0) = true) by (apply Z.ltb_lt; lia).
  rewrite E in Hts1.
  assert (E' : (Z.of_nat 0 + math_floor_log N q <? 0) = true) by (apply Z.ltb_lt; lia).
  rewrite E' in Hts1. discriminate.
Qed.

Lemma init_oram_lf_inv (self self' : MegaBlocksORAM.t) (w w' : world) :
  0 ≤ MegaBlocksORAM.amount_of_levels self →
  1 ≤ MegaBlocksORAM.q self - 1 →
  MegaBlocksORAM.load_factors self
  = py_repeat 0 (MegaBlocksORAM.amount_of_levels self + 1) →
  MegaBlocksORAM.init_oram entropy hmac_sha256 self w = Val (self', w') →
  lf_inv self'.
Proof.
  intros HL Hq Hlf H. unfold MegaBlocksORAM.init_oram in H.
  mlift H as X HX. mbind H as tbl w1 Hnew. mlift H as ts Hts.
  mbind H as tbl' w2 Hbuild. mlift H as ts' Hts'. mlift H as lf Hset.
  injection H as <- <-.
  apply py_set_inv in Hset as [-> Hlt]; [|done].
  unfold lf_inv. simpl. rewrite length_insert, Hlf. unfold py_repeat.
  rewrite length_replicate. split; [done|]. split; [lia|].
  apply Forall_insert; [|lia]. apply Forall_replicate. lia.
Qed.

Lemma new_lf_inv (N B q lm : Z) (self : MegaBlocksORAM.t) (w w' : world) :
  MegaBlocksORAM.new entropy hmac_sha256 math_floor_log N B q lm w = Val (self, w') →
  lf_inv self ∧ MegaBlocksORAM.q self = q ∧ 2 ≤ q.
Proof.
  intros H. pose proof (new_levels_nonneg _ _ _ _ _ _ _ H) as HL.
  unfold MegaBlocksORAM.new in H.
  destruct (Z.leb_spec N 0); [discriminate|].
  destruct (Z.leb_spec q 0); [discriminate|]. simpl in H.
  destruct (Z.eqb_spec q 1); [discriminate|].
  destruct (Z.eqb_spec B 0); [discriminate|]. simpl in H.
  mbind H as ts w1 Hts.
  assert (Hq : MegaBlocksORAM.q self = q).
  { unfold MegaBlocksORAM.init_oram in H.
    mlift H as X HX. mbind H as tbl w2 Hnew. mlift H as ts1 Hts1.
    mbind H as tbl' w3 Hbuild. mlift H as ts' Hts'. mlift H as lf Hset.
    injection H as <- <-. done. }
  split; [|split; [done|lia]].
  eapply init_oram_lf_inv; [| | |exact H]; simpl.
  - exact HL.
  - lia.
  - done.
Qed.

(** C5. Every access made on a MegaBlocks ORAM obtained from the
    constructor, whatever integer [math.floor(math.log(N, q))] is, after
    any sequence of earlier accesses, leaves every load
    factor in [[0, q - 1]], one per level; with [j] the target level chosen
    by the access ([find_ht_index] on the state it starts from), the levels
    below [j] have load factor 0 and are not built, and level [j] is
    built. *)
Theorem access_load_factor_invariant (N B q lm : Z)
    (ops : list (operation * val * val)) (op : operation) (addr data : val)
    (self0 self self' : MegaBlocksORAM.t) (rs : list val) (v : val)
    (w w0 w1 w2 : world) :
  MegaBlocksORAM.new entropy hmac_sha256 math_floor_log N B q lm w = Val (self0, w0) →
  accesses entropy hmac_sha256 self0 ops w0 = Val ((rs, self), w1) →
  MegaBlocksORAM.access entropy hmac_sha256 self op addr data w1 = Val ((v, self'), w2) →
  let j := MegaBlocksORAM.find_ht_index self in
  (∀ i, 0 ≤ i ≤ MegaBlocksORAM.amount_of_levels self' →
     ∃ x, MegaBlocksORAM.load_factors self' !! Z.to_nat i = Some x ∧ 0 ≤ x ≤ q - 1)
  ∧ 0 ≤ j ≤ MegaBlocksORAM.amount_of_levels self'
  ∧ (∀ i, 0 ≤ i < j →
       MegaBlocksORAM.load_factors self' !! Z.to_nat i = Some 0
       ∧ ∃ t, MegaBlocksORAM.tables self' !! Z.to_nat i = Some t
              ∧ HashTable.is_built t = false)
  ∧ ∃ t, MegaBlocksORAM.tables self' !! Z.to_nat j = Some t
         ∧ HashTable.is_built t = true.
Proof.
  intros Hnew Hops Hacc j.
  apply new_lf_inv in Hnew as (Hinv0 & Hq0 & _).
  pose proof (accesses_preserve_lf_inv _ _ _ _ _ _ Hinv0 Hops) as Hinv.
  destruct (find_ht_index_spec self Hinv) as [Hj _]. fold j in Hj.
  assert (Hqs : MegaBlocksORAM.q self = q).
  { clear Hacc Hinv Hj j. revert self0 self rs w0 w1 Hinv0 Hq0 Hops.
    induction ops as [|[[op' addr'] data'] ops IH]; intros self0 self rs w0 w1 Hinv0 Hq0 H.
    - apply ret_inv in H as [[= -> ->] ->]. done.
    - cbn [accesses] in H. mbind H as r w3 Hacc. mbind H as rs' w4 Hrest.
      apply ret_inv in H as [[= -> ->] ->].
      destruct r as [v1 self1]. destruct rs' as [vs self2].
      apply access_preserves_lf_inv in Hacc as (Hinv1 & Hq1 & _); [|done].
      eapply IH; [exact Hinv1| |exact Hrest]. simpl. congruence. }
  apply access_preserves_lf_inv in Hacc as (Hinv' & Hq' & HL' & Hlow & Hj'); [|done].
  destruct Hinv' as (HL & Hlen & Hbound).
  split; [|split; [lia|split; [exact Hlow|exact Hj']]].
  intros i Hi.
  destruct (lookup_lt_is_Some_2 (MegaBlocksORAM.load_factors self') (Z.to_nat i))
    as [x Hx]; [lia|].
  exists x. split; [done|].
  pose proof (Forall_lookup_1 _ _ _ _ Hbound Hx) as Hb. simpl in Hb. lia.
Qed.

End oram_load_factors.

Lemma access_load_factor_invariant_witness :
  MegaBlocksORAM.new examples.entropy0 examples.hmac0 examples.floor_log0 4 2 2 2 examples.world0 = Val examples.oram0
  ∧ hierarchy.accesses examples.entropy0 examples.hmac0 examples.oram0.1 [(WRITE_OPERATION, VInt 3, VStr "x")] examples.oram0.2
    = Val (([examples.oram1.1], examples.oram1.2.1), examples.oram1.2.2)
  ∧ MegaBlocksORAM.access examples.entropy0 examples.hmac0 examples.oram1.2.1 READ_OPERATION (VInt 1) (VStr "") examples.oram1.2.2
    = Val ((examples.oram2.1, examples.oram2.2.1), examples.oram2.2.2)
  ∧ MegaBlocksORAM.find_ht_index examples.oram1.2.1 = 1
  ∧ MegaBlocksORAM.load_factors examples.oram2.2.1 = [0; 1; 1]
  ∧ (∀ i, 0 ≤ i ≤ MegaBlocksORAM.amount_of_levels examples.oram2.2.1 →
       ∃ x, MegaBlocksORAM.load_factors examples.oram2.2.1 !! Z.to_nat i = Some x ∧ 0 ≤ x ≤ 2 - 1)
  ∧ 0 ≤ 1 ≤ MegaBlocksORAM.amount_of_levels examples.oram2.2.1
  ∧ (∀ i, 0 ≤ i < 1 →
       MegaBlocksORAM.load_factors examples.oram2.2.1 !! Z.to_nat i = Some 0
       ∧ ∃ t, MegaBlocksORAM.tables examples.oram2.2.1 !! Z.to_nat i = Some t
              ∧ HashTable.is_built t = false)
  ∧ ∃ t, MegaBlocksORAM.tables examples.oram2.2.1 !! Z.to_nat 1 = Some t
         ∧ HashTable.is_built t = true.
Proof.
  assert (H0 : MegaBlocksORAM.new examples.entropy0 examples.hmac0 examples.floor_log0 4 2 2 2 examples.world0 = Val (examples.oram0.1, examples.oram0.2))
    by (vm_compute; reflexivity).
  assert (H1 : hierarchy.accesses examples.entropy0 examples.hmac0 examples.oram0.1
                 [(WRITE_OPERATION, VInt 3, VStr "x")] examples.oram0.2
               = Val (([examples.oram1.1], examples.oram1.2.1), examples.oram1.2.2))
    by (vm_compute; reflexivity).
  assert (H2 : MegaBlocksORAM.access examples.entropy0 examples.hmac0 examples.oram1.2.1 READ_OPERATION
                 (VInt 1) (VStr "") examples.oram1.2.2
               = Val ((examples.oram2.1, examples.oram2.2.1), examples.oram2.2.2))
    by (vm_compute; reflexivity).
  split; [vm_compute; reflexivity|]. split; [exact H1|]. split; [exact H2|].
  split; [reflexivity|]. split; [reflexivity|].
  exact (access_load_factor_invariant examples.entropy0 examples.hmac0 examples.floor_log0 4 2 2 2 _ _ _ _ _ _ _ _ _ _ _ _ _
           H0 H1 H2).
Defined.
(** ** The probes of an access *)

Lemma quiet_ret {A : Type} (a : A) : quiet (ret a).
Proof. intros w b w' [= _ ->]. done. Qed.

Lemma quiet_raise {A : Type} (e : exn) : quiet (@raise A e).
Proof. intros w b w' [=]. Qed.

Lemma quiet_lift {A : Type} (r : res A) : quiet (lift r).
Proof. intros w b w' H. apply lift_inv in H as [_ ->]. done. Qed.

Lemma quiet_bind {A B : Type} (c : M A) (k : A → M B) :
  quiet c → (∀ a, quiet (k a)) → quiet (bind c k).
Proof.
  intros Hc Hk w b w' H. apply bind_inv in H as (a & w1 & H1 & H2).
  rewrite (Hk _ _ _ _ H2). exact (Hc _ _ _ H1).
Qed.

Lemma quiet_for_each {A S : Type} (xs : list A) (body : A → S → M S) :
  (∀ x s, quiet (body x s)) → ∀ s, quiet (for_each xs body s).
Proof.
  intros Hbody. induction xs as [|x xs IH]; intros s; cbn [for_each].
  - apply quiet_ret.
  - apply quiet_bind; [apply Hbody|exact IH].
Qed.

Lemma quiet_randint (entropy : nat → Z) (lo hi : Z) : quiet (randint entropy lo hi).
Proof. intros w b w'. unfold randint. destruct (hi <? lo); intros [= _ <-]; done. Qed.

Lemma quiet_token_bytes (entropy : nat → Z) : quiet (token_bytes entropy).
Proof. intros w b w'. unfold token_bytes. intros [= _ <-]. done. Qed.

Lemma quiet_count_read : quiet RemoteRam.count_read.
Proof. intros w b w'. unfold RemoteRam.count_read. intros [= _ <-]. done. Qed.

Lemma quiet_count_write : quiet RemoteRam.count_write.
Proof. intros w b w'. unfold RemoteRam.count_write. intros [= _ <-]. done. Qed.

Ltac quiet_step :=
  match goal with
  | |- quiet (ret _) => apply quiet_ret
  | |- quiet (raise _) => apply quiet_raise
  | |- quiet (lift _) => apply quiet_lift
  | |- quiet (randint _ _ _) => apply quiet_randint
  | |- quiet (token_bytes _) => apply quiet_token_bytes
  | |- quiet RemoteRam.count_read => apply quiet_count_read
  | |- quiet RemoteRam.count_write => apply quiet_count_write
  | |- quiet (bind _ _) => apply quiet_bind; [|intros ?]
  | |- quiet (for_each _ _ _) => apply quiet_for_each; intros ? ?
  | |- quiet (if ?b then _ else _) => destruct b
  | |- quiet (match ?x with _ => _ end) => destruct x
  | |- quiet _ => progress cbv zeta
  end.

Ltac quiet_tac := repeat quiet_step; eauto with quiet.

Create HintDb quiet.

Lemma quiet_read_memory_cell (self : RemoteRam.t) (i : Z) :
  quiet (RemoteRam.read_memory_cell self i).
Proof. unfold RemoteRam.read_memory_cell. quiet_tac. Qed.

Lemma quiet_write_memory_cell (self : RemoteRam.t) (i : Z) (b : block) :
  quiet (RemoteRam.write_memory_cell self i b).
Proof. unfold RemoteRam.write_memory_cell. quiet_tac. Qed.

#[export] Hint Resolve quiet_read_memory_cell quiet_write_memory_cell : quiet.

Lemma quiet_bin_packing (X : RemoteRam.t) (n B key_index : Z) (local : bool) :
  quiet (bin_packing.bin_packing X n B key_index local).
Proof.
  unfold bin_packing.bin_packing. quiet_tac.
  unfold bin_packing.bin_packing_step. quiet_tac.
Qed.

#[export] Hint Resolve quiet_bin_packing : quiet.

Section quiet_tables.

Variable entropy : nat → Z.
Variable hmac_sha256 : Z → val → Z.

Lemma quiet_new (X : RemoteRam.t) (B n : Z) (local : bool) :
  quiet (HashTable.new entropy X B n local).
Proof. unfold HashTable.new. quiet_tac. Qed.

Lemma quiet_bin_of (self : HashTable.t) (k : val) :
  quiet (HashTable.bin_of entropy hmac_sha256 self k).
Proof. unfold HashTable.bin_of. quiet_tac. Qed.

Lemma quiet_ht_build (self : HashTable.t) :
  quiet (HashTable.ht_build entropy hmac_sha256 self).
Proof.
  unfold HashTable.ht_build. quiet_tac.
  unfold HashTable.build_step. quiet_tac.
  unfold HashTable.tag_step. quiet_tac. apply quiet_bin_of.
Qed.

Lemma quiet_ht_extract (self : HashTable.t) :
  quiet (HashTable.ht_extract self).
Proof.
  unfold HashTable.ht_extract. quiet_tac.
  unfold HashTable.extract_step. quiet_tac.
Qed.

Lemma quiet_compaction (X : RemoteRam.t) (n B n_0 : Z) :
  quiet (compaction.compaction entropy hmac_sha256 X n B n_0).
Proof.
  unfold compaction.compaction. quiet_tac.
  - unfold compaction.split_step. quiet_tac.
    unfold compaction.tag_step. quiet_tac.
  - unfold compaction.collect_bin. quiet_tac.
    unfold compaction.collect_elem. quiet_tac.
Qed.

Lemma quiet_gather_step (i : Z) (st : MegaBlocksORAM.t * RemoteRam.t) :
  quiet (MegaBlocksORAM.gather_step i st).
Proof. unfold MegaBlocksORAM.gather_step. quiet_tac. apply quiet_ht_extract. Qed.

End quiet_tables.

#[export] Hint Resolve quiet_new quiet_bin_of quiet_ht_build
  quiet_ht_extract quiet_compaction quiet_gather_step : quiet.

Section probe_log.

Import hierarchy.

Variable entropy : nat → Z.
Variable hmac_sha256 : Z → val → Z.

(** A lookup that returns appends one record to the log: the parameters
    of the table, the key, the cell read and the item returned; it draws
    from the random generator for the dummy key only. *)
Lemma ht_lookup_event (self self' : HashTable.t) (k : val) (item : elem) (w w' : world) :
  HashTable.ht_lookup entropy hmac_sha256 self k w = Val ((item, self'), w') →
  probes w'
  = probes w ++ [mkEvent (HashTable.secret_key self) (HashTable.C self) k
                   (expected_bucket entropy hmac_sha256 (HashTable.secret_key self)
                      (HashTable.C self) k (rng w))
                   item]
  ∧ rng w' = (rng w + (if val_eqb k (VStr "_") then 1 else 0))%nat.
Proof.
  unfold HashTable.ht_lookup. intros H.
  mbind H as bin w1 Hbin. mlift H as tbl Htbl. mbind H as cell w2 Hread.
  mbind H as found w3 Hscan. mbind H as tbl' w4 Hwrite. mbind H as u w5 Hlog.
  apply ret_inv in H as [Hres ->]. injection Hres as -> _.
  rewrite read_memory_cell_pure in Hread.
  destruct (packing.cell_at _ _); [|discriminate]. injection Hread as _ <-.
  assert (w3 = bump w1 (cost (RemoteRam.local tbl)) 0) as ->.
  { destruct (negb (val_eqb k DUMMY_ADDR)).
    - by apply lift_inv in Hscan as [_ ->].
    - by apply ret_inv in Hscan as [_ ->]. }
  rewrite write_memory_cell_pure in Hwrite.
  destruct (packing.store_at _ _ _); [|discriminate]. injection Hwrite as _ <-.
  unfold HashTable.log_lookup in Hlog. injection Hlog as _ <-. cbn [probes rng bump].
  unfold HashTable.bin_of in Hbin. unfold expected_bucket.
  change (VStr "_") with DUMMY_ADDR.
  destruct (val_eqb k DUMMY_ADDR).
  - unfold randint in Hbin. destruct (_ <? _); [discriminate|].
    injection Hbin as <- <-. split; [reflexivity|simpl; lia].
  - apply ret_inv in Hbin as [-> ->]. split; [reflexivity|simpl; lia].
Qed.







End probe_log.
Section access_probes.

Import hierarchy.

Variable entropy : nat → Z.
Variable hmac_sha256 : Z → val → Z.


End access_probes.


(** ** Further properties of the utilities and of the remote memory *)

Lemma val_eqb_eq (a : val) : ∀ b, val_eqb a b = true ↔ a = b.
Proof.
  revert a. fix IH 1. intros [x|s|l] [y|t|l']; simpl; try (split; [discriminate|congruence]).
  - rewrite Z.eqb_eq. split; congruence.
  - rewrite String.eqb_eq. split; congruence.
  - revert l'. induction l as [|x l IHl]; intros [|y l']; try (split; [discriminate|congruence]).
    + done.
    + rewrite andb_true_iff, IH, IHl. split; [intros [-> [= ->]]; done|intros [= -> ->]; done].
Qed.

Lemma val_eqb_refl (a : val) : val_eqb a a = true.
Proof. by apply val_eqb_eq. Qed.

Lemma val_eqb_neq (a b : val) : val_eqb a b = false ↔ a ≠ b.
Proof.
  rewrite <- not_true_iff_false, val_eqb_eq. done.
Qed.

Lemma elem_eqb_eq (a : elem) : ∀ b : elem, elem_eqb a b = true ↔ a = b.
Proof.
  induction a as [|x a IH]; intros [|y b]; simpl; try (split; [discriminate|congruence]).
  - done.
  - rewrite andb_true_iff, val_eqb_eq, IH. split; [intros [-> ->]; done|intros [= -> ->]; done].
Qed.

(** X1. [next_power_of_two_greater_or_equal(x)] returns, for every
    integer [x], a power of two that is at least [x], and no smaller
    power of two is: for [x <= 1] the result is 1. *)
Theorem next_power_of_two_least (x : Z) :
  ∃ r, 0 ≤ r
       ∧ next_power_of_two_greater_or_equal x = 2 ^ r
       ∧ x ≤ 2 ^ r
       ∧ ∀ s, 0 ≤ s → x ≤ 2 ^ s → r ≤ s.
Proof.
  destruct (next_power_of_two_spec x) as (r & Heq & Hr & Hle & Hmin).
  exists r. repeat split; try done.
  intros s Hs Hxs. destruct Hmin as [->|Hlt]; [done|].
  destruct (Z.le_gt_cases r s) as [|Hgt]; [done|].
  assert (2 ^ s ≤ 2 ^ (r - 1)) by (apply Z.pow_le_mono_r; lia). lia.
Qed.

(** X2. [get_msb_at_index(x, i, bit_length)] returns bit
    [bit_length - i] of [x] when [i <= bit_length]; when [i] exceeds
    [bit_length] the shift count is negative and the call raises
    [ValueError] (the docstring announces 0). *)
Theorem get_msb_at_index_bit (x i bl : Z) :
  get_msb_at_index x i bl
  = if bl <? i then Exc ValueError else Val (Z.b2z (Z.testbit x (bl - i))).
Proof.
  unfold get_msb_at_index.
  destruct (Z.ltb_spec (bl - i) 0), (Z.ltb_spec bl i); try lia; [done|].
  f_equal. rewrite Z.land_ones with (n := 1) by lia.
  change (2 ^ 1) with 2. rewrite <- Z.bit0_mod, Z.shiftr_spec by lia.
  by rewrite Z.add_0_l.
Qed.
Section remote_ram_more.

(** X3. A write into a cell of the memory succeeds and is what the next
    read of that cell returns; every other cell reads as before, and the
    size, capacity and locality of the memory are unchanged. *)
Theorem write_then_read (r : RemoteRam.t) (i : Z) (b : block) (w : world) :
  0 ≤ i < Z.of_nat (length (RemoteRam.memory r)) →
  ∃ r' w',
    RemoteRam.write_memory_cell r i b w = Val (r', w')
    ∧ (∀ w2, ∃ w3, RemoteRam.read_memory_cell r' i w2 = Val (b, w3))
    ∧ (∀ j w2, j ≠ i → 0 ≤ j →
         (RemoteRam.read_memory_cell r' j w2 = RemoteRam.read_memory_cell r j w2))
    ∧ length (RemoteRam.memory r') = length (RemoteRam.memory r)
    ∧ RemoteRam.memory_size r' = RemoteRam.memory_size r
    ∧ RemoteRam.block_capacity r' = RemoteRam.block_capacity r
    ∧ RemoteRam.local r' = RemoteRam.local r.
Proof.
  intros Hi. rewrite write_memory_cell_ok by done. eexists _, _. split; [reflexivity|].
  simpl. split; [|split; [|by rewrite length_insert]].
  - intros w2.
    edestruct (read_memory_cell_ok
                 (RemoteRam.mk (RemoteRam.block_capacity r) (RemoteRam.memory_size r)
                    (<[Z.to_nat i := b]> (RemoteRam.memory r)) (RemoteRam.local r)) i w2)
      as (cell & Hcell & ->); [simpl; rewrite length_insert; lia|].
    simpl in Hcell. rewrite list_lookup_insert_eq in Hcell by lia.
    injection Hcell as <-. eexists. reflexivity.
  - intros j w2 Hne Hj. unfold RemoteRam.read_memory_cell. simpl.
    rewrite length_insert.
    destruct ((j >? Z.of_nat (length (RemoteRam.memory r)) - 1) || (j <? 0)); [done|].
    unfold bind. destruct (RemoteRam.local r); simpl.
    + unfold lift, py_index. destruct (Z.ltb_spec j 0); [lia|]. cbv zeta.
      destruct (Z.ltb_spec j 0); [lia|].
      rewrite list_lookup_insert_ne by lia. done.
    + unfold lift, py_index. destruct (Z.ltb_spec j 0); [lia|]. cbv zeta.
      destruct (Z.ltb_spec j 0); [lia|].
      rewrite list_lookup_insert_ne by lia. done.
Qed.

Lemma init_memory_loop (B : Z) (len : nat) :
  ∀ (a : Z) (mem : list block),
  0 ≤ a →
  for_each_res (seqZ a (Z.of_nat len))
    (λ i mem,
       py_set mem i
         ((λ j, [VInt (i * B + j); VStr ("d" +:+ pretty (i * B + j))]) <$> range B))
    mem
  = if Z.of_nat (length mem) <? a + Z.of_nat len
    then (if len is O then Val mem else Exc IndexError)
    else Val (take (Z.to_nat a) mem
              ++ ((λ i, (λ j, [VInt (i * B + j); VStr ("d" +:+ pretty (i * B + j))])
                          <$> range B) <$> seqZ a (Z.of_nat len))
              ++ drop (Z.to_nat a + len) mem).
Proof.
  induction len as [|len IH]; intros a mem Ha.
  - simpl. rewrite Nat.add_0_r, take_drop. by destruct (_ <? _).
  - rewrite seqZ_cons by lia.
    replace (Z.pred (Z.of_nat (S len))) with (Z.of_nat len) by lia.
    cbn [for_each_res].
    destruct (Z.ltb_spec (Z.of_nat (length mem)) (a + Z.of_nat (S len))) as [Hshort|Hlong].
    + destruct (decide (a < Z.of_nat (length mem))) as [Hin|Hout].
      * rewrite py_set_in_range by lia. cbn [res_bind].
        rewrite (IH (Z.succ a)) by lia. rewrite length_insert.
        destruct (Z.ltb_spec (Z.of_nat (length mem)) (Z.succ a + Z.of_nat len)); [|lia].
        destruct len; [lia|done].
      * unfold py_set. destruct (Z.ltb_spec a 0); [lia|]. cbv zeta.
        destruct (Z.ltb_spec a 0); [lia|].
        destruct (Z.leb_spec (Z.of_nat (length mem)) a); [|lia]. done.
    + rewrite py_set_in_range by lia. cbn [res_bind].
      rewrite (IH (Z.succ a)) by lia. rewrite length_insert.
      destruct (Z.ltb_spec (Z.of_nat (length mem)) (Z.succ a + Z.of_nat len)); [lia|].
      f_equal. rewrite fmap_cons.
      replace (Z.to_nat (Z.succ a)) with (S (Z.to_nat a)) by lia.
      rewrite (take_S_r _ (Z.to_nat a)
                 ((λ j, [VInt (a * B + j); VStr ("d" +:+ pretty (a * B + j))]) <$> range B))
        by (apply list_lookup_insert_eq; lia).
      rewrite take_insert_ge by lia.
      rewrite drop_insert_lt by lia.
      replace (S (Z.to_nat a) + len)%nat with (Z.to_nat a + S len)%nat by lia.
      by rewrite <- (assoc_L (++)).
Qed.

(** X4. [init_memory] on a freshly constructed memory of [size] cells of
    capacity [B] returns [size] cells, cell [i] holding the [B] elements
    [(i*B + j, "d" + str(i*B + j))] for [j = 0 .. B-1]. *)
Theorem init_memory_contents (B size : Z) (local : bool) :
  ∃ r, RemoteRam.init_memory (RemoteRam.new B size None local) = Val r
       ∧ RemoteRam.memory r
         = (λ i, (λ j, [VInt (i * B + j); VStr ("d" +:+ pretty (i * B + j))])
                   <$> range B) <$> range size
       ∧ RemoteRam.memory_size r = size
       ∧ RemoteRam.block_capacity r = B
       ∧ RemoteRam.local r = local.
Proof.
  unfold RemoteRam.init_memory, RemoteRam.new.
  cbn [RemoteRam.memory_size RemoteRam.memory RemoteRam.block_capacity RemoteRam.local].
  unfold range at 1. cbv zeta.
  destruct (Z.le_gt_cases size 0) as [Hneg|Hpos].
  - rewrite (seqZ_nil 0 size) by lia. simpl. eexists. split; [reflexivity|]. simpl.
    unfold py_repeat, range. rewrite (seqZ_nil 0 size) by lia.
    replace (Z.to_nat size) with 0%nat by lia. done.
  - pose proof (init_memory_loop B (Z.to_nat size) 0 (py_repeat (py_repeat DUMMY B) size)
                  ltac:(lia)) as Hloop.
    rewrite Z2Nat.id in Hloop by lia. rewrite Hloop.
    unfold py_repeat at 1. rewrite length_replicate.
    destruct (Z.ltb_spec (Z.of_nat (Z.to_nat size)) (0 + size)); [lia|].
    simpl. eexists. split; [reflexivity|]. simpl.
    rewrite drop_ge by (unfold py_repeat; rewrite length_replicate; lia).
    rewrite app_nil_r. done.
Qed.

(** A memory whose list of cells is shorter than [memory_size] makes
    [init_memory] fail with [IndexError]. *)
Lemma init_memory_short (r : RemoteRam.t) :
  Z.of_nat (length (RemoteRam.memory r)) < RemoteRam.memory_size r →
  RemoteRam.init_memory r = Exc IndexError.
Proof.
  intros Hshort. unfold RemoteRam.init_memory. unfold range at 1. cbv zeta.
  pose proof (init_memory_loop (RemoteRam.block_capacity r)
                (Z.to_nat (RemoteRam.memory_size r)) 0 (RemoteRam.memory r) ltac:(lia))
    as Hloop.
  rewrite Z2Nat.id in Hloop by lia. rewrite Hloop.
  destruct (Z.ltb_spec (Z.of_nat (length (RemoteRam.memory r)))
              (0 + RemoteRam.memory_size r)); [|lia].
  destruct (Z.to_nat (RemoteRam.memory_size r)) eqn:E; [lia|done].
Qed.

End remote_ram_more.

Lemma write_then_read_witness :
  let r := RemoteRam.new 2 3 None false in
  0 ≤ 1 < Z.of_nat (length (RemoteRam.memory r))
  ∧ ∃ r' w',
    RemoteRam.write_memory_cell r 1 [[VInt 5; VStr "v"]] examples.world0 = Val (r', w')
    ∧ (∀ w2, ∃ w3, RemoteRam.read_memory_cell r' 1 w2 = Val ([[VInt 5; VStr "v"]], w3))
    ∧ (∀ j w2, j ≠ 1 → 0 ≤ j →
         (RemoteRam.read_memory_cell r' j w2 = RemoteRam.read_memory_cell r j w2))
    ∧ length (RemoteRam.memory r') = length (RemoteRam.memory r)
    ∧ RemoteRam.memory_size r' = RemoteRam.memory_size r
    ∧ RemoteRam.block_capacity r' = RemoteRam.block_capacity r
    ∧ RemoteRam.local r' = RemoteRam.local r.
Proof.
  intros r. split; [simpl; lia|].
  apply (write_then_read r 1 [[VInt 5; VStr "v"]] examples.world0). simpl. lia.
Defined.
Section merge_blocks_facts.

Import routing.

Lemma merge_blocks_loop (block1 block2 : block) (len : nat) :
  ∀ (j : nat) (acc : block),
  (j + len ≤ length block1)%nat → (j + len ≤ length block2)%nat →
  Forall (λ x : elem, x ≠ []) block1 → Forall (λ x : elem, x ≠ []) block2 →
  for_each_res (seqZ (Z.of_nat j) (Z.of_nat len))
    (RemoteRam.merge_blocks_step block1 block2) acc
  = Val (acc ++ filter (λ x, is_real x)
                  (interleave (take len (drop j block1)) (take len (drop j block2)))).
Proof.
  induction len as [|len IH]; intros j acc H1 H2 Hne1 Hne2.
  - simpl. by rewrite app_nil_r.
  - rewrite seqZ_cons by lia.
    replace (Z.pred (Z.of_nat (S len))) with (Z.of_nat len) by lia.
    replace (Z.succ (Z.of_nat j)) with (Z.of_nat (S j)) by lia.
    cbn [for_each_res].
    destruct (lookup_lt_is_Some_2 block1 j ltac:(lia)) as [x1 Hx1].
    destruct (lookup_lt_is_Some_2 block2 j ltac:(lia)) as [x2 Hx2].
    pose proof (Forall_lookup_1 _ _ _ _ Hne1 Hx1) as Hn1.
    pose proof (Forall_lookup_1 _ _ _ _ Hne2 Hx2) as Hn2.
    destruct x1 as [|k1 r1]; [done|]. destruct x2 as [|k2 r2]; [done|].
    unfold RemoteRam.merge_blocks_step.
    rewrite (py_index_nat block1 (Z.of_nat j) (k1 :: r1)) by (rewrite ?Nat2Z.id; done || lia).
    cbn [res_bind]. unfold py_index at 1. simpl.
    rewrite (py_index_nat block2 (Z.of_nat j) (k2 :: r2)) by (rewrite ?Nat2Z.id; done || lia).
    cbn [res_bind]. unfold py_index at 1. simpl.
    rewrite IH by (done || lia).
    rewrite (drop_S _ _ _ Hx1), (drop_S _ _ _ Hx2). cbn [take interleave].
    rewrite !filter_cons. cbn [is_real].
    destruct (negb (val_eqb k1 DUMMY_ADDR)), (negb (val_eqb k2 DUMMY_ADDR)); simpl;
      by rewrite <- ?(assoc_L (++)).
Qed.

(** X5. [merge_blocks] keeps, in the order of its alternating scan, the
    real elements found in the first [block_capacity] positions of the two
    blocks and pads them with dummies up to [block_capacity]; when the two
    blocks hold more real elements than that, nothing is dropped and no
    error is raised: the block returned is longer than [block_capacity].
    The arguments [capacity1] and [capacity2] play no role. *)
Theorem merge_blocks_spec (block1 block2 : block) (block_capacity capacity1 capacity2 : Z) :
  0 ≤ block_capacity →
  block_capacity ≤ Z.of_nat (length block1) →
  block_capacity ≤ Z.of_nat (length block2) →
  Forall (λ x : elem, x ≠ []) block1 → Forall (λ x : elem, x ≠ []) block2 →
  let reals :=
    filter (λ x, is_real x)
      (interleave (py_take block_capacity block1) (py_take block_capacity block2)) in
  RemoteRam.merge_blocks block1 block2 block_capacity capacity1 capacity2
  = Val (reals ++ py_repeat DUMMY (block_capacity - Z.of_nat (length reals)))
  ∧ Z.of_nat (length (reals ++ py_repeat DUMMY (block_capacity - Z.of_nat (length reals))))
    = Z.max block_capacity (Z.of_nat (length reals)).
Proof.
  intros Hcap H1 H2 Hne1 Hne2 reals. unfold RemoteRam.merge_blocks, range.
  pose proof (merge_blocks_loop block1 block2 (Z.to_nat block_capacity) 0 []
                ltac:(lia) ltac:(lia) Hne1 Hne2) as Hloop.
  rewrite Z2Nat.id in Hloop by lia. change (Z.of_nat 0) with 0 in Hloop.
  rewrite Hloop. simpl. rewrite !drop_0. split; [done|].
  rewrite length_app. unfold py_repeat. rewrite length_replicate. fold reals. lia.
Qed.

End merge_blocks_facts.

Lemma merge_blocks_spec_witness :
  RemoteRam.merge_blocks
    [[VInt 1; VStr "a"]; DUMMY] [[VInt 2; VStr "b"]; [VInt 3; VStr "c"]] 2 0 0
  = Val ([[VInt 1; VStr "a"]; [VInt 2; VStr "b"]; [VInt 3; VStr "c"]]
         ++ py_repeat DUMMY (2 - 3))
  ∧ Z.of_nat (length ([[VInt 1; VStr "a"]; [VInt 2; VStr "b"]; [VInt 3; VStr "c"]]
                      ++ py_repeat DUMMY (2 - 3)))
    = Z.max 2 3.
Proof.
  apply (merge_blocks_spec
           [[VInt 1; VStr "a"]; DUMMY] [[VInt 2; VStr "b"]; [VInt 3; VStr "c"]] 2 0 0);
    [lia|simpl; lia|simpl; lia|repeat constructor; discriminate
    |repeat constructor; discriminate].
Defined.

Section bin_packing_edge.

(** X6. When the whole input fits half a block ([2 n <= B], so that
    [choose_C] is 1), [bin_packing] has no level to route: it returns the
    object it was given, performs no read and no write, and cannot
    overflow, whatever the memory holds. *)
Theorem bin_packing_single_bin (X : RemoteRam.t) (n B key_index : Z) (local : bool)
    (w : world) :
  0 ≤ n → 1 ≤ B → 2 * n ≤ B →
  bin_packing.bin_packing X n B key_index local w = Val (X, w).
Proof.
  intros Hn HB Hle. rewrite bin_packing_refine.
  assert (HC : choose_C n B = 1).
  { unfold choose_C. apply next_power_of_two_le_1. apply ceil_div_le; lia. }
  rewrite HC. done.
Qed.

End bin_packing_edge.

Lemma bin_packing_single_bin_witness :
  (0 ≤ 1 ∧ 1 ≤ 2 ∧ 2 * 1 ≤ 2)
  ∧ bin_packing.bin_packing (RemoteRam.new 2 1 (Some [[[VInt 7; VStr "v"]]]) false)
      1 2 2 false examples.world0
    = Val (RemoteRam.new 2 1 (Some [[[VInt 7; VStr "v"]]]) false, examples.world0).
Proof.
  split; [lia|].
  apply (bin_packing_single_bin (RemoteRam.new 2 1 (Some [[[VInt 7; VStr "v"]]]) false)
           1 2 2 false examples.world0); lia.
Defined.
Section lookup_behaviour.

Import built keys.

Variable entropy : nat → Z.
Variable hmac_sha256 : Z → val → Z.

(** The lookup, step by step. *)
Lemma ht_lookup_unfold (self : HashTable.t) (k : val) (w : world) :
  HashTable.ht_lookup entropy hmac_sha256 self k w
  = match HashTable.bin_of entropy hmac_sha256 self k w with
    | Exc e => Exc e
    | Val (bin, wb) =>
        match HashTable.table self with
        | None => Exc AttributeError
        | Some tbl =>
            match packing.cell_at (RemoteRam.memory tbl) bin with
            | Exc e => Exc e
            | Val cell =>
                match (if negb (val_eqb k DUMMY_ADDR)
                       then HashTable.lookup_scan k (Z.to_nat (HashTable.B self)) cell
                       else Val (None, cell)) with
                | Exc e => Exc e
                | Val (found, cell') =>
                    Val ((default DUMMY found,
                          HashTable.store_table self
                            (HashTable.set_memory tbl
                               (<[Z.to_nat bin := cell']> (RemoteRam.memory tbl)))),
                         logged
                           (bump wb (cost (RemoteRam.local tbl)) (cost (RemoteRam.local tbl)))
                           (mkEvent (HashTable.secret_key self) (HashTable.C self) k bin
                                    (default DUMMY found)))
                end
            end
        end
    end.
Proof.
  unfold HashTable.ht_lookup. unfold bind at 1.
  destruct (HashTable.bin_of entropy hmac_sha256 self k w) as [[bin wb]|e]; [|done].
  unfold bind at 1, HashTable.the_table.
  destruct (HashTable.table self) as [tbl|]; [|done]. rewrite lift_val.
  unfold bind at 1. rewrite read_memory_cell_pure.
  unfold packing.cell_at.
  destruct ((bin >? Z.of_nat (length (RemoteRam.memory tbl)) - 1) || (bin <? 0)) eqn:Hg;
    [done|].
  apply index_guard_false in Hg.
  destruct (py_index_in_range (RemoteRam.memory tbl) bin Hg) as (cell & -> & Hcell).
  unfold bind at 1.
  assert (Hscan :
    (if negb (val_eqb k DUMMY_ADDR)
     then lift (HashTable.lookup_scan k (Z.to_nat (HashTable.B self)) cell)
     else ret (None, cell)) (bump wb (cost (RemoteRam.local tbl)) 0)
    = match (if negb (val_eqb k DUMMY_ADDR)
             then HashTable.lookup_scan k (Z.to_nat (HashTable.B self)) cell
             else Val (None, cell)) with
      | Val r => Val (r, bump wb (cost (RemoteRam.local tbl)) 0)
      | Exc e => Exc e
      end).
  { destruct (negb (val_eqb k DUMMY_ADDR)); [|done]. unfold lift.
    by destruct (HashTable.lookup_scan _ _ _). }
  rewrite Hscan. clear Hscan.
  set (scan := if negb (val_eqb k DUMMY_ADDR)
               then HashTable.lookup_scan k (Z.to_nat (HashTable.B self)) cell
               else Val (None, cell)).
  destruct scan as [[found cell']|e]; [|done].
  cbn [fst snd]. unfold bind at 1. rewrite write_memory_cell_pure.
  unfold packing.store_at. rewrite (proj2 (index_guard_false _ _)) by lia.
  rewrite py_set_in_range by lia. unfold bind at 1, HashTable.log_lookup, ret, logged.
  rewrite bump_bump. cbn [read_operations write_operations counter_read_operations
    counter_write_operations rng probes bump].
  do 3 f_equal; lia.
Qed.

(** Scanning again a cell in which an element was found and marked finds
    the same pair. *)
Lemma lookup_scan_twice (k : val) (todo : nat) :
  ∀ (cell cell' : block) (r : option elem),
  HashTable.lookup_scan k todo cell = Val (r, cell') →
  length cell' = length cell
  ∧ ∃ cell'', HashTable.lookup_scan k todo cell' = Val (r, cell'')
  ∧ (r = None → cell' = cell)
  ∧ match r with
    | None => True
    | Some item => ∃ v, item = [k; v]
    end.
Proof.
  induction todo as [|todo IH]; intros cell cell' r H.
  - injection H as <- <-. split; [done|]. exists cell. done.
  - destruct cell as [|x cell]; [discriminate|]. cbn [HashTable.lookup_scan] in H.
    apply res_bind_inv in H as (k0 & Hk0 & H).
    destruct x as [|x0 x]; [discriminate|]. injection Hk0 as <-.
    destruct (val_eqb x0 k) eqn:Hk.
    + apply res_bind_inv in H as (v & Hv & H). injection H as <- <-.
      destruct x as [|x1 x]; [discriminate|]. injection Hv as <-.
      split; [done|]. eexists. cbn [HashTable.lookup_scan]. unfold py_index. simpl.
      rewrite Hk. split; [reflexivity|]. split; [done|].
      apply val_eqb_eq in Hk as ->. by exists x1.
    + apply res_bind_inv in H as ([r' c'] & Hrec & H). injection H as <- <-.
      destruct (IH _ _ _ Hrec) as (Hlen & cell'' & Hagain & Hnone & Hshape).
      split; [simpl; by rewrite Hlen|].
      exists ((x0 :: x) :: cell''). cbn [HashTable.lookup_scan]. unfold py_index at 1. simpl.
      rewrite Hk, Hagain. split; [done|]. split; [|done].
      intros Hr. simpl. by rewrite (Hnone Hr).
Qed.

(** A lookup of the dummy key returns the dummy element and leaves the
    table as it is. *)
Lemma dummy_lookup_returns (self : HashTable.t) (tbl : RemoteRam.t) (w : world) :
  wf_table self tbl →
  ∃ self' w',
    HashTable.ht_lookup entropy hmac_sha256 self DUMMY_ADDR w = Val ((DUMMY, self'), w')
    ∧ wf_table self' tbl.
Proof.
  intros (Htbl & HC & Hlen & Hcells). rewrite ht_lookup_unfold.
  unfold HashTable.bin_of. rewrite val_eqb_refl. unfold randint.
  destruct (Z.ltb_spec (HashTable.C self - 1) 0); [lia|]. rewrite Htbl.
  set (bin := 0 + entropy (rng w) `mod` (HashTable.C self - 1 - 0 + 1)).
  assert (Hbin : 0 ≤ bin < HashTable.C self).
  { unfold bin. replace (HashTable.C self - 1 - 0 + 1) with (HashTable.C self) by lia.
    pose proof (Z.mod_pos_bound (entropy (rng w)) (HashTable.C self) HC). lia. }
  destruct (cell_at_spec (RemoteRam.memory tbl) bin ltac:(lia)) as [-> Hcell].
  simpl. eexists _, _. split; [reflexivity|].
  rewrite list_insert_id by done.
  split; [simpl; by destruct tbl|]. simpl. done.
Qed.

(** X7. A lookup of the dummy key in a built table returns the dummy
    element, reads and writes back the bucket drawn by
    [random.randint(0, C - 1)] and leaves every bucket as it was. *)
Theorem ht_lookup_dummy_key (self : HashTable.t) (tbl : RemoteRam.t) (w : world) :
  wf_table self tbl →
  ∃ self' w',
    HashTable.ht_lookup entropy hmac_sha256 self DUMMY_ADDR w = Val ((DUMMY, self'), w')
    ∧ HashTable.table self' = Some tbl
    ∧ rng w' = S (rng w)
    ∧ read_operations w' = read_operations w + cost (RemoteRam.local tbl)
    ∧ write_operations w' = write_operations w + cost (RemoteRam.local tbl).
Proof.
  intros (Htbl & HC & Hlen & Hcells). rewrite ht_lookup_unfold.
  unfold HashTable.bin_of. rewrite val_eqb_refl. unfold randint.
  destruct (Z.ltb_spec (HashTable.C self - 1) 0); [lia|]. rewrite Htbl.
  set (bin := 0 + entropy (rng w) `mod` (HashTable.C self - 1 - 0 + 1)).
  assert (Hbin : 0 ≤ bin < HashTable.C self).
  { unfold bin. replace (HashTable.C self - 1 - 0 + 1) with (HashTable.C self) by lia.
    pose proof (Z.mod_pos_bound (entropy (rng w)) (HashTable.C self) HC). lia. }
  destruct (cell_at_spec (RemoteRam.memory tbl) bin ltac:(lia)) as [-> Hcell].
  simpl. eexists _, _. split; [reflexivity|].
  rewrite list_insert_id by done. simpl. split; [|done].
  by destruct tbl.
Qed.

(** X8. In a built table a lookup returns either the dummy element or a
    pair [(k, v)] whose key is the key looked up; looking the same key up
    again returns the same result: the mark a successful lookup leaves on
    the element does not hide it from later lookups, and a miss modifies
    no bucket. *)
Theorem ht_lookup_repeat (self : HashTable.t) (tbl : RemoteRam.t) (k : val) (w : world) :
  wf_table self tbl →
  ∃ item self1 w1,
    HashTable.ht_lookup entropy hmac_sha256 self k w = Val ((item, self1), w1)
    ∧ (item = DUMMY ∨ ∃ v, item = [k; v])
    ∧ (item = DUMMY → HashTable.table self1 = Some tbl)
    ∧ ∀ w2, ∃ self2 w3,
        HashTable.ht_lookup entropy hmac_sha256 self1 k w2 = Val ((item, self2), w3).
Proof.
  intros Hwf.
  destruct (val_eqb k DUMMY_ADDR) eqn:Hk.
  - apply val_eqb_eq in Hk as ->.
    destruct (dummy_lookup_returns self tbl w Hwf) as (self1 & w1 & H1 & Hwf1).
    exists DUMMY, self1, w1. split; [done|]. split; [by left|].
    split; [intros _; exact (proj1 Hwf1)|].
    intros w2.
    destruct (dummy_lookup_returns self1 tbl w2 Hwf1) as (self2 & w3 & H2 & _).
    by exists self2, w3.
  - destruct (ht_lookup_ok entropy hmac_sha256 self tbl k w Hwf)
      as (item & self1 & tbl1 & w1 & H1 & Hwf1 & _).
    exists item, self1, w1. split; [done|].
    rewrite ht_lookup_unfold in H1. unfold HashTable.bin_of in H1. rewrite Hk in H1.
    unfold ret in H1. destruct Hwf as (Htbl & HC & Hlen & Hcells). rewrite Htbl in H1.
    set (bin := hmac_sha256 (HashTable.secret_key self) k `mod` HashTable.C self) in *.
    assert (Hbin : 0 ≤ bin < HashTable.C self) by (apply Z.mod_pos_bound; lia).
    destruct (cell_at_spec (RemoteRam.memory tbl) bin ltac:(lia)) as [Hcell Hlook].
    rewrite Hcell in H1. simpl in H1.
    destruct (HashTable.lookup_scan k (Z.to_nat (HashTable.B self))
                (level.cell_of (RemoteRam.memory tbl) bin)) as [[found cell']|] eqn:Hscan;
      [|done].
    injection H1 as <- <- <-.
    destruct (lookup_scan_twice _ _ _ _ _ Hscan) as (Hl & cell'' & Hagain & Hnone & Hshape).
    split; [|split].
    + destruct found as [item|]; [right; exact Hshape|by left].
    + intros Hd. destruct found as [item|].
      * destruct Hshape as (v & ->). simpl in Hd. injection Hd as -> _.
        by rewrite val_eqb_refl in Hk.
      * rewrite (Hnone eq_refl). rewrite list_insert_id by done. simpl. f_equal.
        by destruct tbl.
    + intros w2. rewrite ht_lookup_unfold. unfold HashTable.bin_of.
      cbn [HashTable.store_table HashTable.C HashTable.secret_key HashTable.table
           HashTable.B].
      rewrite Hk. unfold ret. fold bin.
      unfold packing.cell_at. cbn [HashTable.set_memory RemoteRam.memory].
      rewrite length_insert. rewrite (proj2 (index_guard_false _ _)) by lia.
      rewrite (py_index_nat _ bin cell') by (lia || (apply list_lookup_insert_eq; lia)).
      simpl. rewrite Hagain. eexists _, _. reflexivity.
Qed.

End lookup_behaviour.

Lemma ht_lookup_repeat_witness :
  ∃ tbl,
    built.wf_table examples.table0 tbl
    ∧ ∃ item self1 w1,
        HashTable.ht_lookup examples.entropy0 examples.hmac0 examples.table0 (VInt 3)
          examples.world0 = Val ((item, self1), w1)
        ∧ (item = DUMMY ∨ ∃ v, item = [VInt 3; v])
        ∧ (item = DUMMY → HashTable.table self1 = Some tbl)
        ∧ ∀ w2, ∃ self2 w3,
            HashTable.ht_lookup examples.entropy0 examples.hmac0 self1 (VInt 3) w2
            = Val ((item, self2), w3).
Proof.
  assert (Hwf : built.wf_table examples.table0
                  (default (RemoteRam.new 0 0 None false)
                           (HashTable.table examples.table0))).
  { split; [reflexivity|]. split; [reflexivity|]. split; [reflexivity|].
    repeat constructor. }
  eexists. split; [exact Hwf|].
  exact (ht_lookup_repeat examples.entropy0 examples.hmac0 _ _ (VInt 3) examples.world0 Hwf).
Defined.

Lemma ht_lookup_dummy_key_witness :
  ∃ tbl,
    built.wf_table examples.table0 tbl
    ∧ ∃ self' w',
        HashTable.ht_lookup examples.entropy0 examples.hmac0 examples.table0 DUMMY_ADDR
          examples.world0 = Val ((DUMMY, self'), w')
        ∧ HashTable.table self' = Some tbl
        ∧ rng w' = S (rng examples.world0)
        ∧ read_operations w' = read_operations examples.world0 + cost (RemoteRam.local tbl)
        ∧ write_operations w' = write_operations examples.world0 + cost (RemoteRam.local tbl).
Proof.
  assert (Hwf : built.wf_table examples.table0
                  (default (RemoteRam.new 0 0 None false)
                           (HashTable.table examples.table0))).
  { split; [reflexivity|]. split; [reflexivity|]. split; [reflexivity|].
    repeat constructor. }
  eexists. split; [exact Hwf|].
  exact (ht_lookup_dummy_key examples.entropy0 examples.hmac0 _ _ examples.world0 Hwf).
Defined.
Section access_result.

Import hierarchy found.

Variable entropy : nat → Z.
Variable hmac_sha256 : Z → val → Z.

Lemma ht_lookup_item (self self' : HashTable.t) (k : val) (item : elem) (w w' : world) :
  HashTable.ht_lookup entropy hmac_sha256 self k w = Val ((item, self'), w') →
  item = DUMMY ∨ (k ≠ DUMMY_ADDR ∧ ∃ v, item = [k; v]).
Proof.
  rewrite ht_lookup_unfold. intros H.
  destruct (HashTable.bin_of _ _ _ _ _) as [[bin wb]|]; [|done].
  destruct (HashTable.table self) as [tbl|]; [|done].
  destruct (packing.cell_at _ _) as [cell|]; [|done].
  destruct (val_eqb k DUMMY_ADDR) eqn:Hk; simpl in H.
  - injection H as <- _ _. by left.
  - destruct (HashTable.lookup_scan _ _ _) as [[found cell']|] eqn:Hscan; [|done].
    injection H as <- _ _.
    destruct (lookup_scan_twice _ _ _ _ _ Hscan) as (_ & _ & _ & _ & Hshape).
    destruct found as [item|]; [|by left]. right. split; [|exact Hshape].
    intros ->. by rewrite val_eqb_refl in Hk.
Qed.

Lemma first_hit_snoc (plog : list lookup_event) (e : lookup_event) :
  first_hit (plog ++ [e])
  = match first_hit plog with
    | Some item => Some item
    | None => if elem_eqb (ev_item e) DUMMY then None else Some (ev_item e)
    end.
Proof.
  induction plog as [|e' plog IH]; simpl; [done|].
  destruct (elem_eqb (ev_item e') DUMMY); [exact IH|done].
Qed.

Lemma probe_step_data (addr : val) (i : Z) (st st' : MegaBlocksORAM.probe_state)
    (w w' : world) (base plog : list lookup_event) :
  0 ≤ i →
  data_inv addr st plog →
  probes w = base ++ plog →
  MegaBlocksORAM.probe_step entropy hmac_sha256 addr i st w = Val (st', w') →
  ∃ plog', probes w' = base ++ plog' ∧ data_inv addr st' plog'.
Proof.
  intros Hi (Hfound & Hdata & Hitems) Hw H. unfold MegaBlocksORAM.probe_step in H.
  mlift H as lf Hlfi.
  destruct (Z.gtb_spec lf 0) as [Hpos|Hzero].
  - rewrite andb_true_r in H.
    destruct (MegaBlocksORAM.p_found st) eqn:Hf; cbn [negb] in H.
    + mlift H as tbl Htbl. mbind H as r w1 Hlook. destruct r as [item tbl']. cbn [fst snd] in H.
      mlift H as ts Hts. apply ret_inv in H as [-> ->].
      apply ht_lookup_item in Hlook as Hitem.
      apply ht_lookup_event in Hlook as [Hlog _].
      eexists (plog ++ [_]). split.
      { rewrite Hlog, Hw. by rewrite (assoc_L (++)). }
      symmetry in Hfound. apply bool_decide_eq_true in Hfound as [item0 Hitem'].
      split; [|split].
      * simpl. rewrite first_hit_snoc, Hitem'. symmetry. by apply bool_decide_eq_true.
      * simpl. rewrite first_hit_snoc, Hitem'. rewrite Hdata, Hitem'. done.
      * apply Forall_app. split; [done|]. constructor; [|done]. simpl.
        destruct Hitem as [->|[Hne _]]; [by left|]. by destruct Hne.
    + mlift H as tbl Htbl. mbind H as r w1 Hlook. destruct r as [item tbl']. cbn [fst snd] in H.
      mlift H as ts Hts.
      apply ht_lookup_item in Hlook as Hitem.
      apply ht_lookup_event in Hlook as [Hlog _].
      symmetry in Hfound. apply bool_decide_eq_false in Hfound.
      assert (Hnone : first_hit plog = None).
      { destruct (first_hit plog); [|done]. destruct Hfound. by eexists. }
      match type of Hlog with _ = _ ++ [?ev] => exists (plog ++ [ev]) end.
      match type of Hlog with _ = _ ++ [?ev] =>
        assert (Hall : Forall (λ e, ev_item e = DUMMY ∨ ∃ v, ev_item e = [addr; v])
                         (plog ++ [ev]))
      end.
      { apply Forall_app. split; [done|]. constructor; [|done]. simpl.
        destruct Hitem as [->|[_ Hv]]; [by left|by right]. }
      destruct (elem_eqb item DUMMY) eqn:Hd; cbn [negb] in H;
        apply ret_inv in H as [-> ->].
      * split; [rewrite Hlog, Hw; by rewrite (assoc_L (++))|].
        split; [|split; [|done]]; simpl; rewrite first_hit_snoc, Hnone; simpl; rewrite Hd.
        -- symmetry. apply bool_decide_eq_false. by intros [? ?].
        -- rewrite Hdata, Hnone. done.
      * split; [rewrite Hlog, Hw; by rewrite (assoc_L (++))|].
        split; [|split; [|done]]; simpl; rewrite first_hit_snoc, Hnone; simpl; rewrite Hd.
        -- symmetry. by apply bool_decide_eq_true.
        -- done.
  - rewrite andb_false_r in H. apply ret_inv in H as [-> ->].
    exists plog. done.
Qed.

Lemma probe_loop_data (addr : val) (xs : list Z) :
  ∀ (st st' : MegaBlocksORAM.probe_state) (w w' : world)
    (base plog : list lookup_event),
  Forall (λ i, 0 ≤ i) xs →
  data_inv addr st plog →
  probes w = base ++ plog →
  for_each xs (MegaBlocksORAM.probe_step entropy hmac_sha256 addr) st w = Val (st', w') →
  ∃ plog', probes w' = base ++ plog' ∧ data_inv addr st' plog'.
Proof.
  induction xs as [|i xs IH]; intros st st' w w' base plog Hxs Hinv Hw H.
  - apply ret_inv in H as [-> ->]. by exists plog.
  - cbn [for_each] in H. mbind H as st1 w1 Hstep.
    apply Forall_cons in Hxs as [Hi Hxs].
    destruct (probe_step_data _ _ _ _ _ _ _ _ Hi Hinv Hw Hstep) as (plog1 & Hw1 & Hinv1).
    exact (IH _ _ _ _ _ _ Hxs Hinv1 Hw1 H).
Qed.

(** The value that an access returns is decided by its probe loop. *)
Lemma access_value (self self' : MegaBlocksORAM.t) (op : operation) (addr data v : val)
    (w w' : world) :
  MegaBlocksORAM.access entropy hmac_sha256 self op addr data w = Val ((v, self'), w') →
  ∃ st w1,
    for_each (range (MegaBlocksORAM.amount_of_levels self + 1))
      (MegaBlocksORAM.probe_step entropy hmac_sha256 addr)
      (MegaBlocksORAM.mkProbe self false (VTuple DUMMY)) w = Val (st, w1)
    ∧ probes w' = probes w1
    ∧ v = if negb (MegaBlocksORAM.p_found st) then VInt 0
          else MegaBlocksORAM.p_data_star st.
Proof.
  intros H. unfold MegaBlocksORAM.access in H.
  mbind H as st w1 Hprobe. exists st, w1. split; [done|].
  cbv zeta in H. destruct (_ <? _).
  - mbind H as st1 w2 Hg. apply (quiet_for_each _ _ quiet_gather_step) in Hg.
    mlift H as a1 E1. mlift H as a2 E2. mlift H as a3 E3. mbind H as a4 w3 E4.
    mlift H as a5 E5. mbind H as a6 w4 E6. mlift H as a7 E7. mlift H as a8 E8.
    apply ret_inv in H as [[= -> ->] ->].
    apply quiet_new in E4. apply quiet_ht_build in E6. split; [congruence|done].
  - mbind H as st1 w2 Hg. apply (quiet_for_each _ _ quiet_gather_step) in Hg.
    mlift H as a1 E1. mbind H as a2 w3 E2. mbind H as a4 w4 E4.
    mlift H as a5 E5. mbind H as a6 w5 E6. mlift H as a7 E7. mlift H as a8 E8.
    mlift H as a9 E9.
    apply ret_inv in H as [[= -> ->] ->].
    apply quiet_new in E4. apply quiet_ht_build in E6.
    assert (probes w3 = probes w2).
    { destruct (_ =? _); [by apply quiet_compaction in E2|by apply ret_inv in E2 as [_ ->]]. }
    split; [congruence|done].
Qed.

(** X9. The value returned by [access] is the integer 0 when no call of
    [ht_lookup] of the access returned an element, and otherwise the whole
    pair [(addr, value)] returned by the first call that did, as a tuple
    whose first component is the address: never the bare value stored
    under the address, and never the dummy element.  The operation and the
    data passed play no role in it: any other access to the same address
    from the same state returns the same value, whatever its operation and
    data. *)
Theorem access_returns_record (self self' : MegaBlocksORAM.t) (op : operation)
    (addr data v : val) (w w' : world) :
  MegaBlocksORAM.access entropy hmac_sha256 self op addr data w = Val ((v, self'), w') →
  (∃ plog : list lookup_event,
     probes w' = probes w ++ plog
     ∧ v = match first_hit plog with
           | Some item => VTuple item
           | None => VInt 0
           end)
  ∧ (v = VInt 0 ∨ ∃ d, v = VTuple [addr; d])
  ∧ ∀ (op' : operation) (data' v' : val) (self'' : MegaBlocksORAM.t) (w'' : world),
      MegaBlocksORAM.access entropy hmac_sha256 self op' addr data' w
      = Val ((v', self''), w'') →
      v' = v.
Proof.
  intros H.
  destruct (access_value _ _ _ _ _ _ _ _ H) as (st & w1 & Hprobe & Hq & ->).
  assert (Hinit : data_inv addr (MegaBlocksORAM.mkProbe self false (VTuple DUMMY)) []).
  { split; [reflexivity|done]. }
  assert (Hrange : Forall (λ i, 0 ≤ i) (range (MegaBlocksORAM.amount_of_levels self + 1))).
  { apply Forall_forall. intros i Hi. unfold range in Hi. apply elem_of_seqZ in Hi. lia. }
  destruct (probe_loop_data addr _ _ _ _ _ (probes w) []
              Hrange Hinit (eq_sym (app_nil_r _)) Hprobe)
    as (plog & Hw1 & Hfound & Hdata & Hitems).
  split; [|split].
  - exists plog. split; [by rewrite Hq|]. rewrite Hfound, Hdata.
    destruct (first_hit plog) as [item|] eqn:Hhit.
    + by rewrite bool_decide_eq_true_2 by (by eexists).
    + by rewrite bool_decide_eq_false_2 by (by intros [? ?]).
  - rewrite Hfound, Hdata.
    destruct (first_hit plog) as [item|] eqn:Hhit.
    + rewrite bool_decide_eq_true_2 by (by eexists). simpl. right.
      assert (Hin : ∃ e, e ∈ plog ∧ ev_item e = item ∧ elem_eqb item DUMMY = false).
      { clear -Hhit. induction plog as [|e plog IH]; [done|]. simpl in Hhit.
        destruct (elem_eqb (ev_item e) DUMMY) eqn:Hd.
        - destruct (IH Hhit) as (e' & He' & ?). exists e'. split; [by right|done].
        - injection Hhit as <-. exists e. split; [by left|done]. }
      destruct Hin as (e & He & <- & Hnd).
      destruct (proj1 (Forall_forall _ _) Hitems e He) as [Hd|[d Hd]].
      * rewrite Hd in Hnd. by rewrite (proj2 (elem_eqb_eq DUMMY DUMMY)) in Hnd.
      * exists d. by rewrite Hd.
    + rewrite bool_decide_eq_false_2 by (by intros [? ?]). simpl. by left.
  - intros op' data' v' self'' w'' H'.
    destruct (access_value _ _ _ _ _ _ _ _ H') as (st' & w1' & Hprobe' & _ & ->).
    rewrite Hprobe in Hprobe'. by injection Hprobe' as <- _.
Qed.

End access_result.

Lemma access_returns_record_witness :
  MegaBlocksORAM.access examples.entropy0 examples.hmac0 examples.oram1.2.1
    READ_OPERATION (VInt 3) (VStr "") examples.oram1.2.2
  = Val ((examples.oram3.1, examples.oram3.2.1), examples.oram3.2.2)
  ∧ examples.oram3.1 = VTuple [VInt 3; VStr "x"]
  ∧ (∃ plog : list lookup_event,
       probes examples.oram3.2.2 = probes examples.oram1.2.2 ++ plog
       ∧ examples.oram3.1 = match found.first_hit plog with
                            | Some item => VTuple item
                            | None => VInt 0
                            end)
  ∧ (examples.oram3.1 = VInt 0 ∨ ∃ d, examples.oram3.1 = VTuple [VInt 3; d])
  ∧ ∀ (op' : operation) (data' v' : val) (self'' : MegaBlocksORAM.t) (w'' : world),
      MegaBlocksORAM.access examples.entropy0 examples.hmac0 examples.oram1.2.1
        op' (VInt 3) data' examples.oram1.2.2
      = Val ((v', self''), w'') →
      v' = examples.oram3.1.
Proof.
  assert (H : MegaBlocksORAM.access examples.entropy0 examples.hmac0 examples.oram1.2.1
                READ_OPERATION (VInt 3) (VStr "") examples.oram1.2.2
              = Val ((examples.oram3.1, examples.oram3.2.1), examples.oram3.2.2))
    by (vm_compute; reflexivity).
  split; [exact H|]. split; [reflexivity|].
  exact (access_returns_record _ _ _ _ _ _ _ _ _ _ H).
Defined.
Section oram_state.

Variable entropy : nat → Z.
Variable hmac_sha256 : Z → val → Z.
Variable math_floor_log : Z → Z → Z.

Lemma find_first_below_least (bound : Z) (lfs : list Z) :
  ∀ index : Z,
  match MegaBlocksORAM.find_first_below bound index lfs with
  | Some j =>
      index ≤ j < index + Z.of_nat (length lfs)
      ∧ (∃ x, lfs !! Z.to_nat (j - index) = Some x ∧ x < bound)
      ∧ ∀ i x, index ≤ i < j → lfs !! Z.to_nat (i - index) = Some x → bound ≤ x
  | None => Forall (λ x, bound ≤ x) lfs
  end.
Proof.
  induction lfs as [|x lfs IH]; intros index; [simpl; constructor|].
  cbn [MegaBlocksORAM.find_first_below].
  destruct (Z.ltb_spec x bound).
  - split; [simpl; lia|]. split; [exists x; rewrite Z.sub_diag; done|]. lia.
  - specialize (IH (index + 1)).
    destruct (MegaBlocksORAM.find_first_below bound (index + 1) lfs) as [j|].
    + destruct IH as (Hj & (y & Hy & Hlt) & Hmin). split; [simpl; lia|]. split.
      * exists y. split; [|done].
        replace (Z.to_nat (j - index)) with (S (Z.to_nat (j - (index + 1)))) by lia.
        exact Hy.
      * intros i z Hi Hz. destruct (decide (i = index)) as [->|Hne].
        -- rewrite Z.sub_diag in Hz. injection Hz as <-. done.
        -- apply (Hmin i z); [lia|].
           replace (Z.to_nat (i - index)) with (S (Z.to_nat (i - (index + 1)))) in Hz by lia.
           exact Hz.
    + by constructor.
Qed.

(** X10. [find_ht_index] returns the least level whose load factor is
    below [q - 1]; when every load factor has reached [q - 1] it returns
    [amount_of_levels]. *)
Theorem find_ht_index_least (self : MegaBlocksORAM.t) :
  let j := MegaBlocksORAM.find_ht_index self in
  let lfs := MegaBlocksORAM.load_factors self in
  ((0 ≤ j < Z.of_nat (length lfs)
    ∧ (∃ x, lfs !! Z.to_nat j = Some x ∧ x < MegaBlocksORAM.q self - 1)
    ∧ ∀ i x, 0 ≤ i < j → lfs !! Z.to_nat i = Some x → MegaBlocksORAM.q self - 1 ≤ x)
   ∨ (j = MegaBlocksORAM.amount_of_levels self
      ∧ Forall (λ x, MegaBlocksORAM.q self - 1 ≤ x) lfs)).
Proof.
  intros j lfs. unfold j, MegaBlocksORAM.find_ht_index.
  pose proof (find_first_below_least (MegaBlocksORAM.q self - 1) lfs 0) as H.
  fold lfs. destruct (MegaBlocksORAM.find_first_below _ 0 lfs) as [j'|]; simpl.
  - left. destruct H as (Hj & (x & Hx & Hlt) & Hmin). rewrite Z.sub_0_r in Hx.
    split; [lia|]. split; [by exists x|].
    intros i y Hi Hy. apply (Hmin i y); [lia|]. by rewrite Z.sub_0_r.
  - by right.
Qed.

Lemma new_tables_loop (B : Z) (inner : list Z) (xs : list Z) :
  ∀ (ts ts' : list HashTable.t) (w w' : world),
  for_each xs
    (λ i ts,
       let inner := existsb (Z.eqb i) inner in
       let! tbl := HashTable.new entropy (RemoteRam.new B 0 None inner) B 0 false in
       ret (ts ++ [tbl]))
    ts w = Val (ts', w') →
  ∃ fresh, ts' = ts ++ fresh ∧ length fresh = length xs
           ∧ Forall (λ t, HashTable.is_built t = false) fresh
           ∧ read_operations w' = read_operations w
           ∧ write_operations w' = write_operations w.
Proof.
  induction xs as [|i xs IH]; intros ts ts' w w' H.
  - apply ret_inv in H as [-> ->]. exists []. by rewrite app_nil_r.
  - cbn [for_each] in H. mbind H as ts1 w1 Hstep. cbv zeta in Hstep.
    mbind Hstep as tbl w2 Hnew. apply ret_inv in Hstep as [-> ->].
    destruct (IH _ _ _ _ H) as (fresh & -> & Hlen & Hall & Hr & Hw).
    exists (tbl :: fresh). rewrite <- (assoc_L (++)). split; [done|].
    split; [simpl; by rewrite Hlen|].
    unfold HashTable.new in Hnew. destruct (B =? 0); [discriminate|].
    mbind Hnew as key w3 Hkey. apply ret_inv in Hnew as [-> ->].
    unfold token_bytes in Hkey. injection Hkey as <- <-.
    split; [by constructor|]. simpl in Hr, Hw. done.
Qed.

(** X11. Whatever integer [math.floor(math.log(N, q))] is, a constructor
    that returns has taken it as [amount_of_levels], and it is not
    negative; it leaves one table and one load factor per level
    [0 .. amount_of_levels]; every load factor is 0 except that of the top
    level, which is [q - 1]; the top table is built and no other is; and
    the two counters of [RemoteRam] are reset to 0, so that the reads and
    writes of the initial build are not counted. *)
Theorem constructor_state (N B q lm : Z) (self : MegaBlocksORAM.t) (w w' : world) :
  MegaBlocksORAM.new entropy hmac_sha256 math_floor_log N B q lm w = Val (self, w') →
  let L := MegaBlocksORAM.amount_of_levels self in
  L = math_floor_log N q
  ∧ 0 ≤ L
  ∧ MegaBlocksORAM.N self = N ∧ MegaBlocksORAM.B self = B ∧ MegaBlocksORAM.q self = q
  ∧ MegaBlocksORAM.load_factors self = py_repeat 0 L ++ [q - 1]
  ∧ Z.of_nat (length (MegaBlocksORAM.tables self)) = L + 1
  ∧ (∀ i t, MegaBlocksORAM.tables self !! i = Some t →
       HashTable.is_built t = bool_decide (Z.of_nat i = L))
  ∧ read_operations w' = 0 ∧ write_operations w' = 0.
Proof.
  intros H. pose proof (new_levels_nonneg _ _ _ _ _ _ _ _ _ _ H) as HL.
  unfold MegaBlocksORAM.new in H.
  destruct (Z.leb_spec N 0); [discriminate|].
  destruct (Z.leb_spec q 0); [discriminate|]. simpl in H.
  destruct (Z.eqb_spec q 1); [discriminate|].
  destruct (Z.eqb_spec B 0); [discriminate|]. simpl in H.
  mbind H as ts w1 Hts.
  set (L := math_floor_log N q) in *.
  apply new_tables_loop in Hts as (fresh & -> & Hlen & Hfresh & _). simpl in *.
  unfold MegaBlocksORAM.init_oram in H. cbv zeta in H.
  cbn [MegaBlocksORAM.B MegaBlocksORAM.N MegaBlocksORAM.tables MegaBlocksORAM.q
       MegaBlocksORAM.amount_of_levels MegaBlocksORAM.load_factors
       MegaBlocksORAM.set_tables MegaBlocksORAM.set_load_factors] in H.
  mlift H as X HX. mbind H as tbl w2 Hnew. mlift H as ts1 Hts1.
  mbind H as tbl' w3 Hbuild. mlift H as ts2 Hts2. mlift H as lf Hset.
  injection H as <- <-.
  cbn [MegaBlocksORAM.B MegaBlocksORAM.N MegaBlocksORAM.tables MegaBlocksORAM.q
       MegaBlocksORAM.amount_of_levels MegaBlocksORAM.load_factors
       MegaBlocksORAM.set_tables MegaBlocksORAM.set_load_factors
       read_operations write_operations].
  apply py_set_inv in Hts1 as [-> Hlt1]; [|lia].
  apply py_set_inv in Hts2 as [-> Hlt2]; [|lia].
  apply py_set_inv in Hset as [-> Hlt3]; [|lia].
  apply ht_build_is_built in Hbuild.
  assert (Hlenf : length fresh = Z.to_nat (L + 1)).
  { rewrite Hlen. unfold range. rewrite length_seqZ. done. }
  split; [done|]. split; [done|]. split; [done|]. split; [done|]. split; [done|]. split.
  { unfold py_repeat. replace (Z.to_nat (L + 1)) with (Z.to_nat L + 1)%nat by lia.
    rewrite replicate_add. simpl.
    rewrite insert_app_r_alt by (rewrite length_replicate; lia).
    rewrite length_replicate, Nat.sub_diag. done. }
  split; [rewrite !length_insert; lia|]. split; [|done].
  intros i t Ht. rewrite list_insert_insert_eq in Ht.
  destruct (decide (i = Z.to_nat L)) as [->|Hne].
  - rewrite list_lookup_insert_eq in Ht by lia. injection Ht as <-.
    rewrite Hbuild. symmetry. apply bool_decide_eq_true. lia.
  - rewrite list_lookup_insert_ne in Ht by done.
    rewrite (Forall_lookup_1 _ _ _ _ Hfresh Ht). symmetry. apply bool_decide_eq_false. lia.
Qed.

End oram_state.

Lemma constructor_state_witness :
  MegaBlocksORAM.new examples.entropy0 examples.hmac0 examples.floor_log0 4 2 2 2 examples.world0
  = Val (examples.oram0.1, examples.oram0.2)
  ∧ MegaBlocksORAM.load_factors examples.oram0.1 = [0; 0; 1]
  ∧ (let L := MegaBlocksORAM.amount_of_levels examples.oram0.1 in
     L = examples.floor_log0 4 2
     ∧ 0 ≤ L
     ∧ MegaBlocksORAM.N examples.oram0.1 = 4 ∧ MegaBlocksORAM.B examples.oram0.1 = 2
     ∧ MegaBlocksORAM.q examples.oram0.1 = 2
     ∧ MegaBlocksORAM.load_factors examples.oram0.1 = py_repeat 0 L ++ [2 - 1]
     ∧ Z.of_nat (length (MegaBlocksORAM.tables examples.oram0.1)) = L + 1
     ∧ (∀ i t, MegaBlocksORAM.tables examples.oram0.1 !! i = Some t →
          HashTable.is_built t = bool_decide (Z.of_nat i = L))
     ∧ read_operations examples.oram0.2 = 0 ∧ write_operations examples.oram0.2 = 0).
Proof.
  assert (H : MegaBlocksORAM.new examples.entropy0 examples.hmac0 examples.floor_log0 4 2 2 2 examples.world0
              = Val (examples.oram0.1, examples.oram0.2)) by (vm_compute; reflexivity).
  split; [exact H|]. split; [reflexivity|].
  exact (constructor_state _ _ _ _ _ _ _ _ _ _ H).
Defined.
(** ** Where [bin_packing] puts the elements *)

Section butterfly_facts.

Import routing level levels butterfly keys.

Variables k B key_index : Z.
Hypothesis B_nonneg : 0 ≤ B.
Hypothesis key_index_nonneg : 0 ≤ key_index.
Let C : Z := 2 ^ k.

Lemma elem_of_concat {T : Type} (x : T) (ls : list (list T)) :
  x ∈ concat ls ↔ ∃ l, l ∈ ls ∧ x ∈ l.
Proof.
  induction ls as [|l ls IH]; simpl.
  - split; [by intros ?%elem_of_nil|by intros (? & ?%elem_of_nil & _)].
  - rewrite elem_of_app, IH. split.
    + intros [Hx|(l' & Hl' & Hx)]; [exists l; split; [by left|done]|].
      exists l'. split; [by right|done].
    + intros (l' & Hl' & Hx). apply elem_of_cons in Hl' as [->|Hl']; [by left|].
      right. by exists l'.
Qed.

Lemma interleave_perm (a b : block) :
  length a = length b → interleave a b ≡ₚ a ++ b.
Proof.
  revert b. induction a as [|x a IH]; intros [|y b] Hlen; try done.
  simpl. injection Hlen as Hlen. rewrite (IH b Hlen).
  constructor. by rewrite Permutation_middle.
Qed.

Lemma goes_real (bl i : Z) (right : bool) (x : elem) :
  goes bl key_index i right x → is_real x.
Proof. unfold goes. by intros [? _]%andb_prop_elim. Qed.

Lemma reals_pad (b : block) :
  Forall (λ x, is_real x) b → reals (pad B b) = b.
Proof.
  intros Hall. unfold reals, pad. rewrite filter_app.
  assert (Hd : ∀ n, filter (λ x, is_real x) (replicate n DUMMY) = []).
  { induction n as [|n IHn]; [done|]. simpl.
    rewrite filter_cons_False by (intros H; exact H). exact IHn. }
  unfold py_repeat. rewrite Hd, app_nil_r.
  induction Hall as [|x b Hx Hall IH]; [done|].
  rewrite filter_cons_True by done. by rewrite IH.
Qed.

Lemma filter_goes_reals (bl i : Z) (right : bool) (a : block) :
  filter (λ x, goes bl key_index i right x) (reals a)
  = filter (λ x, goes bl key_index i right x) a.
Proof. unfold reals. apply list_filter_filter_l. intros x. apply goes_real. Qed.

Lemma reals_half (bl i : Z) (right : bool) (a_0 a_1 : block) :
  length a_0 = length a_1 →
  reals (pad B (half bl key_index i right a_0 a_1))
  ≡ₚ filter (λ x, goes bl key_index i right x) (reals a_0)
     ++ filter (λ x, goes bl key_index i right x) (reals a_1).
Proof.
  intros Hlen. rewrite reals_pad.
  - unfold half. rewrite (interleave_perm _ _ Hlen), filter_app.
    by rewrite !filter_goes_reals.
  - unfold half. apply Forall_forall. intros x Hx.
    apply list_elem_of_filter in Hx as [Hg _]. by eapply goes_real.
Qed.

Lemma prefix_step (n : Z) (x : elem) :
  0 ≤ n < k →
  prefix k key_index (n + 1) x = 2 * prefix k key_index n x + bit k key_index n x
  ∧ 0 ≤ bit k key_index n x < 2
  ∧ 0 ≤ prefix k key_index n x < 2 ^ n.
Proof.
  intros Hn. unfold prefix, bit. set (d := dest key_index x).
  assert (Hp : 0 < 2 ^ n) by (apply Z.pow_pos_nonneg; lia).
  replace (k - n) with (k - (n + 1) + 1) by lia.
  set (m := k - (n + 1)).
  rewrite <- (Z.shiftr_shiftr d m 1) by lia.
  set (qd := Z.shiftr d m).
  rewrite (Z.shiftr_div_pow2 qd 1) by lia. change (2 ^ 1) with 2.
  rewrite Z.land_ones with (n := 1) by lia. change (2 ^ 1) with 2.
  rewrite Z.pow_add_r by lia. change (2 ^ 1) with 2.
  rewrite (Z.mul_comm (2 ^ n) 2), Z.rem_mul_r by lia.
  pose proof (Z.mod_pos_bound qd 2 ltac:(lia)).
  pose proof (Z.mod_pos_bound (qd `div` 2) (2 ^ n) Hp). lia.
Qed.

Lemma wanted_step (n r : Z) (x : elem) :
  0 ≤ n < k → 0 ≤ r →
  wanted k key_index (n + 1) r x
  ↔ wanted k key_index n (r / 2) x ∧ goes k key_index n (Z.odd r) x.
Proof.
  intros Hn Hr. unfold wanted, goes.
  destruct (prefix_step n x Hn) as (Hstep & Hbit & Hpre). rewrite Hstep.
  pose proof (Z.div_mod r 2 ltac:(lia)) as Hdm.
  pose proof (Z.mod_pos_bound r 2 ltac:(lia)) as Hmod.
  rewrite Zmod_odd in Hdm, Hmod.
  destruct (is_real x); simpl; [|tauto].
  destruct (Z.odd r); simpl.
  - destruct (Z.eqb_spec (2 * prefix k key_index n x + bit k key_index n x) r),
             (Z.eqb_spec (prefix k key_index n x) (r / 2)),
             (Z.eqb_spec (bit k key_index n x) 0); simpl; try tauto; lia.
  - destruct (Z.eqb_spec (2 * prefix k key_index n x + bit k key_index n x) r),
             (Z.eqb_spec (prefix k key_index n x) (r / 2)),
             (Z.eqb_spec (bit k key_index n x) 0); simpl; try tauto; lia.
Qed.

Lemma group_split (n g : Z) (A : list block) :
  0 ≤ n → 0 ≤ g →
  group (n + 1) g A = group n (2 * g) A ++ group n (2 * g + 1) A.
Proof.
  intros Hn Hg. unfold group. rewrite <- concat_app. f_equal.
  assert (Hp : 0 < 2 ^ n) by (apply Z.pow_pos_nonneg; lia).
  rewrite Z.pow_add_r by lia. change (2 ^ 1) with 2.
  replace (Z.to_nat (2 ^ n * 2)) with (Z.to_nat (2 ^ n) + Z.to_nat (2 ^ n))%nat by lia.
  rewrite <- take_take_drop, drop_drop. f_equal; f_equal; f_equal; nia.
Qed.

Lemma cell_of_next (A : list block) (i c : Z) :
  0 ≤ c < C →
  cell_of (next C B k key_index A i) c = out_cell B k key_index A i c.
Proof.
  intros Hc. unfold cell_of, next, range. rewrite list_lookup_fmap.
  rewrite lookup_seqZ_lt by lia. simpl. f_equal. lia.
Qed.

(** After [n] levels the cell [g * 2^n + r] holds the real elements of
    the input cells of group [g] whose destination starts with the [n]
    bits [r]. *)
Lemma after_cell (A : list block) (n : nat) :
  wf_memory C B key_index A → Z.of_nat n ≤ k →
  fits_upto C B k key_index n A = true →
  ∀ g r, 0 ≤ r < 2 ^ Z.of_nat n → 0 ≤ g < 2 ^ (k - Z.of_nat n) →
  reals (cell_of (after C B k key_index n A) (g * 2 ^ Z.of_nat n + r))
  ≡ₚ filter (λ x, wanted k key_index (Z.of_nat n) r x) (group (Z.of_nat n) g A).
Proof.
  intros HA. induction n as [|n IH]; intros Hn Hfits g r Hr Hg.
  - simpl in *. assert (r = 0) as -> by lia. rewrite Z.mul_1_r, Z.add_0_r.
    unfold group, cell_of. change (Z.to_nat (2 ^ 0)) with 1%nat.
    rewrite Z.mul_1_r.
    assert (Hlen : (Z.to_nat g < length A)%nat).
    { destruct HA as [HlenA _]. rewrite HlenA. unfold C.
      rewrite Z.sub_0_r in Hg. lia. }
    destruct (lookup_lt_is_Some_2 A (Z.to_nat g) Hlen) as [cell Hcell].
    rewrite Hcell. simpl.
    rewrite (drop_S _ _ _ Hcell). simpl. rewrite ?take_0. simpl. rewrite ?app_nil_r.
    unfold reals. apply eq_subrelation; [apply _|].
    apply list_filter_iff. intros x. unfold wanted, prefix.
    change (2 ^ 0) with 1. rewrite Z.mod_1_r. simpl.
    destruct (is_real x); simpl; tauto.
  - cbn [fits_upto] in Hfits. apply andb_true_iff in Hfits as [Hfits Hfit].
    specialize (IH ltac:(lia) Hfits).
    cbn [after]. set (A' := after C B k key_index n A) in *.
    assert (HA' : wf_memory C B key_index A').
    { apply (levels_spec k B key_index B_nonneg key_index_nonneg A n HA); [lia|done]. }
    replace (Z.of_nat (S n)) with (Z.of_nat n + 1) in * by lia.
    set (i := Z.of_nat n) in *.
    assert (Hp : 0 < 2 ^ i) by (apply Z.pow_pos_nonneg; lia).
    assert (Hp1 : 2 ^ (i + 1) = 2 * 2 ^ i).
    { rewrite Z.pow_add_r by lia. change (2 ^ 1) with 2. lia. }
    assert (Hk : 2 ^ k = 2 ^ (k - (i + 1)) * 2 ^ (i + 1)).
    { rewrite <- Z.pow_add_r by lia. f_equal. lia. }
    assert (Hc : 0 ≤ g * 2 ^ (i + 1) + r < C) by (unfold C; nia).
    rewrite cell_of_next by done. unfold out_cell.
    assert (Hodd : Z.odd (g * 2 ^ (i + 1) + r) = Z.odd r).
    { rewrite Hp1. replace (g * (2 * 2 ^ i) + r) with (r + 2 * (g * 2 ^ i)) by lia.
      apply Z.odd_add_mul_2. }
    assert (Hhalf : (g * 2 ^ (i + 1) + r) / 2 = g * 2 ^ i + r / 2).
    { rewrite Hp1. replace (g * (2 * 2 ^ i) + r) with (r + (g * 2 ^ i) * 2) by lia.
      rewrite Z.div_add by lia. lia. }
    rewrite Hodd, Hhalf.
    assert (Hr2 : 0 ≤ r / 2 < 2 ^ i).
    { split; [apply Z.div_pos; lia|apply Z.div_lt_upper_bound; lia]. }
    assert (Hj : (g * 2 ^ i + r / 2) / 2 ^ i = g).
    { rewrite Z.add_comm, Z.div_add by lia. rewrite Z.div_small by lia. lia. }
    assert (Hleft : left_cell i (g * 2 ^ i + r / 2) = (2 * g) * 2 ^ i + r / 2).
    { unfold left_cell. rewrite Hj. lia. }
    assert (Hright : right_cell i (g * 2 ^ i + r / 2) = (2 * g + 1) * 2 ^ i + r / 2).
    { unfold right_cell. rewrite Hleft. lia. }
    rewrite Hleft, Hright.
    assert (Hki : 2 ^ (k - i) = 2 * 2 ^ (k - (i + 1))).
    { replace (k - i) with (k - (i + 1) + 1) by lia.
      rewrite Z.pow_add_r by lia. change (2 ^ 1) with 2. lia. }
    assert (Hk' : 2 ^ k = 2 ^ (k - i) * 2 ^ i).
    { rewrite <- Z.pow_add_r by lia. f_equal. lia. }
    assert (Hl : 0 ≤ 2 * g * 2 ^ i + r / 2 < 2 ^ k) by nia.
    assert (Hrt : 0 ≤ (2 * g + 1) * 2 ^ i + r / 2 < 2 ^ k) by nia.
    destruct (wf_cell_of k B key_index A' _ HA' Hl) as [Hlen0 _].
    destruct (wf_cell_of k B key_index A' _ HA' Hrt) as [Hlen1 _].
    rewrite reals_half by congruence.
    rewrite (IH (2 * g) (r / 2)) by lia.
    rewrite (IH (2 * g + 1) (r / 2)) by lia.
    rewrite !list_filter_filter, group_split, filter_app by lia.
    apply eq_subrelation; [apply _|].
    f_equal; apply list_filter_iff; intros x;
      rewrite (wanted_step i r x) by lia; tauto.
Qed.

(** The table that [bin_packing] returns: cell [p] holds, up to their
    order, the real elements of the input whose destination is [p]
    modulo [C], and dummies. *)
Lemma after_all_cell (A : list block) (p : Z) :
  0 ≤ k →
  wf_memory C B key_index A →
  fits_upto C B k key_index (Z.to_nat k) A = true →
  0 ≤ p < C →
  reals (cell_of (after C B k key_index (Z.to_nat k) A) p)
  ≡ₚ filter (λ x, is_real x ∧ dest key_index x `mod` C = p) (concat A).
Proof.
  intros Hk HA Hfits Hp.
  pose proof (after_cell A (Z.to_nat k) HA ltac:(lia) Hfits 0 p) as H.
  rewrite Z2Nat.id in H by lia. rewrite Z.sub_diag in H.
  specialize (H Hp ltac:(change (2 ^ 0) with 1; lia)).
  rewrite Z.mul_0_l, Z.add_0_l in H. rewrite H.
  unfold group. rewrite Z.mul_0_l. simpl. rewrite drop_0.
  rewrite take_ge by (destruct HA as [-> _]; unfold C; lia).
  apply eq_subrelation; [apply _|].
  apply list_filter_iff. intros x. unfold wanted, prefix.
  rewrite Z.sub_diag, Z.shiftr_0_r. fold C.
  destruct (is_real x); simpl; [|tauto].
  destruct (Z.eqb_spec (dest key_index x `mod` C) p); simpl; tauto.
Qed.


(** Every element of a cell produced by the levels is the dummy element
    or an element of the input. *)
Lemma after_elems (A : list block) (n : nat) :
  Z.of_nat n ≤ k →
  ∀ p y, 0 ≤ p < C →
  y ∈ cell_of (after C B k key_index n A) p → y = DUMMY ∨ y ∈ concat A.
Proof.
  induction n as [|n IH]; intros Hn p y Hp Hy.
  - right. simpl in Hy. unfold cell_of in Hy.
    destruct (A !! Z.to_nat p) as [cell|] eqn:Hcell; [|by apply elem_of_nil in Hy].
    simpl in Hy. apply elem_of_concat. exists cell.
    split; [by eapply list_elem_of_lookup_2|done].
  - cbn [after] in Hy. rewrite cell_of_next in Hy by done.
    unfold out_cell, pad in Hy. apply elem_of_app in Hy as [Hy|Hy].
    + unfold half in Hy. apply list_elem_of_filter in Hy as [_ Hy].
      assert (Hi : 0 ≤ Z.of_nat n < k) by lia.
      assert (Hj : 0 ≤ p / 2 < C / 2).
      { destruct (half_C k _ Hi) as [_ HC]. fold C in HC.
        split; [apply Z.div_pos; lia|apply Z.div_lt_upper_bound; lia]. }
      destruct (pair_in_range k _ (p / 2) Hi Hj) as [Hl Hr]. fold C in Hr.
      assert (Hp2 : 0 < 2 ^ Z.of_nat n) by (apply Z.pow_pos_nonneg; lia).
      apply elem_of_interleave in Hy as [Hy|Hy].
      * apply (IH ltac:(lia) _ y) in Hy; [done|]. unfold right_cell in Hr. lia.
      * apply (IH ltac:(lia) _ y) in Hy; [done|]. unfold right_cell in *. lia.
    + left. unfold py_repeat in Hy. by apply elem_of_replicate in Hy as [-> _].
Qed.

End butterfly_facts.
Section routes.

Import routing level levels butterfly keys.

(** What [bin_packing] has returned, in terms of the levels. *)
Lemma bin_packing_result (X r : RemoteRam.t) (n B key_index : Z) (local : bool)
    (w w' : world) :
  let C := choose_C n B in
  let k := Z.log2 C in
  0 ≤ B → 0 ≤ key_index →
  wf_memory C B key_index (RemoteRam.memory X) →
  bin_packing.bin_packing X n B key_index local w = Val (r, w') →
  fits_upto C B k key_index (Z.to_nat k) (RemoteRam.memory X) = true
  ∧ RemoteRam.memory r = after C B k key_index (Z.to_nat k) (RemoteRam.memory X)
  ∧ wf_memory C B key_index (RemoteRam.memory r)
  ∧ r = (if k =? 0 then X else RemoteRam.mk B C (RemoteRam.memory r) local)
  ∧ w' = (if k =? 0 then w
          else bump w ((C / 2) * (2 * cost (RemoteRam.local X))
                       + (k - 1) * ((C / 2) * (2 * cost local)))
                      (k * ((C / 2) * (2 * cost local)))).
Proof.
  intros C k HB Hki HX H.
  assert (HC : C = 2 ^ k) by apply choose_C_pow2.
  assert (Hk : 0 ≤ k) by apply Z.log2_nonneg.
  rewrite bin_packing_refine in H. fold C k in H. unfold range in H.
  rewrite HC in HX.
  pose proof (levels_spec k B key_index HB Hki (RemoteRam.memory X) (Z.to_nat k) HX
                ltac:(lia)) as [Hrun Hwf].
  rewrite Z2Nat.id in Hrun by lia. rewrite <- HC in Hrun, Hwf. rewrite Hrun in H.
  destruct (fits_upto C B k key_index (Z.to_nat k) (RemoteRam.memory X)); [|done].
  injection H as <- <-. split; [done|].
  destruct (Z.eqb_spec k 0) as [Hk0|Hk0].
  - rewrite Hk0. simpl. split; [done|]. split; [|done].
    rewrite Hk0 in HX. rewrite HC, Hk0. exact HX.
  - simpl. split; [done|]. split; [|done]. by apply Hwf.
Qed.

(** The cells after all the levels, for the number of bins that
    [choose_C] gives. *)
Lemma packed_cell (A : list block) (n B key_index p : Z) :
  let C := choose_C n B in
  let k := Z.log2 C in
  0 ≤ B → 0 ≤ key_index →
  wf_memory C B key_index A →
  fits_upto C B k key_index (Z.to_nat k) A = true →
  0 ≤ p < C →
  reals (cell_of (after C B k key_index (Z.to_nat k) A) p)
  ≡ₚ filter (λ x, is_real x ∧ dest key_index x `mod` C = p) (concat A)
  ∧ ∀ y, y ∈ cell_of (after C B k key_index (Z.to_nat k) A) p →
         y = DUMMY ∨ y ∈ concat A.
Proof.
  intros C k HB Hki HA Hfits Hp.
  assert (HC : C = 2 ^ k) by apply choose_C_pow2.
  assert (Hk : 0 ≤ k) by apply Z.log2_nonneg.
  clearbody k. clearbody C. subst C. split.
  - exact (after_all_cell k B key_index HB Hki A p Hk HA Hfits Hp).
  - intros y Hy.
    exact (after_elems k B key_index A (Z.to_nat k) ltac:(lia) p y Hp Hy).
Qed.

(** X12. When [bin_packing] returns, cell [p] of the memory returned
    holds exactly [B] elements: up to their order, the real elements of
    the input whose field [key_index] is [p] modulo [C], the rest being
    dummies.  Every real element of the input is therefore in the cell
    named by its key, and in no other. *)
Theorem bin_packing_routes (X r : RemoteRam.t) (n B key_index : Z) (local : bool)
    (w w' : world) (p : Z) :
  let C := choose_C n B in
  0 ≤ B → 0 ≤ key_index →
  wf_memory C B key_index (RemoteRam.memory X) →
  bin_packing.bin_packing X n B key_index local w = Val (r, w') →
  0 ≤ p < C →
  reals (cell_of (RemoteRam.memory r) p)
  ≡ₚ filter (λ x, is_real x ∧ dest key_index x `mod` C = p) (concat (RemoteRam.memory X))
  ∧ length (cell_of (RemoteRam.memory r) p) = Z.to_nat B
  ∧ Z.of_nat (length (RemoteRam.memory r)) = C
  ∧ ∀ y, y ∈ cell_of (RemoteRam.memory r) p →
         y = DUMMY ∨ y ∈ concat (RemoteRam.memory X).
Proof.
  intros C HB Hki HX H Hp.
  destruct (bin_packing_result X r n B key_index local w w' HB Hki HX H)
    as (Hfits & Hmem & Hwf & _).
  fold C in Hfits, Hmem, Hwf.
  destruct (packed_cell (RemoteRam.memory X) n B key_index p HB Hki HX Hfits Hp)
    as [Hreals Helems].
  fold C in Hreals, Helems. rewrite <- Hmem in Hreals, Helems.
  split; [exact Hreals|]. split; [|split; [|exact Helems]].
  - pose proof (proj1 (Forall_lookup _ _) (proj2 Hwf) (Z.to_nat p)) as Hcell.
    unfold cell_of.
    destruct (lookup_lt_is_Some_2 (RemoteRam.memory r) (Z.to_nat p)
                ltac:(destruct Hwf as [-> _]; lia)) as [cell Hc].
    rewrite Hc. simpl. exact (proj1 (Hcell cell Hc)).
  - destruct Hwf as [-> _]. pose proof (choose_C_pos n B). unfold C. lia.
Qed.

End routes.

Lemma bin_packing_routes_witness :
  routing.wf_memory (choose_C 4 2) 2 2 (RemoteRam.memory routing_example.X)
  ∧ bin_packing.bin_packing routing_example.X 4 2 2 false examples.world0
    = Val (routing_example.packed.1, routing_example.packed.2)
  ∧ level.cell_of (RemoteRam.memory routing_example.packed.1) 2
    = [[VInt 13; VStr "d"; VInt 2]; [VInt 12; VStr "c"; VInt 2]]
  ∧ keys.reals (level.cell_of (RemoteRam.memory routing_example.packed.1) 2)
    ≡ₚ filter (λ x, routing.is_real x ∧ routing.dest 2 x `mod` choose_C 4 2 = 2)
         (concat (RemoteRam.memory routing_example.X))
  ∧ length (level.cell_of (RemoteRam.memory routing_example.packed.1) 2) = Z.to_nat 2
  ∧ Z.of_nat (length (RemoteRam.memory routing_example.packed.1)) = choose_C 4 2
  ∧ ∀ y, y ∈ level.cell_of (RemoteRam.memory routing_example.packed.1) 2 →
         y = DUMMY ∨ y ∈ concat (RemoteRam.memory routing_example.X).
Proof.
  assert (Hwf : routing.wf_memory (choose_C 4 2) 2 2
                  (RemoteRam.memory routing_example.X)).
  { split; [reflexivity|]. repeat constructor. }
  assert (H : bin_packing.bin_packing routing_example.X 4 2 2 false examples.world0
              = Val (routing_example.packed.1, routing_example.packed.2))
    by (vm_compute; reflexivity).
  split; [exact Hwf|]. split; [exact H|]. split; [reflexivity|].
  apply (bin_packing_routes routing_example.X routing_example.packed.1 4 2 2 false
           examples.world0 routing_example.packed.2 2); [lia|lia|exact Hwf|exact H|].
  change (choose_C 4 2) with 4. lia.
Defined.
(** ** The intermediate array built by [ht_build] *)

Lemma for_each_seq_inv {St : Type} (P : Z → St → Prop) (body : Z → St → M St)
    (len : nat) :
  ∀ (a : Z) (s s' : St) (w w' : world),
  (∀ i t v t' v', a ≤ i < a + Z.of_nat len → P i t → body i t v = Val (t', v') →
                  P (i + 1) t') →
  P a s →
  for_each (seqZ a (Z.of_nat len)) body s w = Val (s', w') →
  P (a + Z.of_nat len) s'.
Proof.
  induction len as [|len IH]; intros a s s' w w' Hbody Hs H.
  - apply ret_inv in H as [-> _]. by rewrite Z.add_0_r.
  - rewrite seqZ_cons in H by lia.
    replace (Z.pred (Z.of_nat (S len))) with (Z.of_nat len) in H by lia.
    cbn [for_each] in H. apply bind_inv in H as (s1 & w1 & H1 & H).
    replace (a + Z.of_nat (S len)) with (Z.succ a + Z.of_nat len) by lia.
    eapply IH; [|eapply Hbody; [|exact Hs|exact H1]; lia|exact H].
    intros i t v t' v' Hi. apply Hbody. lia.
Qed.

Section build_facts.

Import routing tagging built_array keys.

Variable entropy : nat → Z.
Variable hmac_sha256 : Z → val → Z.
Variable self : HashTable.t.

Lemma is_real_app (x y : elem) : x ≠ [] → is_real (x ++ y) = is_real x.
Proof. by destruct x. Qed.

Lemma is_real_key (x : elem) :
  x ≠ [] → is_real x = negb (val_eqb (key_of x) DUMMY_ADDR).
Proof. by destruct x. Qed.

Lemma bin_of_real (k : val) (key : Z) (w w' : world) :
  HashTable.bin_of entropy hmac_sha256 self k w = Val (key, w') →
  val_eqb k DUMMY_ADDR = false →
  key = hmac_sha256 (HashTable.secret_key self) k `mod` HashTable.C self.
Proof.
  unfold HashTable.bin_of. intros H Hk. rewrite Hk in H. by apply ret_inv in H as [-> _].
Qed.

(** The loop that appends its bin to each of the first elements of a
    cell. *)
Lemma tag_loop (len : nat) :
  ∀ (j : nat) (cell cell' : block) (w w' : world),
  for_each (seqZ (Z.of_nat j) (Z.of_nat len)) (HashTable.tag_step entropy hmac_sha256 self)
    cell w = Val (cell', w') →
  length cell' = length cell
  ∧ ∀ (idx : nat) (x : elem),
      cell !! idx = Some x →
      if bool_decide (j ≤ idx < j + len)%nat
      then ∃ key, cell' !! idx = Some (x ++ [VInt key])
                  ∧ x ≠ []
                  ∧ (is_real x →
                     key = hmac_sha256 (HashTable.secret_key self) (key_of x)
                             `mod` HashTable.C self)
      else cell' !! idx = Some x.
Proof.
  induction len as [|len IH]; intros j cell cell' w w' H.
  - apply ret_inv in H as [-> _]. split; [done|].
    intros idx x Hx. rewrite bool_decide_eq_false_2 by lia. done.
  - rewrite seqZ_cons in H by lia.
    replace (Z.pred (Z.of_nat (S len))) with (Z.of_nat len) in H by lia.
    replace (Z.succ (Z.of_nat j)) with (Z.of_nat (S j)) in H by lia.
    cbn [for_each] in H. mbind H as cell1 w1 Hstep.
    unfold HashTable.tag_step in Hstep.
    mlift Hstep as x Hx. mlift Hstep as k0 Hk0. mbind Hstep as key w2 Hbin.
    apply lift_inv in Hstep as [Hset ->].
    apply py_index_inv in Hx; [|lia]. rewrite Nat2Z.id in Hx.
    apply py_set_inv in Hset as [-> Hlt]; [|lia]. rewrite Nat2Z.id in *.
    destruct x as [|x0 x]; [discriminate|]. injection Hk0 as <-.
    destruct (IH _ _ _ _ _ H) as (Hlen & Hcells).
    rewrite length_insert in Hlen.
    split; [done|].
    intros idx y Hy. destruct (decide (idx = j)) as [->|Hne].
    + rewrite bool_decide_eq_true_2 by lia.
      rewrite Hx in Hy. injection Hy as <-.
      specialize (Hcells j _ (list_lookup_insert_eq _ _ _ Hlt)).
      rewrite bool_decide_eq_false_2 in Hcells by lia.
      exists key. split; [done|]. split; [done|].
      intros Hreal. eapply bin_of_real; [exact Hbin|].
      simpl in Hreal. by apply negb_prop_elim, Is_true_false in Hreal.
    + specialize (Hcells idx y). rewrite list_lookup_insert_ne in Hcells by done.
      specialize (Hcells Hy).
      destruct (bool_decide (S j ≤ idx < S j + len)%nat) eqn:E.
      * apply bool_decide_eq_true in E. rewrite bool_decide_eq_true_2 by lia. done.
      * apply bool_decide_eq_false in E. rewrite bool_decide_eq_false_2 by lia. done.
Qed.


Lemma half_even (i : Z) : 2 * i / 2 = i.
Proof. rewrite Z.mul_comm. apply Z.div_mul. lia. Qed.

Lemma half_odd (i : Z) : (2 * i + 1) / 2 = i.
Proof. symmetry. apply (Z.div_unique _ _ _ 1); lia. Qed.

Lemma read_memory_cell_inv (r : RemoteRam.t) (i : Z) (cell : block) (w w' : world) :
  RemoteRam.read_memory_cell r i w = Val (cell, w') →
  0 ≤ i < Z.of_nat (length (RemoteRam.memory r))
  ∧ RemoteRam.memory r !! Z.to_nat i = Some cell
  ∧ w' = bump w (cost (RemoteRam.local r)) 0.
Proof.
  rewrite read_memory_cell_pure. unfold packing.cell_at.
  destruct ((i >? _) || (i <? 0)) eqn:Hg; [done|]. apply index_guard_false in Hg.
  destruct (py_index_in_range (RemoteRam.memory r) i Hg) as (c & -> & Hc).
  intros [= <- <-]. done.
Qed.

Lemma write_memory_cell_inv (r r' : RemoteRam.t) (i : Z) (b : block) (w w' : world) :
  RemoteRam.write_memory_cell r i b w = Val (r', w') →
  0 ≤ i < Z.of_nat (length (RemoteRam.memory r))
  ∧ r' = HashTable.set_memory r (<[Z.to_nat i := b]> (RemoteRam.memory r))
  ∧ w' = bump w 0 (cost (RemoteRam.local r)).
Proof.
  rewrite write_memory_cell_pure. unfold packing.store_at.
  destruct ((i >? _) || (i <? 0)) eqn:Hg; [done|]. apply index_guard_false in Hg.
  rewrite py_set_in_range by done. intros [= <- <-]. done.
Qed.

Lemma cell_of_insert (A : list block) (p q : Z) (b : block) :
  0 ≤ p → 0 ≤ q →
  level.cell_of (<[Z.to_nat p := b]> A) q
  = if decide (q = p ∧ p < Z.of_nat (length A)) then b else level.cell_of A q.
Proof.
  intros Hp Hq. unfold level.cell_of. destruct (decide (q = p ∧ _)) as [[-> Hlt]|Hne].
  - rewrite list_lookup_insert_eq by lia. done.
  - destruct (decide (q = p)) as [->|Hqp].
    + rewrite list_insert_ge by lia. done.
    + rewrite list_lookup_insert_ne by lia. done.
Qed.

Hypothesis Hwf : wf_input self.

Let size_of_X : Z := ceil_div (HashTable.n self) (HashTable.B self).
Let Xmem : list block := RemoteRam.memory (HashTable.X self).

Lemma input_cell (i : Z) :
  0 ≤ i < size_of_X →
  ∃ cell, Xmem !! Z.to_nat i = Some cell
          ∧ length cell = Z.to_nat (HashTable.B self)
          ∧ Forall (λ x : elem, length x = 2%nat) cell.
Proof.
  intros Hi. destruct Hwf as (HB & Heven & Hn & HC & Hlen & Hcells).
  fold size_of_X Xmem in Hlen, Hcells.
  destruct (lookup_lt_is_Some_2 Xmem (Z.to_nat i) ltac:(lia)) as [cell Hcell].
  exists cell. split; [done|].
  apply (Forall_lookup_1 _ _ (Z.to_nat i) cell Hcells).
  rewrite lookup_take_lt by lia. done.
Qed.

Lemma build_step_inv (i : Z) (st st' : RemoteRam.t * RemoteRam.t) (w w' : world) :
  0 ≤ i < size_of_X →
  build_inv hmac_sha256 self i st →
  HashTable.build_step entropy hmac_sha256 self i st w = Val (st', w') →
  build_inv hmac_sha256 self (i + 1) st'.
Proof.
  intros Hi (_ & HlenX & Hrest & HlenX' & Hdone & Htodo) H.
  destruct Hwf as (HB & Heven & Hn & HC & _).
  destruct (input_cell i Hi) as (cell & Hcell & Hlen & Hpairs).
  unfold HashTable.build_step in H. cbv zeta in H.
  mbind H as cell0 w1 Hread. mbind H as cell' w2 Htag. mlift H as mem Hmem.
  mbind H as X1 w3 Hw1. mbind H as X2 w4 Hw2. apply ret_inv in H as [-> ->].
  apply read_memory_cell_inv in Hread as (Hir & Hcell0 & _).
  rewrite (Hrest (Z.to_nat i)) in Hcell0 by lia. fold Xmem in Hcell0.
  rewrite Hcell in Hcell0. injection Hcell0 as <-.
  unfold range in Htag.
  replace (HashTable.B self) with (Z.of_nat (Z.to_nat (HashTable.B self))) in Htag at 1
    by lia.
  apply (tag_loop _ 0) in Htag as (Hlen' & Htagged).
  apply py_set_inv in Hmem as [-> Hlt]; [|lia].
  apply write_memory_cell_inv in Hw1 as (Hr1 & -> & _).
  apply write_memory_cell_inv in Hw2 as (Hr2 & -> & _).
  cbn [HashTable.set_memory RemoteRam.memory fst snd] in *.
  rewrite length_insert in Hr2.
  set (h := Z.to_nat (HashTable.B self / 2)) in *.
  assert (Hh : (h + h = Z.to_nat (HashTable.B self))%nat) by lia.
  unfold build_inv. cbn [HashTable.set_memory RemoteRam.memory fst snd].
  split; [lia|]. split; [by rewrite length_insert|]. split.
  { intros i' Hi'. rewrite list_lookup_insert_ne by lia. apply Hrest. lia. }
  split; [by rewrite !length_insert|]. split.
  - intros c Hc. rewrite !cell_of_insert by lia. rewrite length_insert.
    destruct (decide (c = 2 * i + 1 ∧ _)) as [[-> _]|Hn1].
    + (* the second half *)
      split; [|split].
      * rewrite length_app, length_imap. unfold py_drop, py_repeat.
        rewrite length_drop, length_replicate. lia.
      * intros idx x Hx. unfold half_of in Hx.
        rewrite half_odd in Hx.
        replace (Z.odd (2 * i + 1)) with true in Hx
          by (rewrite Z.add_comm, Z.odd_add_mul_2; done).
        unfold level.cell_of in Hx. fold Xmem in Hx. rewrite Hcell in Hx. simpl in Hx.
        unfold py_drop in Hx. fold h in Hx. rewrite lookup_drop in Hx.
        pose proof (lookup_lt_Some _ _ _ Hx) as Hidx.
        specialize (Htagged _ _ Hx). rewrite bool_decide_eq_true_2 in Htagged by lia.
        destruct Htagged as (key & Hy & Hne & Hkey). exists key. split; [|done].
        rewrite lookup_app_l by (rewrite length_imap; unfold py_drop;
                                 rewrite length_drop; fold h; lia).
        rewrite list_lookup_imap. unfold py_drop. fold h. rewrite lookup_drop, Hy.
        simpl. by rewrite <- (assoc_L (++)).
      * intros idx Hidx. fold h in Hidx.
        rewrite lookup_app_r by (rewrite length_imap; unfold py_drop;
                                 rewrite length_drop; fold h; lia).
        unfold py_repeat. apply lookup_replicate_2. rewrite length_imap.
        unfold py_drop. rewrite length_drop. fold h. lia.
    + destruct (decide (c = 2 * i ∧ _)) as [[-> _]|Hn0].
      * (* the first half *)
        split; [|split].
        -- rewrite length_app, length_imap. unfold py_take, py_repeat.
           rewrite length_take, length_replicate. lia.
        -- intros idx x Hx. unfold half_of in Hx.
           rewrite half_even in Hx.
           replace (Z.odd (2 * i)) with false in Hx
             by (symmetry; rewrite <- Z.negb_even, Z.even_mul; done).
           unfold level.cell_of in Hx. fold Xmem in Hx. rewrite Hcell in Hx. simpl in Hx.
           unfold py_take in Hx. fold h in Hx.
           pose proof (lookup_lt_Some _ _ _ Hx) as Hidx. rewrite length_take in Hidx.
           rewrite lookup_take_lt in Hx by lia.
           specialize (Htagged _ _ Hx). rewrite bool_decide_eq_true_2 in Htagged by lia.
           destruct Htagged as (key & Hy & Hne & Hkey). exists key. split; [|done].
           rewrite lookup_app_l by (rewrite length_imap; unfold py_take;
                                    rewrite length_take; fold h; lia).
           rewrite list_lookup_imap. unfold py_take. fold h.
           rewrite lookup_take_lt by lia. rewrite Hy.
           simpl. by rewrite <- (assoc_L (++)).
        -- intros idx Hidx. fold h in Hidx.
           rewrite lookup_app_r by (rewrite length_imap; unfold py_take;
                                    rewrite length_take; fold h; lia).
           unfold py_repeat. apply lookup_replicate_2. rewrite length_imap.
           unfold py_take. rewrite length_take. fold h. lia.
      * apply Hdone. lia.
  - intros c Hc. rewrite !cell_of_insert by lia. rewrite length_insert.
    rewrite decide_False by lia. rewrite decide_False by lia. apply Htodo. lia.
Qed.

End build_facts.
(** ** The table built by [ht_build] *)

Lemma elem_of_cells (A : list block) (y : elem) :
  y ∈ concat A ↔ ∃ p, 0 ≤ p < Z.of_nat (length A) ∧ y ∈ level.cell_of A p.
Proof.
  rewrite elem_of_concat. split.
  - intros (cell & Hcell & Hy). apply list_elem_of_lookup_1 in Hcell as [i Hi].
    exists (Z.of_nat i). pose proof (lookup_lt_Some _ _ _ Hi).
    split; [lia|]. unfold level.cell_of. by rewrite Nat2Z.id, Hi.
  - intros (p & Hp & Hy). unfold level.cell_of in Hy.
    destruct (A !! Z.to_nat p) as [cell|] eqn:Hcell; [|by apply elem_of_nil in Hy].
    exists cell. split; [by eapply list_elem_of_lookup_2|done].
Qed.

Section built_table.

Import routing tagging built_array keys.

Variable entropy : nat → Z.
Variable hmac_sha256 : Z → val → Z.
Variable self : HashTable.t.
Hypothesis Hwf : wf_input self.

Let size_of_X : Z := ceil_div (HashTable.n self) (HashTable.B self).
Let Xmem : list block := RemoteRam.memory (HashTable.X self).
Let C : Z := HashTable.C self.
Let B : Z := HashTable.B self.

Lemma size_of_X_nonneg : 0 ≤ size_of_X.
Proof.
  destruct Hwf as (HB & _ & Hn & _). apply ceil_div_nonneg; lia.
Qed.

(** The array handed to [bin_packing] by a build with more than one
    bin. *)
Lemma ht_build_inv (self' : HashTable.t) (w w' : world) :
  1 < C →
  HashTable.ht_build entropy hmac_sha256 self w = Val (self', w') →
  ∃ (st : RemoteRam.t * RemoteRam.t) (packed : RemoteRam.t) (w1 : world),
    build_inv hmac_sha256 self size_of_X st
    ∧ 2 * size_of_X ≤ C
    ∧ bin_packing.bin_packing st.2 (HashTable.n self) B 2 (HashTable.local self) w1
      = Val (packed, w')
    ∧ self' = HashTable.mk true st.1 (HashTable.n self) B C (HashTable.secret_key self)
                (HashTable.local self) (Some packed).
Proof.
  intros HC H. unfold HashTable.ht_build in H. fold C in H.
  destruct (Z.gtb_spec C 1) as [_|]; [|lia]. cbv zeta in H.
  fold B size_of_X in H.
  mbind H as st w1 Hloop. mbind H as X' w2 Hpad. mbind H as packed w3 Hpack.
  apply ret_inv in H as [-> ->].
  pose proof size_of_X_nonneg as Hs.
  assert (Hinv : build_inv hmac_sha256 self size_of_X st).
  { pose proof (for_each_seq_inv (build_inv hmac_sha256 self)
                  (HashTable.build_step entropy hmac_sha256 self)
                  (Z.to_nat size_of_X) 0
                  (HashTable.X self, RemoteRam.new B C None (HashTable.local self)) st w w1
                  ltac:(intros i t v t' v' Hi Ht Hstep;
                        eapply (build_step_inv entropy hmac_sha256 self Hwf);
                        [|exact Ht|exact Hstep]; fold size_of_X; lia)
                  ltac:(unfold build_inv; cbn [fst snd RemoteRam.new RemoteRam.memory];
                        split; [lia|]; split; [done|]; split; [done|];
                        unfold py_repeat; rewrite length_replicate;
                        split; [unfold C in HC; lia|]; split; [intros c Hc; lia|];
                        intros c Hc; unfold level.cell_of;
                        rewrite lookup_replicate_2 by lia; done)) as Hfin.
    rewrite Z.add_0_l, Z2Nat.id in Hfin by lia. exact (Hfin Hloop). }
  assert (Hle : 2 * size_of_X ≤ C) by (destruct Hinv as (Hb & _); fold C in Hb; lia).
  (* the padding loop writes dummies over dummies *)
  assert (Hpadded : build_inv hmac_sha256 self size_of_X (st.1, X')).
  { pose proof (for_each_seq_inv
             (λ (_ : Z) (X1 : RemoteRam.t),
                build_inv hmac_sha256 self size_of_X (st.1, X1))
             (λ j X_prime, RemoteRam.write_memory_cell X_prime j (py_repeat DUMMY B))
             (Z.to_nat (C - 2 * size_of_X)) (2 * size_of_X) st.2 X' w1 w2
             ltac:(clear - Hs; intros i t v t' v' Hi (H0 & H1 & H2 & H3 & H4 & H5) Hw;
                   apply write_memory_cell_inv in Hw as (Hr & -> & _);
                   unfold build_inv in *;
                   cbn [fst snd HashTable.set_memory RemoteRam.memory] in *;
                   split; [done|]; split; [done|]; split; [done|];
                   split; [by rewrite length_insert|]; split;
                   [intros c Hc; rewrite cell_of_insert by lia;
                    rewrite decide_False by lia; by apply H4
                   |intros c Hc; rewrite cell_of_insert by lia;
                    destruct (decide _) as [[-> _]|]; [done|by apply H5]])
             ltac:(by destruct st)) as Hfin.
    rewrite Z2Nat.id in Hfin by lia. exact (Hfin Hpad). }
  exists (st.1, X'), packed, w2. done.
Qed.


Lemma half_of_pairs (c : Z) (idx : nat) (x : elem) :
  0 ≤ c < 2 * size_of_X →
  half_of self Xmem c !! idx = Some x →
  length x = 2%nat ∧ x ∈ input self ∧ (idx < Z.to_nat (B / 2))%nat.
Proof.
  intros Hc Hx. unfold half_of in Hx.
  assert (Hi : 0 ≤ c / 2 < size_of_X).
  { split; [apply Z.div_pos; lia|apply Z.div_lt_upper_bound; lia]. }
  destruct (input_cell self Hwf (c / 2) Hi) as (cell & Hcell & Hlen & Hpairs).
  fold Xmem in Hcell. unfold level.cell_of in Hx. rewrite Hcell in Hx. simpl in Hx.
  destruct Hwf as (HB & Heven & _). fold B in HB, Heven, Hlen, Hx.
  assert (Hin : x ∈ cell ∧ (idx < Z.to_nat (B / 2))%nat).
  { destruct (Z.odd c).
    - unfold py_drop in Hx. pose proof (lookup_lt_Some _ _ _ Hx) as Hl.
      rewrite length_drop in Hl. rewrite lookup_drop in Hx.
      split; [by eapply list_elem_of_lookup_2|lia].
    - unfold py_take in Hx. pose proof (lookup_lt_Some _ _ _ Hx) as Hl.
      rewrite length_take in Hl. rewrite lookup_take_lt in Hx by lia.
      split; [by eapply list_elem_of_lookup_2|lia]. }
  destruct Hin as [Hin Hidx].
  split; [exact (proj1 (Forall_forall _ _) Hpairs x Hin)|]. split; [|done].
  unfold input. fold size_of_X Xmem. apply elem_of_concat. exists cell. split; [|done].
  apply (list_elem_of_lookup_2 _ (Z.to_nat (c / 2))). rewrite lookup_take_lt by lia. done.
Qed.

Lemma input_half (x : elem) :
  x ∈ input self →
  ∃ c idx, 0 ≤ c < 2 * size_of_X ∧ half_of self Xmem c !! idx = Some x.
Proof.
  unfold input. fold size_of_X Xmem. intros Hx.
  apply elem_of_concat in Hx as (cell & Hcell & Hx).
  apply list_elem_of_lookup_1 in Hcell as [i Hi].
  pose proof (lookup_lt_Some _ _ _ Hi) as Hlt. rewrite length_take in Hlt.
  rewrite lookup_take_lt in Hi by lia.
  apply list_elem_of_lookup_1 in Hx as [j Hj].
  destruct (decide (j < Z.to_nat (B / 2))%nat) as [Hlow|Hhigh].
  - exists (2 * Z.of_nat i), j. split; [lia|]. unfold half_of.
    rewrite half_even. replace (Z.odd (2 * Z.of_nat i)) with false
      by (symmetry; rewrite <- Z.negb_even, Z.even_mul; done).
    unfold level.cell_of. rewrite Nat2Z.id, Hi. simpl. unfold py_take.
    fold B. by rewrite lookup_take_lt.
  - exists (2 * Z.of_nat i + 1), (j - Z.to_nat (B / 2))%nat. split; [lia|]. unfold half_of.
    rewrite half_odd. replace (Z.odd (2 * Z.of_nat i + 1)) with true
      by (rewrite Z.add_comm, Z.odd_add_mul_2; done).
    unfold level.cell_of. rewrite Nat2Z.id, Hi. simpl. unfold py_drop.
    fold B. rewrite lookup_drop. rewrite <- Hj. f_equal. lia.
Qed.

Section array.

Variable st : RemoteRam.t * RemoteRam.t.
Hypothesis Hinv : build_inv hmac_sha256 self size_of_X st.

Lemma array_cell (c : Z) (y : elem) :
  0 ≤ c < C →
  y ∈ level.cell_of (RemoteRam.memory st.2) c →
  y = DUMMY
  ∨ (0 ≤ c < 2 * size_of_X
     ∧ ∃ idx x key, half_of self Xmem c !! idx = Some x
                    ∧ y = x ++ [VInt key; VInt c; VInt (Z.of_nat idx)]
                    ∧ (is_real x → y = tag_real hmac_sha256 self c idx x)).
Proof.
  intros Hc Hy. destruct Hinv as (_ & _ & _ & Hlen & Hdone & Htodo).
  destruct (decide (c < 2 * size_of_X)) as [Hlow|Hhigh].
  - destruct (Hdone c ltac:(lia)) as (Hl & Hhalf & Hdum).
    apply list_elem_of_lookup_1 in Hy as [idx Hidx].
    pose proof (lookup_lt_Some _ _ _ Hidx) as Hlt. rewrite Hl in Hlt.
    destruct (decide (idx < Z.to_nat (HashTable.B self / 2))%nat) as [Hi|Hi].
    + right. split; [lia|].
      assert (Hx : is_Some (half_of self Xmem c !! idx)).
      { apply lookup_lt_is_Some. unfold half_of.
        assert (Hi2 : 0 ≤ c / 2 < size_of_X).
        { split; [apply Z.div_pos; lia|apply Z.div_lt_upper_bound; lia]. }
        destruct (input_cell self Hwf (c / 2) Hi2) as (cell & Hcell & Hlc & _).
        fold Xmem in Hcell. unfold level.cell_of. rewrite Hcell. simpl.
        destruct Hwf as (HB & Heven & _).
        destruct (Z.odd c); unfold py_drop, py_take;
          rewrite ?length_drop, ?length_take; lia. }
      destruct Hx as [x Hx]. destruct (Hhalf idx x Hx) as (key & Hy & Hkey).
      rewrite Hidx in Hy. injection Hy as ->. exists idx, x, key.
      split; [done|]. split; [done|]. intros Hreal. unfold tag_real.
      by rewrite (Hkey Hreal).
    + left. rewrite Hdum in Hidx by lia. by injection Hidx as <-.
  - left. rewrite Htodo in Hy by (fold C; lia). unfold py_repeat in Hy.
    by apply elem_of_replicate in Hy as [-> _].
Qed.

Lemma array_has (c : Z) (idx : nat) (x : elem) :
  0 ≤ c < 2 * size_of_X →
  half_of self Xmem c !! idx = Some x →
  is_real x →
  tag_real hmac_sha256 self c idx x ∈ level.cell_of (RemoteRam.memory st.2) c.
Proof.
  intros Hc Hx Hreal. destruct Hinv as (_ & _ & _ & Hlen & Hdone & Htodo).
  destruct (Hdone c Hc) as (Hl & Hhalf & Hdum).
  destruct (Hhalf idx x Hx) as (key & Hy & Hkey).
  apply (list_elem_of_lookup_2 _ idx). rewrite Hy. unfold tag_real.
  by rewrite (Hkey Hreal).
Qed.

Lemma array_wf (key_index : Z) :
  2 ≤ key_index ≤ 4 →
  wf_memory C B key_index (RemoteRam.memory st.2).
Proof.
  intros Hki. destruct Hinv as (Hb & _ & _ & Hlen & Hdone & Htodo).
  destruct Hwf as (HB & Heven & _).
  split; [fold C in Hlen; lia|].
  apply Forall_lookup. intros p cell Hcell.
  pose proof (lookup_lt_Some _ _ _ Hcell) as Hp.
  assert (Hcell' : level.cell_of (RemoteRam.memory st.2) (Z.of_nat p) = cell).
  { unfold level.cell_of. by rewrite Nat2Z.id, Hcell. }
  assert (HpC : 0 ≤ Z.of_nat p < C) by (fold C in Hlen; lia).
  split.
  - destruct (decide (Z.of_nat p < 2 * size_of_X)) as [Hlow|Hhigh].
    + destruct (Hdone (Z.of_nat p) ltac:(lia)) as (Hl & _). by rewrite Hcell' in Hl.
    + rewrite Htodo in Hcell' by (fold C; lia). rewrite <- Hcell'.
      unfold py_repeat. by rewrite length_replicate.
  - apply Forall_forall. intros y Hy. rewrite <- Hcell' in Hy.
    destruct (array_cell _ y HpC Hy) as [-> | (Hlow & idx & x & key & Hx & -> & _)].
    + done.
    + destruct (half_of_pairs _ _ _ Hlow Hx) as (Hlx & _).
      destruct x as [|k0 [|v [|? ?]]]; try discriminate. unfold routable. simpl.
      destruct (val_eqb k0 DUMMY_ADDR); [done|]. simpl.
      assert (key_index = 2 ∨ key_index = 3 ∨ key_index = 4) as Hcases by lia.
      destruct Hcases as [-> | [-> | ->]]; done.
Qed.

End array.

End built_table.
(** ** Lookups in a freshly built table *)

Section lookup_after_build.

Import routing tagging built_array keys built.

Variable entropy : nat → Z.
Variable hmac_sha256 : Z → val → Z.

(** What the search loop of [ht_lookup] returns. *)
Lemma lookup_scan_sem (k : val) (todo : nat) :
  ∀ (cell cell' : block) (r : option elem),
  HashTable.lookup_scan k todo cell = Val (r, cell') →
  match r with
  | Some item => ∃ y, y ∈ take todo cell ∧ has_key k y = true ∧ item = take 2 y
  | None => ∀ y, y ∈ take todo cell → has_key k y = false
  end.
Proof.
  induction todo as [|todo IH]; intros cell cell' r H.
  - injection H as <- <-. intros y Hy. by apply elem_of_nil in Hy.
  - destruct cell as [|x cell]; [discriminate|]. cbn [HashTable.lookup_scan] in H.
    apply res_bind_inv in H as (k0 & Hk0 & H).
    destruct x as [|x0 x]; [discriminate|]. injection Hk0 as <-.
    destruct (val_eqb x0 k) eqn:Hk.
    + apply res_bind_inv in H as (v & Hv & H). injection H as <- <-.
      destruct x as [|x1 x]; [discriminate|]. injection Hv as <-.
      exists (x0 :: x1 :: x). split; [by left|]. done.
    + apply res_bind_inv in H as ([r' c'] & Hrec & H). injection H as <- <-.
      specialize (IH _ _ _ Hrec). simpl. destruct r' as [item|].
      * destruct IH as (y & Hy & Hkey & ->). exists y. split; [by right|done].
      * intros y Hy. apply elem_of_cons in Hy as [->|Hy]; [done|by apply IH].
Qed.

Lemma single_bin_size (n B : Z) :
  0 < B → 1 ≤ n → choose_C n B ≤ 1 → ceil_div n B = 1.
Proof.
  intros HB Hn HC. destruct (choose_C_spec n B) as (r & Heq & Hr & Hle & _).
  rewrite Heq in HC. pose proof (ceil_div_spec (2 * n) B HB).
  pose proof (ceil_div_spec n B HB). pose proof (ceil_div_pos n B HB ltac:(lia)).
  assert (ceil_div n B ≤ 1) by (apply ceil_div_le; nia). lia.
Qed.

(** X13. A table built from [ceil(n / B)] cells of [B] pairs answers
    lookups as the input dictates: looking up a key that some pair of the
    input carries returns a pair of the input with that key, and looking
    up a key that no pair of the input carries returns the dummy
    element. *)
Theorem build_then_lookup (self self' : HashTable.t) (k : val) (w w' w1 : world) :
  wf_input self →
  1 ≤ HashTable.n self →
  HashTable.ht_build entropy hmac_sha256 self w = Val (self', w') →
  k ≠ DUMMY_ADDR →
  ∃ item self'' w2,
    HashTable.ht_lookup entropy hmac_sha256 self' k w1 = Val ((item, self''), w2)
    ∧ ((∃ v, item = [k; v] ∧ [k; v] ∈ input self)
       ∨ (item = DUMMY ∧ ∀ v, [k; v] ∉ input self)).
Proof.
  intros Hwf Hn Hbuild Hk.
  pose proof Hwf as (HB & Heven & Hn0 & HC & Hlen & Hcells).
  assert (Hkb : val_eqb k DUMMY_ADDR = false) by (by apply val_eqb_neq).
  set (C := HashTable.C self) in *. set (B := HashTable.B self) in *.
  assert (HCpos : 1 ≤ C) by (rewrite HC; apply choose_C_pos).
  set (bin := hmac_sha256 (HashTable.secret_key self) k `mod` C).
  assert (Hbin : 0 ≤ bin < C) by (apply Z.mod_pos_bound; lia).
  destruct (decide (1 < C)) as [Hmany|Hone].
  - (* the table comes out of bin packing *)
    destruct (ht_build_inv entropy hmac_sha256 self Hwf self' w w' Hmany Hbuild)
      as (st & packed & w0 & Hinv & Hle & Hpack & ->).
    fold B C in Hpack.
    pose proof (array_wf hmac_sha256 self Hwf st Hinv 2 ltac:(lia)) as Hawf.
    fold B C in Hawf. rewrite HC in Hawf.
    assert (Hroutes : ∀ p, 0 ≤ p < C →
              reals (level.cell_of (RemoteRam.memory packed) p)
              ≡ₚ filter (λ x, is_real x ∧ dest 2 x `mod` C = p)
                   (concat (RemoteRam.memory st.2))
              ∧ length (level.cell_of (RemoteRam.memory packed) p) = Z.to_nat B
              ∧ Z.of_nat (length (RemoteRam.memory packed)) = C
              ∧ ∀ y, y ∈ level.cell_of (RemoteRam.memory packed) p →
                     y = DUMMY ∨ y ∈ concat (RemoteRam.memory st.2)).
    { intros p Hp.
      destruct (bin_packing_result st.2 packed (HashTable.n self) B 2
                  (HashTable.local self) w0 w' ltac:(lia) ltac:(lia) Hawf Hpack)
        as (Hfits & Hmem & Hwfp & _).
      destruct (packed_cell (RemoteRam.memory st.2) (HashTable.n self) B 2 p
                  ltac:(lia) ltac:(lia) Hawf Hfits ltac:(rewrite <- HC; exact Hp))
        as [Hreals Hfrom].
      rewrite <- Hmem in Hreals, Hfrom. rewrite <- HC in Hreals, Hwfp.
      split; [exact Hreals|]. split; [|split; [|exact Hfrom]].
      - exact (proj1 (wf_cell_of _ B 2 _ p
                        ltac:(rewrite <- (choose_C_pow2 (HashTable.n self) B), <- HC;
                              exact Hwfp)
                        ltac:(rewrite <- (choose_C_pow2 (HashTable.n self) B), <- HC;
                              exact Hp))).
      - destruct Hwfp as [-> _]. lia. }
    assert (Helems : ∀ p y, 0 ≤ p < C → y ∈ level.cell_of (RemoteRam.memory packed) p →
              y = DUMMY
              ∨ ∃ c idx x, 0 ≤ c < 2 * ceil_div (HashTable.n self) B
                           ∧ half_of self (RemoteRam.memory (HashTable.X self)) c !! idx
                             = Some x
                           ∧ ∃ key, y = x ++ [VInt key; VInt c; VInt (Z.of_nat idx)]).
    { intros p y Hp Hy. destruct (Hroutes p Hp) as (_ & _ & _ & Hfrom).
      destruct (Hfrom y Hy) as [->|Hin]; [by left|].
      apply elem_of_cells in Hin as (c & Hc & Hyc).
      destruct Hinv as (Hb0 & Hl1 & Hr & Hl2 & Hd & Ht).
      destruct (array_cell hmac_sha256 self Hwf st
                  (conj Hb0 (conj Hl1 (conj Hr (conj Hl2 (conj Hd Ht))))) c y
                  ltac:(fold C in Hl2; lia) Hyc)
        as [-> | (Hlow & idx & x & key & Hx & -> & _)]; [by left|].
      right. exists c, idx, x. split; [done|]. split; [done|]. by exists key. }
    assert (Hwft : wf_table (HashTable.mk true st.1 (HashTable.n self) B C
                               (HashTable.secret_key self) (HashTable.local self)
                               (Some packed)) packed).
    { split; [done|]. split; [simpl; lia|]. simpl.
      destruct (Hroutes 0 ltac:(lia)) as (_ & _ & Hlenp & _). split; [done|].
      apply Forall_lookup. intros p cell Hcell.
      pose proof (lookup_lt_Some _ _ _ Hcell) as Hp.
      assert (Hcell' : level.cell_of (RemoteRam.memory packed) (Z.of_nat p) = cell).
      { unfold level.cell_of. by rewrite Nat2Z.id, Hcell. }
      destruct (Hroutes (Z.of_nat p) ltac:(lia)) as (_ & Hl & _ & _).
      rewrite Hcell' in Hl. split; [done|].
      apply Forall_forall. intros y Hy. rewrite <- Hcell' in Hy.
      destruct (Helems (Z.of_nat p) y ltac:(lia) Hy)
        as [-> | (c & idx & x & _ & _ & key & ->)];
        [simpl; lia|]. rewrite length_app. simpl. lia. }
    destruct (ht_lookup_ok entropy hmac_sha256 _ _ k w1 Hwft)
      as (item & self'' & tbl' & w2 & Hrun & _).
    exists item, self'', w2. split; [done|].
    rewrite ht_lookup_unfold in Hrun. unfold HashTable.bin_of in Hrun.
    cbn [HashTable.C HashTable.secret_key HashTable.table HashTable.B] in Hrun.
    rewrite Hkb in Hrun. unfold ret in Hrun. fold bin in Hrun.
    destruct (Hroutes bin Hbin) as (Hperm & Hlcell & Hlenp & _).
    destruct (cell_at_spec (RemoteRam.memory packed) bin ltac:(lia)) as [Hcat _].
    rewrite Hcat in Hrun. simpl in Hrun.
    set (cell := level.cell_of (RemoteRam.memory packed) bin) in *.
    destruct (HashTable.lookup_scan k (Z.to_nat B) cell) as [[found cell']|] eqn:Hscan;
      [|done].
    injection Hrun as <- _ _.
    apply lookup_scan_sem in Hscan. rewrite take_ge in Hscan by lia.
    destruct found as [item|]; simpl.
    + left. destruct Hscan as (y & Hy & Hkey & ->).
      destruct (Helems bin y Hbin Hy) as [->|(c & idx & x & Hc & Hx & key & ->)].
      { change (val_eqb DUMMY_ADDR k = true) in Hkey.
        apply val_eqb_eq in Hkey. by destruct Hk. }
      destruct (half_of_pairs self Hwf c idx x Hc Hx) as (Hlx & Hin & _).
      destruct x as [|k0 [|v [|? ?]]]; try discriminate.
      change (val_eqb k0 k = true) in Hkey. apply val_eqb_eq in Hkey as ->.
      exists v. done.
    + right. split; [done|]. intros v Hin.
      destruct (input_half self [k; v] Hin) as (c & idx & Hc & Hx).
      assert (Hreal : is_real [k; v]) by (simpl; by rewrite Hkb).
      pose proof (array_has hmac_sha256 self st Hinv c idx [k; v] Hc Hx Hreal) as Hy.
      assert (Hcc : 0 ≤ c < Z.of_nat (length (RemoteRam.memory st.2))).
      { destruct Hinv as (_ & _ & _ & Hl2 & _). fold C in Hl2. lia. }
      assert (Hin' : tag_real hmac_sha256 self c idx [k; v]
                     ∈ concat (RemoteRam.memory st.2)).
      { apply elem_of_cells. by exists c. }
      assert (Hsel : tag_real hmac_sha256 self c idx [k; v] ∈ reals cell).
      { rewrite Hperm. apply list_elem_of_filter. split; [|done]. split; [done|].
        unfold tag_real, dest. simpl. fold C bin.
        apply Z.mod_small. done. }
      unfold reals in Hsel. apply list_elem_of_filter in Hsel as [_ Hsel].
      specialize (Hscan _ Hsel). unfold tag_real in Hscan. simpl in Hscan.
      by rewrite val_eqb_refl in Hscan.
  - (* a single bin: the table is the input itself *)
    assert (HC1 : C = 1) by lia.
    unfold HashTable.ht_build in Hbuild. fold C in Hbuild.
    destruct (Z.gtb_spec C 1) as [|_]; [lia|]. apply ret_inv in Hbuild as [-> ->].
    assert (Hsize : ceil_div (HashTable.n self) B = 1).
    { apply single_bin_size; [done|done|]. rewrite <- HC. lia. }
    rewrite Hsize in Hlen, Hcells.
    destruct (RemoteRam.memory (HashTable.X self)) as [|cell0 rest] eqn:Hmem;
      [simpl in Hlen; lia|].
    change (Z.to_nat 1) with 1%nat in Hcells. simpl in Hcells.
    apply Forall_cons in Hcells as [[Hl0 Hp0] _].
    rewrite ht_lookup_unfold. unfold HashTable.bin_of.
    cbn [HashTable.C HashTable.secret_key HashTable.table HashTable.B].
    rewrite Hkb. unfold ret. fold C. rewrite HC1, Z.mod_1_r, Hmem.
    unfold packing.cell_at, py_index. simpl.
    destruct (lookup_scan_ok k (Z.to_nat B) cell0 ltac:(lia))
      as (found & cell' & Hscan & _).
    { eapply Forall_impl; [exact Hp0|]. intros x Hx. simpl in Hx. lia. }
    destruct (Z.gtb_spec 0 (Z.of_nat (S (length rest)) - 1)) as [|_]; [lia|].
    cbn [orb Z.ltb Z.compare]. fold B. rewrite Hscan.
    eexists _, _, _. split; [reflexivity|].
    apply lookup_scan_sem in Hscan. rewrite take_ge in Hscan by lia.
    unfold input. fold B. rewrite Hsize, Hmem. change (Z.to_nat 1) with 1%nat. simpl.
    rewrite ?take_0. simpl. rewrite ?app_nil_r.
    destruct found as [item|]; simpl.
    + left. destruct Hscan as (y & Hy & Hkey & ->).
      pose proof (proj1 (Forall_forall _ _) Hp0 y Hy) as Hly. simpl in Hly.
      destruct y as [|k0 [|v [|? ?]]]; try discriminate.
      change (val_eqb k0 k = true) in Hkey. apply val_eqb_eq in Hkey as ->.
      exists v. done.
    + right. split; [done|]. intros v Hin. specialize (Hscan _ Hin).
      simpl in Hscan. by rewrite val_eqb_refl in Hscan.
Qed.

End lookup_after_build.

Lemma unbuilt0_wf : tagging.wf_input examples.unbuilt0.1.
Proof.
  split; [reflexivity|]. split; [reflexivity|]. split; [done|]. split; [reflexivity|].
  split; [done|]. repeat constructor.
Qed.

Lemma build_then_lookup_witness :
  tagging.wf_input examples.unbuilt0.1
  ∧ HashTable.ht_build examples.entropy0 examples.hmac0 examples.unbuilt0.1
      examples.unbuilt0.2 = Val (examples.built0.1, examples.built0.2)
  ∧ ∃ item self'' w2,
      HashTable.ht_lookup examples.entropy0 examples.hmac0 examples.built0.1 (VInt 3)
        examples.world0 = Val ((item, self''), w2)
      ∧ ((∃ v, item = [VInt 3; v] ∧ [VInt 3; v] ∈ tagging.input examples.unbuilt0.1)
         ∨ (item = DUMMY ∧ ∀ v, [VInt 3; v] ∉ tagging.input examples.unbuilt0.1)).
Proof.
  assert (H : HashTable.ht_build examples.entropy0 examples.hmac0 examples.unbuilt0.1
                examples.unbuilt0.2 = Val (examples.built0.1, examples.built0.2))
    by (vm_compute; reflexivity).
  split; [exact unbuilt0_wf|]. split; [exact H|].
  apply (build_then_lookup examples.entropy0 examples.hmac0 examples.unbuilt0.1
           examples.built0.1 (VInt 3) examples.unbuilt0.2 examples.built0.2
           examples.world0 unbuilt0_wf);
    [simpl; lia|exact H|discriminate].
Defined.
(** ** What a build and an extraction cost, in both modes *)

Lemma for_each_seq_cost {St : Type} (P : Z → St → Prop) (body : Z → St → M St)
    (r wr : Z) (len : nat) :
  ∀ (a : Z) (s s' : St) (w w' : world),
  (∀ i t v t' v', a ≤ i < a + Z.of_nat len → P i t → body i t v = Val (t', v') →
     P (i + 1) t'
     ∧ read_operations v' = read_operations v + r
     ∧ write_operations v' = write_operations v + wr) →
  P a s →
  for_each (seqZ a (Z.of_nat len)) body s w = Val (s', w') →
  P (a + Z.of_nat len) s'
  ∧ read_operations w' = read_operations w + Z.of_nat len * r
  ∧ write_operations w' = write_operations w + Z.of_nat len * wr.
Proof.
  induction len as [|len IH]; intros a s s' w w' Hbody Hs H.
  - apply ret_inv in H as [-> ->]. rewrite Z.add_0_r. split; [done|]. lia.
  - rewrite seqZ_cons in H by lia.
    replace (Z.pred (Z.of_nat (S len))) with (Z.of_nat len) in H by lia.
    cbn [for_each] in H. apply bind_inv in H as (s1 & w1 & H1 & H).
    destruct (Hbody a s w s1 w1 ltac:(lia) Hs H1) as (Hs1 & Hr1 & Hw1).
    destruct (IH (Z.succ a) s1 s' w1 w') as (Hs' & Hr & Hw); [|exact Hs1|exact H|].
    { intros i t v t' v' Hi. apply Hbody. lia. }
    replace (a + Z.of_nat (S len)) with (Z.succ a + Z.of_nat len) by lia.
    split; [done|]. lia.
Qed.

Lemma costs_quiet_tag (entropy : nat → Z) (hmac_sha256 : Z → val → Z) (self : HashTable.t)
    (xs : list Z) :
  ∀ (cell cell' : block) (w w' : world),
  for_each xs (HashTable.tag_step entropy hmac_sha256 self) cell w = Val (cell', w') →
  read_operations w' = read_operations w ∧ write_operations w' = write_operations w.
Proof.
  induction xs as [|j xs IH]; intros cell cell' w w' H.
  - by apply ret_inv in H as [_ ->].
  - cbn [for_each] in H. mbind H as cell1 w1 Hstep.
    destruct (IH _ _ _ _ H) as [Hr Hw]. rewrite Hr, Hw. clear IH H Hr Hw.
    unfold HashTable.tag_step in Hstep.
    mlift Hstep as x Hx. mlift Hstep as k0 Hk0. mbind Hstep as key w2 Hbin.
    apply lift_inv in Hstep as [_ ->].
    unfold HashTable.bin_of in Hbin. destruct (val_eqb k0 DUMMY_ADDR).
    + unfold randint in Hbin. destruct (_ <? _); [done|]. by injection Hbin as _ <-.
    + by apply ret_inv in Hbin as [_ ->].
Qed.

Section build_cost.

Variable entropy : nat → Z.
Variable hmac_sha256 : Z → val → Z.
Variable self : HashTable.t.

Let B : Z := HashTable.B self.
Let C : Z := HashTable.C self.
Let n : Z := HashTable.n self.
Let size_of_X : Z := ceil_div n B.
Let k : Z := Z.log2 C.
Let c : Z := cost (HashTable.local self).

Hypothesis B_pos : 0 < B.
Hypothesis n_nonneg : 0 ≤ n.
Hypothesis C_chosen : C = choose_C n B.
Hypothesis X_local : RemoteRam.local (HashTable.X self) = HashTable.local self.



(** The same for an extraction that returns. *)
Lemma ht_extract_cost (r : RemoteRam.t) (self' : HashTable.t) (w w' : world) :
  (∀ tbl, HashTable.table self = Some tbl → RemoteRam.local tbl = HashTable.local self) →
  HashTable.ht_extract self w = Val ((r, self'), w') →
  read_operations w'
  = read_operations w
    + (if HashTable.is_built self && (1 <? C) then (k * C + C) * c else 0)
  ∧ write_operations w'
    = write_operations w
      + (if HashTable.is_built self && (1 <? C) then (k * C + C / 2) * c else 0).
Proof.
  intros Htl H. unfold HashTable.ht_extract in H. fold C B n in H.
  destruct (HashTable.is_built self); simpl in H |- *;
    [|apply ret_inv in H as [_ ->]; lia].
  assert (HC1 : 1 ≤ C) by (rewrite C_chosen; apply choose_C_pos).
  destruct (Z.eqb_spec C 1) as [HC|HC].
  - destruct (Z.ltb_spec 1 C) as [|_]; [lia|].
    mlift H as tbl Htbl. mlift H as cell Hcell. apply ret_inv in H as [_ ->]. lia.
  - destruct (Z.ltb_spec 1 C) as [_|]; [|lia].
    mlift H as tbl Htbl. mbind H as Y w1 Hpack. cbv zeta in H.
    mbind H as X' w2 Hloop. apply ret_inv in H as [_ ->].
    unfold HashTable.the_table in Htbl.
    destruct (HashTable.table self) as [tbl0|] eqn:Ht; [|done]. injection Htbl as ->.
    specialize (Htl tbl eq_refl).
    rewrite bin_packing_refine in Hpack. rewrite <- C_chosen in Hpack. fold k in Hpack.
    destruct (packing.levels _ _ _ _ _) as [A|]; [|done].
    assert (Hk : 1 ≤ k).
    { unfold k. assert (Z.log2 2 ≤ Z.log2 C) by (apply Z.log2_le_mono; lia).
      change (Z.log2 2) with 1 in *. lia. }
    destruct (Z.eqb_spec k 0); [lia|]. injection Hpack as <- <-.
    assert (Heven : C / 2 * 2 = C).
    { pose proof (choose_C_pow2 n B) as Hp. rewrite <- C_chosen in Hp. fold k in Hp.
      rewrite Hp. replace k with (k - 1 + 1) at 1 2 by lia.
      rewrite Z.pow_add_r by lia. change (2 ^ 1) with 2. rewrite Z.div_mul by lia. done. }
    unfold range in Hloop.
    pose proof (for_each_seq_cost
                  (λ (_ : Z) (t : RemoteRam.t), RemoteRam.local t = HashTable.local self)
                  (HashTable.extract_step self
                     (RemoteRam.mk B C A (HashTable.local self)))
                  (2 * c) c (Z.to_nat (C / 2)) 0
                  (RemoteRam.new B (C / 2) None (HashTable.local self)) X'
                  (bump w (C / 2 * (2 * cost (RemoteRam.local tbl))
                           + (k - 1) * (C / 2 * (2 * cost (HashTable.local self))))
                     (k * (C / 2 * (2 * cost (HashTable.local self)))))
                  w2) as Hcost.
    rewrite Z2Nat.id in Hcost by (apply Z.div_pos; lia).
    destruct Hcost as (_ & Hr & Hw); [|done|exact Hloop|].
    { intros i t v t' v' Hi Ht' Hstep. unfold HashTable.extract_step in Hstep.
      mbind Hstep as y0 v1 Hr0. mbind Hstep as y1 v2 Hr1.
      mlift Hstep as s1 Hs1. mlift Hstep as s0 Hs0.
      mlift Hstep as f0 Hf0. mlift Hstep as f1 Hf1.
      apply read_memory_cell_inv in Hr0 as (_ & _ & ->).
      apply read_memory_cell_inv in Hr1 as (_ & _ & ->).
      apply write_memory_cell_inv in Hstep as (_ & -> & ->).
      simpl. rewrite Ht'. fold c. split; [done|]. lia. }
    rewrite Hr, Hw. simpl. rewrite Htl. fold c. split; nia.
Qed.

End build_cost.
Lemma log_half_even (n B : Z) :
  2 * Z.log2 (choose_C n B) * (choose_C n B / 2) = Z.log2 (choose_C n B) * choose_C n B.
Proof.
  pose proof (choose_C_pow2 n B) as Hp. pose proof (choose_C_pos n B) as Hpos.
  set (C := choose_C n B) in *. set (k := Z.log2 C) in *.
  destruct (Z.eq_dec C 1) as [HC|HC].
  - unfold k. rewrite HC. done.
  - assert (Hk : 1 ≤ k).
    { unfold k. assert (Z.log2 2 ≤ Z.log2 C) by (apply Z.log2_le_mono; lia).
      change (Z.log2 2) with 1 in *. lia. }
    assert (HC2 : C = 2 * 2 ^ (k - 1)).
    { rewrite Hp at 1. replace k with (1 + (k - 1)) at 1 by lia.
      rewrite Z.pow_add_r by lia. done. }
    assert (C / 2 = 2 ^ (k - 1)) as ->.
    { rewrite HC2 at 1. rewrite Z.mul_comm, Z.div_mul by lia. done. }
    lia.
Qed.

Lemma counter_bin_packing_run (X : CounterRemoteRam.t) (n B key_index : Z) (local : bool)
    (w : world) :
  let C := choose_C n B in
  let k := Z.log2 C in
  ∃ last,
    counter_bin_packing.bin_packing X n B key_index local w
    = Val ((last, 4 * k * (C / 2)),
           mkWorld (read_operations w) (write_operations w)
                   (counter_read_operations w + 2 * k * (C / 2) * cost local)
                   (counter_write_operations w + 2 * k * (C / 2) * cost local)
                   (rng w) (probes w)).
Proof.
  intros C k. unfold counter_bin_packing.bin_packing. fold C.
  set (m := Z.log2 C + 1).
  assert (Hm : 1 ≤ m) by (pose proof (Z.log2_nonneg C); lia).
  set (arrs0 := (λ _ : Z, CounterRemoteRam.new B C local) <$> range m).
  assert (Hlen0 : length arrs0 = Z.to_nat m).
  { unfold arrs0, range. rewrite length_fmap, length_seqZ. reflexivity. }
  unfold bind at 1. rewrite py_set_in_range by lia. rewrite lift_val.
  unfold bind at 1.
  destruct (py_index_in_range (<[Z.to_nat 0 := X]> arrs0) (m - 1)) as (last & Hlast & _).
  { rewrite length_insert. lia. }
  exists last. replace (m - 1) with k in * by (unfold m, k; lia).
  destruct local; simpl.
  - unfold bind, ret. rewrite Hlast. simpl. destruct w. simpl. do 3 f_equal; lia.
  - unfold bind. rewrite Hlast. simpl. unfold ret. do 3 f_equal; lia.
Qed.

Section mode_agreement.

Variable entropy : nat → Z.
Variable hmac_sha256 : Z → val → Z.
Variable self : HashTable.t.
Variable selfc : counter_hash_table.t.

Let B : Z := HashTable.B self.
Let C : Z := HashTable.C self.
Let n : Z := HashTable.n self.
Let size_of_X : Z := ceil_div n B.
Let k : Z := Z.log2 C.
Let c : Z := cost (HashTable.local self).

Hypothesis B_pos : 0 < B.
Hypothesis n_nonneg : 0 ≤ n.
Hypothesis C_chosen : C = choose_C n B.
Hypothesis same_n : counter_hash_table.n selfc = n.
Hypothesis same_B : counter_hash_table.B selfc = B.
Hypothesis same_C : counter_hash_table.C selfc = C.
Hypothesis same_local : counter_hash_table.local selfc = HashTable.local self.


(** X15. The same for an extraction from a built table whose memory has
    the locality of the table: the counter-mode extraction adds
    [C log2 C + C] reads and [C log2 C + C / 2] writes (nothing when
    local); a real extraction that returns adds the same amounts when
    [C > 1], and performs no read and no write when [C = 1]. *)
Theorem ht_extract_counts_agree (r : RemoteRam.t) (self' : HashTable.t) (w w' : world) :
  HashTable.is_built self = true →
  counter_hash_table.is_built selfc = true →
  (∀ tbl, HashTable.table self = Some tbl → RemoteRam.local tbl = HashTable.local self) →
  HashTable.ht_extract self w = Val ((r, self'), w') →
  ∃ Xc wc,
    counter_hash_table.ht_extract selfc w = Val (Some Xc, wc)
    ∧ CounterRemoteRam.memory_size Xc = size_of_X
    ∧ counter_read_operations wc = counter_read_operations w + (k * C + C) * c
    ∧ counter_write_operations wc = counter_write_operations w + (k * C + C / 2) * c
    ∧ read_operations w' = read_operations w + (if 1 <? C then (k * C + C) * c else 0)
    ∧ write_operations w'
      = write_operations w + (if 1 <? C then (k * C + C / 2) * c else 0).
Proof.
  intros Hb Hbc Htl Hext.
  destruct (ht_extract_cost self C_chosen r self' w w' Htl Hext)
    as [Hr Hw].
  rewrite Hb in Hr, Hw. simpl in Hr, Hw.
  assert (Heven : 2 * k * (C / 2) = k * C)
    by (unfold k; rewrite C_chosen; apply log_half_even).
  cut (∃ Xc wc,
          counter_hash_table.ht_extract selfc w = Val (Some Xc, wc)
          ∧ CounterRemoteRam.memory_size Xc = size_of_X
          ∧ counter_read_operations wc = counter_read_operations w + (k * C + C) * c
          ∧ counter_write_operations wc
            = counter_write_operations w + (k * C + C / 2) * c).
  { intros (Xc & wc & H1 & H2 & H3 & H4). exists Xc, wc. repeat split; assumption. }
  clear Hr Hw Hext Htl.
  unfold counter_hash_table.ht_extract. rewrite Hbc, same_local, same_B, same_n, same_C.
  fold B n C. simpl.
  destruct (counter_bin_packing_run (counter_hash_table.table selfc) n B 3
              (HashTable.local self) w) as (last & Hrun).
  cbv zeta in Hrun. rewrite <- C_chosen in Hrun. fold k in Hrun.
  unfold bind at 1. rewrite Hrun.
  destruct (Z.eqb_spec B 0) as [|_]; [lia|].
  unfold c in *. destruct (HashTable.local self); simpl.
  - eexists _, _. split; [reflexivity|]. simpl. fold size_of_X.
    split; [done|]. clear. lia.
  - eexists _, _. split; [reflexivity|]. simpl. fold size_of_X.
    split; [done|]. rewrite !Z.mul_1_r, Heven. clear. lia.
Qed.

End mode_agreement.


Lemma ht_extract_counts_agree_witness :
  ∃ Xc wc,
    counter_hash_table.ht_extract examples.counter_built0 examples.built0.2
    = Val (Some Xc, wc)
    ∧ CounterRemoteRam.memory_size Xc = ceil_div 4 2
    ∧ counter_read_operations wc
      = counter_read_operations examples.built0.2 + (Z.log2 4 * 4 + 4) * 1
    ∧ counter_write_operations wc
      = counter_write_operations examples.built0.2 + (Z.log2 4 * 4 + 4 / 2) * 1
    ∧ read_operations examples.extracted0.2
      = read_operations examples.built0.2 + (if 1 <? 4 then (Z.log2 4 * 4 + 4) * 1 else 0)
    ∧ write_operations examples.extracted0.2
      = write_operations examples.built0.2
        + (if 1 <? 4 then (Z.log2 4 * 4 + 4 / 2) * 1 else 0).
Proof.
  apply (ht_extract_counts_agree examples.built0.1 examples.counter_built0
           ltac:(simpl; lia) ltac:(vm_compute; reflexivity) ltac:(reflexivity)
           ltac:(reflexivity) ltac:(reflexivity) ltac:(reflexivity)
           examples.extracted0.1.1 examples.extracted0.1.2
           examples.built0.2 examples.extracted0.2);
    [reflexivity|reflexivity| |vm_compute; reflexivity].
  intros tbl [= <-]. reflexivity.
Defined.
(** ** [bin_packing] neither loses nor duplicates a real element *)

Lemma partition_perm {T : Type} (f : T → Z) (ps : list Z) :
  NoDup ps →
  ∀ l : list T, (∀ x, x ∈ l → f x ∈ ps) →
  concat ((λ p, filter (λ x, f x = p) l) <$> ps) ≡ₚ l.
Proof.
  induction ps as [|p ps IH]; intros Hnd l Hl.
  - destruct l as [|x l]; [done|].
    specialize (Hl x ltac:(left)). by apply elem_of_nil in Hl.
  - apply NoDup_cons in Hnd as [Hp Hnd]. cbn [fmap list_fmap concat].
    set (l' := filter (λ x, f x ≠ p) l).
    assert (Hmap : (λ q, filter (λ x, f x = q) l) <$> ps
                   = (λ q, filter (λ x, f x = q) l') <$> ps).
    { apply list_fmap_ext. intros i q Hq. unfold l'. rewrite list_filter_filter.
      apply list_filter_iff. intros x. split; [|tauto].
      intros <-. split; [done|]. intros Heq. apply Hp. rewrite <- Heq.
      by eapply list_elem_of_lookup_2. }
    rewrite Hmap, (IH Hnd l').
    + unfold l'. apply filter_app_complement.
    + intros x Hx. unfold l' in Hx. apply list_elem_of_filter in Hx as [Hne Hx].
      specialize (Hl x Hx). apply elem_of_cons in Hl as [|]; [done|done].
Qed.

Lemma memory_cells (A : list block) :
  A = (λ p, level.cell_of A p) <$> seqZ 0 (Z.of_nat (length A)).
Proof.
  apply list_eq. intros i. rewrite list_lookup_fmap.
  destruct (A !! i) as [cell|] eqn:Hcell.
  - pose proof (lookup_lt_Some _ _ _ Hcell).
    rewrite lookup_seqZ_lt by lia. simpl. unfold level.cell_of.
    rewrite Z.add_0_l, Nat2Z.id, Hcell. done.
  - apply lookup_ge_None in Hcell. rewrite lookup_seqZ_ge by lia. done.
Qed.

Lemma reals_concat (A : list block) :
  keys.reals (concat A) = concat (keys.reals <$> A).
Proof.
  induction A as [|cell A IH]; [done|]. simpl. unfold keys.reals in *.
  by rewrite filter_app, IH.
Qed.

Section conservation.

Import routing level levels keys.

(** All the levels together keep the real elements. *)
Lemma packed_reals (A : list block) (n B key_index : Z) :
  let C := choose_C n B in
  let k := Z.log2 C in
  0 ≤ B → 0 ≤ key_index →
  wf_memory C B key_index A →
  fits_upto C B k key_index (Z.to_nat k) A = true →
  reals_of (after C B k key_index (Z.to_nat k) A) ≡ₚ reals_of A.
Proof.
  intros C k HB Hki HA Hfits.
  assert (HC : C = 2 ^ k) by apply choose_C_pow2.
  assert (Hk : 0 ≤ k) by apply Z.log2_nonneg.
  assert (HCpos : 0 < C) by (pose proof (choose_C_pos n B); unfold C; lia).
  clearbody k. clearbody C. subst C.
  assert (Hwf : wf_memory (2 ^ k) B key_index (after (2 ^ k) B k key_index (Z.to_nat k) A)).
  { apply (levels_spec k B key_index HB Hki A (Z.to_nat k) HA); [lia|done]. }
  set (R := after (2 ^ k) B k key_index (Z.to_nat k) A) in *.
  unfold reals_of. rewrite reals_concat.
  rewrite (memory_cells R) at 1.
  destruct Hwf as [Hlen Hcells]. rewrite Hlen, Z2Nat.id by lia.
  rewrite <- list_fmap_compose.
  transitivity (concat ((λ p, filter (λ x, dest key_index x `mod` 2 ^ k = p)
                                (reals (concat A))) <$> seqZ 0 (2 ^ k))).
  - assert (Hall : ∀ ps, Forall (λ p, 0 ≤ p < 2 ^ k) ps →
              concat ((reals ∘ (λ p, cell_of R p)) <$> ps)
              ≡ₚ concat ((λ p, filter (λ x, dest key_index x `mod` 2 ^ k = p)
                                (reals (concat A))) <$> ps)).
    { induction ps as [|p ps IH]; intros Hps; [done|].
      apply Forall_cons in Hps as [Hp Hps]. cbn [fmap list_fmap concat].
      apply Permutation_app; [|by apply IH].
      unfold compose, R.
      rewrite (after_all_cell k B key_index HB Hki A p Hk HA Hfits Hp).
      unfold reals. rewrite list_filter_filter.
      apply eq_subrelation; [apply _|]. apply list_filter_iff. intros x. tauto. }
    apply Hall. apply Forall_forall. intros p Hp. apply elem_of_seqZ in Hp. lia.
  - apply partition_perm; [apply NoDup_seqZ|].
    intros x _. apply elem_of_seqZ.
    pose proof (Z.mod_pos_bound (dest key_index x) (2 ^ k) HCpos). lia.
Qed.

(** X16. When [bin_packing] returns, the real elements of the memory
    returned are, up to their order, the real elements of the input:
    routing neither loses nor duplicates nor alters a real element. *)
Theorem bin_packing_conserves (X r : RemoteRam.t) (n B key_index : Z) (local : bool)
    (w w' : world) :
  0 ≤ B → 0 ≤ key_index →
  wf_memory (choose_C n B) B key_index (RemoteRam.memory X) →
  bin_packing.bin_packing X n B key_index local w = Val (r, w') →
  reals_of (RemoteRam.memory r) ≡ₚ reals_of (RemoteRam.memory X).
Proof.
  intros HB Hki HX H.
  destruct (bin_packing_result X r n B key_index local w w' HB Hki HX H)
    as (Hfits & Hmem & _).
  rewrite Hmem. by apply packed_reals.
Qed.

End conservation.

Lemma bin_packing_conserves_witness :
  keys.reals_of (RemoteRam.memory routing_example.packed.1)
  ≡ₚ keys.reals_of (RemoteRam.memory routing_example.X).
Proof.
  apply (bin_packing_conserves routing_example.X routing_example.packed.1 4 2 2 false
           examples.world0 routing_example.packed.2); [lia|lia| |vm_compute; reflexivity].
  split; [reflexivity|]. repeat constructor.
Defined.
(** ** [compaction]: what the output holds and what it costs *)

Lemma for_each_seq_invw {St : Type} (P : Z → St → world → Prop) (body : Z → St → M St)
    (len : nat) :
  ∀ (a : Z) (s s' : St) (w w' : world),
  (∀ i t v t' v', a ≤ i < a + Z.of_nat len → P i t v → body i t v = Val (t', v') →
                  P (i + 1) t' v') →
  P a s w →
  for_each (seqZ a (Z.of_nat len)) body s w = Val (s', w') →
  P (a + Z.of_nat len) s' w'.
Proof.
  induction len as [|len IH]; intros a s s' w w' Hbody Hs H.
  - apply ret_inv in H as [-> ->]. by rewrite Z.add_0_r.
  - rewrite seqZ_cons in H by lia.
    replace (Z.pred (Z.of_nat (S len))) with (Z.of_nat len) in H by lia.
    cbn [for_each] in H. apply bind_inv in H as (s1 & w1 & H1 & H).
    replace (a + Z.of_nat (S len)) with (Z.succ a + Z.of_nat len) by lia.
    eapply IH; [|eapply Hbody; [|exact Hs|exact H1]; lia|exact H].
    intros i t v t' v' Hi. apply Hbody. lia.
Qed.

Lemma seqZ_to_nat (a n : Z) : seqZ a n = seqZ a (Z.of_nat (Z.to_nat n)).
Proof. unfold seqZ. by rewrite Nat2Z.id. Qed.

Lemma concat_replicate {T : Type} (n m : nat) (x : T) :
  concat (replicate n (replicate m x)) = replicate (n * m) x.
Proof.
  induction n as [|n IH]; [done|]. simpl. by rewrite IH, replicate_add.
Qed.

Lemma length_concat_uniform {T : Type} (m : nat) (ls : list (list T)) :
  Forall (λ l, length l = m) ls → length (concat ls) = (length ls * m)%nat.
Proof.
  induction 1 as [|l ls Hl _ IH]; [done|]. simpl. rewrite length_app, IH, Hl. done.
Qed.

Lemma pairs_snoc (seen : block) (x : elem) :
  compacting.pairs (seen ++ [x])
  = compacting.pairs seen ++ (if routing.is_real x then [keys.pair_of x] else []).
Proof.
  unfold compacting.pairs, keys.reals. rewrite filter_app, fmap_app. f_equal.
  destruct (routing.is_real x) eqn:Hx.
  - rewrite filter_cons_True by (by apply Is_true_true). done.
  - rewrite filter_cons_False by (by apply Is_true_false). done.
Qed.

Section collecting.

Import compaction compacting.

Variables B size : Z.
Hypothesis B_pos : 0 < B.

(** One element visited by the collecting loop. *)
Lemma collect_elem_inv (block_i : block) (j : Z) (seen : block) (st st' : collect)
    (w w' : world) :
  0 ≤ j →
  collect_inv B size seen st →
  collect_elem B block_i j st w = Val (st', w') →
  ∃ x, block_i !! Z.to_nat j = Some x
       ∧ collect_inv B size (seen ++ [x]) st'
       ∧ read_operations w' = read_operations w
       ∧ write_operations w' - curr_bin st' = write_operations w - curr_bin st.
Proof.
  intros Hj (Hbin & Hidx & Hcur & Hloc & Hlen & Hcells & Hdone & Hrest) H.
  unfold collect_elem in H. mlift H as x Hx. mlift H as k Hk.
  apply py_index_inv in Hx; [|done]. exists x. split; [done|].
  destruct x as [|k0 x]; [discriminate|]. injection Hk as <-.
  unfold collect_inv. rewrite pairs_snoc. cbn [routing.is_real].
  destruct (val_eqb k0 DUMMY_ADDR); cbn [negb] in H |- *.
  - apply ret_inv in H as [-> ->]. rewrite app_nil_r. done.
  - mlift H as v Hv. destruct x as [|v0 x]; [discriminate|]. injection Hv as <-.
    cbv zeta in H. change (keys.pair_of (k0 :: v0 :: x)) with [k0; v0].
    destruct (Z.eqb_spec (curr_index st + 1) B) as [Hfull|Hpart].
    + mbind H as arr w1 Hwr. apply ret_inv in H as [-> ->].
      apply write_memory_cell_inv in Hwr as (Hr & -> & ->).
      rewrite Hloc. cbn [curr_bin curr_index current_block new_array
                          HashTable.set_memory RemoteRam.memory RemoteRam.local].
      set (mem := RemoteRam.memory (new_array st)) in *.
      set (cb := Z.to_nat (curr_bin st)) in *.
      assert (Hcb : (cb < length mem)%nat) by lia.
      replace (Z.to_nat (curr_bin st + 1)) with (S cb) by lia.
      split; [|simpl; lia].
      split; [lia|]. split; [lia|]. split; [done|]. split; [done|].
      split; [by rewrite length_insert|]. split.
      { apply Forall_insert; [done|]. rewrite length_app. simpl. lia. }
      split.
      * rewrite (take_S_r _ _ (current_block st ++ [[k0; v0]]))
          by (by apply list_lookup_insert_eq).
        rewrite take_insert_ge by lia. rewrite concat_app. simpl.
        rewrite !app_nil_r. by rewrite (assoc_L (++)), Hdone.
      * rewrite drop_insert_lt by lia.
        replace (S cb) with (cb + 1)%nat by lia. rewrite <- drop_drop, Hrest.
        replace (Z.to_nat size - cb)%nat with (S (Z.to_nat size - (cb + 1))) by lia.
        done.
    + apply ret_inv in H as [-> ->].
      cbn [curr_bin curr_index current_block new_array].
      split; [|lia].
      split; [done|]. split; [lia|]. split; [rewrite length_app; simpl; lia|].
      split; [done|]. split; [done|]. split; [done|]. split; [|done].
      by rewrite (assoc_L (++)), Hdone.
Qed.

(** One bin visited by the collecting loop. *)
Lemma collect_bin_inv (Y : RemoteRam.t) (i : Z) (seen : block) (st st' : collect)
    (w w' : world) :
  Forall (λ cell : block, length cell = Z.to_nat B) (RemoteRam.memory Y) →
  collect_inv B size seen st →
  collect_bin B Y i st w = Val (st', w') →
  collect_inv B size (seen ++ level.cell_of (RemoteRam.memory Y) i) st'
  ∧ read_operations w' = read_operations w + cost (RemoteRam.local Y)
  ∧ write_operations w' - curr_bin st' = write_operations w - curr_bin st.
Proof.
  intros HY Hinv H. unfold collect_bin in H. mbind H as block_i w1 Hread.
  apply read_memory_cell_inv in Hread as (Hi & Hcell & ->).
  unfold level.cell_of. rewrite Hcell. simpl.
  assert (Hlen : length block_i = Z.to_nat B).
  { exact (Forall_lookup_1 _ _ _ _ HY Hcell). }
  unfold range in H. rewrite seqZ_to_nat in H.
  pose proof (for_each_seq_invw
                (λ j (t : collect) (v : world),
                   collect_inv B size (seen ++ take (Z.to_nat j) block_i) t
                   ∧ read_operations v = read_operations w + cost (RemoteRam.local Y)
                   ∧ write_operations v - curr_bin t = write_operations w - curr_bin st)
                (collect_elem B block_i) (Z.to_nat B) 0 st st'
                (bump w (cost (RemoteRam.local Y)) 0) w') as Hloop.
  cbv beta in Hloop. rewrite Z.add_0_l, Nat2Z.id in Hloop.
  rewrite (take_ge block_i (Z.to_nat B)) in Hloop by lia. apply Hloop; [| |exact H].
  - intros j t v t' v' Hj (Ht & Hr & Hw) Hstep.
    destruct (collect_elem_inv block_i j _ t t' v v' ltac:(lia) Ht Hstep)
      as (x & Hx & Ht' & Hr' & Hw').
    replace (Z.to_nat (j + 1)) with (S (Z.to_nat j)) by lia.
    rewrite (take_S_r _ _ _ Hx), (assoc_L (++)). split; [done|]. lia.
  - simpl. rewrite app_nil_r. split; [done|]. simpl. lia.
Qed.

(** The whole collecting loop. *)
Lemma collect_loop_inv (Y : RemoteRam.t) (seen : block) (st st' : collect)
    (w w' : world) :
  Forall (λ cell : block, length cell = Z.to_nat B) (RemoteRam.memory Y) →
  collect_inv B size seen st →
  for_each (range (Z.of_nat (length (RemoteRam.memory Y)))) (collect_bin B Y) st w
  = Val (st', w') →
  collect_inv B size (seen ++ concat (RemoteRam.memory Y)) st'
  ∧ read_operations w'
    = read_operations w + Z.of_nat (length (RemoteRam.memory Y)) * cost (RemoteRam.local Y)
  ∧ write_operations w' - curr_bin st' = write_operations w - curr_bin st.
Proof.
  intros HY Hinv H. unfold range in H.
  pose proof (for_each_seq_invw
                (λ i (t : collect) (v : world),
                   collect_inv B size
                     (seen ++ concat (take (Z.to_nat i) (RemoteRam.memory Y))) t
                   ∧ read_operations v
                     = read_operations w + i * cost (RemoteRam.local Y)
                   ∧ write_operations v - curr_bin t = write_operations w - curr_bin st)
                (collect_bin B Y) (length (RemoteRam.memory Y)) 0 st st' w w') as Hloop.
  cbv beta in Hloop. rewrite Z.add_0_l, Nat2Z.id in Hloop.
  rewrite (take_ge (RemoteRam.memory Y) (length (RemoteRam.memory Y))) in Hloop by lia.
  apply Hloop; [| |exact H].
  - intros i t v t' v' Hi (Ht & Hr & Hw) Hstep.
    destruct (collect_bin_inv Y i _ t t' v v' HY Ht Hstep) as (Ht' & Hr' & Hw').
    replace (Z.to_nat (i + 1)) with (S (Z.to_nat i)) by lia.
    destruct (lookup_lt_is_Some_2 (RemoteRam.memory Y) (Z.to_nat i) ltac:(lia))
      as [cell Hcell].
    rewrite (take_S_r _ _ _ Hcell), concat_app. simpl. rewrite app_nil_r.
    unfold level.cell_of in Ht'. rewrite Hcell in Ht'. simpl in Ht'.
    rewrite (assoc_L (++)). split; [done|]. lia.
  - simpl. rewrite app_nil_r. split; [done|]. lia.
Qed.

End collecting.
Lemma pairs_app (a b : block) :
  compacting.pairs (a ++ b) = compacting.pairs a ++ compacting.pairs b.
Proof. unfold compacting.pairs, keys.reals. by rewrite filter_app, fmap_app. Qed.

Lemma pairs_concat (A : list block) :
  compacting.pairs (concat A) = concat (compacting.pairs <$> A).
Proof.
  induction A as [|cell A IH]; [done|]. simpl. by rewrite pairs_app, IH.
Qed.

Lemma pairs_dummies (b : block) : Forall (λ x, x = DUMMY) b → compacting.pairs b = [].
Proof.
  induction 1 as [|x b -> _ IH]; [done|].
  change (DUMMY :: b) with ([DUMMY] ++ b). rewrite pairs_app, IH. done.
Qed.

Lemma pairs_related (ys xs : block) :
  Forall2 (λ y x, keys.pair_of y = x ∧ routing.is_real y = routing.is_real x) ys xs →
  compacting.pairs ys = keys.reals xs.
Proof.
  induction 1 as [|y x ys xs [Hp Hr] _ IH]; [done|].
  change (y :: ys) with ([y] ++ ys). rewrite pairs_app, IH.
  unfold compacting.pairs, keys.reals.
  destruct (routing.is_real x) eqn:Hx.
  - rewrite !filter_cons_True by (apply Is_true_true; congruence). simpl.
    by rewrite Hp.
  - rewrite !filter_cons_False by (apply Is_true_false; congruence). done.
Qed.

Section array_pairs.

Import routing tagging built_array keys compacting.

Variable hmac_sha256 : Z → val → Z.
Variable self : HashTable.t.
Hypothesis Hwf : wf_input self.

Let size_of_X : Z := ceil_div (HashTable.n self) (HashTable.B self).
Let Xmem : list block := RemoteRam.memory (HashTable.X self).
Let C : Z := HashTable.C self.
Let B : Z := HashTable.B self.

(** The two halves of the cells of the input, in order, are the input. *)
Lemma halves_input (s : nat) :
  Z.of_nat s ≤ size_of_X →
  concat ((λ c, half_of self Xmem c) <$> seqZ 0 (2 * Z.of_nat s))
  = concat (take s Xmem).
Proof.
  induction s as [|s IH]; intros Hs; [done|].
  replace (2 * Z.of_nat (S s)) with (2 * Z.of_nat s + 2) by lia.
  rewrite seqZ_app by lia. rewrite fmap_app, concat_app, IH by lia.
  destruct (input_cell self Hwf (Z.of_nat s) ltac:(fold size_of_X; lia))
    as (cell & Hcell & Hlen & _).
  rewrite Nat2Z.id in Hcell. fold Xmem in Hcell.
  rewrite (take_S_r _ _ _ Hcell), concat_app. f_equal.
  rewrite (seqZ_cons _ 2) by lia. rewrite (seqZ_cons _ (Z.pred 2)) by lia.
  change (seqZ _ (Z.pred (Z.pred 2))) with (@nil Z).
  cbn [fmap list_fmap concat]. rewrite !app_nil_r. unfold half_of.
  replace (0 + 2 * Z.of_nat s) with (2 * Z.of_nat s) by lia.
  replace (Z.succ (2 * Z.of_nat s)) with (2 * Z.of_nat s + 1) by lia.
  rewrite half_even, half_odd.
  replace (Z.odd (2 * Z.of_nat s)) with false
    by (symmetry; rewrite <- Z.negb_even, Z.even_mul; done).
  replace (Z.odd (2 * Z.of_nat s + 1)) with true
    by (rewrite Z.add_comm, Z.odd_add_mul_2; done).
  unfold level.cell_of. rewrite Nat2Z.id, Hcell. simpl.
  unfold py_take, py_drop. apply take_drop.
Qed.

Variable st : RemoteRam.t * RemoteRam.t.
Hypothesis Hinv : build_inv hmac_sha256 self size_of_X st.

(** The pairs of a cell of the intermediate array are the real elements
    of the half of the input written to it. *)
Lemma cell_pairs (c : Z) :
  0 ≤ c < 2 * size_of_X →
  pairs (level.cell_of (RemoteRam.memory st.2) c) = reals (half_of self Xmem c).
Proof.
  intros Hc. destruct Hinv as (_ & _ & _ & _ & Hdone & _).
  destruct (Hdone c Hc) as (Hlen & Hhalf & Hdum).
  set (cell' := level.cell_of (RemoteRam.memory st.2) c) in *.
  set (h := Z.to_nat (HashTable.B self / 2)) in *.
  destruct Hwf as (HB & Heven & _).
  assert (Hlh : length (half_of self Xmem c) = h).
  { unfold half_of.
    assert (Hi2 : 0 ≤ c / 2 < size_of_X).
    { split; [apply Z.div_pos; lia|apply Z.div_lt_upper_bound; lia]. }
    destruct (input_cell self Hwf (c / 2) Hi2) as (cell & Hcell & Hlc & _).
    fold Xmem in Hcell. unfold level.cell_of. rewrite Hcell. simpl.
    destruct (Z.odd c); unfold py_drop, py_take;
      rewrite ?length_drop, ?length_take; lia. }
  rewrite <- (take_drop h cell'), pairs_app.
  rewrite (pairs_dummies (drop h cell')), app_nil_r.
  - apply pairs_related. apply Forall2_same_length_lookup_2.
    + rewrite length_take. lia.
    + intros idx y x Hy Hx.
      pose proof (lookup_lt_Some _ _ _ Hx) as Hidx.
      rewrite lookup_take_lt in Hy by lia.
      destruct (Hhalf idx x Hx) as (key & Hy' & _).
      rewrite Hy in Hy'. injection Hy' as ->.
      destruct (half_of_pairs self Hwf c idx x Hc Hx) as (Hlx & _).
      destruct x as [|k0 [|v [|? ?]]]; try discriminate. done.
  - apply Forall_forall. intros y Hy. apply list_elem_of_lookup_1 in Hy as [idx Hidx].
    pose proof (lookup_lt_Some _ _ _ Hidx) as Hlt. rewrite length_drop in Hlt.
    rewrite lookup_drop in Hidx. rewrite Hdum in Hidx by lia. by injection Hidx.
Qed.

(** The pairs of the real elements of the intermediate array are the
    real elements of the input, in the same order. *)
Lemma array_pairs :
  pairs (concat (RemoteRam.memory st.2)) = reals (tagging.input self).
Proof.
  destruct Hinv as (Hb & _ & _ & Hlen & Hdone & Htodo).
  pose proof (size_of_X_nonneg self Hwf) as Hs. fold size_of_X in Hs.
  rewrite (memory_cells (RemoteRam.memory st.2)), Hlen.
  replace (HashTable.C self) with (2 * size_of_X + (HashTable.C self - 2 * size_of_X))
    by lia.
  rewrite seqZ_app by lia. rewrite fmap_app, concat_app, pairs_app.
  rewrite (pairs_dummies (concat (_ <$> seqZ (0 + 2 * size_of_X) _))), app_nil_r.
  - rewrite pairs_concat, <- list_fmap_compose.
    unfold tagging.input. fold size_of_X Xmem.
    rewrite <- (halves_input (Z.to_nat size_of_X)) by lia.
    rewrite Z2Nat.id by lia. rewrite reals_concat, <- list_fmap_compose.
    f_equal. apply list_fmap_ext. intros i c Hc. unfold compose.
    apply cell_pairs. apply list_elem_of_lookup_2, elem_of_seqZ in Hc. lia.
  - apply Forall_forall. intros y Hy.
    apply elem_of_concat in Hy as (cell & Hcell & Hy).
    apply list_elem_of_fmap in Hcell as (c & -> & Hc). apply elem_of_seqZ in Hc.
    rewrite Htodo in Hy by lia. unfold py_repeat in Hy.
    by apply elem_of_replicate in Hy as [-> _].
Qed.

End array_pairs.
Section build_loops.

Import routing tagging built_array.

Variable entropy : nat → Z.
Variable hmac_sha256 : Z → val → Z.
Variable self : HashTable.t.
Hypothesis Hwf : wf_input self.
Variable l : bool.

Let size_of_X : Z := ceil_div (HashTable.n self) (HashTable.B self).
Let C : Z := HashTable.C self.
Let B : Z := HashTable.B self.

(** The intermediate array after the splitting loop and the padding
    loop, and what the two loops have read and written. *)
Lemma build_loops_inv (st : RemoteRam.t * RemoteRam.t) (X' : RemoteRam.t)
    (w w1 w2 : world) :
  for_each (range size_of_X) (HashTable.build_step entropy hmac_sha256 self)
    (HashTable.X self, RemoteRam.new B C None l) w = Val (st, w1) →
  for_each (range2 (2 * size_of_X) C)
    (λ j X_prime, RemoteRam.write_memory_cell X_prime j (py_repeat DUMMY B)) st.2 w1
  = Val (X', w2) →
  build_inv hmac_sha256 self size_of_X (st.1, X')
  ∧ 2 * size_of_X ≤ C
  ∧ RemoteRam.local X' = l
  ∧ read_operations w2
    = read_operations w + size_of_X * cost (RemoteRam.local (HashTable.X self))
  ∧ write_operations w2 = write_operations w + C * cost l.
Proof.
  intros Hloop Hpad.
  pose proof (size_of_X_nonneg self Hwf) as Hs. fold size_of_X in Hs.
  assert (HC : 1 ≤ C).
  { destruct Hwf as (_ & _ & _ & HCc & _). unfold C. rewrite HCc. apply choose_C_pos. }
  unfold range in Hloop. unfold range2 in Hpad.
  assert (Hinv : build_inv hmac_sha256 self size_of_X st).
  { pose proof (for_each_seq_inv (build_inv hmac_sha256 self)
                  (HashTable.build_step entropy hmac_sha256 self)
                  (Z.to_nat size_of_X) 0
                  (HashTable.X self, RemoteRam.new B C None l) st w w1
                  ltac:(intros i t v t' v' Hi Ht Hstep;
                        eapply (build_step_inv entropy hmac_sha256 self Hwf);
                        [|exact Ht|exact Hstep]; fold size_of_X; lia)
                  ltac:(unfold build_inv; cbn [fst snd RemoteRam.new RemoteRam.memory];
                        split; [lia|]; split; [done|]; split; [done|];
                        unfold py_repeat; rewrite length_replicate;
                        split; [unfold C in HC; lia|]; split; [intros c Hc; lia|];
                        intros c Hc; unfold level.cell_of;
                        rewrite lookup_replicate_2 by lia; done)) as Hfin.
    rewrite Z.add_0_l, Z2Nat.id in Hfin by lia. exact (Hfin Hloop). }
  assert (Hle : 2 * size_of_X ≤ C) by (destruct Hinv as (Hb & _); fold C in Hb; lia).
  assert (Hpadded : build_inv hmac_sha256 self size_of_X (st.1, X')).
  { pose proof (for_each_seq_inv
             (λ (_ : Z) (X1 : RemoteRam.t),
                build_inv hmac_sha256 self size_of_X (st.1, X1))
             (λ j X_prime, RemoteRam.write_memory_cell X_prime j (py_repeat DUMMY B))
             (Z.to_nat (C - 2 * size_of_X)) (2 * size_of_X) st.2 X' w1 w2
             ltac:(clear - Hs; intros i t v t' v' Hi (H0 & H1 & H2 & H3 & H4 & H5) Hw;
                   apply write_memory_cell_inv in Hw as (Hr & -> & _);
                   unfold build_inv in *;
                   cbn [fst snd HashTable.set_memory RemoteRam.memory] in *;
                   split; [done|]; split; [done|]; split; [done|];
                   split; [by rewrite length_insert|]; split;
                   [intros c Hc; rewrite cell_of_insert by lia;
                    rewrite decide_False by lia; by apply H4
                   |intros c Hc; rewrite cell_of_insert by lia;
                    destruct (decide _) as [[-> _]|]; [done|by apply H5]])
             ltac:(by destruct st)) as Hfin.
    rewrite Z2Nat.id in Hfin by lia. exact (Hfin Hpad). }
  split; [done|]. split; [done|].
  (* the counters *)
  pose proof (for_each_seq_cost
                (λ i (t : RemoteRam.t * RemoteRam.t),
                   RemoteRam.local t.1 = RemoteRam.local (HashTable.X self)
                   ∧ RemoteRam.local t.2 = l)
                (HashTable.build_step entropy hmac_sha256 self)
                (cost (RemoteRam.local (HashTable.X self))) (2 * cost l)
                (Z.to_nat size_of_X) 0
                (HashTable.X self, RemoteRam.new B C None l)
                st w w1) as Hcost1.
  rewrite Z2Nat.id, Z.add_0_l in Hcost1 by lia.
  destruct Hcost1 as ((Hl1 & Hl2) & Hr1 & Hw1); [|done|exact Hloop|].
  { intros i t v t' v' Hi (Ht1 & Ht2) Hstep.
    unfold HashTable.build_step in Hstep. cbv zeta in Hstep.
    mbind Hstep as cell0 v1 Hread. mbind Hstep as cell' v2 Htag.
    mlift Hstep as mem Hmem. mbind Hstep as X1 v3 Hwr1. mbind Hstep as X2 v4 Hwr2.
    apply ret_inv in Hstep as [-> ->].
    apply read_memory_cell_inv in Hread as (_ & _ & ->).
    apply costs_quiet_tag in Htag as [Hr Hw].
    apply write_memory_cell_inv in Hwr1 as (Hi1 & -> & ->).
    apply write_memory_cell_inv in Hwr2 as (Hi2 & -> & ->).
    cbn [HashTable.set_memory RemoteRam.memory RemoteRam.local fst snd] in *.
    split; [done|]. simpl in Hr, Hw. simpl. rewrite Hr, Hw, Ht1, Ht2. lia. }
  pose proof (for_each_seq_cost
                (λ (_ : Z) (t : RemoteRam.t), RemoteRam.local t = l)
                (λ j X_prime, RemoteRam.write_memory_cell X_prime j (py_repeat DUMMY B))
                0 (cost l) (Z.to_nat (C - 2 * size_of_X)) (2 * size_of_X) st.2 X' w1 w2)
    as Hcost2.
  rewrite Z2Nat.id in Hcost2 by lia.
  destruct Hcost2 as (Hl3 & Hr2 & Hw2); [|exact Hl2|exact Hpad|].
  { intros i t v t' v' Hi Ht Hwr.
    apply write_memory_cell_inv in Hwr as (_ & -> & ->). simpl.
    rewrite Ht. split; [done|]. lia. }
  split; [done|]. rewrite Hr2, Hr1, Hw2, Hw1. split; lia.
Qed.

End build_loops.

Lemma tail_dummies {T : Type} (x : T) (s b cb ci : nat) :
  (cb < s)%nat → (ci ≤ b)%nat →
  replicate (b - ci) x ++ replicate ((s - S cb) * b) x
  = replicate (s * b - (cb * b + ci)) x.
Proof.
  intros Hcb Hci. rewrite <- replicate_add. f_equal.
  replace s with (S cb + (s - S cb))%nat at 2 by lia.
  set (d := (s - S cb)%nat). lia.
Qed.

(** The loop that fills the rest of the output with dummy blocks finds
    dummy blocks there. *)
Lemma fill_loop (B size a : Z) (arr0 arr : RemoteRam.t) (w w' : world) :
  0 ≤ a ≤ Z.max 0 size →
  RemoteRam.local arr0 = false →
  length (RemoteRam.memory arr0) = Z.to_nat size →
  drop (Z.to_nat a) (RemoteRam.memory arr0)
  = replicate (Z.to_nat size - Z.to_nat a) (py_repeat DUMMY B) →
  for_each (range2 a size)
    (λ i arr, RemoteRam.write_memory_cell arr i (py_repeat DUMMY B)) arr0 w
  = Val (arr, w') →
  RemoteRam.memory arr = RemoteRam.memory arr0
  ∧ read_operations w' = read_operations w
  ∧ write_operations w' = write_operations w + (Z.max 0 size - a).
Proof.
  intros Ha Hloc Hlen Hdrop H. unfold range2 in H. rewrite seqZ_to_nat in H.
  pose proof (for_each_seq_cost
                (λ (_ : Z) (t : RemoteRam.t),
                   RemoteRam.memory t = RemoteRam.memory arr0
                   ∧ RemoteRam.local t = false)
                (λ i arr, RemoteRam.write_memory_cell arr i (py_repeat DUMMY B))
                0 1 (Z.to_nat (size - a)) a arr0 arr w w') as Hcost.
  destruct Hcost as ((Hmem & _) & Hr & Hw); [|done|exact H|].
  - intros i t v t' v' Hi (Ht & Htl) Hwr.
    apply write_memory_cell_inv in Hwr as (Hir & -> & ->).
    cbn [HashTable.set_memory RemoteRam.memory RemoteRam.local]. rewrite Htl, Ht.
    split; [|simpl; lia]. split; [|done].
    apply list_insert_id.
    assert (Hl : drop (Z.to_nat a) (RemoteRam.memory arr0) !! (Z.to_nat i - Z.to_nat a)%nat
                 = Some (py_repeat DUMMY B)).
    { rewrite Hdrop. apply lookup_replicate_2. lia. }
    rewrite lookup_drop in Hl. rewrite <- Hl. f_equal. lia.
  - split; [done|]. lia.
Qed.
(** ** [compaction] as a whole *)

Section compaction_run.

Import routing tagging built_array keys compacting.

Variable entropy : nat → Z.
Variable hmac_sha256 : Z → val → Z.
Variable X : RemoteRam.t.
Variables n B n_0 : Z.
Hypothesis Hwf : wf_input (as_table X n B 0).

Let size_of_X : Z := ceil_div n B.
Let C : Z := choose_C n B.
Let k : Z := Z.log2 C.
Let size : Z := ceil_div n_0 B.

(** What a compaction that returns has produced, read and written. *)
Lemma compaction_result (arr : RemoteRam.t) (w w' : world) :
  compaction.compaction entropy hmac_sha256 X n B n_0 w = Val (arr, w') →
  ∃ L : block,
    L ≡ₚ reals (compacting.input X n B)
    ∧ concat (RemoteRam.memory arr)
      = L ++ replicate (Z.to_nat size * Z.to_nat B - length L) DUMMY
    ∧ (length L ≤ Z.to_nat size * Z.to_nat B)%nat
    ∧ length (RemoteRam.memory arr) = Z.to_nat size
    ∧ Forall (λ cell : block, length cell = Z.to_nat B) (RemoteRam.memory arr)
    ∧ read_operations w'
      = read_operations w + (size_of_X * cost (RemoteRam.local X) + k * C + C)
    ∧ write_operations w' = write_operations w + (C + k * C + Z.max 0 size).
Proof.
  intros H. unfold compaction.compaction in H.
  assert (HB : 0 < B) by (destruct Hwf as (HB & _); exact HB).
  destruct (Z.eqb_spec B 0) as [|_]; [lia|].
  mbind H as sk w0 Hsk. cbv zeta in H. fold size_of_X C size in H.
  assert (Hw0 : read_operations w0 = read_operations w
                ∧ write_operations w0 = write_operations w).
  { unfold token_bytes in Hsk. by injection Hsk as _ <-. }
  clear Hsk.
  mbind H as st w1 Hloop. mbind H as X' w2 Hpad. mbind H as Y w3 Hpack.
  mbind H as st2 w4 Hcollect. mbind H as st3 w5 Hpart.
  set (self := as_table X n B sk).
  assert (Hwf' : wf_input self) by exact Hwf.
  destruct (build_loops_inv entropy hmac_sha256 self Hwf' false st X' w0 w1 w2
              Hloop Hpad) as (Hinv & Hle & HlX' & Hr2 & Hw2).
  cbn [self as_table HashTable.X HashTable.C HashTable.n HashTable.B] in Hle, Hr2, Hw2.
  fold size_of_X C in Hle, Hr2, Hw2.
  (* bin packing *)
  pose proof (array_wf hmac_sha256 self Hwf' (st.1, X') Hinv 2 ltac:(lia)) as HwfX'.
  cbn [self as_table HashTable.C HashTable.B snd] in HwfX'.
  destruct (bin_packing_result X' Y n B 2 false w2 w3 ltac:(lia) ltac:(lia) HwfX' Hpack)
    as (HfitsY & HmemY & HwfY & HY & Hw3).
  fold C k in HwfY, HY, Hw3.
  pose proof (packed_reals (RemoteRam.memory X') n B 2 ltac:(lia) ltac:(lia)
                HwfX' HfitsY) as Hcons.
  cbv zeta in Hcons. rewrite <- HmemY in Hcons. clear HfitsY HmemY.
  assert (HC1 : 1 ≤ C) by apply choose_C_pos.
  assert (Hk : 0 ≤ k) by apply Z.log2_nonneg.
  assert (HlY : RemoteRam.local Y = false).
  { rewrite HY. destruct (k =? 0); [exact HlX'|done]. }
  assert (Hcost3 : read_operations w3 = read_operations w2 + k * C
                   ∧ write_operations w3 = write_operations w2 + k * C).
  { rewrite Hw3. destruct (Z.eqb_spec k 0) as [->|Hk0]; [lia|].
    rewrite HlX'. simpl.
    pose proof (log_half_even n B) as Heven. fold C k in Heven. lia. }
  destruct HwfY as [HlenY HcellsY].
  assert (HYlen : Forall (λ cell : block, length cell = Z.to_nat B) (RemoteRam.memory Y)).
  { eapply Forall_impl; [exact HcellsY|]. by intros cell [? _]. }
  (* the collecting loop *)
  replace C with (Z.of_nat (length (RemoteRam.memory Y))) in Hcollect at 1 by lia.
  destruct (collect_loop_inv B size HB Y []
              (compaction.mkCollect (RemoteRam.new B size None false) 0 0 [])
              st2 w3 w4 HYlen) as (Hst2 & Hr4 & Hw4);
    [|exact Hcollect|].
  { unfold collect_inv. cbn [compaction.curr_bin compaction.curr_index
      compaction.current_block compaction.new_array RemoteRam.new RemoteRam.memory
      RemoteRam.local]. unfold py_repeat. rewrite length_replicate.
    split; [lia|]. split; [lia|]. split; [done|]. split; [done|]. split; [done|].
    split; [apply Forall_replicate; by rewrite length_replicate|].
    split; [done|]. simpl. by rewrite Nat.sub_0_r. }
  rewrite app_nil_l in Hst2. rewrite HlY in Hr4. simpl in Hw4.
  change (cost false) with 1 in *.
  set (L := pairs (concat (RemoteRam.memory Y))) in *.
  exists L.
  assert (HL : L ≡ₚ reals (compacting.input X n B)).
  { unfold L, pairs. fold (reals_of (RemoteRam.memory Y)). rewrite Hcons.
    change (pair_of <$> reals_of (RemoteRam.memory X'))
      with (pairs (concat (RemoteRam.memory (st.1, X').2))).
    rewrite (array_pairs hmac_sha256 self Hwf' (st.1, X') Hinv). done. }
  split; [exact HL|].
  destruct Hst2 as (Hbin & Hidx & Hcur & Hloc & Hlen & Hcells & Hdone & Hrest).
  fold L in Hdone.
  set (mem := RemoteRam.memory (compaction.new_array st2)) in *.
  set (cb := Z.to_nat (compaction.curr_bin st2)) in *.
  set (cblock := compaction.current_block st2) in *.
  assert (Hcb : (cb ≤ Z.to_nat size)%nat) by lia.
  assert (HlenL : length L = (cb * Z.to_nat B + length cblock)%nat).
  { rewrite <- Hdone, length_app. f_equal.
    rewrite (length_concat_uniform (Z.to_nat B)).
    - rewrite length_take, Nat.min_l by lia. done.
    - by apply Forall_take. }
  assert (Hdrop : concat (drop cb mem)
                  = replicate ((Z.to_nat size - cb) * Z.to_nat B) DUMMY).
  { rewrite Hrest. unfold py_repeat. apply concat_replicate. }
  destruct cblock as [|x0 cblock0] eqn:Hcblock; cbn [compaction.nonempty negb] in Hpart.
  - (* no block is pending *)
    apply ret_inv in Hpart as [-> ->].
    destruct (fill_loop B size (compaction.curr_bin st2) (compaction.new_array st2)
                arr w4 w' Hbin Hloc Hlen Hrest H) as (Hmem & Hr & Hw).
    rewrite Hmem. fold mem.
    rewrite app_nil_r in Hdone. simpl in HlenL.
    split.
    { rewrite <- (take_drop cb mem) at 1. rewrite concat_app, Hdone, Hdrop.
      f_equal. f_equal. rewrite HlenL. rewrite Nat.add_0_r, Nat.mul_sub_distr_r. done. }
    split; [rewrite HlenL; nia|]. split; [done|]. split; [done|].
    destruct Hw0 as [Hr0 Hw0]. destruct Hcost3 as [Hr3 Hw3'].
    split; lia.
  - (* the last block is padded and written *)
    destruct (Z.ltb_spec (compaction.curr_index st2) B) as [_|]; [|lia].
    mbind Hpart as arr1 w4' Hwr. apply ret_inv in Hpart as [-> ->].
    apply write_memory_cell_inv in Hwr as (Hin & -> & ->).
    fold mem cb in Hin |- *.
    assert (Hcb' : (cb < Z.to_nat size)%nat) by lia.
    destruct (fill_loop B size (compaction.curr_bin st2 + 1)
                (HashTable.set_memory (compaction.new_array st2)
                   (<[cb := (x0 :: cblock0)
                            ++ py_repeat DUMMY (B - Z.of_nat (length (x0 :: cblock0)))]>
                      mem))
                arr (bump w4 0 (cost (RemoteRam.local (compaction.new_array st2)))) w')
      as (Hmem & Hr & Hw); [lia|done| | |exact H|].
    { cbn [HashTable.set_memory RemoteRam.memory]. by rewrite length_insert. }
    { cbn [HashTable.set_memory RemoteRam.memory].
      replace (Z.to_nat (compaction.curr_bin st2 + 1)) with (S cb) by lia.
      rewrite drop_insert_lt by lia.
      replace (S cb) with (cb + 1)%nat by lia. rewrite <- drop_drop, Hrest.
      replace (Z.to_nat size - cb)%nat with (S (Z.to_nat size - (cb + 1))) by lia.
      done. }
    rewrite Hmem. cbn [HashTable.set_memory RemoteRam.memory].
    set (ci := length (x0 :: cblock0)) in *.
    assert (Hci : (ci < Z.to_nat B)%nat) by lia.
    split.
    { rewrite insert_take_drop by lia. rewrite concat_app. cbn [concat].
      rewrite <- !(assoc_L (++)). rewrite (assoc_L (++) (concat (take cb mem))), Hdone.
      f_equal. unfold py_repeat.
      replace (S cb) with (cb + 1)%nat by lia. rewrite <- drop_drop, Hrest.
      replace (Z.to_nat size - cb)%nat with (S (Z.to_nat size - S cb)) by lia.
      cbn [replicate drop]. unfold py_repeat. rewrite drop_0, concat_replicate.
      replace (Z.to_nat (B - Z.of_nat ci)) with (Z.to_nat B - ci)%nat by lia.
      rewrite HlenL. apply tail_dummies; lia. }
    split; [rewrite HlenL; nia|]. split; [by rewrite length_insert|].
    split.
    { apply Forall_insert; [done|]. rewrite length_app. unfold py_repeat.
      rewrite length_replicate. fold ci. lia. }
    rewrite Hloc in Hw, Hr. simpl in Hw, Hr.
    destruct Hw0 as [Hr0 Hw0]. destruct Hcost3 as [Hr3 Hw3'].
    split; lia.
Qed.

End compaction_run.

Section compaction_theorems.

Import routing tagging keys compacting.

Variable entropy : nat → Z.
Variable hmac_sha256 : Z → val → Z.

(** X17. A compaction that returns, on an input of [ceil(n / B)] cells of
    [B] pairs with [B] even: the output has [ceil(n_0 / B)] cells of [B]
    elements; read cell after cell it holds first the real pairs of the
    input, each of them once and in some order, and after them only
    dummy elements.  In particular the input held at most
    [ceil(n_0 / B) * B] real pairs. *)
Theorem compaction_packs (X arr : RemoteRam.t) (n B n_0 : Z) (w w' : world) :
  wf_input (as_table X n B 0) →
  compaction.compaction entropy hmac_sha256 X n B n_0 w = Val (arr, w') →
  ∃ L : block,
    L ≡ₚ reals (compacting.input X n B)
    ∧ concat (RemoteRam.memory arr)
      = L ++ replicate (Z.to_nat (ceil_div n_0 B) * Z.to_nat B - length L) DUMMY
    ∧ (length L ≤ Z.to_nat (ceil_div n_0 B) * Z.to_nat B)%nat
    ∧ length (RemoteRam.memory arr) = Z.to_nat (ceil_div n_0 B)
    ∧ Forall (λ cell : block, length cell = Z.to_nat B) (RemoteRam.memory arr).
Proof.
  intros Hwf H.
  destruct (compaction_result entropy hmac_sha256 X n B n_0 Hwf arr w w' H)
    as (L & HL & Hmem & Hle & Hlen & Hcells & _).
  exists L. done.
Qed.


End compaction_theorems.

Lemma compaction_input0_wf :
  tagging.wf_input (compacting.as_table (HashTable.X examples.unbuilt0.1) 4 2 0).
Proof.
  unfold tagging.wf_input. cbn [compacting.as_table HashTable.B HashTable.n HashTable.C
    HashTable.X]. split; [lia|]. split; [reflexivity|]. split; [lia|].
  split; [reflexivity|]. split; [vm_compute; discriminate|].
  vm_compute. repeat constructor.
Qed.

Lemma compaction_packs_witness :
  ∃ L : block,
    L ≡ₚ keys.reals (compacting.input (HashTable.X examples.unbuilt0.1) 4 2)
    ∧ concat (RemoteRam.memory examples.compacted0.1)
      = L ++ replicate (Z.to_nat (ceil_div 4 2) * Z.to_nat 2 - length L) DUMMY
    ∧ (length L ≤ Z.to_nat (ceil_div 4 2) * Z.to_nat 2)%nat
    ∧ length (RemoteRam.memory examples.compacted0.1) = Z.to_nat (ceil_div 4 2)
    ∧ Forall (λ cell : block, length cell = Z.to_nat 2)
             (RemoteRam.memory examples.compacted0.1).
Proof.
  apply (compaction_packs examples.entropy0 examples.hmac0
           (HashTable.X examples.unbuilt0.1) examples.compacted0.1 4 2 4
           examples.world0 examples.compacted0.2 compaction_input0_wf).
  vm_compute. reflexivity.
Defined.

(** ** [compaction] on an input that fits in half a block *)

Section small_input.

Import tagging compacting.

Variable entropy : nat → Z.
Variable hmac_sha256 : Z → val → Z.

Lemma tag_step_returns (self : HashTable.t) (j : nat) (cell : block) (x : elem)
    (w : world) :
  1 ≤ HashTable.C self →
  cell !! j = Some x → x ≠ [] →
  ∃ key w1,
    HashTable.tag_step entropy hmac_sha256 self (Z.of_nat j) cell w
    = Val (<[j := x ++ [VInt key]]> cell, w1).
Proof.
  intros HC Hx Hne. pose proof (lookup_lt_Some _ _ _ Hx) as Hlt.
  unfold HashTable.tag_step.
  destruct (py_index_in_range cell (Z.of_nat j) ltac:(lia)) as (x' & Hidx & Hx').
  rewrite Nat2Z.id, Hx in Hx'. injection Hx' as <-.
  unfold bind at 1. rewrite Hidx, lift_val.
  destruct x as [|k0 x]; [done|].
  unfold bind at 1. change (py_index (k0 :: x) 0) with (Val k0). rewrite lift_val.
  unfold bind at 1. unfold HashTable.bin_of.
  destruct (val_eqb k0 DUMMY_ADDR).
  - unfold randint. destruct (Z.ltb_spec (HashTable.C self - 1) 0) as [|_]; [lia|].
    rewrite py_set_in_range by lia. rewrite Nat2Z.id, lift_val. by eexists _, _.
  - unfold ret. rewrite py_set_in_range by lia. rewrite Nat2Z.id, lift_val.
    by eexists _, _.
Qed.

Lemma tag_loop_returns (self : HashTable.t) (len : nat) :
  ∀ (j : nat) (cell : block) (w : world),
  1 ≤ HashTable.C self →
  (j + len ≤ length cell)%nat →
  Forall (λ x : elem, x ≠ []) cell →
  ∃ cell' w',
    for_each (seqZ (Z.of_nat j) (Z.of_nat len))
      (HashTable.tag_step entropy hmac_sha256 self) cell w = Val (cell', w').
Proof.
  induction len as [|len IH]; intros j cell w HC Hlen Hcell.
  - by eexists _, _.
  - rewrite seqZ_cons by lia.
    replace (Z.pred (Z.of_nat (S len))) with (Z.of_nat len) by lia.
    replace (Z.succ (Z.of_nat j)) with (Z.of_nat (S j)) by lia.
    cbn [for_each].
    destruct (lookup_lt_is_Some_2 cell j ltac:(lia)) as [x Hx].
    assert (Hne : x ≠ []).
    { apply (Forall_lookup_1 _ _ _ _ Hcell Hx). }
    destruct (tag_step_returns self j cell x w HC Hx Hne) as (key & w1 & Hstep).
    unfold bind at 1. rewrite Hstep.
    apply IH; [done|rewrite length_insert; lia|].
    apply Forall_insert; [done|]. by destruct x.
Qed.

(** X19. An input of [n >= 1] elements with [2 n <= B] gives a single
    bin ([C = 1]); [compaction], which has no special case for it, then
    always fails: the second half of the first block is written to cell
    1 of an intermediate array of one cell, and [write_memory_cell]
    raises its exception. *)
Theorem compaction_small_input_raises (X : RemoteRam.t) (n B n_0 : Z) (w : world) :
  wf_input (as_table X n B 0) →
  1 ≤ n → 2 * n ≤ B →
  compaction.compaction entropy hmac_sha256 X n B n_0 w = Exc InvalidIndex.
Proof.
  intros Hwf Hn Hsmall.
  pose proof Hwf as (HB & Heven & _ & _ & HlenX & _).
  destruct (input_cell _ Hwf 0) as (cell & Hcell & Hlen & Hpairs).
  { cbn [as_table HashTable.n HashTable.B] in *.
    pose proof (ceil_div_pos n B HB ltac:(lia)). lia. }
  clear Hwf. cbn [as_table HashTable.n HashTable.B HashTable.X] in *.
  assert (HC : choose_C n B = 1).
  { unfold choose_C. apply next_power_of_two_le_1. apply ceil_div_le; lia. }
  assert (Hsize : ceil_div n B = 1) by (apply single_bin_size; lia).
  unfold compaction.compaction.
  destruct (Z.eqb_spec B 0) as [|_]; [lia|].
  unfold bind at 1. unfold token_bytes at 1. cbv zeta. rewrite HC, Hsize.
  set (sk := entropy (rng w)). set (w0 := mkWorld _ _ _ _ _ _).
  assert (Hstep : compaction.split_step entropy hmac_sha256 sk 1 B 0
                    (X, RemoteRam.new B 1 None false) w0 = Exc InvalidIndex).
  { change (compaction.split_step entropy hmac_sha256 sk 1 B)
      with (HashTable.build_step entropy hmac_sha256
              (HashTable.mk false X n B 1 sk false None)).
    unfold HashTable.build_step. cbv zeta.
    cbn [HashTable.B fst snd].
    destruct (read_memory_cell_ok X 0 w0 ltac:(rewrite Hsize in HlenX; lia))
      as (cell0 & Hcell0 & Hread).
    change (Z.to_nat 0) with 0%nat in Hcell0, Hcell. rewrite Hcell in Hcell0.
    injection Hcell0 as <-.
    unfold bind at 1. rewrite Hread.
    destruct (tag_loop_returns (HashTable.mk false X n B 1 sk false None)
                (Z.to_nat B) 0 cell
                (mkWorld (read_operations w0 + (if RemoteRam.local X then 0 else 1))
                   (write_operations w0) (counter_read_operations w0)
                   (counter_write_operations w0) (rng w0) (probes w0)))
      as (cell' & w1 & Htag).
    { cbn [HashTable.C]. lia. }
    { lia. }
    { eapply Forall_impl; [exact Hpairs|]. intros x Hx ->. discriminate. }
    unfold range. rewrite (seqZ_to_nat 0 B).
    unfold bind at 1. change (Z.of_nat 0) with 0 in Htag. rewrite Htag.
    unfold bind at 1. rewrite py_set_in_range by (rewrite Hsize in HlenX; lia).
    rewrite lift_val.
    unfold bind at 1. rewrite write_memory_cell_ok
      by (cbn [RemoteRam.new RemoteRam.memory]; unfold py_repeat;
          rewrite length_replicate; lia).
    unfold bind at 1. unfold RemoteRam.write_memory_cell.
    cbn [RemoteRam.memory RemoteRam.new]. rewrite length_insert.
    change (Z.of_nat (length (py_repeat (py_repeat DUMMY B) 1))) with 1.
    reflexivity. }
  change (range 1) with [0]. cbn [for_each].
  unfold bind at 1. unfold bind at 1. rewrite Hstep. reflexivity.
Qed.

End small_input.

Lemma compaction_small_input_raises_witness :
  compaction.compaction examples.entropy0 examples.hmac0
    (RemoteRam.new 4 1 (Some [[[VInt 0; VStr "a"]; [VInt 1; VStr "b"]; DUMMY; DUMMY]])
       false)
    2 4 4 examples.world0
  = Exc InvalidIndex.
Proof.
  apply compaction_small_input_raises; [|lia|lia].
  unfold tagging.wf_input.
  cbn [compacting.as_table HashTable.B HashTable.n HashTable.C HashTable.X].
  split; [lia|]. split; [reflexivity|]. split; [lia|].
  split; [reflexivity|]. split; [vm_compute; discriminate|].
  vm_compute. repeat constructor.
Defined.
(** ** Sorting a block by the position recorded in its elements *)

Section sorting.

Import extracting.

Lemma key_le_spec (a b : Z * Z) :
  HashTable.key_le a b = true ↔ a.1 < b.1 ∨ (a.1 = b.1 ∧ a.2 ≤ b.2).
Proof.
  unfold HashTable.key_le.
  rewrite orb_true_iff, andb_true_iff, Z.ltb_lt, Z.eqb_eq, Z.leb_le. done.
Qed.

Lemma key_le_total (a b : Z * Z) :
  HashTable.key_le a b = false → HashTable.key_le b a = true.
Proof.
  intros H. apply key_le_spec. apply not_true_iff_false in H.
  rewrite key_le_spec in H. lia.
Qed.

Lemma key_le_trans (a b c : Z * Z) :
  HashTable.key_le a b = true → HashTable.key_le b c = true →
  HashTable.key_le a c = true.
Proof. rewrite !key_le_spec. lia. Qed.

Lemma key_le_antisym (a b : Z * Z) :
  HashTable.key_le a b = true → HashTable.key_le b a = true → a = b.
Proof.
  rewrite !key_le_spec. destruct a, b. simpl. intros ? ?. f_equal; lia.
Qed.

Lemma sort_insert_perm (kx : Z * Z) (x : elem) (l : list ((Z * Z) * elem)) :
  HashTable.sort_insert kx x l ≡ₚ (kx, x) :: l.
Proof.
  induction l as [|[ky y] l IH]; [done|]. simpl.
  destruct (HashTable.key_le kx ky); [done|]. rewrite IH. apply perm_swap.
Qed.

Lemma sort_keyed_perm (l : list ((Z * Z) * elem)) : HashTable.sort_keyed l ≡ₚ l.
Proof.
  induction l as [|[kx x] l IH]; [done|]. simpl. by rewrite sort_insert_perm, IH.
Qed.

Lemma sort_insert_sorted (kx : Z * Z) (x : elem) (l : list ((Z * Z) * elem)) :
  sorted l → sorted (HashTable.sort_insert kx x l).
Proof.
  induction l as [|[ky y] l IH]; intros Hl; [by split|].
  destruct Hl as [Hall Hl]. simpl.
  destruct (HashTable.key_le kx ky) eqn:Hle.
  - split; [|by split]. constructor; [done|].
    eapply Forall_impl; [exact Hall|]. intros b Hb. simpl in *.
    by eapply key_le_trans.
  - split; [|by apply IH].
    rewrite sort_insert_perm. constructor; [|done]. simpl. by apply key_le_total.
Qed.

Lemma sort_keyed_sorted (l : list ((Z * Z) * elem)) : sorted (HashTable.sort_keyed l).
Proof.
  induction l as [|[kx x] l IH]; [done|]. simpl. by apply sort_insert_sorted.
Qed.

Lemma sorted_app (l1 l2 : list ((Z * Z) * elem)) :
  sorted l1 → sorted l2 →
  (∀ a b, a ∈ l1 → b ∈ l2 → HashTable.key_le a.1 b.1 = true) →
  sorted (l1 ++ l2).
Proof.
  induction l1 as [|a l1 IH]; intros H1 H2 H12; [done|].
  destruct H1 as [Hall H1]. simpl. split.
  - apply Forall_app. split; [done|]. apply Forall_forall. intros b Hb.
    apply H12; [left|done].
  - apply IH; [done|done|]. intros a' b Ha' Hb. apply H12; [by right|done].
Qed.

(** Two sorted lists with the same elements are equal, when no two
    distinct elements share a key. *)
Lemma sorted_unique (l : list ((Z * Z) * elem)) :
  ∀ t, sorted l → sorted t → l ≡ₚ t →
       (∀ a b, a ∈ t → b ∈ t → a.1 = b.1 → a = b) →
       l = t.
Proof.
  induction l as [|a l IH]; intros t Hl Ht Hperm Hinj.
  - by apply Permutation_nil in Hperm.
  - destruct t as [|b t]; [by apply Permutation_nil_r in Hperm|].
    destruct Hl as [Hla Hl]. destruct Ht as [Htb Ht].
    assert (Ha : a ∈ b :: t) by (rewrite <- Hperm; left).
    assert (Hb : b ∈ a :: l) by (rewrite Hperm; left).
    assert (Hab : a = b).
    { apply elem_of_cons in Ha as [->|Ha]; [done|].
      apply elem_of_cons in Hb as [->|Hb]; [done|].
      apply Hinj; [by right|left|].
      apply key_le_antisym.
      - exact (proj1 (Forall_forall _ _) Hla b Hb).
      - exact (proj1 (Forall_forall _ _) Htb a Ha). }
    subst b. f_equal. apply IH; [done|done|by eapply Permutation_cons_inv|].
    intros x y Hx Hy. apply Hinj; by right.
Qed.

Lemma with_keys_keyed (l : block) :
  Forall (λ x, ∃ k, HashTable.sort_key x = Val k) l →
  HashTable.with_keys l = Val (keyed l).
Proof.
  induction 1 as [|x l [k Hk] _ IH]; [done|]. simpl.
  rewrite Hk, IH. simpl. unfold key_of_elem. by rewrite Hk.
Qed.

(** [sort] on a block whose sorted arrangement is known. *)
Lemma sort_block_eq (l t : block) :
  l ≡ₚ t →
  Forall (λ x, ∃ k, HashTable.sort_key x = Val k) t →
  sorted (keyed t) →
  (∀ x y, x ∈ t → y ∈ t → key_of_elem x = key_of_elem y → x = y) →
  HashTable.sort_block l = Val t.
Proof.
  intros Hperm Hkeys Hsorted Hinj. unfold HashTable.sort_block.
  rewrite with_keys_keyed by (by rewrite Hperm). simpl. f_equal.
  rewrite (sorted_unique (HashTable.sort_keyed (keyed l)) (keyed t)).
  - unfold keyed. rewrite <- list_fmap_compose. apply list_fmap_id.
  - apply sort_keyed_sorted.
  - done.
  - rewrite sort_keyed_perm. unfold keyed. by rewrite Hperm.
  - intros a b Ha Hb Heq. unfold keyed in Ha, Hb.
    apply list_elem_of_fmap in Ha as (x & -> & Hx).
    apply list_elem_of_fmap in Hb as (y & -> & Hy).
    simpl in Heq. by rewrite (Hinj x y Hx Hy Heq).
Qed.

End sorting.
(** ** The elements of a built table, on their way back *)

Lemma reals_related (ys es : block) :
  Forall2 (λ y e, routing.is_real y = routing.is_real e ∧ (routing.is_real e → y = e))
          ys es →
  keys.reals ys = keys.reals es.
Proof.
  induction 1 as [|y e ys es [Hr He] _ IH]; [done|]. unfold keys.reals in *.
  destruct (routing.is_real e) eqn:Hreal.
  - rewrite (He I). rewrite !filter_cons_True by (by apply Is_true_true). by rewrite IH.
  - rewrite !filter_cons_False by (apply Is_true_false; congruence). done.
Qed.

Lemma reals_dummies (n : nat) : keys.reals (replicate n DUMMY) = [].
Proof.
  induction n as [|n IH]; [done|]. simpl. unfold keys.reals in *.
  rewrite filter_cons_False by (intros H; exact H). exact IH.
Qed.

Lemma filter_all {T : Type} (P : T → Prop) `{∀ x, Decision (P x)} (l : list T) :
  Forall P l → filter P l = l.
Proof.
  induction 1 as [|x l Hx _ IH]; [done|]. by rewrite filter_cons_True, IH.
Qed.

Lemma filter_none {T : Type} (P : T → Prop) `{∀ x, Decision (P x)} (l : list T) :
  Forall (λ x, ¬ P x) l → filter P l = [].
Proof.
  induction 1 as [|x l Hx _ IH]; [done|]. by rewrite filter_cons_False.
Qed.

Lemma filter_concat_pick {T : Type} (P : T → Prop) `{∀ x, Decision (P x)}
    (f : Z → list T) (p : Z) (cs : list Z) :
  NoDup cs →
  (∀ c x, c ∈ cs → x ∈ f c → (P x ↔ c = p)) →
  filter P (concat (f <$> cs)) = if decide (p ∈ cs) then f p else [].
Proof.
  induction cs as [|c cs IH]; intros Hnd Hf.
  - simpl. destruct (decide (p ∈ [])) as [Hn|]; [by apply elem_of_nil in Hn|done].
  - apply NoDup_cons in Hnd as [Hc Hnd]. cbn [fmap list_fmap concat].
    rewrite filter_app, IH; [|done|intros c' x Hc' Hx; apply Hf; [by right|done]].
    destruct (decide (c = p)) as [->|Hne].
    + destruct (decide (p ∈ cs)) as [|_]; [done|].
      destruct (decide (p ∈ p :: cs)) as [_|Hn]; [|by destruct Hn; left].
      rewrite app_nil_r. apply filter_all. apply Forall_forall. intros x Hx.
      apply (Hf p x); [left|done|done].
    + rewrite filter_none.
      * simpl. destruct (decide (p ∈ cs)) as [Hin|Hnin];
          destruct (decide (p ∈ c :: cs)) as [Hin'|Hnin']; try done.
        -- destruct Hnin'. by right.
        -- apply elem_of_cons in Hin' as [->|?]; done.
      * apply Forall_forall. intros x Hx HP. apply Hne.
        apply (Hf c x); [left|done|done].
Qed.

Section way_back.

Import routing tagging built_array keys extracting.

Variable hmac_sha256 : Z → val → Z.
Variable self : HashTable.t.
Hypothesis Hwf : wf_input self.

Let size_of_X : Z := ceil_div (HashTable.n self) (HashTable.B self).
Let Xmem : list block := RemoteRam.memory (HashTable.X self).
Let C : Z := HashTable.C self.
Let B : Z := HashTable.B self.
Let h : nat := Z.to_nat (B / 2).

(** A pair with its three tags. *)
Lemma tag_real_facts (c : Z) (idx : nat) (x : elem) :
  length x = 2%nat →
  is_real (tag_real hmac_sha256 self c idx x) = is_real x
  ∧ dest 3 (tag_real hmac_sha256 self c idx x) = c
  ∧ HashTable.sort_key (tag_real hmac_sha256 self c idx x) = Val (0, Z.of_nat idx)
  ∧ HashTable.unmask (tag_real hmac_sha256 self c idx x) = Val x
  ∧ pair_of (tag_real hmac_sha256 self c idx x) = x.
Proof.
  intros Hx. destruct x as [|k0 [|v [|? ?]]]; try discriminate. done.
Qed.

Lemma half_length (c : Z) : 0 ≤ c < 2 * size_of_X → length (half_of self Xmem c) = h.
Proof.
  intros Hc. unfold half_of.
  assert (Hi2 : 0 ≤ c / 2 < size_of_X).
  { split; [apply Z.div_pos; lia|apply Z.div_lt_upper_bound; lia]. }
  destruct (input_cell self Hwf (c / 2) Hi2) as (cell & Hcell & Hlc & _).
  fold Xmem in Hcell. unfold level.cell_of. rewrite Hcell. simpl.
  destruct Hwf as (HB & Heven & _). fold B in HB, Heven, Hlc. unfold h.
  destruct (Z.odd c); unfold py_drop, py_take;
    rewrite ?length_drop, ?length_take; fold B; lia.
Qed.

(** The elements of [tagged]. *)
Lemma tagged_elem (c : Z) (y : elem) :
  0 ≤ c < 2 * size_of_X →
  y ∈ tagged hmac_sha256 self c →
  ∃ idx x, half_of self Xmem c !! idx = Some x
           ∧ length x = 2%nat ∧ is_real x
           ∧ y = tag_real hmac_sha256 self c idx x.
Proof.
  intros Hc Hy. unfold tagged, reals, expected_cell in Hy. fold Xmem in Hy.
  apply list_elem_of_filter in Hy as [Hreal Hy].
  apply elem_of_lookup_imap in Hy as (idx & x & -> & Hx).
  destruct (half_of_pairs self Hwf c idx x Hc Hx) as (Hlx & _).
  exists idx, x. split; [done|]. split; [done|]. split; [|done].
  by rewrite (proj1 (tag_real_facts c idx x Hlx)) in Hreal.
Qed.

Lemma tagged_length (c : Z) :
  0 ≤ c < 2 * size_of_X → (length (tagged hmac_sha256 self c) ≤ h)%nat.
Proof.
  intros Hc. unfold tagged, reals, expected_cell. fold Xmem.
  etrans; [apply length_filter|]. rewrite length_imap, half_length by done. done.
Qed.

(** Without their tags, the elements of [tagged] are the real elements
    of the half. *)
Lemma tagged_pairs (c : Z) :
  0 ≤ c < 2 * size_of_X →
  pair_of <$> tagged hmac_sha256 self c = reals (half_of self Xmem c).
Proof.
  intros Hc. unfold tagged, expected_cell. fold Xmem.
  change (pair_of <$> reals ?l) with (compacting.pairs l).
  apply pairs_related. apply Forall2_same_length_lookup_2; [by rewrite length_imap|].
  intros idx y x Hy Hx. rewrite list_lookup_imap, Hx in Hy. injection Hy as <-.
  destruct (half_of_pairs self Hwf c idx x Hc Hx) as (Hlx & _).
  destruct (tag_real_facts c idx x Hlx) as (Hr & _ & _ & _ & Hp). done.
Qed.

Variable st : RemoteRam.t * RemoteRam.t.
Hypothesis Hinv : build_inv hmac_sha256 self size_of_X st.

(** The real elements of the cells of the intermediate array. *)
Lemma array_reals_cell (c : Z) :
  0 ≤ c < C →
  reals (level.cell_of (RemoteRam.memory st.2) c)
  = if decide (c < 2 * size_of_X) then tagged hmac_sha256 self c else [].
Proof.
  intros Hc. destruct Hinv as (_ & _ & _ & _ & Hdone & Htodo).
  destruct (decide (c < 2 * size_of_X)) as [Hlow|Hhigh].
  - destruct (Hdone c ltac:(lia)) as (Hlen & Hhalf & Hdum).
    set (cell' := level.cell_of (RemoteRam.memory st.2) c) in *.
    pose proof (half_length c ltac:(lia)) as Hlh.
    destruct Hwf as (HB & Heven & _). fold B in HB, Heven, Hlen, Hdum.
    rewrite <- (take_drop h cell'). unfold reals at 1. rewrite filter_app.
    fold (reals (take h cell')) (reals (drop h cell')).
    assert (Hd : drop h cell' = replicate (Z.to_nat B - h) DUMMY).
    { apply list_eq_same_length with (Z.to_nat B - h)%nat.
      - by rewrite length_replicate.
      - rewrite length_drop. lia.
      - intros i x y Hi Hx Hy. rewrite lookup_drop in Hx.
        rewrite Hdum in Hx by (unfold h in *; lia).
        apply lookup_replicate in Hy as [-> _]. congruence. }
    rewrite Hd, reals_dummies, app_nil_r.
    unfold tagged, expected_cell. fold Xmem.
    apply reals_related. apply Forall2_same_length_lookup_2.
    + rewrite length_take, length_imap. lia.
    + intros idx y e Hy He. rewrite list_lookup_imap in He.
      destruct (half_of self Xmem c !! idx) as [x|] eqn:Hx; [|done].
      injection He as <-.
      pose proof (lookup_lt_Some _ _ _ Hx) as Hidx.
      rewrite lookup_take_lt in Hy by lia.
      destruct (Hhalf idx x Hx) as (key & Hy' & Hkey).
      rewrite Hy in Hy'. injection Hy' as ->.
      destruct (half_of_pairs self Hwf c idx x ltac:(lia) Hx) as (Hlx & _).
      destruct (tag_real_facts c idx x Hlx) as (Hr & _).
      split.
      * rewrite Hr. destruct x as [|k0 [|v [|? ?]]]; try discriminate. done.
      * intros Hreal. rewrite Hr in Hreal. unfold tag_real.
        by rewrite (Hkey Hreal).
  - rewrite Htodo by (fold C; lia). unfold py_repeat. apply reals_dummies.
Qed.

(** The real elements of the intermediate array that carry [p] as the
    cell they were written to are those of cell [p]. *)
Lemma array_reals_pick (p : Z) :
  0 ≤ p < 2 * size_of_X →
  filter (λ x, dest 3 x `mod` C = p) (reals_of (RemoteRam.memory st.2))
  = tagged hmac_sha256 self p.
Proof.
  intros Hp. destruct Hinv as (Hb & _ & _ & Hlen & _). fold C in Hb, Hlen.
  assert (HC : 2 * size_of_X ≤ C) by lia.
  unfold reals_of. rewrite reals_concat, (memory_cells (RemoteRam.memory st.2)), Hlen.
  rewrite <- list_fmap_compose.
  rewrite (filter_concat_pick _ _ p (seqZ 0 C)); [| apply NoDup_seqZ |].
  - rewrite decide_True by (apply elem_of_seqZ; lia).
    unfold compose. rewrite array_reals_cell by lia. by rewrite decide_True by lia.
  - intros c x Hc Hx. apply elem_of_seqZ in Hc. unfold compose in Hx.
    rewrite array_reals_cell in Hx by lia.
    destruct (decide (c < 2 * size_of_X)) as [Hlow|]; [|by apply elem_of_nil in Hx].
    apply (tagged_elem c x ltac:(lia)) in Hx as (idx & x0 & _ & Hlx & _ & ->).
    destruct (tag_real_facts c idx x0 Hlx) as (_ & -> & _).
    rewrite Z.mod_small by lia. done.
Qed.

End way_back.
(** ** The cells that [ht_extract] reads and the blocks it writes *)

Section routed_shape.

Import routing level levels keys.

(** After at least one level every cell is its real elements followed by
    dummies. *)
Lemma routed_cell_shape (A : list block) (n B key_index p : Z) :
  let C := choose_C n B in
  let k := Z.log2 C in
  0 ≤ B → 1 ≤ k → 0 ≤ p < C →
  let cell := cell_of (after C B k key_index (Z.to_nat k) A) p in
  cell = reals cell ++ replicate (Z.to_nat B - length (reals cell)) DUMMY.
Proof.
  intros C k HB Hk Hp cell.
  assert (HC : C = 2 ^ k) by apply choose_C_pow2.
  unfold cell. clearbody k. clearbody C. subst C.
  replace (Z.to_nat k) with (S (Z.to_nat (k - 1))) by lia.
  cbn [after]. rewrite cell_of_next by done. unfold out_cell.
  set (H := half _ _ _ _ _ _).
  assert (Hreal : Forall (λ x, is_real x) H).
  { apply Forall_forall. intros x Hx. unfold H, half in Hx.
    apply list_elem_of_filter in Hx as [Hg _]. by eapply goes_real. }
  rewrite (reals_pad B H Hreal). unfold pad, py_repeat. f_equal. f_equal. lia.
Qed.

End routed_shape.

Section sorted_tags.

Import routing tagging keys extracting.

Variable hmac_sha256 : Z → val → Z.
Variable self : HashTable.t.

Lemma sorted_imap (c : Z) (l : block) :
  ∀ o : nat,
  Forall (λ x : elem, length x = 2%nat) l →
  sorted (keyed (filter (λ x, is_real x)
                   (imap (λ i x, tag_real hmac_sha256 self c (o + i) x) l))).
Proof.
  induction l as [|x l IH]; intros o Hl; [done|].
  apply Forall_cons in Hl as [Hx Hl]. rewrite imap_cons.
  rewrite (imap_ext _ (λ i x, tag_real hmac_sha256 self c (S o + i) x))
    by (intros i y _; unfold compose; f_equal; lia).
  specialize (IH (S o) Hl).
  destruct (decide (is_real (tag_real hmac_sha256 self c (o + 0) x))) as [Hr|Hr].
  - rewrite filter_cons_True by done. cbn [keyed fmap list_fmap].
    split; [|exact IH]. apply Forall_forall. intros b Hb.
    apply list_elem_of_fmap in Hb as (y & -> & Hy).
    apply list_elem_of_filter in Hy as [_ Hy].
    apply elem_of_lookup_imap in Hy as (i & y0 & -> & Hy0).
    assert (Hly : length y0 = 2%nat) by exact (Forall_lookup_1 _ _ _ _ Hl Hy0).
    unfold key_of_elem. simpl.
    destruct x as [|k0 [|v [|? ?]]]; try discriminate.
    destruct y0 as [|k1 [|v1 [|? ?]]]; try discriminate.
    simpl. apply key_le_spec. simpl. lia.
  - rewrite filter_cons_False by done. exact IH.
Qed.

End sorted_tags.
Section extract_facts.

Import routing level levels tagging built_array keys extracting.

Variable hmac_sha256 : Z → val → Z.
Variable self : HashTable.t.
Hypothesis Hwf : wf_input self.

Let n : Z := HashTable.n self.
Let B : Z := HashTable.B self.
Let C : Z := HashTable.C self.
Let k : Z := Z.log2 C.
Let size_of_X : Z := ceil_div n B.
Let Xmem : list block := RemoteRam.memory (HashTable.X self).
Let h : nat := Z.to_nat (B / 2).

Hypothesis HC1 : 1 < C.

Variable st : RemoteRam.t * RemoteRam.t.
Hypothesis Hinv : build_inv hmac_sha256 self size_of_X st.

(** The table: the intermediate array after its levels; and the table
    after the levels of the extraction. *)
Let T : list block := after C B k 2 (Z.to_nat k) (RemoteRam.memory st.2).
Let Y : list block := after C B k 3 (Z.to_nat k) T.

Hypothesis Hfits2 : fits_upto C B k 2 (Z.to_nat k) (RemoteRam.memory st.2) = true.
Hypothesis Hfits3 : fits_upto C B k 3 (Z.to_nat k) T = true.

Lemma table_C_chosen : C = choose_C n B.
Proof. by destruct Hwf as (_ & _ & _ & HCc & _). Qed.

Lemma table_B_pos : 0 < B.
Proof. by destruct Hwf as (HB & _). Qed.

Lemma table_k_pos : 1 ≤ k.
Proof.
  unfold k. assert (Z.log2 2 ≤ Z.log2 C) by (apply Z.log2_le_mono; lia).
  change (Z.log2 2) with 1 in *. lia.
Qed.

Lemma table_C_pow2 : C = 2 ^ k.
Proof. unfold k. rewrite table_C_chosen. apply choose_C_pow2. Qed.

(** The table can be routed by the cell recorded in its elements. *)
Lemma table_wf3 : wf_memory C B 3 T.
Proof.
  pose proof table_B_pos as HB. pose proof table_C_chosen as HCc.
  pose proof (array_wf hmac_sha256 self Hwf st Hinv 2 ltac:(lia)) as Hwf2.
  pose proof (array_wf hmac_sha256 self Hwf st Hinv 3 ltac:(lia)) as Hwf3.
  fold C B in Hwf2, Hwf3.
  assert (HwfT : wf_memory C B 2 T).
  { pose proof table_k_pos as Hk. pose proof Hfits2 as Hf2.
    unfold T. rewrite table_C_pow2 in Hwf2, Hf2 |- *.
    apply (levels_spec k B 2 ltac:(lia) ltac:(lia) _ (Z.to_nat k) Hwf2); [lia|done]. }
  destruct HwfT as [Hlen Hcells]. split; [done|].
  apply Forall_lookup. intros p cell Hcell.
  pose proof (lookup_lt_Some _ _ _ Hcell) as Hp.
  destruct (proj1 (Forall_lookup _ _) Hcells p cell Hcell) as [Hl _].
  split; [done|]. apply Forall_forall. intros y Hy.
  assert (Hy' : y ∈ cell_of T (Z.of_nat p)).
  { unfold cell_of. by rewrite Nat2Z.id, Hcell. }
  pose proof (packed_cell (RemoteRam.memory st.2) n B 2 (Z.of_nat p)) as Hpc.
  cbv zeta in Hpc. rewrite <- HCc in Hpc. fold k T in Hpc.
  destruct (Hpc ltac:(lia) ltac:(lia) Hwf2 Hfits2 ltac:(lia)) as [_ Hfrom].
  destruct (Hfrom y Hy') as [->|Hin]; [apply routable_DUMMY|].
  apply elem_of_concat in Hin as (cell0 & Hcell0 & Hy0).
  destruct Hwf3 as [_ Hall].
  destruct (proj1 (Forall_forall _ _) Hall cell0 Hcell0) as [_ Hr].
  exact (proj1 (Forall_forall _ _) Hr y Hy0).
Qed.

(** A cell read by the extraction: the tagged elements of a half of the
    input, in some order, then dummies. *)
Lemma Y_cell (p : Z) :
  0 ≤ p < 2 * size_of_X →
  ∃ R, cell_of Y p = R ++ replicate (Z.to_nat B - length R) DUMMY
       ∧ R ≡ₚ tagged hmac_sha256 self p.
Proof.
  intros Hp. pose proof table_B_pos as HB. pose proof table_C_chosen as HCc.
  pose proof table_k_pos as Hk.
  assert (HpC : 0 ≤ p < C).
  { destruct Hinv as (Hb & _). fold C in Hb. lia. }
  pose proof (array_wf hmac_sha256 self Hwf st Hinv 2 ltac:(lia)) as Hwf2.
  fold C B in Hwf2.
  exists (reals (cell_of Y p)). split.
  - pose proof (routed_cell_shape T n B 3 p) as Hs. cbv zeta in Hs.
    rewrite <- HCc in Hs. fold k Y in Hs. apply Hs; lia.
  - pose proof (packed_cell T n B 3 p) as Hpc.
    cbv zeta in Hpc. rewrite <- HCc in Hpc. fold k Y in Hpc.
    destruct (Hpc ltac:(lia) ltac:(lia) table_wf3 Hfits3 HpC) as [Hr _].
    rewrite Hr.
    pose proof (packed_reals (RemoteRam.memory st.2) n B 2) as Hcons.
    cbv zeta in Hcons. rewrite <- HCc in Hcons. fold k T in Hcons.
    specialize (Hcons ltac:(lia) ltac:(lia) Hwf2 Hfits2).
    rewrite <- (array_reals_pick hmac_sha256 self Hwf st Hinv p Hp). fold C.
    rewrite <- Hcons. unfold reals_of, reals. rewrite list_filter_filter.
    apply eq_subrelation; [apply _|]. apply list_filter_iff. intros x. tauto.
Qed.

(** The elements of a half with their tags, then dummies: sorted, and
    with distinct keys. *)
Lemma sort_cell (p : Z) :
  0 ≤ p < 2 * size_of_X →
  HashTable.sort_block (cell_of Y p)
  = Val (tagged hmac_sha256 self p
         ++ replicate (Z.to_nat B - length (tagged hmac_sha256 self p)) DUMMY).
Proof.
  intros Hp. destruct (Y_cell p Hp) as (R & -> & HR).
  set (t := tagged hmac_sha256 self p) in *.
  assert (Helem : ∀ y, y ∈ t →
            ∃ idx x, half_of self Xmem p !! idx = Some x ∧ length x = 2%nat
                     ∧ y = tag_real hmac_sha256 self p idx x).
  { intros y Hy. apply (tagged_elem hmac_sha256 self Hwf p y Hp) in Hy
      as (idx & x & Hx & Hlx & _ & ->). by exists idx, x. }
  apply sort_block_eq.
  - rewrite (Permutation_length HR). by apply Permutation_app.
  - apply Forall_app. split.
    + apply Forall_forall. intros y Hy.
      destruct (Helem y Hy) as (idx & x & _ & Hlx & ->).
      exists (0, Z.of_nat idx).
      by destruct (tag_real_facts hmac_sha256 self p idx x Hlx) as (_ & _ & -> & _).
    + apply Forall_replicate. by exists (1, 0).
  - unfold keyed. rewrite fmap_app. apply sorted_app.
    + unfold t, tagged, expected_cell, reals.
      pose proof (sorted_imap hmac_sha256 self p (half_of self Xmem p) 0) as Hs.
      simpl in Hs. apply Hs. apply Forall_lookup. intros idx x Hx.
      by destruct (half_of_pairs self Hwf p idx x Hp Hx) as (? & _).
    + rewrite fmap_replicate.
      generalize (Z.to_nat B - length t)%nat. intros m.
      induction m as [|m IH]; [done|]. simpl. split; [|done].
      by apply Forall_replicate.
    + intros a b Ha Hb.
      apply list_elem_of_fmap in Ha as (y & -> & Hy).
      apply list_elem_of_fmap in Hb as (d & -> & Hd).
      apply elem_of_replicate in Hd as [-> _].
      destruct (Helem y Hy) as (idx & x & _ & Hlx & ->).
      unfold key_of_elem. simpl.
      destruct (tag_real_facts hmac_sha256 self p idx x Hlx) as (_ & _ & -> & _).
      done.
  - intros x y Hx Hy Hkey.
    apply elem_of_app in Hx as [Hx|Hx]; apply elem_of_app in Hy as [Hy|Hy].
    + destruct (Helem x Hx) as (i & x0 & Hx0 & Hlx & ->).
      destruct (Helem y Hy) as (j & y0 & Hy0 & Hly & ->).
      unfold key_of_elem in Hkey.
      destruct (tag_real_facts hmac_sha256 self p i x0 Hlx) as (_ & _ & Hk1 & _).
      destruct (tag_real_facts hmac_sha256 self p j y0 Hly) as (_ & _ & Hk2 & _).
      rewrite Hk1, Hk2 in Hkey. injection Hkey as Hij.
      apply Nat2Z.inj in Hij as ->. rewrite Hx0 in Hy0. by injection Hy0 as ->.
    + destruct (Helem x Hx) as (i & x0 & Hx0 & Hlx & ->).
      apply elem_of_replicate in Hy as [-> _].
      unfold key_of_elem in Hkey.
      destruct (tag_real_facts hmac_sha256 self p i x0 Hlx) as (_ & _ & Hk1 & _).
      rewrite Hk1 in Hkey. discriminate.
    + destruct (Helem y Hy) as (i & x0 & Hx0 & Hlx & ->).
      apply elem_of_replicate in Hx as [-> _].
      unfold key_of_elem in Hkey.
      destruct (tag_real_facts hmac_sha256 self p i x0 Hlx) as (_ & _ & Hk1 & _).
      rewrite Hk1 in Hkey. discriminate.
    + apply elem_of_replicate in Hx as [-> _].
      by apply elem_of_replicate in Hy as [-> _].
Qed.

Lemma unmask_all_pairs (l : block) :
  Forall (λ y, HashTable.unmask y = Val (pair_of y)) l →
  HashTable.unmask_all l = Val (pair_of <$> l).
Proof.
  induction 1 as [|y l Hy _ IH]; [done|]. simpl. by rewrite Hy, IH.
Qed.

(** The half block rebuilt from a sorted cell. *)
Lemma half_block (p : Z) :
  0 ≤ p < 2 * size_of_X →
  HashTable.unmask_all
    (py_take (B / 2)
       (tagged hmac_sha256 self p
        ++ replicate (Z.to_nat B - length (tagged hmac_sha256 self p)) DUMMY))
  = Val (pad_half h (reals (half_of self Xmem p))).
Proof.
  intros Hp. pose proof (tagged_length hmac_sha256 self Hwf p Hp) as Hlt.
  fold B h in Hlt. pose proof (tagged_pairs hmac_sha256 self Hwf p Hp) as Hpairs.
  fold Xmem in Hpairs.
  set (t := tagged hmac_sha256 self p) in *.
  destruct Hwf as (HB & Heven & _). fold B in HB, Heven.
  unfold py_take. fold h. rewrite take_app_ge by done.
  rewrite take_replicate, Nat.min_l by lia.
  rewrite unmask_all_pairs.
  - assert (Hlen : length t = length (reals (half_of self Xmem p)))
      by (by rewrite <- Hpairs, length_fmap).
    rewrite fmap_app, fmap_replicate, Hpairs, Hlen. done.
  - apply Forall_app. split; [|by apply Forall_replicate].
    apply Forall_forall. intros y Hy.
    apply (tagged_elem hmac_sha256 self ltac:(done) p y Hp) in Hy
      as (idx & x & Hx & Hlx & _ & ->).
    destruct (tag_real_facts hmac_sha256 self p idx x Hlx) as (_ & _ & _ & -> & ->).
    done.
Qed.

End extract_facts.
(** ** Building a table and extracting it again *)

Lemma cell_of_take (A : list block) (m : nat) (i : Z) :
  0 ≤ i < Z.of_nat m → level.cell_of (take m A) i = level.cell_of A i.
Proof. intros Hi. unfold level.cell_of. by rewrite lookup_take_lt by lia. Qed.

Lemma reals_of_cells (A A' : list block) :
  length A = length A' →
  (∀ i, 0 ≤ i < Z.of_nat (length A) →
        keys.reals (level.cell_of A i) = keys.reals (level.cell_of A' i)) →
  keys.reals_of A = keys.reals_of A'.
Proof.
  intros Hlen Hcells. unfold keys.reals_of. rewrite !reals_concat.
  rewrite (memory_cells A), (memory_cells A'), <- !list_fmap_compose, <- Hlen.
  f_equal. apply list_fmap_ext. intros i c Hc.
  apply list_elem_of_lookup_2, elem_of_seqZ in Hc. unfold compose. apply Hcells. lia.
Qed.

Lemma reals_reals (l : block) : keys.reals (keys.reals l) = keys.reals l.
Proof.
  unfold keys.reals. apply filter_all. apply Forall_forall. intros x Hx.
  by apply list_elem_of_filter in Hx as [? _].
Qed.

Section round_trip.

Import routing level levels tagging built_array keys extracting.

Variable entropy : nat → Z.
Variable hmac_sha256 : Z → val → Z.
Variable self : HashTable.t.
Hypothesis Hwf : wf_input self.

Let n : Z := HashTable.n self.
Let B : Z := HashTable.B self.
Let C : Z := HashTable.C self.
Let k : Z := Z.log2 C.
Let size_of_X : Z := ceil_div n B.
Let Xmem : list block := RemoteRam.memory (HashTable.X self).
Let h : nat := Z.to_nat (B / 2).

(** The block written by an extraction holds the real elements of the
    cell of the input, in their order. *)
Lemma out_cell_spec (i : Z) :
  0 ≤ i < size_of_X →
  length (out_cell self i) = Z.to_nat B
  ∧ reals (out_cell self i) = reals (cell_of Xmem i).
Proof.
  intros Hi. unfold out_cell. fold Xmem B h.
  pose proof (half_length self Hwf (2 * i)
                ltac:(change (0 ≤ 2 * i < 2 * size_of_X); lia)) as Hl0.
  pose proof (half_length self Hwf (2 * i + 1)
                ltac:(change (0 ≤ 2 * i + 1 < 2 * size_of_X); lia)) as Hl1.
  fold Xmem B h in Hl0, Hl1.
  destruct (input_cell self Hwf i Hi) as (cell & Hcell & Hlen & _).
  fold Xmem B in Hcell, Hlen.
  pose proof Hwf as (HB & Heven & _). fold B in HB, Heven.
  assert (Hle : ∀ l : block, (length (reals l) ≤ length l)%nat)
    by (intros l; apply length_filter).
  split.
  - unfold pad_half. rewrite !length_app, !length_replicate.
    pose proof (Hle (half_of self Xmem (2 * i))).
    pose proof (Hle (half_of self Xmem (2 * i + 1))). unfold h in *. lia.
  - unfold pad_half. unfold reals at 1. rewrite !filter_app.
    fold (reals (replicate (h - length (reals (half_of self Xmem (2 * i)))) DUMMY)).
    fold (reals (replicate (h - length (reals (half_of self Xmem (2 * i + 1)))) DUMMY)).
    rewrite !reals_dummies, !app_nil_r.
    fold (reals (reals (half_of self Xmem (2 * i)))).
    fold (reals (reals (half_of self Xmem (2 * i + 1)))).
    rewrite !reals_reals. unfold reals. rewrite <- filter_app. f_equal.
    unfold half_of. rewrite half_even, half_odd.
    replace (Z.odd (2 * i)) with false
      by (symmetry; rewrite <- Z.negb_even, Z.even_mul; done).
    replace (Z.odd (2 * i + 1)) with true
      by (rewrite Z.add_comm, Z.odd_add_mul_2; done).
    unfold cell_of. rewrite Hcell. simpl. unfold py_take, py_drop. apply take_drop.
Qed.

Hypothesis HC1 : 1 < C.
Variable st : RemoteRam.t * RemoteRam.t.
Hypothesis Hinv : build_inv hmac_sha256 self size_of_X st.

Let T : list block := after C B k 2 (Z.to_nat k) (RemoteRam.memory st.2).
Let Y : list block := after C B k 3 (Z.to_nat k) T.

Hypothesis Hfits2 : fits_upto C B k 2 (Z.to_nat k) (RemoteRam.memory st.2) = true.
Hypothesis Hfits3 : fits_upto C B k 3 (Z.to_nat k) T = true.

(** The loop of the extraction. *)
Lemma extract_loop (s : HashTable.t) (Yr X0 X1 : RemoteRam.t) (w w' : world) :
  HashTable.B s = B →
  RemoteRam.memory Yr = Y →
  length (RemoteRam.memory X0) = Z.to_nat (C / 2) →
  for_each (range (C / 2)) (HashTable.extract_step s Yr) X0 w = Val (X1, w') →
  length (RemoteRam.memory X1) = Z.to_nat (C / 2)
  ∧ ∀ j, 0 ≤ j < size_of_X → cell_of (RemoteRam.memory X1) j = out_cell self j.
Proof.
  intros HBs HY Hlen0 H.
  assert (Hle : 2 * size_of_X ≤ C) by (destruct Hinv as (Hb & _); fold C in Hb; lia).
  assert (Hhalf : size_of_X ≤ C / 2) by (apply Z.div_le_lower_bound; lia).
  unfold range in H. rewrite seqZ_to_nat in H.
  pose proof (for_each_seq_inv
                (λ i (X' : RemoteRam.t),
                   length (RemoteRam.memory X') = Z.to_nat (C / 2)
                   ∧ ∀ j, 0 ≤ j < i → j < size_of_X →
                          cell_of (RemoteRam.memory X') j = out_cell self j)
                (HashTable.extract_step s Yr) (Z.to_nat (C / 2)) 0 X0 X1 w w') as Hloop.
  cbv beta in Hloop. destruct Hloop as [Hlen Hcells]; [| |exact H|].
  - intros i X' v X'' v' Hi [Hl Hc] Hstep. unfold HashTable.extract_step in Hstep.
    rewrite HBs in Hstep.
    mbind Hstep as y0 v1 Hr0. mbind Hstep as y1 v2 Hr1.
    mlift Hstep as s1 Hs1. mlift Hstep as s0 Hs0.
    mlift Hstep as f0 Hf0. mlift Hstep as f1 Hf1.
    apply read_memory_cell_inv in Hr0 as (_ & Hy0 & _).
    apply read_memory_cell_inv in Hr1 as (_ & Hy1 & _).
    apply write_memory_cell_inv in Hstep as (Hiw & -> & _).
    cbn [HashTable.set_memory RemoteRam.memory]. rewrite length_insert.
    split; [done|]. intros j Hj Hjs. rewrite cell_of_insert by lia.
    destruct (decide (j = i ∧ _)) as [[-> _]|Hne]; [|apply Hc; lia].
    rewrite HY in Hy0, Hy1.
    assert (Hc0 : cell_of Y (2 * i) = y0) by (unfold cell_of; by rewrite Hy0).
    assert (Hc1 : cell_of Y (2 * i + 1) = y1) by (unfold cell_of; by rewrite Hy1).
    pose proof (sort_cell hmac_sha256 self Hwf HC1 st Hinv Hfits2 Hfits3 (2 * i)
                  ltac:(change (0 ≤ 2 * i < 2 * size_of_X); lia)) as Hsort0.
    pose proof (sort_cell hmac_sha256 self Hwf HC1 st Hinv Hfits2 Hfits3 (2 * i + 1)
                  ltac:(change (0 ≤ 2 * i + 1 < 2 * size_of_X); lia)) as Hsort1.
    fold C B k T Y in Hsort0, Hsort1.
    rewrite Hc0, Hs0 in Hsort0. rewrite Hc1, Hs1 in Hsort1.
    injection Hsort0 as ->. injection Hsort1 as ->.
    pose proof (half_block hmac_sha256 self Hwf (2 * i)
                  ltac:(change (0 ≤ 2 * i < 2 * size_of_X); lia)) as Hb0.
    pose proof (half_block hmac_sha256 self Hwf (2 * i + 1)
                  ltac:(change (0 ≤ 2 * i + 1 < 2 * size_of_X); lia)) as Hb1.
    fold B in Hb0, Hb1. rewrite Hf0 in Hb0. rewrite Hf1 in Hb1.
    injection Hb0 as ->. injection Hb1 as ->. done.
  - split; [done|]. intros j Hj. lia.
  - split; [done|]. intros j Hj. apply Hcells; lia.
Qed.

End round_trip.

Section build_then_extract.

Import routing level levels tagging built_array keys extracting.

Variable entropy : nat → Z.
Variable hmac_sha256 : Z → val → Z.

(** X20. Build/extract round trip: a table built from [ceil(n / B)]
    cells of [B] pairs ([B] even, [n >= 1]) and extracted before any
    lookup gives back an array of [ceil(n / B)] cells of [B] elements
    whose cell [i] holds the real pairs of cell [i] of the input, in
    their order, and dummies; so the real pairs of the whole array are
    those of the input, in the same order. *)
Theorem build_then_extract (self self' self'' : HashTable.t) (r : RemoteRam.t)
    (w w' w1 w2 : world) :
  let size_of_X := ceil_div (HashTable.n self) (HashTable.B self) in
  wf_input self →
  1 ≤ HashTable.n self →
  HashTable.ht_build entropy hmac_sha256 self w = Val (self', w') →
  HashTable.ht_extract self' w1 = Val ((r, self''), w2) →
  length (RemoteRam.memory r) = Z.to_nat size_of_X
  ∧ (∀ i, 0 ≤ i < size_of_X →
       length (cell_of (RemoteRam.memory r) i) = Z.to_nat (HashTable.B self)
       ∧ reals (cell_of (RemoteRam.memory r) i)
         = reals (cell_of (RemoteRam.memory (HashTable.X self)) i))
  ∧ reals_of (RemoteRam.memory r) = reals (tagging.input self).
Proof.
  intros size_of_X Hwf Hn Hbuild Hext.
  pose proof Hwf as (HB & Heven & Hn0 & HCc & HlenX & Hcells).
  fold size_of_X in HlenX, Hcells.
  pose proof (ceil_div_pos (HashTable.n self) (HashTable.B self) HB ltac:(lia)) as Hspos.
  fold size_of_X in Hspos.
  cut (length (RemoteRam.memory r) = Z.to_nat size_of_X
       ∧ ∀ i, 0 ≤ i < size_of_X →
           length (cell_of (RemoteRam.memory r) i) = Z.to_nat (HashTable.B self)
           ∧ reals (cell_of (RemoteRam.memory r) i)
             = reals (cell_of (RemoteRam.memory (HashTable.X self)) i)).
  { intros [Hlen Hc]. split; [done|]. split; [done|].
    unfold tagging.input. fold size_of_X.
    change (reals (concat ?A)) with (reals_of A).
    apply reals_of_cells.
    - rewrite length_take. lia.
    - intros i Hi. rewrite Hlen in Hi. rewrite cell_of_take by lia.
      apply Hc. lia. }
  destruct (decide (1 < HashTable.C self)) as [HC|HC].
  - (* more than one bin *)
    destruct (ht_build_inv entropy hmac_sha256 self Hwf self' w w' HC Hbuild)
      as (st & packed & w0 & Hinv & Hle & Hpack & ->).
    fold size_of_X in Hinv, Hle.
    pose proof (array_wf hmac_sha256 self Hwf st Hinv 2 ltac:(clear; lia)) as Hwf2.
    rewrite HCc in Hwf2.
    destruct (bin_packing_result st.2 packed (HashTable.n self) (HashTable.B self) 2
                (HashTable.local self) w0 w' ltac:(clear - HB; lia) ltac:(clear; lia)
                Hwf2 Hpack)
      as (Hfits2 & Hmem2 & _).
    rewrite <- HCc in Hfits2, Hmem2.
    unfold HashTable.ht_extract in Hext.
    cbn [HashTable.is_built HashTable.C HashTable.B HashTable.n HashTable.local
         HashTable.table HashTable.the_table negb] in Hext.
    destruct (Z.eqb_spec (HashTable.C self) 1) as [|_]; [lia|].
    mlift Hext as tbl Htbl. injection Htbl as <-.
    mbind Hext as Yr w3 Hpack3. cbv zeta in Hext. mbind Hext as X1 w4 Hloop.
    apply ret_inv in Hext as [[= -> _] _].
    pose proof (table_wf3 hmac_sha256 self Hwf HC st Hinv Hfits2) as Hwf3.
    rewrite <- Hmem2 in Hwf3. rewrite HCc in Hwf3.
    destruct (bin_packing_result packed Yr (HashTable.n self) (HashTable.B self) 3
                (HashTable.local self) w1 w3 ltac:(clear - HB; lia) ltac:(clear; lia)
                Hwf3 Hpack3)
      as (Hfits3 & Hmem3 & _).
    rewrite <- HCc in Hfits3, Hmem3. rewrite Hmem2 in Hfits3, Hmem3.
    destruct (extract_loop hmac_sha256 self Hwf HC st Hinv Hfits2 Hfits3
                (HashTable.mk true st.1 (HashTable.n self) (HashTable.B self)
                   (HashTable.C self) (HashTable.secret_key self)
                   (HashTable.local self) (Some packed))
                Yr (RemoteRam.new (HashTable.B self) (HashTable.C self / 2) None
                      (HashTable.local self))
                X1 w3 w4 eq_refl Hmem3) as [Hlen1 Hcells1]; [|exact Hloop|].
    { cbn [RemoteRam.new RemoteRam.memory]. unfold py_repeat.
      by rewrite length_replicate. }
    fold size_of_X in Hcells1.
    assert (Hhalf : size_of_X ≤ HashTable.C self / 2)
      by (apply Z.div_le_lower_bound; lia).
    cbn [RemoteRam.memory]. unfold py_take. split.
    + rewrite length_take. lia.
    + intros i Hi. rewrite cell_of_take by lia. rewrite Hcells1 by done.
      apply (out_cell_spec self Hwf i). exact Hi.
  - (* a single bin: the table is the input itself *)
    assert (HC1 : HashTable.C self = 1).
    { pose proof (choose_C_pos (HashTable.n self) (HashTable.B self)). lia. }
    assert (Hs1 : size_of_X = 1).
    { apply single_bin_size; [done|done|lia]. }
    unfold HashTable.ht_build in Hbuild. rewrite HC1 in Hbuild.
    cbn [Z.gtb Z.compare] in Hbuild. apply ret_inv in Hbuild as [-> _].
    unfold HashTable.ht_extract in Hext.
    cbn [HashTable.is_built HashTable.C HashTable.table HashTable.the_table negb
         Z.eqb] in Hext.
    mlift Hext as tbl Htbl. injection Htbl as <-.
    mlift Hext as cell Hcell. apply ret_inv in Hext as [[= -> _] _].
    apply py_index_inv in Hcell; [|lia]. change (Z.to_nat 0) with 0%nat in Hcell.
    cbn [HashTable.set_memory RemoteRam.memory]. rewrite Hs1.
    split; [done|]. intros i Hi. assert (i = 0) as -> by lia.
    unfold cell_of. change (Z.to_nat 0) with 0%nat. rewrite Hcell. simpl.
    rewrite Hs1 in Hcells.
    destruct (proj1 (Forall_lookup _ _) Hcells 0%nat cell) as [Hlc Hpairs].
    { rewrite lookup_take_lt by (simpl; lia). done. }
    assert (Hid : HashTable.unmask_single <$> cell = cell).
    { clear Hlc Hcell. induction Hpairs as [|x l Hx _ IH]; [done|].
      rewrite fmap_cons. f_equal; [|exact IH]. by destruct x as [|? [|? [|? ?]]]. }
    rewrite Hid. done.
Qed.

End build_then_extract.

Lemma build_then_extract_witness :
  length (RemoteRam.memory examples.extracted0.1.1) = Z.to_nat (ceil_div 4 2)
  ∧ (∀ i, 0 ≤ i < ceil_div 4 2 →
       length (level.cell_of (RemoteRam.memory examples.extracted0.1.1) i) = Z.to_nat 2
       ∧ keys.reals (level.cell_of (RemoteRam.memory examples.extracted0.1.1) i)
         = keys.reals (level.cell_of
                         (RemoteRam.memory (HashTable.X examples.unbuilt0.1)) i))
  ∧ keys.reals_of (RemoteRam.memory examples.extracted0.1.1)
    = keys.reals (tagging.input examples.unbuilt0.1).
Proof.
  apply (build_then_extract examples.entropy0 examples.hmac0 examples.unbuilt0.1
           examples.built0.1 examples.extracted0.1.2 examples.extracted0.1.1
           examples.unbuilt0.2 examples.built0.2 examples.built0.2
           examples.extracted0.2 unbuilt0_wf);
    [simpl; lia|vm_compute; reflexivity|vm_compute; reflexivity].
Defined.
(** ** Reading back what the last access stored *)

Section read_back.

Import hierarchy.

Variable entropy : nat → Z.
Variable hmac_sha256 : Z → val → Z.

(** A probe leaves alone the table of a level whose load factor is 0. *)
Lemma probe_step_keeps (addr : val) (i : Z) (p : nat)
    (st st' : MegaBlocksORAM.probe_state) (w w' : world) :
  0 ≤ i →
  MegaBlocksORAM.load_factors (MegaBlocksORAM.p_self st) !! p = Some 0 →
  MegaBlocksORAM.probe_step entropy hmac_sha256 addr i st w = Val (st', w') →
  MegaBlocksORAM.tables (MegaBlocksORAM.p_self st') !! p
  = MegaBlocksORAM.tables (MegaBlocksORAM.p_self st) !! p.
Proof.
  intros Hi Hp H. unfold MegaBlocksORAM.probe_step in H.
  mlift H as lf Hlf. apply py_index_inv in Hlf; [|done].
  destruct (Z.gtb_spec lf 0) as [Hpos|Hzero].
  - assert (Hne : Z.to_nat i ≠ p) by (intros <-; rewrite Hp in Hlf; injection Hlf; lia).
    rewrite andb_true_r in H.
    destruct (MegaBlocksORAM.p_found st) eqn:Hf; cbn [negb] in H.
    + mlift H as tbl Htbl. mbind H as r w1 Hlook.
      mlift H as ts Hts. apply py_set_inv in Hts as [-> Hlt]; [|done].
      apply ret_inv in H as [-> ->]. simpl.
      by rewrite list_lookup_insert_ne by done.
    + mlift H as tbl Htbl. mbind H as r w1 Hlook.
      mlift H as ts Hts. apply py_set_inv in Hts as [-> Hlt]; [|done].
      destruct (negb (elem_eqb _ _)); apply ret_inv in H as [-> ->]; simpl;
        by rewrite list_lookup_insert_ne by done.
  - rewrite andb_false_r in H. by apply ret_inv in H as [-> ->].
Qed.

Lemma probe_loop_keeps (addr : val) (p : nat) (xs : list Z) :
  ∀ (st st' : MegaBlocksORAM.probe_state) (w w' : world),
  Forall (λ i, 0 ≤ i) xs →
  MegaBlocksORAM.load_factors (MegaBlocksORAM.p_self st) !! p = Some 0 →
  for_each xs (MegaBlocksORAM.probe_step entropy hmac_sha256 addr) st w = Val (st', w') →
  MegaBlocksORAM.tables (MegaBlocksORAM.p_self st') !! p
  = MegaBlocksORAM.tables (MegaBlocksORAM.p_self st) !! p.
Proof.
  induction xs as [|i xs IH]; intros st st' w w' Hxs Hp H.
  - by apply ret_inv in H as [-> _].
  - cbn [for_each] in H. mbind H as st1 w1 Hstep.
    apply Forall_cons in Hxs as [Hi Hxs].
    pose proof (probe_step_keeps _ _ _ _ _ _ _ Hi Hp Hstep) as Ht.
    apply probe_step_frame in Hstep as Hframe; [|done].
    destruct Hframe as (_ & _ & _ & _ & _ & Hlf & _).
    rewrite <- Ht. apply (IH st1 st' w1 w' Hxs); [by rewrite Hlf|exact H].
Qed.

(** Once an element is found the probe loop keeps it. *)
Lemma probe_loop_found (addr : val) (xs : list Z) :
  ∀ (st st' : MegaBlocksORAM.probe_state) (w w' : world),
  MegaBlocksORAM.p_found st = true →
  for_each xs (MegaBlocksORAM.probe_step entropy hmac_sha256 addr) st w = Val (st', w') →
  MegaBlocksORAM.p_found st' = true
  ∧ MegaBlocksORAM.p_data_star st' = MegaBlocksORAM.p_data_star st.
Proof.
  induction xs as [|i xs IH]; intros st st' w w' Hf H.
  - by apply ret_inv in H as [-> _].
  - cbn [for_each] in H. mbind H as st1 w1 Hstep.
    assert (Hst1 : MegaBlocksORAM.p_found st1 = true
                   ∧ MegaBlocksORAM.p_data_star st1 = MegaBlocksORAM.p_data_star st).
    { unfold MegaBlocksORAM.probe_step in Hstep. mlift Hstep as lf Hlf.
      rewrite Hf in Hstep. cbn [negb andb] in Hstep.
      destruct (lf >? 0).
      - mlift Hstep as tbl Htbl. mbind Hstep as r w2 Hlook.
        mlift Hstep as ts Hts. by apply ret_inv in Hstep as [-> _].
      - by apply ret_inv in Hstep as [-> _]. }
    destruct Hst1 as [Hf1 Hd1]. destruct (IH _ _ _ _ Hf1 H) as [Hf' Hd'].
    split; [done|congruence].
Qed.

End read_back.


Section read_after_access.

Import hierarchy.

Variable entropy : nat → Z.
Variable hmac_sha256 : Z → val → Z.

(** An access on a state whose level 0 is empty stores its element in a
    table of one bin at level 0. *)
Lemma access_fills_level_0 (self s1 : MegaBlocksORAM.t) (t0 : HashTable.t)
    (op : operation) (addr data v1 : val) (w w1 : world) :
  2 ≤ MegaBlocksORAM.B self →
  2 ≤ MegaBlocksORAM.q self →
  1 ≤ MegaBlocksORAM.amount_of_levels self →
  MegaBlocksORAM.load_factors self !! 0%nat = Some 0 →
  MegaBlocksORAM.tables self !! 0%nat = Some t0 →
  HashTable.is_built t0 = false →
  MegaBlocksORAM.access entropy hmac_sha256 self op addr data w = Val ((v1, s1), w1) →
  ∃ tbl X,
    MegaBlocksORAM.tables s1 !! 0%nat = Some tbl
    ∧ MegaBlocksORAM.load_factors s1 !! 0%nat = Some 1
    ∧ MegaBlocksORAM.amount_of_levels s1 = MegaBlocksORAM.amount_of_levels self
    ∧ HashTable.B tbl = MegaBlocksORAM.B self
    ∧ HashTable.C tbl = 1
    ∧ HashTable.table tbl = Some X
    ∧ RemoteRam.memory X
      = [[addr; match op with
                | READ_OPERATION => v1
                | WRITE_OPERATION => data
                end] :: py_repeat DUMMY (MegaBlocksORAM.B self - 1)].
Proof.
  intros HB Hq HL Hlf0 Ht0 Hnb H.
  destruct (access_value _ _ _ _ _ _ _ _ _ _ H) as (st0 & w0 & Hprobe0 & _ & Hv1).
  unfold MegaBlocksORAM.access in H. mbind H as st w2 Hprobe.
  rewrite Hprobe0 in Hprobe. injection Hprobe as <- <-.
  assert (Hrange : Forall (λ i, 0 ≤ i) (range (MegaBlocksORAM.amount_of_levels self + 1))).
  { apply Forall_forall. intros i Hi. unfold range in Hi. apply elem_of_seqZ in Hi. lia. }
  pose proof (probe_loop_frame _ _ _ _ _ _ _ _ Hprobe0) as Hframe.
  pose proof (probe_loop_keeps entropy hmac_sha256 addr 0 _
                (MegaBlocksORAM.mkProbe self false (VTuple DUMMY)) st0 w w0
                Hrange Hlf0 Hprobe0) as Hkeep.
  cbn [MegaBlocksORAM.p_self] in Hframe, Hkeep.
  destruct Hframe as (_ & HBf & Hqf & HLf & _ & Hlff & _).
  set (self1 := MegaBlocksORAM.p_self st0) in *.
  rewrite Ht0 in Hkeep.
  assert (Hj : MegaBlocksORAM.find_ht_index self1 = 0).
  { unfold MegaBlocksORAM.find_ht_index. rewrite Hlff, Hqf.
    destruct (MegaBlocksORAM.load_factors self) as [|x lfs]; [done|].
    injection Hlf0 as ->. cbn [MegaBlocksORAM.find_first_below].
    destruct (Z.ltb_spec 0 (MegaBlocksORAM.q self - 1)); [done|lia]. }
  cbv zeta in H. rewrite Hj, HLf in H.
  destruct (Z.ltb_spec 0 (MegaBlocksORAM.amount_of_levels self)) as [_|]; [|lia].
  change (range (0 + 1)) with [0] in H. cbn [for_each] in H.
  mbind H as st1 w3 Hg. mbind Hg as st1' w3' Hg0. apply ret_inv in Hg as [-> ->].
  unfold MegaBlocksORAM.gather_step in Hg0. cbn [fst snd] in Hg0.
  mlift Hg0 as tb Htb.
  apply py_index_inv in Htb; [|done]. change (Z.to_nat 0) with 0%nat in Htb.
  rewrite Hkeep in Htb. injection Htb as <-. rewrite Hnb in Hg0.
  apply ret_inv in Hg0 as [Heq _]. subst st1'. cbn [fst snd] in H.
  mlift H as lf_j Hlfj. apply py_index_inv in Hlfj; [|done].
  change (Z.to_nat 0) with 0%nat in Hlfj. rewrite Hlff, Hlf0 in Hlfj.
  injection Hlfj as <-.
  mlift H as lf Hlf. apply py_set_inv in Hlf as [-> Hlflen]; [|done].
  change (Z.to_nat 0) with 0%nat in *.
  mlift H as size Hsize. unfold MegaBlocksORAM.calc_ht_size in Hsize.
  cbn [Z.eqb MegaBlocksORAM.load_factors MegaBlocksORAM.set_load_factors] in Hsize.
  apply py_index_inv in Hsize; [|done]. change (Z.to_nat 0) with 0%nat in Hsize.
  rewrite list_lookup_insert_eq in Hsize by lia. injection Hsize as <-.
  mbind H as tbl w4 Hnew. unfold HashTable.new in Hnew.
  cbn [MegaBlocksORAM.B MegaBlocksORAM.set_load_factors] in Hnew. rewrite HBf in Hnew.
  destruct (Z.eqb_spec (MegaBlocksORAM.B self) 0) as [|_]; [lia|].
  cbv zeta in Hnew. mbind Hnew as sk w5 Hsk. apply ret_inv in Hnew as [Heq ->].
  subst tbl.
  assert (HC : choose_C (0 + 1) (MegaBlocksORAM.B self) = 1).
  { unfold choose_C. apply next_power_of_two_le_1. apply ceil_div_le; lia. }
  rewrite HC in H.
  mlift H as ts Hts. apply py_set_inv in Hts as [-> Htslen]; [|done].
  change (Z.to_nat 0) with 0%nat in *.
  mbind H as built w6 Hbuild. unfold HashTable.ht_build in Hbuild.
  cbn [HashTable.C Z.gtb Z.compare] in Hbuild. apply ret_inv in Hbuild as [Heq ->].
  subst built.
  mlift H as ts' Hts'. apply py_set_inv in Hts' as [-> Htslen']; [|done].
  change (Z.to_nat 0) with 0%nat in *.
  mlift H as self' Hreset. unfold MegaBlocksORAM.reset_tables in Hreset.
  change (range2 0 0) with (@nil Z) in Hreset. injection Hreset as <-.
  apply ret_inv in H as [[= Hv Hs1] _]. subst s1.
  cbn [MegaBlocksORAM.tables MegaBlocksORAM.set_tables MegaBlocksORAM.set_load_factors
       MegaBlocksORAM.load_factors MegaBlocksORAM.amount_of_levels
       MegaBlocksORAM.B HashTable.X HashTable.B HashTable.C HashTable.table] in *.
  eexists _, _. split; [apply list_lookup_insert_eq; by rewrite length_insert|].
  split; [apply list_lookup_insert_eq; lia|].
  split; [done|]. cbn [HashTable.B HashTable.C HashTable.table].
  split; [done|]. split; [done|]. split; [reflexivity|].
  cbn [HashTable.set_local RemoteRam.memory RemoteRam.new].
  destruct op; rewrite <- ?Hv1; done.
Qed.

End read_after_access.


Section read_after_access_thm.

Variable entropy : nat → Z.
Variable hmac_sha256 : Z → val → Z.

(** X21. On a state whose level 0 is empty (load factor 0 and table not
    built, as the constructor and every access that rebuilds a higher
    level leave it), with [B >= 2], [q >= 2] and at least two levels: when
    an access to [addr] returns and the next access reads [addr] and
    returns, that read returns the tuple [(addr, data)] after a write of
    [data], and the tuple [(addr, v)] after a read that returned [v].  A
    read stores back the whole value it returned: reading an address
    twice returns a nested tuple the second time, and [(addr, 0)] for an
    address that was not stored. *)
Theorem read_after_access (self s1 s2 : MegaBlocksORAM.t) (t0 : HashTable.t)
    (op : operation) (addr data data' v1 v2 : val) (w w1 w1' w2 : world) :
  2 ≤ MegaBlocksORAM.B self →
  2 ≤ MegaBlocksORAM.q self →
  1 ≤ MegaBlocksORAM.amount_of_levels self →
  MegaBlocksORAM.load_factors self !! 0%nat = Some 0 →
  MegaBlocksORAM.tables self !! 0%nat = Some t0 →
  HashTable.is_built t0 = false →
  addr ≠ DUMMY_ADDR →
  MegaBlocksORAM.access entropy hmac_sha256 self op addr data w = Val ((v1, s1), w1) →
  MegaBlocksORAM.access entropy hmac_sha256 s1 READ_OPERATION addr data' w1'
  = Val ((v2, s2), w2) →
  v2 = VTuple [addr; match op with
                     | READ_OPERATION => v1
                     | WRITE_OPERATION => data
                     end].
Proof.
  intros HB Hq HL Hlf0 Ht0 Hnb Haddr H1 H2.
  destruct (access_fills_level_0 entropy hmac_sha256 self s1 t0 op addr data v1 w w1
              HB Hq HL Hlf0 Ht0 Hnb H1)
    as (tbl & X & Ht & Hlf & HL1 & HBt & HCt & Htab & Hmem).
  set (x := match op with READ_OPERATION => v1 | WRITE_OPERATION => data end) in *.
  destruct (access_value _ _ _ _ _ _ _ _ _ _ H2) as (st & w3 & Hprobe & _ & ->).
  clear H1 H2. unfold range in Hprobe. rewrite HL1 in Hprobe.
  rewrite seqZ_cons in Hprobe by lia. cbn [for_each] in Hprobe.
  mbind Hprobe as st1 w4 Hstep.
  assert (Hk : val_eqb addr DUMMY_ADDR = false) by (by apply val_eqb_neq).
  assert (Hst1 : MegaBlocksORAM.p_found st1 = true
                 ∧ MegaBlocksORAM.p_data_star st1 = VTuple [addr; x]).
  { unfold MegaBlocksORAM.probe_step in Hstep.
    cbn [MegaBlocksORAM.p_self MegaBlocksORAM.p_found negb] in Hstep.
    mlift Hstep as lf Hlfi. apply py_index_inv in Hlfi; [|done].
    change (Z.to_nat 0) with 0%nat in Hlfi. rewrite Hlf in Hlfi. injection Hlfi as <-.
    cbn [Z.gtb Z.compare andb] in Hstep.
    mlift Hstep as tb Htb. apply py_index_inv in Htb; [|done].
    change (Z.to_nat 0) with 0%nat in Htb. rewrite Ht in Htb. injection Htb as <-.
    mbind Hstep as r w5 Hlook. mlift Hstep as ts Hts.
    assert (Hr : r.1 = [addr; x]).
    { rewrite ht_lookup_unfold in Hlook. unfold HashTable.bin_of in Hlook.
      rewrite Hk, HCt in Hlook. unfold ret in Hlook. rewrite Z.mod_1_r, Htab in Hlook.
      unfold packing.cell_at in Hlook. rewrite Hmem in Hlook. cbn [length] in Hlook.
      change ((0 >? Z.of_nat 1 - 1) || (0 <? 0)) with false in Hlook.
      change (py_index [?c] 0) with (Val c) in Hlook.
      cbn [negb] in Hlook. rewrite HBt in Hlook.
      replace (Z.to_nat (MegaBlocksORAM.B self))
        with (S (Z.to_nat (MegaBlocksORAM.B self - 1))) in Hlook by lia.
      cbn [HashTable.lookup_scan] in Hlook.
      change (py_index [addr; x] 0) with (Val addr) in Hlook.
      cbn [res_bind] in Hlook. rewrite val_eqb_refl in Hlook.
      change (py_index [addr; x] 1) with (Val x) in Hlook.
      cbn [res_bind] in Hlook. by injection Hlook as <- _. }
    rewrite Hr in Hstep.
    assert (Hnd : elem_eqb [addr; x] DUMMY = false) by (simpl; by rewrite Hk).
    rewrite Hnd in Hstep. cbn [negb] in Hstep.
    apply ret_inv in Hstep as [Heq _]. by subst st1. }
  destruct Hst1 as [Hf1 Hd1].
  destruct (probe_loop_found entropy hmac_sha256 addr _ _ _ _ _ Hf1 Hprobe) as [Hf Hd].
  rewrite Hf, Hd, Hd1. done.
Qed.

End read_after_access_thm.

Lemma read_after_access_witness :
  examples.oram3.1 = VTuple [VInt 3; VStr "x"].
Proof.
  assert (Ht0 : ∃ t0, MegaBlocksORAM.tables examples.oram0.1 !! 0%nat = Some t0
                      ∧ HashTable.is_built t0 = false).
  { eexists. split; reflexivity. }
  destruct Ht0 as (t0 & Ht0 & Hnb).
  apply (read_after_access examples.entropy0 examples.hmac0
           examples.oram0.1 examples.oram1.2.1 examples.oram3.2.1 t0
           WRITE_OPERATION (VInt 3) (VStr "x") (VStr "") examples.oram1.1 examples.oram3.1
           examples.oram0.2 examples.oram1.2.2 examples.oram1.2.2 examples.oram3.2.2);
    [vm_compute; discriminate|vm_compute; discriminate|vm_compute; discriminate
    |reflexivity|exact Ht0|exact Hnb|discriminate
    |vm_compute; reflexivity|vm_compute; reflexivity].
Defined.
